(* ===== verification/_CoqProject ===== *)
-Q . S2P
Prelude.v
Text.v
Utf8.v
Errors.v
Ast.v
Exprs.v
ExprWalk.v
SqliteNames.v
Names.v
SqliteEval.v
DataTypes.v
SessionVariable.v
Operands.v
Uuid.v
MinorUnits.v
Vector.v
Transactions.v
Calendar.v
Rounding.v
TemporalLiterals.v
Interval.v
Timezone.v
DateParts.v
ColumnValues.v
Rls.v
Enforcement.v
Backing.v
Effects.v
Placement.v
Replay.v
Script.v
Namespace.v
Epochs.v
Placeholder.v
Copy.v
