(* ===== verification/Prelude.v ===== *)
(** * pg2sqlite: a verification development

    pg2sqlite translates PostgreSQL schemas, queries and migration batches to
    SQLite, and SQLite queries back.  A batch of statements is parsed, cut into
    schema epochs, translated statement by statement, placed in the main file, in
    an attached file or in the connection's TEMP schema, and assembled into a
    [Script]: setup statements, an [InitializationPlan] with a form per kind of
    fresh file, and a connection program that rebuilds the connection-local
    objects.  A table with row level security becomes a backing table under a view
    and triggers, a typed value the form its column is stored in, a [COPY] payload
    an [INSERT].  This library models the decisions of that pipeline and the
    computations its rewrites rest on, and proves them right against independent
    descriptions: PostgreSQL's stack of subtransactions, its rule for policies, its
    readers and printers of values, SQLite's schema and its evaluation of what is
    emitted, the calendar, the grammar each printed text is read back with.

    ** Parts

    Shared:
    - [Prelude] (this file): [result] for [Result], loops, 128-bit integers.
    - [Text], [Utf8]: the operations of [str] and [char] the code uses.
    - [Errors]: [src/src/errors.rs] and the errors of [script.rs] and
      [initialization.rs], with their display texts.
    - [Ast], [Exprs]: the statements and the expressions of the syntax library
      sqlparser, as far as the code matches on them, with
      [impls/function_helpers.rs].
    - [ExprWalk]: the walks of [impls/expr_helpers.rs] and the library's visitors.
    - [Names]: [impls/object_name.rs].
    - [SqliteNames]: [impls/sqlite_functions.rs], the inventories of functions.
    - [SqliteEval]: SQLite's evaluation of the expressions the code emits, and how it
      reads a printed expression again.

    Typed columns and their values:
    - [DataTypes]: [translator_impls/data_type.rs], with the bounds [column.rs] puts on
      a column.
    - [Uuid]: [translator_impls/uuid.rs].
    - [MinorUnits], [ColumnValues]: the conversions of [impls/shared_helpers.rs]
      between a PostgreSQL value and what its column stores.
    - [Vector]: [translator_impls/vector.rs], a vector column and its vec0 table.
    - [Copy]: [translator_impls/copy.rs].

    Row level security:
    - [SessionVariable]: [impls/session_variable.rs], the identity policies read.
    - [Operands]: [impls/replay.rs] and [impls/bind_once.rs], operands written more
      than once.
    - [Rls]: [translator_impls/rls.rs], what is generated; [Enforcement]: PostgreSQL's
      rule and what the generated predicates answer; [Backing]: a machine that runs
      the view and the triggers over the backing table.

    Literals and formats, called by the expression translators:
    - [Calendar], [Rounding], [TemporalLiterals]: [impls/temporal_literals.rs].
    - [Interval]: [impls/interval.rs].
    - [Timezone]: [impls/timezone.rs].
    - [DateParts]: [impls/datetime_helpers.rs].
    - [Placeholder]: [impls/placeholder.rs].

    The pipeline, in the order it runs:
    - [Transactions]: [Blocks] is [impls/transaction_blocks.rs], which refuses a
      batch; [History] is [history/transactions.rs], whose outline says which
      statements the batch commits; [Server] is PostgreSQL's machine.
    - [Epochs]: the loop of [prepare_schema] in [pg2sqlite.rs], the schema a
      reference binds against, and the refusal of a renamed secured table.
    - [Effects]: [history/effects.rs], what each committed statement does to the
      connection-local objects.
    - [Placement]: [history/placement.rs], the home of every name, with the
      placement types of [manifest.rs] and [options.rs].
    - [Replay]: [history/mod.rs].  [connection_program] takes the outline of
      [History], the effects of [Effects] and the placement of [Placement], keeps
      the units the live objects need, and replays them; [fresh_forms] replays the
      batch once per kind of fresh file.
    - [Script]: [script.rs] and [initialization.rs], which store these forms and
      select among them.
    - [Namespace]: [impls/emitted_namespace.rs], the last check of the emitted
      statements; [Sqlite] is SQLite's schema, a namespace per database.

    A Rust method is the definition of its name, with the receiver as an argument
    named [self] and returned where the code mutates it.  A [Result] is a [result],
    an early return the match that ends there, a loop with a carried state a fold or
    a fixpoint over what it iterates.  A map keyed by name is a [gmap].  A position
    into a vector, such as [ObjectId], is the index.  Text is the list of its
    Unicode scalar values.

    ** What the theorems show

    - Row level security: an insertion, an update, a deletion and a reading through
      the view do what [enforced_rule] says of the answers of the translated
      predicates ([insertion_enforced], [update_enforced], [deletion_enforced],
      [view_shows_granted]).  That is PostgreSQL's rule, but where a table has
      permissive policies and none has a predicate for the clause
      ([policies_combine]); a guard judges the row as it will be stored
      ([guard_judges_stored_row]).
    - Session variables and operands: a pairing comes back as the reading it records;
      what may be repeated answers alike, and binding once changes no answer.
    - Columns: the bounds of a column are those of its declared type, the exceptions
      listed ([declared_bounds_exact]); a literal is stored as the value PostgreSQL
      reads in it, for decimals, UUIDs, truth values, bytes and bits; an assignment
      converts as an insertion does; the vec0 table mirrors the rows.
    - Copy: what PostgreSQL exports is loaded as the rows it was written from; every
      [COPY] is answered.
    - Transactions: the outline answers, statement by statement, what the server's
      stack leaves of the batch ([outline_refines_server]); a batch [analyse]
      accepts runs on the server ([analyse_accepts_what_runs]).
    - Effects: the catalogue invariant, the reads as the closure through views, and
      the mark of a write that reaches the file through triggers, exactly
      ([catalog_invariant], [reads_closure], [write_persistent_exact]).
    - Placement: the loop over the views ends and closes them under what they read;
      a view that stays permanent names main alone; placing is idempotent; foreign
      keys stay on one side; which selections run a unit.
    - Replay: [connection_program] always answers, refuses a kept unit that writes
      the file, and replays what is kept; the kept set is the least closed one; the
      replay brackets the units of one transaction; what a fresh file does not own
      is connection-local.
    - Script and Epochs: which forms a selection runs, the exactness of its
      iterator, the order of [map]; the epochs cover the batch and a reference binds
      against the schema in force.
    - Namespace: a script the walk accepts never lands on a taken name, wherever its
      objects are placed, and one it refuses has a name twice ([walk_refines_sqlite]).
    - Calendar and literals: the conversions of days are mutually inverse and count
      days; the binary64 rounding is bounded; accepted dates are exactly the calendar's
      days; normal forms are fixed points; a stored timestamp names the instant that
      was written, in UTC, and stored texts compare as the instants.
    - Interval: printed text reads back; every literal is answered; the modifiers
      denote PostgreSQL's steps and keep their order.
    - DateParts and Timezone: the templates of the two directions, the start of a
      quarter and of a span of years by evaluation of the emitted expression, and
      the agreement of both directions on zones.
    - Placeholder: PostgreSQL numbers are SQLite's bind indexes, by place in the
      text; a round trip changes nothing.
    - Names: a quoted identifier reads back; which names are normalised; the
      inventories of functions are searched rightly and agree with each other.

    ** Fuel

    Recursion that is not structural takes a fuel, and a lemma shows the fuel its
    caller gives is enough, so that every such function is total where it is used:
    one more than the objects of the catalogue for [retire] and [read_names], as no
    object is dropped or entered twice; one more than four times them for [write],
    as a trigger fires once per kind of row event; one more than the views for
    [close_views] and than the units for [retention_loop], as every pass but the
    last moves one; the length of the text for [template_loop] and one more for
    [iso_loop] and [text_record], and the length of the payload for [rows_from],
    which consume a character a step; the length of the table for [search_loop], which
    narrows it each step; one more than the statements for [epoch_loop]; the
    statements that remain for [drain]; the binary length of the number for [dec].

    ** Parameters

    The libraries the sources call are arguments, and no behaviour of theirs is
    assumed beyond what a statement names: the printing and comparison of names and
    the catalogue of sql_traits ([Names.Library], [Placement.Nodes],
    [Namespace.Starting]), the visitors that list the relations of a statement
    (the variables of [Effects]), the schema ingestor ([Epochs], [Replay.Replayer]),
    the parser, the lookup of a declared column type ([Timezone]), the parser of a
    recorded type ([SessionVariable]), the two Unicode tables of [str]
    ([Text.Unicode]).  The tree of a placeholder rewrite is the list of its values in
    the order a visitor meets them.

    Three parts of the program itself are arguments too, and nothing is assumed of
    them: the translation of one statement and the rebinding of its names
    ([Replay.Replayer]), the translation of the [INSERT] of a [COPY], and, in [Rls],
    the translator of expressions and the rewriting of subqueries, whose results the
    theorems evaluate.

    Arithmetic the code leaves unchecked wraps, as it does in a build without
    overflow checks; a theorem that needs the exact result says where it holds.

    ** Not modelled

    The translators of expressions, functions, queries and statements, PL/pgSQL and
    trigger generation, and their counterparts of the reverse direction rewrite one
    sqlparser tree into another.  The rebinding of replayed statements, the relation
    scopes and the quoting of reserved identifiers are visitors over the same trees.
    The option builders, the column descriptions of the manifest, and the loading of
    files and git histories are left out as well: they are data, accessors or input
    and output.  Of an expression, some kinds of node stand under one constructor
    ([ExprWalk]), and a call keeps its name and its arguments ([Rls]). *)

From stdpp Require Export prelude strings gmap sets list.
From Stdlib Require Export ZArith Lia.

#[global] Open Scope Z_scope.
#[export] Set Warnings "-clear-no-such-hyp,-register-all".

(** ** Results: the code's [Result<T, Error>] *)

Inductive result (E A : Type) : Type :=
| Ok (a : A)
| Err (e : E).
Arguments Ok {E A} _.
Arguments Err {E A} _.

#[global] Instance result_ret E : MRet (result E) := fun _ a => Ok a.
#[global] Instance result_bind E : MBind (result E) := fun _ _ f r =>
  match r with Ok a => f a | Err e => Err e end.
#[global] Instance result_fmap E : FMap (result E) := fun _ _ f r =>
  match r with Ok a => Ok (f a) | Err e => Err e end.

#[global] Instance result_eq_dec `{EqDecision E, EqDecision A} : EqDecision (result E A).
Proof. solve_decision. Defined.

(** [option::ok_or]. *)
Definition ok_or {E A} (o : option A) (e : E) : result E A :=
  match o with Some a => Ok a | None => Err e end.

(** [Option::is_some]. *)
Definition is_some {A} (o : option A) : bool := match o with Some _ => true | None => false end.

Definition is_ok {E A} (r : result E A) : bool :=
  match r with Ok _ => true | Err _ => false end.

(** [Result::map_err]. *)
Definition map_err {E F A} (f : E → F) (r : result E A) : result F A :=
  match r with Ok a => Ok a | Err e => Err (f e) end.

Section ResultLemmas.
Context {E A B : Type}.
Implicit Types (r : result E A).

Lemma bind_Ok (f : A → result E B) r b :
    r ≫= f = Ok b ↔ ∃ a, r = Ok a ∧ f a = Ok b.
Proof.
    destruct r as [a|e]; cbn; split.
    - intros H; eauto.
    - intros (a' & [= ->] & H); exact H.
    - intros H; discriminate H.
    - intros (a' & H & _); discriminate H.
  Qed.

Lemma bind_Err (f : A → result E B) r e :
    r ≫= f = Err e ↔ r = Err e ∨ ∃ a, r = Ok a ∧ f a = Err e.
Proof.
    destruct r as [a|e']; cbn; split.
    - intros H; right; eauto.
    - intros [H|(a' & [= ->] & H)]; [discriminate H | exact H].
    - intros [= ->]; left; reflexivity.
    - intros [[= ->]|(a' & H & _)]; [reflexivity | discriminate H].
  Qed.

Lemma ok_or_Ok (o : option A) (e : E) a : ok_or o e = Ok a ↔ o = Some a.
Proof. destruct o; cbn; naive_solver. Qed.
End ResultLemmas.

(** ** Loops *)

(** A loop whose body may return early with an error. *)
Fixpoint try_fold {E A B} (f : B → A → result E B) (b : B) (l : list A) : result E B :=
  match l with [] => Ok b | x :: l => b ← f b x; try_fold f b l end.

(** An invariant of a loop that walks a list. *)
Lemma foldl_inv {A B} (P : B → Prop) (f : B → A → B) (l : list A) (b : B) :
  P b → (∀ b x, x ∈ l → P b → P (f b x)) → P (foldl f b l).
Proof.
  revert b. induction l as [|x l IH]; intros b Hb Hf; [done|]. cbn. apply IH.
  - apply Hf; [apply list_elem_of_here | done].
  - intros b' y Hy. apply Hf. by apply list_elem_of_further.
Qed.

(** A loop whose every step makes the transition [I] and establishes [Q] of the
    element it visits, which later transitions keep. *)
Lemma foldl_steps {A B} (I : B → B → Prop) (Q : A → B → Prop) (f : B → A → B) (l : list A) (b : B) :
  (∀ b, I b b) → (∀ b1 b2 b3, I b1 b2 → I b2 b3 → I b1 b3) →
  (∀ x b1 b2, I b1 b2 → Q x b1 → Q x b2) →
  (∀ b' x, x ∈ l → I b b' → I b' (f b' x) ∧ Q x (f b' x)) →
  I b (foldl f b l) ∧ ∀ x, x ∈ l → Q x (foldl f b l).
Proof.
  intros Hr Ht Hm. revert b. induction l as [|x l IH]; intros b Hf; cbn [foldl].
  { split; [done|]. by intros x ?%elem_of_nil. }
  destruct (Hf b x) as [Hi Hq]; [apply list_elem_of_here|done|].
  destruct (IH (f b x)) as [Hi' Hq'].
  - intros b' y Hy Hb'. apply Hf; [by apply list_elem_of_further|]. by eapply Ht.
  - split; [by eapply Ht|]. intros y [->|Hy]%elem_of_cons; [by eapply Hm|by apply Hq'].
Qed.

(** A duplicate-free list of positions below [n] has at most [n] of them. *)
Lemma NoDup_bounded_length (l : list nat) (n : nat) :
  NoDup l → Forall (λ x, x < n)%nat l → (length l <= n)%nat.
Proof.
  intros Hn Hb. rewrite <- (length_seq n 0). apply submseteq_length, NoDup_submseteq; [done|].
  rewrite Forall_forall in Hb. intros x Hx%Hb. apply elem_of_seq. lia.
Qed.

(** ** Machine integers *)

(** The signed 128-bit range, in which interval counts are computed. *)
Definition i128_min : Z := -170141183460469231731687303715884105728.
Definition i128_max : Z := 170141183460469231731687303715884105727.
Definition u32_max : Z := 4294967295.

Definition in_i128 (z : Z) : bool := (i128_min <=? z) && (z <=? i128_max).

(** [i128::checked_add], [checked_sub], [checked_mul]: the exact result, or
    [None] outside the range. *)
Definition checked (z : Z) : option Z := if in_i128 z then Some z else None.
Definition checked_add (a b : Z) : option Z := checked (a + b).
Definition checked_sub (a b : Z) : option Z := checked (a - b).
Definition checked_mul (a b : Z) : option Z := checked (a * b).

(** Two's complement wrap-around into [i128], what unary minus does in a
    build without overflow checks. *)
Definition wrap_i128 (z : Z) : Z := (z - i128_min) mod 2 ^ 128 + i128_min.
Definition neg_i128 (z : Z) : Z := wrap_i128 (- z).

Lemma in_i128_spec z : in_i128 z = true ↔ i128_min <= z <= i128_max.
Proof. unfold in_i128. lia. Qed.

Lemma checked_Some z z' : checked z = Some z' ↔ z' = z ∧ i128_min <= z <= i128_max.
Proof.
  unfold checked. destruct (in_i128 z) eqn:H.
  - apply in_i128_spec in H. split; [intros [= ->]; done | intros [-> _]; done].
  - split; [done |]. intros [-> Hr]. apply in_i128_spec in Hr. congruence.
Qed.

Lemma checked_ok z : i128_min <= z <= i128_max → checked z = Some z.
Proof. intros; apply checked_Some; done. Qed.

Lemma wrap_i128_id z : i128_min <= z <= i128_max → wrap_i128 z = z.
Proof.
  unfold wrap_i128, i128_min, i128_max. intros H.
  rewrite Z.mod_small; lia.
Qed.

Lemma neg_i128_exact z : i128_min < z <= i128_max → neg_i128 z = - z.
Proof. intros H. apply wrap_i128_id. unfold i128_min, i128_max in *. lia. Qed.

(** Rust's [/] and [%] truncate towards zero: [Z.quot] and [Z.rem]. *)
Notation "a '÷' b" := (Z.quot a b) (at level 40, left associativity) : Z_scope.
Notation "a '%%' b" := (Z.rem a b) (at level 40, no associativity) : Z_scope.

(** ** Automation *)

Create HintDb rust discriminated.
#[export] Hint Resolve wrap_i128_id checked_ok : rust.

(** Turns a successful monadic computation in the context into its steps. *)
Ltac inv_ok :=
  repeat match goal with
  | H : _ ≫= _ = Ok _ |- _ =>
      let a := fresh "a" in let Ha := fresh "Ha" in
      apply bind_Ok in H as (a & Ha & H)
  | H : _ ≫= _ = Some _ |- _ =>
      let a := fresh "a" in let Ha := fresh "Ha" in
      apply bind_Some in H as (a & Ha & H)
  | H : ok_or _ _ = Ok _ |- _ => apply ok_or_Ok in H
  | H : Ok (_, _) = Ok (_, _) |- _ => injection H; clear H; intros
  | H : Ok _ = Ok _ |- _ => first [injection H as <- | injection H as -> | injection H as H]
  | H : Err _ = Ok _ |- _ => discriminate H
  | H : mret _ = Ok _ |- _ => first [injection H as <- | injection H as -> | injection H as H]
  end.

(** Splits boolean conjunctions and negations in the context. *)
Ltac bools :=
  repeat match goal with
  | H : _ && _ = true |- _ => apply andb_true_iff in H as [? ?]
  | H : _ || _ = false |- _ => apply orb_false_iff in H as [? ?]
  | H : negb _ = true |- _ => apply negb_true_iff in H
  | H : negb _ = false |- _ => apply negb_false_iff in H
  end.

(** Arithmetic with division and remainder by constants. *)
Ltac divmod := Z.to_euclidean_division_equations; lia.
