(* ===== verification/Text.v ===== *)
(** * Rust's [str], as far as the modelled code uses it

    A [str] is the list of its Unicode scalar values.  The code's searches,
    splits and slices all cut next to an ASCII character, so a byte index and a
    character index select the same piece.  The two Unicode tables the standard
    library consults outside ASCII are parameters, the class [Unicode]. *)

From Stdlib Require Strings.String Strings.Ascii.
From S2P Require Import Prelude.

Abbreviation str := (list Z) (only parsing).

(** The string literal [s] of the source. *)
Definition lit (s : string) : str :=
  map (λ c, Z.of_N (Ascii.N_of_ascii c)) (String.list_ascii_of_string s).
Arguments lit s%_string_scope.

(** The standard library's tables outside ASCII. *)
Class Unicode := {
  uni_alphabetic : Z → bool;       (* char::is_alphabetic *)
  uni_lowercase : list Z → list Z  (* str::to_lowercase *)
}.

(** The instance the closed examples evaluate under: nothing outside ASCII is
    a letter and nothing outside ASCII has a lower case. *)
Definition ascii_only : Unicode :=
  {| uni_alphabetic _ := false; uni_lowercase s := s |}.

(** ** Characters *)

Definition is_ascii (c : Z) : bool := (0 <=? c) && (c <=? 127).
Definition is_ascii_digit (c : Z) : bool := (48 <=? c) && (c <=? 57).
Definition is_ascii_uppercase (c : Z) : bool := (65 <=? c) && (c <=? 90).
Definition is_ascii_lowercase (c : Z) : bool := (97 <=? c) && (c <=? 122).
Definition is_ascii_alphabetic (c : Z) : bool :=
  is_ascii_uppercase c || is_ascii_lowercase c.
Definition is_ascii_hexdigit (c : Z) : bool :=
  is_ascii_digit c || ((65 <=? c) && (c <=? 70)) || ((97 <=? c) && (c <=? 102)).

(** [char::is_whitespace], Unicode's [White_Space]. *)
Definition is_whitespace (c : Z) : bool :=
  ((9 <=? c) && (c <=? 13)) || (c =? 32) || (c =? 133) || (c =? 160) || (c =? 5760)
  || ((8192 <=? c) && (c <=? 8202)) || (c =? 8232) || (c =? 8233) || (c =? 8239)
  || (c =? 8287) || (c =? 12288).

Definition is_alphabetic `{Unicode} (c : Z) : bool :=
  if is_ascii c then is_ascii_alphabetic c else uni_alphabetic c.

Definition lower_char (c : Z) : Z := if is_ascii_uppercase c then c + 32 else c.
Definition to_ascii_lowercase (s : str) : str := map lower_char s.
Definition to_lowercase `{Unicode} (s : str) : str :=
  if forallb is_ascii s then to_ascii_lowercase s else uni_lowercase s.

(** ** Comparison and search *)

Fixpoint str_eqb (a b : str) : bool :=
  match a, b with
  | [], [] => true
  | x :: a, y :: b => (x =? y) && str_eqb a b
  | _, _ => false
  end.

(** [word] is one of the literals of a match arm. *)
Definition one_of (word : str) (arms : list string) : bool :=
  existsb (λ arm, str_eqb word (lit arm)) arms.

Definition eq_ignore_ascii_case (a b : str) : bool :=
  str_eqb (to_ascii_lowercase a) (to_ascii_lowercase b).

Definition contains_char (c : Z) (s : str) : bool := existsb (Z.eqb c) s.

(** [s.find(p)]: the index of the first character satisfying [p]. *)
Fixpoint find (p : Z → bool) (s : str) : option nat :=
  match s with
  | [] => None
  | c :: s => if p c then Some O else S <$> find p s
  end.

Definition char_in (cs : list Z) (c : Z) : bool := existsb (Z.eqb c) cs.

(** [strip_prefix] of a character and of a string, [strip_suffix] of either. *)
Definition strip_prefix_char (c : Z) (s : str) : option str :=
  match s with x :: s => if x =? c then Some s else None | [] => None end.

Fixpoint strip_prefix (p s : str) : option str :=
  match p, s with
  | [], _ => Some s
  | a :: p, b :: s => if a =? b then strip_prefix p s else None
  | _ :: _, [] => None
  end.

Definition strip_suffix (p s : str) : option str :=
  reverse <$> strip_prefix (reverse p) (reverse s).

Definition starts_with (p s : str) : bool :=
  match strip_prefix p s with Some _ => true | None => false end.

Definition ends_with (p s : str) : bool :=
  match strip_suffix p s with Some _ => true | None => false end.

(** ** Splitting and trimming *)

(** [s.split_once(c)]. *)
Fixpoint split_once (c : Z) (s : str) : option (str * str) :=
  match s with
  | [] => None
  | x :: s =>
      if x =? c then Some ([], s)
      else '(a, b) ← split_once c s; Some (x :: a, b)
  end.

(** [s.split(p).collect()], never empty. *)
Fixpoint split (p : Z → bool) (s : str) : list str :=
  match s with
  | [] => [[]]
  | x :: s =>
      if p x then [] :: split p s
      else match split p s with
           | piece :: rest => (x :: piece) :: rest
           | [] => [[x]]
           end
  end.

Definition is_nonempty (s : str) : bool := match s with [] => false | _ => true end.

Definition split_whitespace (s : str) : list str :=
  List.filter is_nonempty (split is_whitespace s).

Fixpoint drop_while (p : Z → bool) (s : str) : str :=
  match s with
  | [] => []
  | x :: t => if p x then drop_while p t else s
  end.

Definition trim_start_matches (p : Z → bool) (s : str) : str := drop_while p s.
Definition trim_end_matches (p : Z → bool) (s : str) : str := reverse (drop_while p (reverse s)).
Definition trim_end : str → str := trim_end_matches is_whitespace.
Definition trim (s : str) : str := trim_end (trim_start_matches is_whitespace s).

(** [parts.join(sep)]. *)
Fixpoint join (sep : str) (parts : list str) : str :=
  match parts with
  | [] => []
  | [p] => p
  | p :: parts => p ++ sep ++ join sep parts
  end.

(** ** Numbers *)

Definition digit_value (c : Z) : Z := c - 48.

(** The number a run of digits spells. *)
Definition digits_value (s : str) : Z := foldl (λ acc c, 10 * acc + digit_value c) 0 s.

Fixpoint digits_fuel (fuel : nat) (n : Z) : str :=
  match fuel with
  | O => []
  | S fuel => if n <? 10 then [48 + n] else digits_fuel fuel (n / 10) ++ [48 + n mod 10]
  end.

(** [format!("{n}")] of an unsigned and of a signed integer. *)
Definition dec (n : Z) : str := digits_fuel (S (Z.to_nat (Z.log2 n))) n.
Definition dec_signed (n : Z) : str := if n <? 0 then 45 :: dec (- n) else dec n.

(** [format!("{n:0w}")] of an unsigned integer. *)
Definition zero_pad (w : nat) (s : str) : str := replicate (w - length s) 48 ++ s.
Definition dec_pad (w : nat) (n : Z) : str := zero_pad w (dec n).

Definition all_digits (s : str) : bool := forallb is_ascii_digit s.

(** [str::parse] of an unsigned integer bounded by [max]: an optional plus
    sign, at least one digit, and no overflow. *)
Definition parse_unsigned (max : Z) (s : str) : option Z :=
  let digits := default s (strip_prefix_char 43 s) in
  if is_nonempty digits && all_digits digits && (digits_value digits <=? max)
  then Some (digits_value digits) else None.

Definition parse_u32 : str → option Z := parse_unsigned u32_max.

(** The order of strings. *)
Fixpoint str_compare (a b : str) : comparison :=
  match a, b with
  | [], [] => Eq
  | [], _ => Lt
  | _, [] => Gt
  | x :: a, y :: b => match x ?= y with Eq => str_compare a b | c => c end
  end.

(** ** Lemmas: equality and searching *)

(** No character of [s] satisfies [p]. *)
Definition free (p : Z → bool) (s : str) : Prop := Forall (λ c, p c = false) s.

Lemma str_eqb_eq a b : str_eqb a b = true ↔ a = b.
Proof.
  revert b. induction a as [|x a IH]; intros [|y b]; cbn; try done.
  rewrite andb_true_iff, Z.eqb_eq, IH. split; [by intros [-> ->] | by intros [= -> ->]].
Qed.

Lemma str_eqb_refl a : str_eqb a a = true.
Proof. by apply str_eqb_eq. Qed.

Lemma str_eqb_neq a b : str_eqb a b = false ↔ a ≠ b.
Proof. rewrite <- (str_eqb_eq a b). by destruct (str_eqb a b). Qed.

Lemma forallb_Forall {A} (p : A → bool) (s : list A) : forallb p s = true ↔ Forall (λ c, p c = true) s.
Proof.
  induction s as [|c s IH]; cbn; [split; done|].
  rewrite andb_true_iff, IH, Forall_cons. done.
Qed.

Lemma existsb_false {A} (p : A → bool) (s : list A) : existsb p s = false ↔ Forall (λ c, p c = false) s.
Proof.
  induction s as [|c s IH]; cbn; [split; done|].
  rewrite orb_false_iff, IH, Forall_cons. done.
Qed.

Lemma free_app p a b : free p (a ++ b) ↔ free p a ∧ free p b.
Proof. unfold free. by rewrite Forall_app. Qed.

Lemma free_cons p c a : free p (c :: a) ↔ p c = false ∧ free p a.
Proof. unfold free. by rewrite Forall_cons. Qed.

Lemma free_impl (p q : Z → bool) s :
  (∀ c, q c = true → p c = true) → free p s → free q s.
Proof.
  intros H Hs. eapply Forall_impl; [exact Hs|]. cbn. intros c Hp. specialize (H c).
  destruct (q c); [rewrite H in Hp |]; done.
Qed.

Lemma forallb_free (p q : Z → bool) s :
  (∀ c, p c = true → q c = false) → forallb p s = true → free q s.
Proof. intros H Hs. apply forallb_Forall in Hs. eapply Forall_impl; [exact Hs | apply H]. Qed.

Lemma find_free p s : free p s → find p s = None.
Proof. induction 1 as [|c s Hc _ IH]; cbn; [done|]. by rewrite Hc, IH. Qed.

Lemma find_app p a c b : free p a → p c = true → find p (a ++ c :: b) = Some (length a).
Proof. intros Ha Hc. induction Ha as [|x a Hx _ IH]; cbn; [by rewrite Hc|]. by rewrite Hx, IH. Qed.

Lemma find_Some p s i :
  find p s = Some i → ∃ a c b, s = a ++ c :: b ∧ length a = i ∧ free p a ∧ p c = true.
Proof.
  revert i. induction s as [|x s IH]; intros i; cbn; [done|].
  destruct (p x) eqn:Hx; [intros [= <-]; exists [], x, s; split_and!; [done..|constructor|done]|].
  destruct (find p s) as [j|]; [|done]. intros [= <-].
  destruct (IH j eq_refl) as (a & c & b & -> & <- & Ha & Hc).
  exists (x :: a), c, b. split_and!; [done..|by constructor|done].
Qed.

Lemma find_None p s : find p s = None → free p s.
Proof.
  induction s as [|x s IH]; cbn; [constructor|].
  destruct (p x) eqn:Hx; [done|]. destruct (find p s); [done|].
  intros _. constructor; [done | by apply IH].
Qed.

Lemma split_free p s : free p s → split p s = [s].
Proof. induction 1 as [|c s Hc _ IH]; cbn; [done|]. by rewrite Hc, IH. Qed.

Lemma split_app p a c b : free p a → p c = true → split p (a ++ c :: b) = a :: split p b.
Proof. intros Ha Hc. induction Ha as [|x a Hx _ IH]; cbn; [by rewrite Hc|]. by rewrite Hx, IH. Qed.

Lemma split_nonempty p s : split p s ≠ [].
Proof.
  destruct s as [|x s]; cbn; [done|]. destruct (p x); [done|].
  by destruct (split p s).
Qed.

Lemma split_once_free c s : free (λ x, x =? c) s → split_once c s = None.
Proof. induction 1 as [|x s Hx _ IH]; cbn; [done|]. by rewrite Hx, IH. Qed.

Lemma split_once_app c a b : free (λ x, x =? c) a → split_once c (a ++ c :: b) = Some (a, b).
Proof.
  induction 1 as [|x a Hx _ IH]; cbn; [by rewrite Z.eqb_refl|]. by rewrite Hx, IH.
Qed.

Lemma split_once_Some c s a b :
  split_once c s = Some (a, b) → s = a ++ c :: b ∧ free (λ x, x =? c) a.
Proof.
  revert a b. induction s as [|x s IH]; intros a b; cbn; [done|].
  destruct (x =? c) eqn:Hx.
  - intros [= <- <-]. apply Z.eqb_eq in Hx as ->. split; [done | constructor].
  - destruct (split_once c s) as [[a' b']|]; [|done]. intros [= <- <-].
    destruct (IH _ _ eq_refl) as [-> Ha]. split; [done | by constructor].
Qed.

Lemma strip_prefix_app p s : strip_prefix p (p ++ s) = Some s.
Proof. induction p as [|a p IH]; cbn; [done|]. by rewrite Z.eqb_refl. Qed.

Lemma strip_prefix_Some p s t : strip_prefix p s = Some t → s = p ++ t.
Proof.
  revert s. induction p as [|a p IH]; intros [|b s]; cbn; try (by intros [= ->]); try done.
  destruct (a =? b) eqn:H; [|done]. apply Z.eqb_eq in H as ->. intros Hs. by rewrite (IH _ Hs).
Qed.

Lemma strip_suffix_Some p s t : strip_suffix p s = Some t → s = t ++ p.
Proof.
  unfold strip_suffix. destruct (strip_prefix _ _) as [u|] eqn:H; [|done]. intros [= <-].
  apply strip_prefix_Some in H. apply (f_equal reverse) in H.
  by rewrite reverse_involutive, reverse_app, reverse_involutive in H.
Qed.

Lemma strip_suffix_app p s : strip_suffix p (s ++ p) = Some s.
Proof.
  unfold strip_suffix. rewrite reverse_app, strip_prefix_app. cbn. by rewrite reverse_involutive.
Qed.

Lemma strip_suffix_last p s c :
  last p ≠ Some c → p ≠ [] → strip_suffix p (s ++ [c]) = None.
Proof.
  intros Hl Hp. destruct (strip_suffix p (s ++ [c])) as [t|] eqn:H; [|done].
  apply strip_suffix_Some in H. destruct p as [|x p _] using rev_ind; [done|].
  rewrite last_snoc in Hl. rewrite app_assoc in H. apply app_inj_tail in H as [_ ->]. done.
Qed.

(** ** Lemmas: numerals *)

Lemma digits_value_app a b :
  digits_value (a ++ b) = digits_value a * 10 ^ Z.of_nat (length b) + digits_value b.
Proof.
  unfold digits_value. rewrite foldl_app. generalize (foldl (λ acc c, 10 * acc + digit_value c) 0 a).
  induction b as [|c b IH] using rev_ind; intros v; cbn; [lia|].
  rewrite !foldl_app. cbn. rewrite IH, length_app. cbn.
  rewrite Nat2Z.inj_add, Z.pow_add_r by lia. change (10 ^ Z.of_nat 1) with 10. lia.
Qed.

Lemma digits_value_cons c s :
  digits_value (c :: s) = digit_value c * 10 ^ Z.of_nat (length s) + digits_value s.
Proof.
  change (c :: s) with ([c] ++ s). rewrite digits_value_app. f_equal.
Qed.

Lemma all_digits_app a b : all_digits (a ++ b) = all_digits a && all_digits b.
Proof. apply forallb_app. Qed.

Lemma all_digits_cons c s : all_digits (c :: s) = is_ascii_digit c && all_digits s.
Proof. done. Qed.

Lemma digits_value_bound s :
  all_digits s = true → 0 <= digits_value s < 10 ^ Z.of_nat (length s).
Proof.
  induction s as [|c s IH]; [cbn; lia|].
  rewrite all_digits_cons, length_cons. intros [Hc Hs]%andb_true_iff. specialize (IH Hs). rewrite digits_value_cons.
  rewrite Nat2Z.inj_succ, Z.pow_succ_r by lia.
  unfold is_ascii_digit, digit_value in *. nia.
Qed.

Lemma digits_value_zeros n s : digits_value (replicate n 48 ++ s) = digits_value s.
Proof.
  rewrite digits_value_app. replace (digits_value (replicate n 48)) with 0; [lia|].
  induction n as [|n IH]; [done|]. rewrite replicate_S, digits_value_cons, <- IH.
  unfold digit_value. lia.
Qed.

(** A digit run is determined by its length and its value. *)
Lemma digits_value_inj a b :
  all_digits a = true → all_digits b = true → length a = length b →
  digits_value a = digits_value b → a = b.
Proof.
  revert b. induction a as [|x a IH]; intros [|y b]; try done.
  rewrite !all_digits_cons, !andb_true_iff. intros [Hx Ha] [Hy Hb] [= Hl] Hv.
  rewrite !digits_value_cons, Hl in Hv.
  pose proof (digits_value_bound a Ha) as Ba. pose proof (digits_value_bound b Hb) as Bb.
  rewrite Hl in Ba. unfold digit_value, is_ascii_digit in *.
  assert (x = y) as -> by nia. f_equal. apply IH; [done..|nia].
Qed.

Lemma digits_fuel_spec fuel n :
  0 <= n < 2 ^ Z.of_nat fuel →
  all_digits (digits_fuel fuel n) = true ∧ digits_value (digits_fuel fuel n) = n.
Proof.
  revert n. induction fuel as [|fuel IH]; intros n Hn; cbn -[Z.pow Z.div Z.modulo].
  - change (2 ^ Z.of_nat 0) with 1 in Hn. unfold digits_value; cbn; lia.
  - rewrite Nat2Z.inj_succ, Z.pow_succ_r in Hn by lia.
    destruct (n <? 10) eqn:Hlt.
    + unfold digits_value, all_digits, is_ascii_digit, digit_value; cbn. lia.
    + destruct (IH (n / 10)) as [Hd Hv]; [divmod|].
      rewrite all_digits_app, Hd, digits_value_app, Hv. cbn -[Z.div Z.modulo].
      unfold is_ascii_digit, digits_value, digit_value. cbn -[Z.div Z.modulo].
      split; [divmod | change (10 ^ Z.pos 1) with 10; divmod].
Qed.

Lemma dec_fuel n : 0 <= n → 0 <= n < 2 ^ Z.of_nat (S (Z.to_nat (Z.log2 n))).
Proof.
  intros Hn. rewrite Nat2Z.inj_succ, Z2Nat.id by apply Z.log2_nonneg.
  destruct (decide (n = 0)) as [->|]; [cbn; lia|].
  pose proof (Z.log2_spec n). lia.
Qed.

Lemma dec_digits n : 0 <= n → all_digits (dec n) = true.
Proof. intros Hn. apply digits_fuel_spec, dec_fuel, Hn. Qed.

Lemma dec_value n : 0 <= n → digits_value (dec n) = n.
Proof. intros Hn. apply digits_fuel_spec, dec_fuel, Hn. Qed.

Lemma dec_nonempty n : dec n ≠ [].
Proof.
  unfold dec. cbn -[Z.div Z.modulo]. destruct (n <? 10); [done|].
  intros H. by apply app_eq_nil in H as [_ H].
Qed.

(** A numeral has no more digits than its magnitude needs. *)
Lemma digits_fuel_length fuel n k :
  (1 <= k)%nat → n < 10 ^ Z.of_nat k → (length (digits_fuel fuel n) <= k)%nat.
Proof.
  revert n k. induction fuel as [|fuel IH]; intros n k Hk Hn; cbn -[Z.div Z.modulo]; [lia|].
  destruct (n <? 10) eqn:Hlt; cbn -[Z.div Z.modulo]; [lia|]. rewrite length_app. cbn.
  destruct k as [|[|k]]; [lia | change (10 ^ Z.of_nat 1) with 10 in Hn; lia |].
  enough (length (digits_fuel fuel (n / 10)) <= S k)%nat by lia. apply IH; [lia|].
  rewrite (Nat2Z.inj_succ (S k)), Z.pow_succ_r in Hn by lia. divmod.
Qed.

Lemma dec_length n k : (1 <= k)%nat → n < 10 ^ Z.of_nat k → (length (dec n) <= k)%nat.
Proof. apply digits_fuel_length. Qed.

Lemma dec_inj a b : 0 <= a → 0 <= b → dec a = dec b → a = b.
Proof. intros Ha Hb H. by rewrite <- (dec_value a Ha), <- (dec_value b Hb), H. Qed.

Lemma dec_pad_digits w n : 0 <= n → all_digits (dec_pad w n) = true.
Proof.
  intros Hn. unfold dec_pad, zero_pad. rewrite all_digits_app, (dec_digits n Hn), andb_true_r.
  apply forallb_Forall. by apply Forall_replicate.
Qed.

Lemma dec_pad_value w n : 0 <= n → digits_value (dec_pad w n) = n.
Proof. intros Hn. unfold dec_pad, zero_pad. by rewrite digits_value_zeros, dec_value. Qed.

Lemma dec_pad_length w n :
  (1 <= w)%nat → n < 10 ^ Z.of_nat w → length (dec_pad w n) = w.
Proof.
  intros Hw Hn. unfold dec_pad, zero_pad. rewrite length_app, length_replicate.
  pose proof (dec_length n w Hw Hn). lia.
Qed.

Lemma dec_pad_nonempty w n : dec_pad w n ≠ [].
Proof. unfold dec_pad, zero_pad. intros H. apply app_eq_nil in H as [_ H]. by apply dec_nonempty in H. Qed.

Lemma dec_pad_of_digits s : s ≠ [] → all_digits s = true → dec_pad (length s) (digits_value s) = s.
Proof.
  intros Hne Hs. pose proof (digits_value_bound s Hs) as Hb.
  assert (1 <= length s)%nat by (destruct s; cbn; [done | lia]).
  apply digits_value_inj; [apply dec_pad_digits; lia | done | apply dec_pad_length; lia |].
  apply dec_pad_value; lia.
Qed.

Lemma parse_unsigned_digits max s :
  s ≠ [] → all_digits s = true → digits_value s <= max →
  parse_unsigned max s = Some (digits_value s).
Proof.
  intros Hne Hs Hm. unfold parse_unsigned.
  assert (default s (strip_prefix_char 43 s) = s) as ->.
  { destruct s as [|c s]; [done|]. rewrite all_digits_cons in Hs. cbn.
    destruct (c =? 43) eqn:Hc; [|done]. unfold is_ascii_digit in Hs. lia. }
  rewrite Hs, (proj2 (Z.leb_le _ _) Hm). by destruct s.
Qed.

Lemma parse_unsigned_bound max s v : parse_unsigned max s = Some v → 0 <= v <= max.
Proof.
  unfold parse_unsigned. destruct (_ && _) eqn:H; [|done]. intros [= <-]. bools.
  pose proof (digits_value_bound _ ltac:(eassumption)). lia.
Qed.

(** ** Lemmas: order *)

Lemma str_compare_refl a : str_compare a a = Eq.
Proof. induction a as [|x a IH]; cbn; [done|]. by rewrite Z.compare_refl. Qed.

Lemma str_compare_app a b s t :
  length a = length b →
  str_compare (a ++ s) (b ++ t) = match str_compare a b with Eq => str_compare s t | c => c end.
Proof.
  revert b. induction a as [|x a IH]; intros [|y b]; try done. cbn. intros [= Hl].
  destruct (x ?= y); [by apply IH | done..].
Qed.

Lemma str_compare_digits a b :
  all_digits a = true → all_digits b = true → length a = length b →
  str_compare a b = (digits_value a ?= digits_value b).
Proof.
  revert b. induction a as [|x a IH]; intros [|y b]; try done.
  rewrite !all_digits_cons. intros Ha Hb [= Hl]. bools. cbn [str_compare].
  rewrite !digits_value_cons, Hl, IH by done.
  pose proof (digits_value_bound a ltac:(done)) as Ba. pose proof (digits_value_bound b ltac:(done)) as Bb.
  rewrite Hl in Ba. set (p := 10 ^ _) in *. unfold digit_value. clearbody p.
  destruct (Z.compare_spec x y) as [->|Hlt|Hgt].
  - destruct (Z.compare_spec (digits_value a) (digits_value b)); symmetry;
      [apply Z.compare_eq_iff | apply Z.compare_lt_iff | apply Z.compare_gt_iff]; lia.
  - symmetry. apply Z.compare_lt_iff. nia.
  - symmetry. apply Z.compare_gt_iff. nia.
Qed.

(** Zero-padded numbers of one width compare as the numbers do. *)
Lemma str_compare_pad w n m s t :
  (1 <= w)%nat → 0 <= n < 10 ^ Z.of_nat w → 0 <= m < 10 ^ Z.of_nat w →
  str_compare (dec_pad w n ++ s) (dec_pad w m ++ t)
  = match n ?= m with Eq => str_compare s t | c => c end.
Proof.
  intros Hw Hn Hm. rewrite str_compare_app by (rewrite !dec_pad_length by lia; done).
  rewrite str_compare_digits by (rewrite ?dec_pad_digits, ?dec_pad_length by lia; done).
  by rewrite !dec_pad_value by lia.
Qed.

(** ** Lemmas: words *)

(** A word: not empty, and without white space. *)
Definition solid (s : str) : Prop := s ≠ [] ∧ free is_whitespace s.

Lemma digit_not_space d : is_ascii_digit d = true → is_whitespace d = false.
Proof. unfold is_ascii_digit, is_whitespace. lia. Qed.

Lemma split_join_words words :
  Forall (free is_whitespace) words → words ≠ [] → split is_whitespace (join (lit " ") words) = words.
Proof.
  induction 1 as [|w words Hw Hws IH]; [done|]. intros _. destruct words as [|w' words].
  - by apply split_free.
  - change (join (lit " ") (w :: w' :: words)) with (w ++ lit " " ++ join (lit " ") (w' :: words)).
    change (lit " ") with [32] at 1. cbn [app]. rewrite split_app by done. by rewrite IH.
Qed.

Lemma split_whitespace_join words :
  Forall solid words → words ≠ [] → split_whitespace (join (lit " ") words) = words.
Proof.
  intros Hw Hne. unfold split_whitespace. rewrite split_join_words; [|by eapply Forall_impl; [exact Hw|intros s [_ ?]]|done].
  clear Hne. induction Hw as [|s words [Hs _] _ IH]; cbn; [done|]. rewrite IH. by destruct s.
Qed.

Lemma join_starts words c w : join (lit " ") ((c :: w) :: words) = c :: tail (join (lit " ") ((c :: w) :: words)).
Proof. by destruct words. Qed.

Lemma join_ends (words : list str) w c :
  ∃ s, join (lit " ") (words ++ [w ++ [c]]) = s ++ [c].
Proof.
  induction words as [|v words [s IH]]; [by exists w|].
  exists (v ++ lit " " ++ s). cbn [app join]. destruct (words ++ [w ++ [c]]) as [|x l] eqn:E.
  { by apply app_eq_nil in E as [_ E]. }
  rewrite IH. by rewrite <- !app_assoc.
Qed.

Lemma trim_end_solid s c : is_whitespace c = false → trim_end (s ++ [c]) = s ++ [c].
Proof.
  intros Hc. unfold trim_end, trim_end_matches. rewrite reverse_snoc. cbn [drop_while].
  by rewrite Hc, reverse_cons, reverse_involutive.
Qed.

Lemma trim_solid c s t d :
  is_whitespace c = false → is_whitespace d = false → c :: s = t ++ [d] → trim (c :: s) = c :: s.
Proof.
  intros Hc Hd He. unfold trim, trim_start_matches. cbn [drop_while]. rewrite Hc, He.
  by apply trim_end_solid.
Qed.

Lemma trim_zeros s : all_digits s = true → ∃ n, s = trim_end_matches (Z.eqb 48) s ++ replicate n 48.
Proof.
  intros _. induction s as [|c s IH] using rev_ind; [by exists 0%nat|].
  unfold trim_end_matches. rewrite reverse_snoc. cbn [drop_while]. destruct (Z.eqb_spec 48 c) as [<-|Hc].
  - destruct IH as [n IH]. exists (S n). unfold trim_end_matches in IH. rewrite IH at 1.
    by rewrite <- app_assoc, <- replicate_S_end.
  - exists 0%nat. by rewrite reverse_cons, reverse_involutive, app_nil_r.
Qed.
