(* ===== verification/Utf8.v ===== *)
(** * UTF-8

    The two functions of Rust's standard library that [src/src/impls/translator_impls/copy.rs]
    moves between characters and bytes with: [char::encode_utf8], and
    [String::from_utf8], which accepts exactly the well-formed byte sequences of
    the Unicode standard (its table 3-7). *)

From S2P Require Import Prelude Text.

(** A [char]: a Unicode scalar value. *)
Definition is_scalar (c : Z) : bool := ((0 <=? c) && (c <? 55296)) || ((57344 <=? c) && (c <? 1114112)).

Definition encode_utf8 (c : Z) : list Z :=
  if c <? 128 then [c]
  else if c <? 2048 then [192 + c / 64; 128 + c mod 64]
  else if c <? 65536 then [224 + c / 4096; 128 + c / 64 mod 64; 128 + c mod 64]
  else [240 + c / 262144; 128 + c / 4096 mod 64; 128 + c / 64 mod 64; 128 + c mod 64].

Definition between (low high b : Z) : bool := (low <=? b) && (b <=? high).
Definition continuation (b : Z) : bool := between 128 191 b.

(** The second byte, by the first. *)
Definition second_of_three (a b : Z) : bool :=
  between (if a =? 224 then 160 else 128) (if a =? 237 then 159 else 191) b.
Definition second_of_four (a b : Z) : bool :=
  between (if a =? 240 then 144 else 128) (if a =? 244 then 143 else 191) b.

Fixpoint from_utf8 (bytes : list Z) : option str :=
  match bytes with
  | [] => Some []
  | a :: bytes =>
      if between 0 127 a then cons a <$> from_utf8 bytes
      else match bytes with
      | [] => None
      | b :: bytes =>
          if between 194 223 a then
            if continuation b then cons ((a - 192) * 64 + (b - 128)) <$> from_utf8 bytes else None
          else match bytes with
          | [] => None
          | c :: bytes =>
              if between 224 239 a then
                if second_of_three a b && continuation c then
                  cons ((a - 224) * 4096 + (b - 128) * 64 + (c - 128)) <$> from_utf8 bytes
                else None
              else match bytes with
              | [] => None
              | d :: bytes =>
                  if between 240 244 a && second_of_four a b && continuation c && continuation d then
                    cons ((a - 240) * 262144 + (b - 128) * 4096 + (c - 128) * 64 + (d - 128)) <$> from_utf8 bytes
                  else None
              end
          end
      end
  end.

Definition utf8 (s : str) : list Z := concat (map encode_utf8 s).

Ltac ranges := unfold is_scalar, continuation, second_of_three, second_of_four, between in *.

(** Decoding a character's bytes gives the character and goes on. *)
Lemma from_utf8_encode c bytes :
  is_scalar c = true → from_utf8 (encode_utf8 c ++ bytes) = cons c <$> from_utf8 bytes.
Proof.
  intros Hc. unfold encode_utf8. ranges.
  destruct (c <? 128) eqn:H1; [|destruct (c <? 2048) eqn:H2; [|destruct (c <? 65536) eqn:H3]];
    cbn [app from_utf8]; ranges.
  - by replace ((0 <=? c) && (c <=? 127)) with true by lia.
  - replace ((0 <=? 192 + c / 64) && (192 + c / 64 <=? 127)) with false by divmod.
    replace ((194 <=? 192 + c / 64) && (192 + c / 64 <=? 223)) with true by divmod.
    replace ((128 <=? 128 + c mod 64) && (128 + c mod 64 <=? 191)) with true by divmod.
    by replace ((192 + c / 64 - 192) * 64 + (128 + c mod 64 - 128)) with c by divmod.
  - replace ((0 <=? 224 + c / 4096) && (224 + c / 4096 <=? 127)) with false by divmod.
    replace ((194 <=? 224 + c / 4096) && (224 + c / 4096 <=? 223)) with false by divmod.
    replace ((224 <=? 224 + c / 4096) && (224 + c / 4096 <=? 239)) with true by divmod.
    replace ((128 <=? 128 + c mod 64) && (128 + c mod 64 <=? 191)) with true by divmod. rewrite andb_true_r.
    assert (((if 224 + c / 4096 =? 224 then 160 else 128) <=? 128 + c / 64 mod 64)
      && (128 + c / 64 mod 64 <=? (if 224 + c / 4096 =? 237 then 159 else 191)) = true) as ->.
    { destruct (_ =? 224) eqn:Ea, (_ =? 237) eqn:Eb; divmod. }
    by replace ((224 + c / 4096 - 224) * 4096 + (128 + c / 64 mod 64 - 128) * 64 + (128 + c mod 64 - 128)) with c by divmod.
  - replace ((0 <=? 240 + c / 262144) && (240 + c / 262144 <=? 127)) with false by divmod.
    replace ((194 <=? 240 + c / 262144) && (240 + c / 262144 <=? 223)) with false by divmod.
    replace ((224 <=? 240 + c / 262144) && (240 + c / 262144 <=? 239)) with false by divmod.
    replace ((240 <=? 240 + c / 262144) && (240 + c / 262144 <=? 244)) with true by divmod.
    replace ((128 <=? 128 + c mod 64) && (128 + c mod 64 <=? 191)) with true by divmod.
    replace ((128 <=? 128 + c / 64 mod 64) && (128 + c / 64 mod 64 <=? 191)) with true by divmod. rewrite !andb_true_r. cbn [andb].
    assert (((if 240 + c / 262144 =? 240 then 144 else 128) <=? 128 + c / 4096 mod 64)
      && (128 + c / 4096 mod 64 <=? (if 240 + c / 262144 =? 244 then 143 else 191)) = true) as ->.
    { destruct (_ =? 240) eqn:Ea, (_ =? 244) eqn:Eb; divmod. }
    by replace ((240 + c / 262144 - 240) * 262144 + (128 + c / 4096 mod 64 - 128) * 4096
                + (128 + c / 64 mod 64 - 128) * 64 + (128 + c mod 64 - 128)) with c by divmod.
Qed.

Definition well_formed (s : str) : Prop := Forall (λ c, is_scalar c = true) s.

Lemma from_utf8_utf8 s : well_formed s → from_utf8 (utf8 s) = Some s.
Proof.
  unfold utf8. induction 1 as [|c s Hc Hs IH]; [done|]. cbn [map concat].
  rewrite from_utf8_encode by done. by rewrite IH.
Qed.

Lemma utf8_app a b : utf8 (a ++ b) = utf8 a ++ utf8 b.
Proof. unfold utf8. by rewrite map_app, concat_app. Qed.
