(* ===== verification/Errors.v ===== *)
(** * Errors and refusals

    [src/src/errors.rs], with the connection errors of [src/src/script.rs] and
    the initialization errors of [src/src/initialization.rs].  An error of
    another crate (a parser, schema, lookup, file or git error) is carried by
    its rendered text.  [error_display] is the [Display] the derive macro
    writes. *)

From S2P Require Import Prelude Text.

Inductive TranslationDirection := PostgreSqlToSqlite | SqliteToPostgreSql.
Inductive RefusalCategory := UnsupportedSourceSyntax | UnrepresentableSemantics.

Record TranslationRefusal := {
  direction : TranslationDirection;
  category : RefusalCategory;
  detail : str
}.

Definition TranslationRefusal_new (d : TranslationDirection) (c : RefusalCategory) (s : str)
  : TranslationRefusal := {| direction := d; category := c; detail := s |}.

Definition refusal_display (refusal : TranslationRefusal) : str :=
  lit "Unsupported "
  ++ match direction refusal with
     | PostgreSqlToSqlite => lit "SQLite"
     | SqliteToPostgreSql => lit "PostgreSQL"
     end
  ++ lit " feature: " ++ detail refusal.

Inductive ConnectionError :=
| UnavailableRelation (relation : str) (statement : nat)
| UnavailableColumn (relation column : str) (statement : nat)
| Translation (refusal : TranslationRefusal).

Definition connection_display (error : ConnectionError) : str :=
  match error with
  | UnavailableRelation relation statement =>
      lit "connection replay needs dropped relation `" ++ relation ++ lit "` at statement "
      ++ dec (Z.of_nat statement)
  | UnavailableColumn relation column statement =>
      lit "connection replay needs dropped column `" ++ column ++ lit "` of `" ++ relation
      ++ lit "` at statement " ++ dec (Z.of_nat statement)
  | Translation refusal => refusal_display refusal
  end.

Inductive InitializationError :=
| NoAttachedDatabase
| Unrepresentable (refusal : TranslationRefusal)
| Unavailable (error : ConnectionError).

Definition initialization_display (error : InitializationError) : str :=
  match error with
  | NoAttachedDatabase => lit "the script has no attached database to initialize"
  | Unrepresentable refusal => refusal_display refusal
  | Unavailable error => connection_display error
  end.

#[global] Instance TranslationRefusal_eq_dec : EqDecision TranslationRefusal.
Proof. unfold EqDecision, Decision. repeat decide equality. Defined.
#[global] Instance ConnectionError_eq_dec : EqDecision ConnectionError.
Proof. solve_decision. Defined.
#[global] Instance InitializationError_eq_dec : EqDecision InitializationError.
Proof. solve_decision. Defined.

Inductive Error :=
| SqlParse (input source : str)
| SchemaError (source : str)
| LookupError (source : str)
| IoError (source : str)
| GitError (message : str)
| Refused (refusal : TranslationRefusal)
| Connection (error : ConnectionError)
| Initialization (error : InitializationError)
| UnsupportedRlsExpressionVariant (expr_variant expression : str)
| SessionVariableMappingNotFound (pattern : str)
| SessionVariableTypeUnreadable (pattern pg_type : str) (source : option (str * str))
| SessionVariableTypeDisagrees (pattern recorded written : str)
| SessionVariableReadAsScalar (pattern : str) (delimiter : Z)
| SessionVariableReadAsSet (pattern : str) (written : Z)
| SessionVariableDelimiterDisagrees (pattern : str) (recorded written : Z)
| RlsTableDetected (table_name suffix : str)
| UnusableAttachedTables (reason : str)
| EmptyRlsTableSuffix
| UnresolvedColumnReference (reference reason : str)
| UnsupportedReverseStatement (statement_type : str)
| UnsupportedNamedPlaceholder (placeholder : str)
| TableNotFoundInSchema (table_name : str)
| EmittedNameCollision (kind name first second reason : str)
| MissingPrimaryKeyInUpsert (table_name : str) (pk_columns insert_columns : list str)
| RlsAuditTableNameRequired
| MigrationNotFound (path : str)
| UnsupportedSchemaQualification (object_name reason : str)
| ReadonlyDenyTriggerNameCollision (table_name trigger_name : str).

#[global] Instance Error_eq_dec : EqDecision Error.
Proof. solve_decision. Defined.

(** The four constructors of a refusal. *)
Definition unsupported_source_syntax (detail : str) : Error :=
  Refused (TranslationRefusal_new PostgreSqlToSqlite UnsupportedSourceSyntax detail).
Definition reverse_unsupported_source_syntax (detail : str) : Error :=
  Refused (TranslationRefusal_new SqliteToPostgreSql UnsupportedSourceSyntax detail).
Definition forward_refusal (detail : str) : Error :=
  Refused (TranslationRefusal_new PostgreSqlToSqlite UnrepresentableSemantics detail).
Definition reverse_refusal (detail : str) : Error :=
  Refused (TranslationRefusal_new SqliteToPostgreSql UnrepresentableSemantics detail).

(** A double quote around [s]. *)
Definition quoted (s : str) : str := [34] ++ s ++ [34].

(** The messages about session variables. *)
Definition session_variable_display (error : Error) : option str :=
  match error with
  | SessionVariableMappingNotFound pattern => Some
      (lit "No session variable mapping configured for pattern '" ++ pattern
       ++ lit "'. Configure a mapping using `with_session_variable()` or `with_session_user()` in the translation options.")
  | SessionVariableTypeUnreadable pattern pg_type _ => Some
      (lit "The session variable mapping for '" ++ pattern
       ++ lit "' records the PostgreSQL type '" ++ pg_type
       ++ lit "', which does not parse as one. Record it as PostgreSQL spells it, such as `uuid` or `numeric(10,2)`.")
  | SessionVariableTypeDisagrees pattern recorded written => Some
      (lit "The session variable mapping for '" ++ pattern
       ++ lit "' records the PostgreSQL type '" ++ recorded
       ++ lit "', and this statement casts the setting to '" ++ written
       ++ lit "'. The cast is dropped going to SQLite and written again from the recorded type coming back, so the two have to agree: correct whichever is stale.")
  | SessionVariableReadAsScalar pattern delimiter => Some
      (lit "The session variable mapping for '" ++ pattern
       ++ lit "' declares a set joined by '" ++ [delimiter]
       ++ lit "', which is read through `x = ANY(string_to_array(current_setting(...), '" ++ [delimiter]
       ++ lit "'))`, and this statement reads it as one value. Compare against the set, or drop the `holding_set` declaration if the setting holds one value.")
  | SessionVariableReadAsSet pattern written => Some
      (lit "The session variable mapping for '" ++ pattern
       ++ lit "' declares one value, and this statement splits the setting on '" ++ [written]
       ++ lit "' and tests membership of the elements. Declare the set with `holding_set('" ++ [written]
       ++ lit "')`, or compare against the value.")
  | SessionVariableDelimiterDisagrees pattern recorded written => Some
      (lit "The session variable mapping for '" ++ pattern
       ++ lit "' declares a set joined by '" ++ [recorded]
       ++ lit "', and this statement splits the setting on '" ++ [written]
       ++ lit "'. The two have to agree: correct whichever is stale.")
  | _ => None
  end.

(** The [Display] of an error.  [debug] is the standard library's [Debug] of a
    list of strings. *)
Definition error_display (debug : list str → str) (error : Error) : str :=
  match error with
  | SqlParse input source => lit "Parser error in '" ++ input ++ lit "': " ++ source
  | SchemaError source => lit "Schema error: " ++ source
  | LookupError source => lit "Schema lookup error: " ++ source
  | IoError source => lit "IO error: " ++ source
  | GitError message => lit "Git error: " ++ message
  | Refused refusal => refusal_display refusal
  | Connection error => connection_display error
  | Initialization error => initialization_display error
  | UnsupportedRlsExpressionVariant expr_variant expression =>
      lit "Reverse RLS scanner encountered unsupported expression variant '" ++ expr_variant
      ++ lit "'. Refusing to continue to avoid fail-open behavior. Expression: " ++ expression
  | RlsTableDetected table_name suffix =>
      lit "Direct access to RLS backing table '" ++ table_name
      ++ lit "' is not allowed. Tables with suffix '" ++ suffix
      ++ lit "' are internal RLS tables. Use the corresponding view instead."
  | UnusableAttachedTables reason => lit "The attached tables cannot be placed: " ++ reason
  | EmptyRlsTableSuffix =>
      lit "The RLS backing table suffix is empty, so a secured table and its view would take the same name and every name would read as a backing table. Set a non-empty suffix with with_rls_table_suffix, or leave the default '_rls'."
  | UnresolvedColumnReference reference reason =>
      reference ++ lit " cannot be resolved to a declared column: " ++ reason
      ++ lit ". This translation depends on the column's declared type, and reading the type off any table in the schema that happens to carry the name would answer with another table's column. Include the column's table in the translation batch, or qualify the reference so it names one relation."
  | UnsupportedReverseStatement statement_type =>
      lit "Reverse translation supports DML (INSERT, UPDATE, DELETE, SELECT) and transaction control (BEGIN, COMMIT, ROLLBACK, SAVEPOINT, RELEASE, ROLLBACK TO SAVEPOINT). Received: "
      ++ statement_type
  | UnsupportedNamedPlaceholder placeholder =>
      lit "Named bind placeholder '" ++ placeholder
      ++ lit "' is not supported in reverse translation. PostgreSQL accepts only numbered parameters ($N); use positional (?) or numbered (?N)."
  | TableNotFoundInSchema table_name =>
      lit "Table '" ++ table_name
      ++ lit "' not found in schema. Reverse translation requires schema information for accurate type recovery."
  | EmittedNameCollision kind name first second reason =>
      lit "Two " ++ kind ++ lit " in the emitted schema are both named '" ++ name
      ++ lit "', one from " ++ first ++ lit " and one from " ++ second ++ lit ". " ++ reason
      ++ lit ", so the second definition cannot apply. Rename one of them at the source."
  | MissingPrimaryKeyInUpsert table_name pk_columns insert_columns =>
      lit "INSERT OR REPLACE on table '" ++ table_name ++ lit "' must include primary key columns "
      ++ debug pk_columns ++ lit ". Found columns: " ++ debug insert_columns
  | RlsAuditTableNameRequired =>
      lit "RLS audit table name must be configured via `with_rls_audit_table_name()` when translating schemas with RLS policies. Example: .with_rls_audit_table_name("
      ++ quoted (lit "rls_violations") ++ lit ")"
  | MigrationNotFound path =>
      lit "stop_at path '" ++ path ++ lit "' was not found among discovered up.sql migrations"
  | UnsupportedSchemaQualification object_name reason =>
      lit "Unsupported schema-qualified object name '" ++ object_name ++ lit "': " ++ reason
      ++ lit ". Forward translation accepts explicit schemas only when they resolve in the input schema."
  | ReadonlyDenyTriggerNameCollision table_name trigger_name =>
      lit "Cannot generate read-only deny trigger '" ++ trigger_name ++ lit "' for table '"
      ++ table_name
      ++ lit "': the input schema already defines an object with that name. Rename the conflicting object."
  | error => default [] (session_variable_display error)
  end.

(** The errors of the PL/pgSQL crate, and the refusal each becomes. *)
Inductive Extracted :=
| ExceptionHandler (name : str)
| QualifiedAssignment (qualifier name : str)
| UnsupportedRaiseUsing (clause : str)
| Tokenization (name body source : str)
| MissingBeginBlock (name body : str)
| MissingEndBlock (name body : str)
| UnterminatedDollarQuote (name : str)
| ParseStatements (name body source : str).

Definition from_plpgsql (error : Extracted) : Error :=
  match error with
  | ExceptionHandler name => forward_refusal
      (lit "trigger function '" ++ name
       ++ lit "' uses exception handling, which SQLite has no equivalent for: a trigger body can abort the statement with RAISE(ABORT) but cannot catch anything. Move the handling into the application, or drop the handler and let the error surface.")
  | QualifiedAssignment qualifier name =>
      if eq_ignore_ascii_case qualifier (lit "new") then forward_refusal
        (lit "assigning to `" ++ qualifier ++ lit "." ++ name
         ++ lit "` has no SQLite equivalent here, since a SQLite trigger cannot change the row it fired for. It is emulated with an UPDATE over the written row, which needs the whole trigger function body to be a run of assignments to columns the table declares, closed by RETURN NEW.")
      else forward_refusal
        (lit "assigning to `" ++ qualifier ++ lit "." ++ name
         ++ lit "` has no SQLite equivalent, since a SQLite trigger body has no plpgsql record variable to hold the change. Compute the value in the statement that reads it.")
  | UnsupportedRaiseUsing clause => forward_refusal
      (lit "RAISE EXCEPTION USING " ++ clause
       ++ lit " is not supported; only USING MESSAGE = '<string literal>' translates to SQLite")
  | Tokenization name body source => unsupported_source_syntax
      (lit "Failed to tokenize trigger function '" ++ name ++ lit "' body: " ++ source
       ++ lit ". Body: " ++ body)
  | MissingBeginBlock name body => unsupported_source_syntax
      (lit "Trigger function '" ++ name ++ lit "' body must contain BEGIN...END block. Body: " ++ body)
  | MissingEndBlock name body => unsupported_source_syntax
      (lit "Trigger function '" ++ name ++ lit "' body must end with END. Body: " ++ body)
  | UnterminatedDollarQuote name => unsupported_source_syntax
      (lit "Trigger function '" ++ name ++ lit "' body has an unterminated dollar-quoted string")
  | ParseStatements name body source => unsupported_source_syntax
      (lit "Failed to parse trigger function '" ++ name ++ lit "' body statements: " ++ source
       ++ lit ". Body: " ++ body)
  end.
