(* ===== verification/Ast.v ===== *)
(** * The part of sqlparser's syntax tree the modelled code takes apart

    sqlparser is a library the sources only call.  Its statements appear here
    with the constructors and the fields that the modelled code matches on,
    named as the source's own patterns name them; the payload type [Payload] stands
    for everything that code carries along without looking inside.  The two
    behaviours of the library the code relies on, the printing of an object
    name and the visitor that lists what a node mentions, are parameters of the
    files that use them. *)

From S2P Require Import Prelude Text.

(** [Ident { value, quote_style, .. }]. *)
Record Ident := { value : str; quote_style : option Z }.

#[global] Instance Ident_eq_dec : EqDecision Ident.
Proof. solve_decision. Defined.

(** [Ident::new] and [Ident::with_quote]. *)
Definition Ident_new (s : str) : Ident := {| value := s; quote_style := None |}.
Definition Ident_with_quote (q : Z) (s : str) : Ident := {| value := s; quote_style := Some q |}.

Section Syntax.
Context {Payload : Type}.

Inductive ObjectNamePart :=
  | Identifier (ident : Ident)
  | Function (call : Payload).

Definition ObjectName := list ObjectNamePart.

(** [ObjectNamePart::as_ident]. *)
Definition as_ident (part : ObjectNamePart) : option Ident :=
    match part with Identifier ident => Some ident | Function _ => None end.

Inductive ObjectType := Table | View | Index | Role | OtherObject (o : Payload).
Inductive TriggerEvent := EvInsert | EvUpdate (columns : list Ident) | EvDelete | EvTruncate.
Inductive OnConflictAction := DoNothing | DoUpdate (o : Payload).
Inductive OnInsert := OnConflict (action : OnConflictAction) | DuplicateKeyUpdate (o : Payload).
Inductive TableObject := TableName (name : ObjectName) | TableFunction (o : Payload) | TableQuery (o : Payload).
Inductive TableFactor := TFTable (name : ObjectName) (alias : Payload) | TFOther (o : Payload).
Inductive ColumnOption := ForeignKeyOption (foreign_table : ObjectName) (o : Payload) | OtherOption (o : Payload).
Inductive TableConstraint := ForeignKeyConstraint (foreign_table : ObjectName) (o : Payload) | OtherConstraint (o : Payload).
Record ColumnDef := { column_name : Ident; options : list ColumnOption; column_rest : Payload }.

(** [RenameTable] carries the new name out of [RenameTableNameKind], whose
      two constructors the code never tells apart. *)
Inductive AlterTableOperation :=
  | RenameTo (name : ObjectName)
  | AddColumn (column_def : ColumnDef)
  | AlterColumn (o : Payload) | DropColumn (o : Payload) | RenameColumn (o : Payload)
  | EnableRowLevelSecurity | ForceRowLevelSecurity
  | OtherOperation (o : Payload).

Record CreateTable := {
    ct_name : ObjectName; ct_temporary : bool; ct_if_not_exists : bool;
    ct_query : option Payload; ct_columns : list ColumnDef; ct_constraints : list TableConstraint;
    ct_rest : Payload }.
Record CreateView := {
    cv_name : ObjectName; cv_temporary : bool; cv_or_replace : bool; cv_query : Payload; cv_rest : Payload }.
Record CreateIndex := {
    ci_name : option ObjectName; ci_table_name : ObjectName; ci_concurrently : bool; ci_rest : Payload }.
Record CreateTrigger := {
    tg_name : ObjectName; tg_table_name : ObjectName; tg_temporary : bool; tg_or_replace : bool;
    tg_events : list TriggerEvent; tg_rest : Payload }.
Record AlterTable := {
    at_name : ObjectName; at_operations : list AlterTableOperation; at_rest : Payload }.

Inductive Statement :=
  | StartTransaction
  | Commit (chain : bool)
  | Rollback (chain : bool) (savepoint : option Ident)
  | Savepoint (name : Ident)
  | ReleaseSavepoint (name : Ident)
  | SCreateTable (create : CreateTable)
  | SCreateVirtualTable (name : ObjectName) (if_not_exists : bool) (module_name : Ident) (rest : Payload)
  | SCreateView (create : CreateView)
  | SCreateIndex (create : CreateIndex)
  | SCreateTrigger (create : CreateTrigger) (statements : option (list Statement))
  | SDrop (object_type : ObjectType) (names : list ObjectName) (rest : Payload)
  | SDropTrigger (trigger_name : ObjectName) (table_name : option ObjectName) (rest : Payload)
  | SAlterTable (alter : AlterTable)
  | SRenameTable (renames : list (ObjectName * ObjectName))
  | SInsert (table : TableObject) (on : option OnInsert) (rest : Payload)
  | SUpdate (relation : TableFactor) (rest : Payload)
  | SDelete (from : list TableFactor) (rest : Payload)
  | SMerge (rest : Payload)
  | SQuery (body : SetExpr) (rest : Payload)
  | SCreatePolicy (table_name : ObjectName) (rest : Payload)
  | SAlterPolicy (table_name : ObjectName) (rest : Payload)
  | SDropPolicy (table_name : ObjectName) (rest : Payload)
  | SCreateFunction (rest : Payload) | SAlterFunction (rest : Payload) | SDropFunction (rest : Payload)
  | SCreateRole (rest : Payload) | SAlterRole (rest : Payload)
  | SOther (rest : Payload)
  with SetExpr :=
  | SetInsert (statement : Statement)
  | SetUpdate (statement : Statement)
  | SetDelete (statement : Statement)
  | SetMerge (statement : Statement)
  | SetOther (rest : Payload).
End Syntax.
Arguments ObjectNamePart Payload : clear implicits.
Arguments ObjectName Payload : clear implicits.
Arguments ObjectType Payload : clear implicits.
Arguments TableObject Payload : clear implicits.
Arguments TableFactor Payload : clear implicits.
Arguments OnInsert Payload : clear implicits.
Arguments OnConflictAction Payload : clear implicits.
Arguments ColumnOption Payload : clear implicits.
Arguments TableConstraint Payload : clear implicits.
Arguments ColumnDef Payload : clear implicits.
Arguments AlterTableOperation Payload : clear implicits.
Arguments CreateTable Payload : clear implicits.
Arguments CreateView Payload : clear implicits.
Arguments CreateIndex Payload : clear implicits.
Arguments CreateTrigger Payload : clear implicits.
Arguments AlterTable Payload : clear implicits.
Arguments Statement Payload : clear implicits.
Arguments SetExpr Payload : clear implicits.

(** How the library prints an object name, which the code falls back on when a
    name does not end in an identifier. *)
Class NameDisplay (Payload : Type) := object_name_to_string : ObjectName Payload → str.
