(* ===== verification/Exprs.v ===== *)
(** * Expressions, and the helpers that build and read them

    The fragment of sqlparser's [Expr] the modelled code takes apart, in the
    manner of [Ast], and [src/src/impls/function_helpers.rs]: the construction
    of calls and literals and the reading of them. *)

From S2P Require Import Prelude Text Errors Ast.

Inductive TimezoneInfo := NoTimezone | WithTimeZone | WithoutTimeZone | Tz.

Section Syntax.
Context {Payload : Type}.

Inductive ExactNumberInfo := ExactNone | ExactPrecision (precision : Z) | ExactPrecisionAndScale (precision scale : Z).
Inductive CharLengthUnits := Characters | Octets.
Inductive CharacterLength := IntegerLength (length : Z) (unit : option CharLengthUnits) | MaxLength.
Inductive TypeModifier := ModifierNumber (digits : str) (long : bool) | ModifierOther (o : Payload).

(** The lengths and precisions the code never looks at are payload. *)
Inductive DataType :=
| DataText | DataInteger (display : option Z) | DataReal | DataBlob (length : option Z)
| DataBytea | DataBinary (o : Payload) | DataVarbinary (o : Payload)
| DataSmallInt (display : option Z) | DataInt (display : option Z) | DataBoolean | DataBool
| DataBigInt (display : option Z) | DataInt8 (display : option Z) | DataInt4 (display : option Z)
| DataInt2 (display : option Z) | DataTinyInt (display : option Z) | DataInt64
| DataFloat (o : Payload) | DataDouble (o : Payload) | DataDoublePrecision | DataFloat8 | DataFloat4
| DataNumeric (info : ExactNumberInfo) | DataDecimal (info : ExactNumberInfo) | DataDec (info : ExactNumberInfo)
| DataChar (declared : option CharacterLength) | DataCharacter (declared : option CharacterLength)
| DataVarchar (declared : option CharacterLength) | DataCharacterVarying (declared : option CharacterLength)
| DataJSON | DataJSONB | DataClob (o : Payload) | DataNvarchar (o : Payload) | DataEnum (o : Payload)
| DataTsVector | DataTsQuery | DataDate | DataDatetime (o : Payload)
| DataTime (precision : option Z) (info : TimezoneInfo)
| DataTimestamp (precision : option Z) (info : TimezoneInfo)
| DataInterval (o : Payload)
| DataBit (n : option Z) | DataBitVarying (n : option Z) | DataVarBit (n : option Z)
| DataArray (elem : ArrayElemTypeDef) | DataUuid
| DataCustom (name : ObjectName Payload) (modifiers : list TypeModifier)
| DataOther (o : Payload)
with ArrayElemTypeDef :=
| ArrayNone
| SquareBracket (t : DataType) (size : option Z) | AngleBracket (t : DataType)
| Qualified (t : DataType) (size : option Z) | Parenthesis (t : DataType) | ParenthesisNotNull (t : DataType).

Inductive Value :=
| SingleQuotedString (text : str) | Number (digits : str) (long : bool)
| ValueNull | ValueBoolean (b : bool) | ValuePlaceholder (token : str)
| SingleQuotedByteStringLiteral (bits : str) | DoubleQuotedByteStringLiteral (bits : str)
| HexStringLiteral (hex : str)
| OtherValue (v : Payload).
Inductive UnaryOperator := UPlus | UMinus | UNot | UOther (op : Payload).
Inductive BinaryOperator :=
| BMinus | BDivide | BMultiply | BPlus | BModulo | BStringConcat | BLt | BLtEq | BEq | BGlob | BAnd | BOr
| BOther (op : Payload).

(** A query keeps the clauses the code reads; one whose body is not a plain
    [SELECT] is payload.  A node of another kind is its child expressions, in the
    order the library declares its fields, and what else it holds.  A cast is [CAST(e AS t)] or [e::t], without a format, and a call has neither [FILTER] nor [OVER]
    where the code builds one; where it reads one, it does not look. *)
Inductive Expr :=
| EIdentifier (ident : Ident)
| ECompoundIdentifier (idents : list Ident)
| EValue (value : Value)
| ENested (inner : Expr)
| EUnaryOp (op : UnaryOperator) (expr : Expr)
| EBinaryOp (left : Expr) (op : BinaryOperator) (right : Expr)
| ECast (expr : Expr) (data_type : DataType)
| ETypedString (data_type : DataType) (rest : Payload)
| EAtTimeZone (timestamp time_zone : Expr)
| EFunction (name : ObjectName Payload) (args : FunctionArguments)
| EBetween (expr : Expr) (negated : bool) (low high : Expr)
| EIsNull (expr : Expr)
| EIsNotNull (expr : Expr)
| EIsTrue (expr : Expr)
| EIsNotTrue (expr : Expr)
| EIsDistinctFrom (left right : Expr)
| EIsNotDistinctFrom (left right : Expr)
| ECase (operand : option Expr) (conditions : list (Expr * Expr)) (else_result : option Expr)
| ETuple (items : list Expr)
| ESubquery (query : Query)
| EExists (subquery : Query) (negated : bool)
| EInSubquery (expr : Expr) (subquery : Query) (negated : bool)
| EOther (head : Payload) (children : list Expr)
with FunctionArguments :=
| NoArguments
| SubqueryArguments (query : Query)
| ListArguments (args : list FunctionArg)
with FunctionArg :=
| Unnamed (arg : FunctionArgExpr)
| Named (name : Payload) (arg : FunctionArgExpr)
| ExprNamed (name : Expr) (arg : FunctionArgExpr)
with FunctionArgExpr :=
| ArgExpr (expr : Expr)
| ArgOther (wildcard : Payload)
with Query :=
| SelectQuery (with_clause order_by limit_clause : option Payload) (projection : list SelectItem)
    (from : list FromItem) (selection : option Expr)
| OtherQuery (o : Payload)
with SelectItem :=
| UnnamedExpr (expr : Expr)
| ExprWithAlias (expr : Expr) (alias : Ident)
| OtherItem (o : Payload)
with FromItem :=
| FromTable (name : ObjectName Payload)
| FromDerived (subquery : Query)
| FromOther (o : Payload).
End Syntax.
Arguments TypeModifier Payload : clear implicits.
Arguments DataType Payload : clear implicits.
Arguments ArrayElemTypeDef Payload : clear implicits.
Arguments Value Payload : clear implicits.
Arguments UnaryOperator Payload : clear implicits.
Arguments BinaryOperator Payload : clear implicits.
Arguments Expr Payload : clear implicits.
Arguments FunctionArguments Payload : clear implicits.
Arguments FunctionArg Payload : clear implicits.
Arguments FunctionArgExpr Payload : clear implicits.
Arguments Query Payload : clear implicits.
Arguments SelectItem Payload : clear implicits.
Arguments FromItem Payload : clear implicits.

(** ** Equality *)

#[global] Instance ObjectNamePart_eq_dec {Payload} `{EqDecision Payload} : EqDecision (ObjectNamePart Payload).
Proof. solve_decision. Defined.
#[global] Instance CharLengthUnits_eq_dec : EqDecision CharLengthUnits.
Proof. solve_decision. Defined.
#[global] Instance CharacterLength_eq_dec : EqDecision CharacterLength.
Proof. solve_decision. Defined.
#[global] Instance ExactNumberInfo_eq_dec : EqDecision ExactNumberInfo.
Proof. solve_decision. Defined.
#[global] Instance TimezoneInfo_eq_dec : EqDecision TimezoneInfo.
Proof. solve_decision. Defined.
#[global] Instance TypeModifier_eq_dec {Payload} `{EqDecision Payload} : EqDecision (TypeModifier Payload).
Proof. solve_decision. Defined.

#[global] Instance DataType_eq_dec {Payload} `{EqDecision Payload} : EqDecision (DataType Payload).
Proof.
  unfold EqDecision, Decision.
  fix IH 1 with (IHa (x y : ArrayElemTypeDef Payload) {struct x} : {x = y} + {x ≠ y}).
  - intros x y. decide equality; first [apply IHa | unfold ObjectName; apply decide; apply _].
  - intros x y. decide equality; first [apply IH | apply decide; apply _].
Defined.

(** ** Names *)

(** [impls/object_name.rs]: the last identifier segment of a name. *)
Definition last_ident {Payload} (name : ObjectName Payload) : option Ident :=
  last name ≫= as_ident.

Section Helpers.
Context {Payload : Type}.
Implicit Types (expr : Expr Payload) (args : FunctionArguments Payload).

Definition unnamed_arg expr : FunctionArg Payload := Unnamed (ArgExpr expr).
Definition string_literal (s : str) : Expr Payload := EValue (SingleQuotedString s).
Definition single_quoted_literal expr : option str :=
  match expr with EValue (SingleQuotedString text) => Some text | _ => None end.

(** The one expression a subquery that reads nothing projects. *)
Definition scalar_subquery_projection expr : option (Expr Payload) :=
  match expr with
  | ESubquery (SelectQuery None None None [UnnamedExpr projected] [] None) => Some projected
  | _ => None
  end.

(** [impls/query_builder.rs]. *)
Definition single_expr_query (projection : Expr Payload) (from : list (FromItem Payload)) (selection : option (Expr Payload)) : Query Payload :=
  SelectQuery None None None [UnnamedExpr projection] from selection.

Definition number_literal (n : str) : Expr Payload := EValue (Number n false).
Definition integer_literal (value : Z) : Expr Payload := EValue (Number (dec_signed value) false).

Definition is_function_named (name : ObjectName Payload) (wanted : str) : bool :=
  match last_ident name with
  | Some ident => eq_ignore_ascii_case (value ident) wanted
  | None => false
  end.

(** [str::parse::<i64>] and [i64::wrapping_neg]. *)
Definition i64_min : Z := -9223372036854775808.
Definition i64_max : Z := 9223372036854775807.
Definition parse_i64 (s : str) : option Z :=
  let '(negative, digits) := match s with
                             | c :: rest => if c =? 45 then (true, rest) else if c =? 43 then (false, rest) else (false, s)
                             | [] => (false, s)
                             end in
  if is_nonempty digits && all_digits digits then
    let v := if negative : bool then - digits_value digits else digits_value digits in
    if (i64_min <=? v) && (v <=? i64_max) then Some v else None
  else None.
Definition wrapping_neg_i64 (z : Z) : Z := if z =? i64_min then i64_min else - z.

Fixpoint integer_literal_value expr : option Z :=
  match expr with
  | EValue (Number digits _) => parse_i64 digits
  | ENested inner | EUnaryOp UPlus inner => integer_literal_value inner
  | EUnaryOp UMinus inner => wrapping_neg_i64 <$> integer_literal_value inner
  | _ => None
  end.

Definition simple_function_expr (name : str) (args : list (Expr Payload)) : Expr Payload :=
  EFunction [Identifier (Ident_new name)] (ListArguments (map unnamed_arg args)).

(** The expression of an argument, [None] for a wildcard
    ([shared_helpers::function_arg_expr]). *)
Definition function_arg_expr (arg : FunctionArg Payload) : option (Expr Payload) :=
  match arg with
  | Unnamed (ArgExpr e) | Named _ (ArgExpr e) | ExprNamed _ (ArgExpr e) => Some e
  | _ => None
  end.

Definition function_arg_expr_or_err (arg : FunctionArg Payload) : result Error (Expr Payload) :=
  match arg with
  | Unnamed (ArgExpr e) | Named _ (ArgExpr e) | ExprNamed _ (ArgExpr e) => Ok e
  | _ => Err (reverse_refusal (lit "Expected expression argument in function"))
  end.

Definition function_argument_exprs args : list (Expr Payload) :=
  match args with ListArguments list => omap function_arg_expr list | _ => [] end.

Definition i32_max : Z := 2147483647.
Definition positional_arity args : option Z :=
  match args with
  | ListArguments list =>
      if Z.of_nat (length list) <=? i32_max then Some (Z.of_nat (length list)) else None
  | NoArguments => Some 0
  | SubqueryArguments _ => None
  end.

Definition extract_exactly_with args (count : nat) (func_name : str) (refusal : str → Error)
    : result Error (list (Expr Payload)) :=
  let exprs := function_argument_exprs args in
  if negb (Nat.eqb (length exprs) count) then
    Err (refusal (func_name ++ lit "() requires exactly " ++ dec (Z.of_nat count) ++ lit " argument"
                  ++ (if Nat.eqb count 1 then [] else lit "s")))
  else Ok exprs.

Definition extract_exactly args (count : nat) (func_name : str) :=
  extract_exactly_with args count func_name forward_refusal.
Definition extract_exactly_reverse args (count : nat) (func_name : str) :=
  extract_exactly_with args count func_name reverse_refusal.

(** ** What is written reads back *)

Lemma integer_literal_reads z :
  i64_min <= z <= i64_max → integer_literal_value (integer_literal z) = Some z.
Proof.
  intros Hz. cbn [integer_literal_value integer_literal]. unfold parse_i64, dec_signed.
  destruct (z <? 0) eqn:E.
  - change (45 =? 45) with true. cbv iota. rewrite dec_digits, dec_value by lia.
    assert (is_nonempty (dec (- z)) = true) as -> by (pose proof (dec_nonempty (- z)); by destruct (dec (- z))).
    cbn [andb]. rewrite Z.opp_involutive. unfold i64_min, i64_max in *.
    by replace ((_ <=? z) && _) with true by lia.
  - pose proof (dec_digits z ltac:(lia)) as Hd. pose proof (dec_nonempty z) as Hne.
    pose proof (dec_value z ltac:(lia)) as Hv.
    destruct (dec z) as [|c s] eqn:Es; [done|]. rewrite all_digits_cons in Hd. bools.
    replace (c =? 45) with false by (unfold is_ascii_digit in *; lia).
    replace (c =? 43) with false by (unfold is_ascii_digit in *; lia).
    cbn [is_nonempty]. rewrite all_digits_cons.
    assert (is_ascii_digit c = true) as -> by done. assert (all_digits s = true) as -> by done. cbn [andb].
    rewrite Hv. unfold i64_min, i64_max in *. by replace ((_ <=? z) && _) with true by lia.
Qed.

Lemma simple_function_arguments name es :
  extract_exactly (match simple_function_expr name es with EFunction _ args => args | _ => NoArguments end)
    (length es) name = Ok es.
Proof.
  unfold extract_exactly, extract_exactly_with, simple_function_expr, function_argument_exprs.
  assert (omap function_arg_expr (map unnamed_arg es) = es) as ->
    by (induction es as [|e es IH]; cbn; [done|by f_equal]).
  by rewrite Nat.eqb_refl.
Qed.
End Helpers.
