(* ===== verification/ExprWalk.v ===== *)
(** * The walks over an expression

    [src/src/impls/expr_helpers.rs]: an expression's children as the walk that cannot
    fail rebuilds them and the reading walk lists them, and the small constructors
    beside it.  The kinds of node that [Exprs] tells apart are each an arm; the other
    kinds are one constructor with a list of children, so that what the walks do within
    such a node (a JSON path, the window of a call) is not shown here.  The visitors that
    the syntax library derives are here as well: they also enter the queries an
    expression holds, and what they find in a part that is opaque here is the class
    [PayloadVisit]. *)

From S2P Require Import Prelude Text Errors Ast Exprs.

Section Walk.
Context {Payload : Type}.
Implicit Types (expr : Expr Payload).

(** ** The rebuilding walk *)

(** [map_expr_children], the adapter that cannot fail: [f] is applied to every direct
    child and [f_query] to every query the node holds. *)
Definition map_function_arg_expr (f : Expr Payload → Expr Payload) (arg : FunctionArgExpr Payload) : FunctionArgExpr Payload :=
  match arg with ArgExpr e => ArgExpr (f e) | wildcard => wildcard end.

Definition map_function_arg (f : Expr Payload → Expr Payload) (arg : FunctionArg Payload) : FunctionArg Payload :=
  match arg with
  | Named name arg => Named name (map_function_arg_expr f arg)
  | ExprNamed name arg => ExprNamed (f name) (map_function_arg_expr f arg)
  | Unnamed arg => Unnamed (map_function_arg_expr f arg)
  end.

Definition map_with_queries (f : Expr Payload → Expr Payload) (f_query : Query Payload → Query Payload) expr : Expr Payload :=
  match expr with
  | EIdentifier _ | ECompoundIdentifier _ | EValue _ | ETypedString _ _ => expr
  | ENested e => ENested (f e)
  | EUnaryOp op e => EUnaryOp op (f e)
  | EIsNull e => EIsNull (f e)
  | EIsNotNull e => EIsNotNull (f e)
  | EIsTrue e => EIsTrue (f e)
  | EIsNotTrue e => EIsNotTrue (f e)
  | ECast e t => ECast (f e) t
  | EIsDistinctFrom a b => EIsDistinctFrom (f a) (f b)
  | EIsNotDistinctFrom a b => EIsNotDistinctFrom (f a) (f b)
  | EBinaryOp a op b => EBinaryOp (f a) op (f b)
  | EAtTimeZone a b => EAtTimeZone (f a) (f b)
  | EBetween e negated low high => EBetween (f e) negated (f low) (f high)
  | EInSubquery e subquery negated => EInSubquery (f e) (f_query subquery) negated
  | ETuple items => ETuple (map f items)
  | ECase operand conditions else_result => ECase (f <$> operand) (map (λ '(c, r), (f c, f r)) conditions) (f <$> else_result)
  | ESubquery q => ESubquery (f_query q)
  | EExists subquery negated => EExists (f_query subquery) negated
  | EFunction name (ListArguments args) => EFunction name (ListArguments (map (map_function_arg f) args))
  | EFunction name (SubqueryArguments query) => EFunction name (SubqueryArguments (f_query query))
  | EFunction name NoArguments => EFunction name NoArguments
  | EOther head children => EOther head (map f children)
  end.

Definition map_expr_children (f : Expr Payload → Expr Payload) expr : Expr Payload := map_with_queries f id expr.

(** ** The reading walk

    [f] answers what it collects from a child; the walk appends the answers in the
    order it meets the children. *)
Section ForEach.
Context {A : Type} (f : Expr Payload → list A).

Definition for_each_option (o : option (Expr Payload)) : list A := match o with Some e => f e | None => [] end.

Definition for_each_function_arg_expr (arg : FunctionArgExpr Payload) : list A := match arg with ArgExpr e => f e | ArgOther _ => [] end.

Definition for_each_function_arg (arg : FunctionArg Payload) : list A :=
  match arg with
  | ExprNamed name arg => f name ++ for_each_function_arg_expr arg
  | Named _ arg | Unnamed arg => for_each_function_arg_expr arg
  end.

Definition for_each_child_expr expr : list A :=
  match expr with
  | EIdentifier _ | ECompoundIdentifier _ | EValue _ | ETypedString _ _ | ESubquery _ | EExists _ _ => []
  | ENested e | EUnaryOp _ e | EIsNull e | EIsNotNull e | EIsTrue e | EIsNotTrue e | ECast e _ | EInSubquery e _ _ => f e
  | EIsDistinctFrom a b | EIsNotDistinctFrom a b | EBinaryOp a _ b | EAtTimeZone a b => f a ++ f b
  | EBetween e _ low high => f e ++ f low ++ f high
  | ETuple items => flat_map f items
  | ECase operand conditions else_result =>
      for_each_option operand ++ flat_map (λ '(c, r), f c ++ f r) conditions ++ for_each_option else_result
  | EFunction _ (ListArguments args) => flat_map for_each_function_arg args
  | EFunction _ _ => []
  | EOther _ children => flat_map f children
  end.
End ForEach.

Definition child_exprs : Expr Payload → list (Expr Payload) := for_each_child_expr (λ e, [e]).

(** The queries a node holds, which this walk leaves to its caller, and what stands in a
    query. *)
Definition queries {A} (f : Query Payload → list A) expr : list A :=
  match expr with
  | ESubquery q | EExists q _ | EInSubquery _ q _ | EFunction _ (SubqueryArguments q) => f q
  | _ => []
  end.

Definition item_expr {A} (f : Expr Payload → list A) (item : SelectItem Payload) : list A :=
  match item with UnnamedExpr e | ExprWithAlias e _ => f e | OtherItem _ => [] end.

Definition query_exprs (q : Query Payload) : list (Expr Payload) :=
  match q with
  | SelectQuery _ _ _ projection _ selection => flat_map (item_expr (λ e, [e])) projection ++ for_each_option (λ e, [e]) selection
  | OtherQuery _ => []
  end.

Definition from_query {A} (f : Query Payload → list A) (item : FromItem Payload) : list A :=
  match item with FromDerived q => f q | FromTable _ | FromOther _ => [] end.

Definition query_queries (q : Query Payload) : list (Query Payload) :=
  match q with SelectQuery _ _ _ _ from _ => flat_map (from_query (λ q, [q])) from | OtherQuery _ => [] end.

(** ** Constructors *)

Definition case_when (condition then_expr : Expr Payload) (else_expr : option (Expr Payload)) : Expr Payload :=
  ECase None [(condition, then_expr)] else_expr.
Definition null_safe_eq (a b : Expr Payload) : Expr Payload := EIsNotDistinctFrom a b.
Definition null_safe_neq (a b : Expr Payload) : Expr Payload := EIsDistinctFrom a b.
Definition not_predicate expr : Expr Payload := EUnaryOp UNot (ENested expr).
Definition concat_expr (a b : Expr Payload) : Expr Payload := EBinaryOp a BStringConcat b.
End Walk.

(** ** The library's visitors *)

(** The expressions a visitor meets inside an opaque part, each after those in it, and
    the part after a visitor that mutates has gone through it. *)
Class PayloadVisit (Payload : Type) := {
  visited_payload : Payload → list (Expr Payload);
  visit_payload_mut : (Expr Payload → Expr Payload) → Payload → Payload
}.

Section Visit.
Context {Payload : Type} `{PayloadVisit Payload}.
Implicit Types (expr : Expr Payload).

Definition visited_name (name : ObjectName Payload) : list (Expr Payload) :=
  flat_map (λ part, match part with Function call => visited_payload call | Identifier _ => [] end) name.

(** What a node holds beside its children and its queries. *)
Definition visited_head expr : list (Expr Payload) :=
  match expr with
  | EFunction name _ => visited_name name
  | EOther head _ => visited_payload head
  | _ => []
  end.

Definition visited_option (o : option Payload) : list (Expr Payload) := match o with Some p => visited_payload p | None => [] end.

(** Everything [post_visit_expr] sees of an expression, itself last. *)
Fixpoint visited expr {struct expr} : list (Expr Payload) :=
  visited_head expr ++ for_each_child_expr visited expr ++ queries visited_query expr ++ [expr]
with visited_query (q : Query Payload) {struct q} : list (Expr Payload) :=
  match q with
  | SelectQuery with_clause order_by limit_clause projection from selection =>
      visited_option with_clause
      ++ flat_map (λ item, match item with UnnamedExpr e | ExprWithAlias e _ => visited e | OtherItem o => visited_payload o end) projection
      ++ flat_map (λ item, match item with FromTable name => visited_name name | FromDerived q => visited_query q | FromOther o => visited_payload o end) from
      ++ match selection with Some e => visited e | None => [] end
      ++ visited_option order_by ++ visited_option limit_clause
  | OtherQuery o => visited_payload o
  end.

Definition mut_name (g : Expr Payload → Expr Payload) (name : ObjectName Payload) : ObjectName Payload :=
  map (λ part, match part with Function call => Function (visit_payload_mut g call) | part => part end) name.

Definition mut_head (g : Expr Payload → Expr Payload) expr : Expr Payload :=
  match expr with
  | EFunction name args => EFunction (mut_name g name) args
  | EOther head children => EOther (visit_payload_mut g head) children
  | e => e
  end.

(** [post_visit_expr] as a mutation: [g] is applied to an expression whose parts it has
    been applied to. *)
Fixpoint visit_mut (g : Expr Payload → Expr Payload) expr {struct expr} : Expr Payload :=
  g (mut_head g (map_with_queries (visit_mut g) (visit_query_mut g) expr))
with visit_query_mut (g : Expr Payload → Expr Payload) (q : Query Payload) {struct q} : Query Payload :=
  match q with
  | SelectQuery with_clause order_by limit_clause projection from selection =>
      SelectQuery (visit_payload_mut g <$> with_clause) (visit_payload_mut g <$> order_by) (visit_payload_mut g <$> limit_clause)
        (map (λ item, match item with
                      | UnnamedExpr e => UnnamedExpr (visit_mut g e)
                      | ExprWithAlias e alias => ExprWithAlias (visit_mut g e) alias
                      | OtherItem o => OtherItem (visit_payload_mut g o)
                      end) projection)
        (map (λ item, match item with
                      | FromTable name => FromTable (mut_name g name)
                      | FromDerived q => FromDerived (visit_query_mut g q)
                      | FromOther o => FromOther (visit_payload_mut g o)
                      end) from)
        (visit_mut g <$> selection)
  | OtherQuery o => OtherQuery (visit_payload_mut g o)
  end.
End Visit.

(** ** The children of a node *)

Section Agree.
Context {Payload : Type}.
Implicit Types (expr : Expr Payload).

Lemma flat_map_flat_map {A B C} (f : A → list B) (g : B → list C) (l : list A) :
  flat_map g (flat_map f l) = flat_map (λ x, flat_map g (f x)) l.
Proof. induction l as [|x l IH]; cbn; [done|]. by rewrite flat_map_app, IH. Qed.

Lemma flat_map_map {A B C} (f : B → list C) (g : A → B) l : flat_map f (map g l) = flat_map (λ x, f (g x)) l.
Proof. induction l as [|x l IH]; cbn; [done|]. by rewrite IH. Qed.

Lemma for_each_child_flat {A} (f : Expr Payload → list A) expr :
  for_each_child_expr f expr = flat_map f (child_exprs expr).
Proof.
  assert (H1 : ∀ e, f e = flat_map f [e]) by (intros; cbn; by rewrite app_nil_r).
  assert (Ha : ∀ arg, for_each_function_arg_expr f arg = flat_map f (for_each_function_arg_expr (λ e, [e]) arg)) by (intros []; [apply H1|done]).
  unfold child_exprs. destruct expr; cbn; rewrite ?app_nil_r; try done.
  - destruct args as [| |args]; [done..|]. rewrite flat_map_flat_map. apply flat_map_ext. intros []; cbn; try apply Ha. by f_equal.
  - rewrite !flat_map_app, flat_map_flat_map. f_equal; [by destruct operand as [e|]; [apply H1|]|]. f_equal; [|by destruct else_result as [e|]; [apply H1|]].
    apply flat_map_ext. intros [c r]. cbn. by rewrite app_nil_r.
  - rewrite flat_map_flat_map. apply flat_map_ext, H1.
  - rewrite flat_map_flat_map. apply flat_map_ext, H1.
Qed.

Lemma child_exprs_cases {A} (f : Expr Payload → list A) expr : for_each_child_expr f expr = concat (map f (child_exprs expr)).
Proof. rewrite for_each_child_flat. apply flat_map_concat_map. Qed.

Lemma flat_map_id {A} (l : list A) : flat_map (λ x, [x]) l = l.
Proof. induction l; cbn; congruence. Qed.

(** ** Induction over the children *)

Ltac each H := repeat (apply Forall_cons; split); try apply H; try apply Forall_nil_2.

Lemma query_children (P : Expr Payload → Prop) (Q : Query Payload → Prop) (HP : ∀ expr, P expr) (HQ : ∀ q, Forall P (query_exprs q) → Forall Q (query_queries q) → Q q) q : Q q.
Proof.
  revert q. fix IHq 1. intros q. apply HQ; [apply Forall_forall; intros; apply HP|].
  destruct q as [w o l items from sel|p]; cbn [query_queries]; [|apply Forall_nil_2].
  induction from as [|[n|q|p] from IH]; cbn; try apply Forall_nil_2; each IHq; apply IH.
Qed.

Lemma Expr_Query_ind (P : Expr Payload → Prop) (Q : Query Payload → Prop) :
  (∀ expr, Forall P (child_exprs expr) → Forall Q (queries (λ q, [q]) expr) → P expr) →
  (∀ q, Forall P (query_exprs q) → Forall Q (query_queries q) → Q q) →
  (∀ expr, P expr) ∧ (∀ q, Q q).
Proof.
  intros HP HQ. cut (∀ expr, P expr); [intros H; split; [done|]; intros q; by apply (query_children P)|].
  fix IH 1 with (IHq (q : Query Payload) {struct q} : Q q).
  - intros expr. apply HP; unfold child_exprs; destruct expr; cbn; each IH; each IHq.
    + destruct args as [|q|args]; try apply Forall_nil_2. induction args as [|arg args IHa]; [apply Forall_nil_2|]. cbn. apply Forall_app. split; [|apply IHa].
      destruct arg as [[e|]|n [e|]|n [e|]]; cbn; each IH.
    + apply Forall_app. split; [destruct operand; cbn; each IH|apply Forall_app; split; [|destruct else_result; cbn; each IH]].
      induction conditions as [|[c r] l IHl]; [apply Forall_nil_2|]. cbn. each IH. apply IHl.
    + induction items as [|e l IHl]; [apply Forall_nil_2|]. cbn. each IH. apply IHl.
    + induction children as [|e l IHl]; [apply Forall_nil_2|]. cbn. each IH. apply IHl.
    + destruct args as [|q|args]; each IHq.
  - intros q. apply HQ; destruct q as [w o l items from sel|p]; cbn [query_exprs query_queries]; try apply Forall_nil_2.
    + apply Forall_app. split; [|destruct sel; cbn; each IH].
      induction items as [|[e|e a|p] items IHi]; cbn; each IH; apply IHi.
    + induction from as [|[n|q|p] from IHf]; cbn; each IHq; apply IHf.
Qed.

Lemma Expr_child_ind (P : Expr Payload → Prop) : (∀ expr, Forall P (child_exprs expr) → P expr) → ∀ expr, P expr.
Proof. intros H. apply (Expr_Query_ind P (λ _, True)); auto. Qed.

(** Two maps that agree on the children. *)
Lemma map_with_queries_ext (f g : Expr Payload → Expr Payload) fq gq expr :
  Forall (λ e, f e = g e) (child_exprs expr) → (∀ q, fq q = gq q) → map_with_queries f fq expr = map_with_queries g gq expr.
Proof.
  intros H Hq. assert (Hl : ∀ l, Forall (λ e, f e = g e) (flat_map (λ e, [e]) l) → map f l = map g l).
  { intros l. rewrite flat_map_id. induction 1; cbn; congruence. }
  unfold child_exprs in H. destruct expr; cbn in *; decompose_Forall_hyps; try congruence.
  - destruct args as [|q|args]; [done|by rewrite Hq|]. do 2 f_equal. induction args as [|arg args IH]; [done|]. cbn in *. decompose_Forall_hyps. f_equal; [|by apply IH].
    destruct arg as [[e|]|n [e|]|n [e|]]; cbn in *; decompose_Forall_hyps; congruence.
  - f_equal; [by destruct operand; cbn in *; decompose_Forall_hyps; f_equal| |by destruct else_result; cbn in *; decompose_Forall_hyps; f_equal].
    assert (Hc : Forall (λ e, f e = g e) (flat_map (λ '(c, r), [c; r]) conditions)) by done. clear - Hc. induction conditions as [|[c r] l IHl]; [done|].
    cbn in *. decompose_Forall_hyps. rewrite IHl by done. congruence.
  - by rewrite Hl.
  - by rewrite Hl.
Qed.
Lemma child_exprs_map (f : Expr Payload → Expr Payload) fq expr : child_exprs (map_with_queries f fq expr) = map f (child_exprs expr).
Proof.
  unfold child_exprs. destruct expr; cbn; rewrite ?flat_map_id; try done.
  - destruct args as [|q|args]; try done. cbn. induction args as [|arg args IH]; [done|]. cbn. rewrite IH, map_app. f_equal.
    by destruct arg as [[e|]|n [e|]|n [e|]].
  - rewrite !map_app. f_equal; [by destruct operand|]. f_equal; [|by destruct else_result].
    induction conditions as [|[c r] l IHl]; [done|]. cbn. by rewrite IHl.
Qed.

Lemma queries_map {A} (h : Query Payload → list A) f fq expr : queries h (map_with_queries f fq expr) = queries (λ q, h (fq q)) expr.
Proof. destruct expr; try done. by destruct args. Qed.

Lemma queries_flat {A} (h : Query Payload → list A) expr : queries h expr = flat_map h (queries (λ q, [q]) expr).
Proof. destruct expr; cbn; rewrite ?app_nil_r; try done. destruct args; cbn; rewrite ?app_nil_r; done. Qed.

Lemma map_function_arg_id (arg : FunctionArg Payload) : map_function_arg id arg = arg.
Proof. by destruct arg as [[]|name []|name []]. Qed.

Lemma map_with_queries_id expr : map_with_queries id id expr = expr.
Proof.
  destruct expr; try done; cbn.
  - destruct args; try done. by rewrite (map_ext _ id map_function_arg_id), map_id.
  - f_equal; [by destruct operand| |by destruct else_result]. rewrite (map_ext _ id) by (by intros []). apply map_id.
  - by rewrite map_id.
  - by rewrite map_id.
Qed.
End Agree.

Section VisitLemmas.
Context {Payload : Type} `{PayloadVisit Payload}.
Implicit Types (expr : Expr Payload).

Lemma visited_eq expr : visited expr = visited_head expr ++ for_each_child_expr visited expr ++ queries visited_query expr ++ [expr].
Proof. destruct expr; reflexivity. Qed.

Lemma visit_mut_eq g expr : visit_mut g expr = g (mut_head g (map_with_queries (visit_mut g) (visit_query_mut g) expr)).
Proof. destruct expr; reflexivity. Qed.

Lemma visited_children (P : Expr Payload → Prop) expr :
  Forall P (visited expr) → P expr ∧ Forall (λ e, Forall P (visited e)) (child_exprs expr).
Proof.
  rewrite visited_eq, for_each_child_flat, !Forall_app. intros (_ & Hc & _ & He). split; [by apply (Forall_inv He)|].
  apply List.Forall_forall. intros e Hin. apply List.Forall_forall. intros x Hx. rewrite List.Forall_forall in Hc. apply Hc, in_flat_map. by exists e.
Qed.
End VisitLemmas.
