(* ===== verification/SqliteNames.v ===== *)
(** * The names SQLite knows

    [src/src/impls/sqlite_functions.rs]: the functions SQLite resolves, and those both
    engines or PostgreSQL alone have, looked up by binary search.  The search is the
    standard library's, so that the order of the tables is what makes a lookup
    right. *)

From S2P Require Import Prelude Text Errors Ast Exprs ExprWalk.

(** ** [slice::binary_search_by]

    [compare] places an element of the table before, at or after what is looked up. *)
Section Search.
Context {A : Type} (compare : A → comparison) (table : list A).

Definition at_index (i : nat) : option comparison := compare <$> table !! i.

Fixpoint search_loop (fuel base size : nat) : nat :=
  match fuel with
  | O => base
  | S fuel =>
      if Nat.ltb 1 size then
        let half := Nat.div size 2 in
        let mid := (base + half)%nat in
        let base := match at_index mid with Some Gt => base | _ => mid end in
        search_loop fuel base (size - half)
      else base
  end.

(** [Ok] is [inl], with the index found; [Err] is the index to insert at. *)
Definition binary_search_by : nat + nat :=
  match table with
  | [] => inr O
  | _ =>
      let base := search_loop (length table) O (length table) in
      match at_index base with Some Eq => inl base | Some Lt => inr (S base) | _ => inr base end
  end.
End Search.

Definition is_found (found : nat + nat) : bool := match found with inl _ => true | inr _ => false end.

Definition binary_search (table : list str) (name : str) : nat + nat := binary_search_by (λ entry, str_compare entry name) table.

Definition words (l : list string) : list str := map lit l.

(** ** The inventories *)

Module Functions.
Definition SQLITE_BUILTINS : list str := words [
  "abs"; "changes"; "char"; "coalesce"; "concat"; "concat_ws"; "cume_dist"; "current_date"; "current_time";
  "current_timestamp"; "date"; "datetime"; "dense_rank"; "first_value"; "format"; "glob"; "group_concat"; "hex";
  "if"; "ifnull"; "iif"; "instr"; "json"; "json_array"; "json_array_length"; "json_each"; "json_error_position";
  "json_extract"; "json_group_array"; "json_group_object"; "json_insert"; "json_object"; "json_patch"; "json_pretty";
  "json_quote"; "json_remove"; "json_replace"; "json_set"; "json_tree"; "json_type"; "json_valid"; "jsonb";
  "jsonb_array"; "jsonb_extract"; "jsonb_group_array"; "jsonb_group_object"; "jsonb_insert"; "jsonb_object";
  "jsonb_patch"; "jsonb_remove"; "jsonb_replace"; "jsonb_set"; "julianday"; "lag"; "last_insert_rowid"; "last_value";
  "lead"; "length"; "like"; "likelihood"; "likely"; "lower"; "ltrim"; "max"; "min"; "nth_value"; "ntile"; "nullif";
  "octet_length"; "percent_rank"; "printf"; "quote"; "raise"; "random"; "randomblob"; "rank"; "replace"; "round";
  "row_number"; "rtrim"; "sign"; "soundex"; "sqlite_source_id"; "sqlite_version"; "strftime"; "string_agg"; "substr";
  "substring"; "sum"; "time"; "timediff"; "total"; "total_changes"; "trim"; "typeof"; "unhex"; "unicode";
  "unixepoch"; "unlikely"; "upper"; "zeroblob"].

Definition SQLITE_AGGREGATES : list str := words [
  "avg"; "count"].

Definition TRANSLATOR_EMITTED : list str := words [
  "vec_f32"].

Definition SQLITE_MATH : list str := words [
  "acos"; "acosh"; "asin"; "asinh"; "atan"; "atan2"; "atanh"; "ceil"; "ceiling"; "cos"; "cosh"; "degrees"; "exp";
  "floor"; "ln"; "log"; "log10"; "log2"; "mod"; "pi"; "pow"; "power"; "radians"; "sin"; "sinh"; "sqrt"; "tan";
  "tanh"; "trunc"].

Definition SHARED_WITH_POSTGRES : list str := words [
  "abs"; "acos"; "acosh"; "asin"; "asinh"; "atan"; "atan2"; "atanh"; "avg"; "ceil"; "ceiling"; "coalesce"; "concat";
  "concat_ws"; "cos"; "cosh"; "count"; "cume_dist"; "current_date"; "current_time"; "current_timestamp"; "degrees";
  "dense_rank"; "exp"; "first_value"; "floor"; "lag"; "last_value"; "lead"; "length"; "ln"; "log"; "log10"; "lower";
  "mod"; "nth_value"; "ntile"; "nullif"; "octet_length"; "percent_rank"; "pi"; "pow"; "power"; "radians"; "rank";
  "replace"; "round"; "row_number"; "sign"; "sin"; "sinh"; "sqrt"; "string_agg"; "substr"; "substring"; "sum"; "tan";
  "tanh"; "trunc"; "upper"].

Definition POSTGRES_ONLY : list str := words [
  "abbrev"; "age"; "any_value"; "array_agg"; "array_append"; "array_cat"; "array_dims"; "array_fill"; "array_length";
  "array_lower"; "array_ndims"; "array_position"; "array_positions"; "array_prepend"; "array_remove";
  "array_replace"; "array_to_string"; "array_upper"; "ascii"; "bit_and"; "bit_or"; "bit_xor"; "bool_and"; "bool_or";
  "broadcast"; "btrim"; "cardinality"; "cbrt"; "char_length"; "character_length"; "chr"; "clock_timestamp";
  "col_description"; "convert"; "convert_from"; "convert_to"; "corr"; "covar_pop"; "covar_samp"; "current_database";
  "current_schema"; "current_schemas"; "currval"; "date_part"; "date_trunc"; "decode"; "div"; "encode"; "every";
  "factorial"; "family"; "gcd"; "gen_random_uuid"; "generate_series"; "greatest"; "has_column_privilege";
  "has_database_privilege"; "has_function_privilege"; "has_schema_privilege"; "has_sequence_privilege";
  "has_table_privilege"; "host"; "hostmask"; "initcap"; "isfinite"; "json_agg"; "json_agg_strict";
  "json_array_elements"; "json_array_elements_text"; "json_build_array"; "json_build_object"; "json_each_text";
  "json_extract_path"; "json_extract_path_text"; "json_object_agg"; "json_object_agg_strict";
  "json_object_agg_unique"; "json_object_agg_unique_strict"; "json_object_keys"; "json_populate_record";
  "json_strip_nulls"; "json_to_record"; "json_typeof"; "jsonb_agg"; "jsonb_agg_strict"; "jsonb_array_elements";
  "jsonb_array_elements_text"; "jsonb_array_length"; "jsonb_build_array"; "jsonb_build_object"; "jsonb_each";
  "jsonb_each_text"; "jsonb_extract_path"; "jsonb_extract_path_text"; "jsonb_object_agg"; "jsonb_object_agg_strict";
  "jsonb_object_agg_unique"; "jsonb_object_agg_unique_strict"; "jsonb_object_keys"; "jsonb_populate_record";
  "jsonb_strip_nulls"; "jsonb_to_record"; "jsonb_typeof"; "justify_days"; "justify_hours"; "justify_interval";
  "lastval"; "lcm"; "least"; "left"; "localtime"; "localtimestamp"; "lpad"; "make_date"; "make_interval";
  "make_time"; "make_timestamp"; "make_timestamptz"; "masklen"; "md5"; "mode"; "netmask"; "network"; "nextval";
  "now"; "obj_description"; "percentile_cont"; "percentile_disc"; "pg_column_size"; "pg_database_size";
  "pg_get_constraintdef"; "pg_get_expr"; "pg_get_indexdef"; "pg_get_viewdef"; "pg_relation_size"; "pg_table_size";
  "pg_tablespace_size"; "pg_total_relation_size"; "pg_typeof"; "quote_ident"; "quote_literal"; "quote_nullable";
  "range_agg"; "range_intersect_agg"; "regexp_match"; "regexp_matches"; "regexp_replace"; "regexp_split_to_array";
  "regexp_split_to_table"; "regr_avgx"; "regr_avgy"; "regr_count"; "regr_intercept"; "regr_r2"; "regr_slope";
  "regr_sxx"; "regr_sxy"; "regr_syy"; "repeat"; "reverse"; "right"; "row"; "row_to_json"; "rpad"; "set_masklen";
  "setseed"; "setval"; "shobj_description"; "split_part"; "statement_timestamp"; "stddev"; "stddev_pop";
  "stddev_samp"; "string_to_array"; "strpos"; "timeofday"; "to_char"; "to_date"; "to_json"; "to_jsonb"; "to_number";
  "to_timestamp"; "transaction_timestamp"; "translate"; "ts_rank"; "ts_rank_cd"; "unnest"; "uuidv4"; "uuidv7";
  "var_pop"; "var_samp"; "variance"; "version"; "width_bucket"; "xmlagg"].

Record NameClass := { sqlite_builtin : bool; gated_math : bool; shared_with_postgres : bool; postgres_only : bool }.

Definition is_known (self : NameClass) : bool :=
  sqlite_builtin self || gated_math self || shared_with_postgres self || postgres_only self.

Definition classify (name : str) : NameClass := {|
  sqlite_builtin :=
    is_found (binary_search SQLITE_BUILTINS name) || is_found (binary_search SQLITE_AGGREGATES name)
    || is_found (binary_search TRANSLATOR_EMITTED name);
  gated_math := is_found (binary_search SQLITE_MATH name);
  shared_with_postgres := is_found (binary_search SHARED_WITH_POSTGRES name);
  postgres_only := is_found (binary_search POSTGRES_ONLY name) |}.
End Functions.

(** ** Lemmas *)

Section SearchSpec.
Context {A : Type} (compare : A → comparison) (table : list A).
Hypothesis equal_then_greater : ∀ i j a b, (i < j)%nat → table !! i = Some a → table !! j = Some b → compare a = Eq → compare b = Gt.
Hypothesis greater_then_unequal : ∀ i j a b, (i < j)%nat → table !! i = Some a → table !! j = Some b → compare a = Gt → compare b ≠ Eq.

Lemma search_loop_finds fuel base size k :
  (size <= fuel)%nat → (1 <= size)%nat → (base <= k < base + size)%nat → (base + size <= length table)%nat →
  at_index compare table k = Some Eq → search_loop compare table fuel base size = k.
Proof.
  unfold at_index. intros Hf Hs Hk Hl He. revert base size Hf Hs Hk Hl. induction fuel as [|fuel IH]; intros base size Hf Hs Hk Hl; [lia|]. cbn [search_loop].
  destruct (Nat.ltb_spec 1 size) as [H1|H1]; [|lia]. pose proof (Nat.div_mod_eq size 2) as Hd. pose proof (Nat.mod_upper_bound size 2 ltac:(lia)) as Hm.
  destruct (lookup_lt_is_Some_2 table (base + size / 2)) as [b Hb]; [lia|]. unfold at_index. rewrite Hb. cbn [fmap option_fmap option_map].
  apply fmap_Some in He as (a & Ha & Hea).
  destruct (compare b) eqn:Eb; apply IH; try lia.
  - assert (¬ (k < base + size / 2)%nat); [|lia]. intros Hlt. pose proof (equal_then_greater _ _ _ _ Hlt Ha Hb (eq_sym Hea)). congruence.
  - assert (¬ (k < base + size / 2)%nat); [|lia]. intros Hlt. pose proof (equal_then_greater _ _ _ _ Hlt Ha Hb (eq_sym Hea)). congruence.
  - assert (¬ (base + size / 2 < k)%nat). { intros Hlt. by apply (greater_then_unequal _ _ _ _ Hlt Hb Ha Eb). }
    assert (k ≠ base + size / 2)%nat by (intros ->; congruence). lia.
Qed.

Lemma binary_search_by_found : is_found (binary_search_by compare table) = true ↔ ∃ a, a ∈ table ∧ compare a = Eq.
Proof.
  unfold binary_search_by. destruct table as [|x l] eqn:Et in |- *; [split; [done|]; intros (a & Ha & _); by apply elem_of_nil in Ha|]. rewrite <- Et.
  assert (Hlen : length table = S (length l)) by (by rewrite Et). split.
  - destruct (at_index compare table _) as [[]|] eqn:E; try done. intros _. apply fmap_Some in E as (a & Ha & He). exists a. split; [by eapply list_elem_of_lookup_2|done].
  - intros (a & Ha & He). apply list_elem_of_lookup in Ha as [k Hk].
    assert (at_index compare table k = Some Eq) as Hi by (unfold at_index; rewrite Hk; cbn; by f_equal).
    pose proof (lookup_lt_Some _ _ _ Hk). rewrite (search_loop_finds _ _ _ k) by (try done; lia). by rewrite Hi.
Qed.
End SearchSpec.

(** A table of texts in ascending order, each below all that follow it. *)
Fixpoint ascending (l : list str) : bool :=
  match l with
  | [] => true
  | a :: l => forallb (λ b, match str_compare a b with Lt => true | _ => false end) l && ascending l
  end.

Lemma str_compare_eq a b : str_compare a b = Eq ↔ a = b.
Proof.
  split; [|intros ->; apply str_compare_refl]. revert b. induction a as [|x a IH]; intros [|y b]; cbn; try done.
  destruct (Z.compare_spec x y) as [->|?|?]; try done. intros. f_equal. by apply IH.
Qed.

Lemma str_compare_flip a b : str_compare b a = CompOpp (str_compare a b).
Proof.
  revert b. induction a as [|x a IH]; intros [|y b]; cbn; try done. rewrite (Z.compare_antisym x y). destruct (x ?= y); cbn; done.
Qed.

Lemma ascending_spec l i j a b : ascending l = true → (i < j)%nat → l !! i = Some a → l !! j = Some b → str_compare a b = Lt.
Proof.
  revert i j. induction l as [|x l IH]; intros i j H Hij Ha Hb; [done|]. cbn in H. bools. destruct j as [|j]; [lia|]. destruct i as [|i]; cbn in *.
  - injection Ha as ->. rewrite forallb_forall in H. pose proof (H b (proj1 (list_elem_of_In _ _) (list_elem_of_lookup_2 _ _ _ Hb))). by destruct (str_compare a b).
  - apply (IH i j); try done. lia.
Qed.

Lemma binary_search_ascending table name :
  ascending table = true → is_found (binary_search table name) = bool_decide (name ∈ table).
Proof.
  intros H. apply Bool.eq_true_iff_eq. rewrite bool_decide_eq_true. unfold binary_search. rewrite binary_search_by_found.
  - split; [intros (a & Ha & ->%str_compare_eq); done|]. intros Hn. exists name. split; [done|]. by apply str_compare_eq.
  - intros i j a b Hij Ha Hb ->%str_compare_eq. by rewrite str_compare_flip, (ascending_spec _ _ _ _ _ H Hij Ha Hb).
  - intros i j a b Hij Ha Hb Hg ->%str_compare_eq. by rewrite (ascending_spec _ _ _ _ _ H Hij Ha Hb) in Hg.
Qed.

(** The lookups answer membership: the tables are in the order a binary search needs. *)
Lemma classify_exact name :
  let class := Functions.classify name in
  Functions.sqlite_builtin class = bool_decide (name ∈ Functions.SQLITE_BUILTINS ++ Functions.SQLITE_AGGREGATES ++ Functions.TRANSLATOR_EMITTED)
  ∧ Functions.gated_math class = bool_decide (name ∈ Functions.SQLITE_MATH)
  ∧ Functions.shared_with_postgres class = bool_decide (name ∈ Functions.SHARED_WITH_POSTGRES)
  ∧ Functions.postgres_only class = bool_decide (name ∈ Functions.POSTGRES_ONLY).
Proof.
  cbn [Functions.classify Functions.sqlite_builtin Functions.gated_math Functions.shared_with_postgres Functions.postgres_only].
  rewrite !binary_search_ascending by (by vm_compute). split_and!; try done.
  apply Bool.eq_true_iff_eq. rewrite !orb_true_iff, !bool_decide_eq_true, !elem_of_app. tauto.
Qed.

Lemma to_ascii_lowercase_twice (s : str) : to_ascii_lowercase (to_ascii_lowercase s) = to_ascii_lowercase s.
Proof. unfold to_ascii_lowercase. rewrite map_map. apply map_ext. intros c. unfold lower_char, is_ascii_uppercase. repeat case_match; lia. Qed.

(** A boolean property of the names of a table. *)
Lemma table_all (f : str → bool) (table : list str) name :
  forallb (λ entry, negb (f entry)) table = true → name ∈ table → f name = false.
Proof. rewrite forallb_forall. intros Hf Hin%list_elem_of_In. by apply negb_true_iff, Hf. Qed.

Definition sqlite_has (name : str) : bool :=
  bool_decide (name ∈ Functions.SQLITE_BUILTINS ++ Functions.SQLITE_AGGREGATES ++ Functions.TRANSLATOR_EMITTED)
  || bool_decide (name ∈ Functions.SQLITE_MATH).

(** C32 (function inventories).  A name is classified by membership in the tables, which
    are in the order their binary search needs; and the classes are consistent: a name
    said to be shared with PostgreSQL is one SQLite has, built in or with its
    mathematical functions, and a name said to be PostgreSQL's alone is in no other
    table. *)
Theorem classify_consistent name :
  let class := Functions.classify name in
  Functions.sqlite_builtin class = bool_decide (name ∈ Functions.SQLITE_BUILTINS ++ Functions.SQLITE_AGGREGATES ++ Functions.TRANSLATOR_EMITTED)
  ∧ Functions.gated_math class = bool_decide (name ∈ Functions.SQLITE_MATH)
  ∧ Functions.shared_with_postgres class = bool_decide (name ∈ Functions.SHARED_WITH_POSTGRES)
  ∧ Functions.postgres_only class = bool_decide (name ∈ Functions.POSTGRES_ONLY)
  ∧ Functions.shared_with_postgres class && negb (Functions.sqlite_builtin class || Functions.gated_math class) = false
  ∧ Functions.postgres_only class
    && (Functions.sqlite_builtin class || Functions.gated_math class || Functions.shared_with_postgres class) = false.
Proof.
  intros class. destruct (classify_exact name) as (Hb & Hm & Hs & Hp). fold class in Hb, Hm, Hs, Hp.
  rewrite Hb, Hm, Hs, Hp. do 4 (split; [reflexivity|]). split.
  - destruct (bool_decide (name ∈ Functions.SHARED_WITH_POSTGRES)) eqn:Hin; [|reflexivity]. apply bool_decide_eq_true in Hin.
    refine (table_all (λ name, negb (sqlite_has name)) _ name _ Hin). vm_compute. reflexivity.
  - destruct (bool_decide (name ∈ Functions.POSTGRES_ONLY)) eqn:Hin; [|reflexivity]. apply bool_decide_eq_true in Hin.
    refine (table_all (λ name, sqlite_has name || bool_decide (name ∈ Functions.SHARED_WITH_POSTGRES)) _ name _ Hin). vm_compute. reflexivity.
Qed.
