(* ===== verification/Names.v ===== *)
(** * Object names and identifiers

    [src/src/impls/object_name.rs].  The schema catalogue of the crate sql_traits
    is the parameter record [Catalogue]; the printing of names is sqlparser's. *)

From S2P Require Import Prelude Text Errors Ast Exprs.

(** What the sources ask sqlparser and sql_traits. *)
Class Library (Payload Schema Table : Type) := {
  name_to_string : ObjectName Payload → str;
  ident_to_string : Ident → str;
  (* identifiers_match: a stored name and whether it was quoted, against a written one *)
  identifiers_match : str → bool → str → bool → bool;
  resolve_schema_ident : Schema → Ident → bool;
  resolve_table_object_name : Schema → ObjectName Payload → result Error (option Table);
  has_row_level_security : Schema → Table → result Error bool
}.

Section Names.
Context {Payload Schema Table : Type} `{Library Payload Schema Table}.
Implicit Types (name : ObjectName Payload) (schema : Schema).

Definition catalog_name (ident : Ident) : option str :=
  let lowered := to_ascii_lowercase (value ident) in
  if is_some (quote_style ident) && negb (str_eqb (value ident) lowered) then None else Some lowered.

Definition last_catalog_name name : option str := last_ident name ≫= catalog_name.

Definition postgres_catalog_function_name name : option str :=
  function ← last_ident name ≫= catalog_name;
  match name with
  | [_] => Some function
  | [schema; _] =>
      match as_ident schema ≫= catalog_name with
      | Some schema => if str_eqb schema (lit "pg_catalog") then Some function else None
      | None => None
      end
  | _ => None
  end.

Definition last_ident_value_or_display name : str :=
  match last_ident name with Some ident => value ident | None => name_to_string name end.

(** [append_suffix]. *)
Fixpoint append_suffix name (suffix : str) : ObjectName Payload :=
  match name with
  | [] => []
  | [Identifier ident] =>
      [Identifier {| value := value ident ++ suffix; quote_style := quote_style ident |}]
  | part :: rest => part :: append_suffix rest suffix
  end.

Definition fts_table_name (base : str) : str := base ++ lit "_fts".

(** [sync_trigger_name]; a truncate event does not reach it. *)
Definition sync_trigger_name (shadow_table : str) (event : TriggerEvent) : option str :=
  suffix ← match event with
           | EvInsert => Some (lit "ai")
           | EvDelete => Some (lit "ad")
           | EvUpdate _ => Some (lit "au")
           | EvTruncate => None
           end;
  Some (shadow_table ++ lit "_" ++ suffix).

Definition sqlite_unqualified_object_name name : ObjectName Payload :=
  match last name with Some part => [part] | None => name end.

Definition unsupported_schema_qualification name (reason : str) : Error :=
  UnsupportedSchemaQualification (name_to_string name) reason.

Record SchemaQualifiedNameParts := {
  explicit_schema : option Ident;
  object_part : ObjectNamePart Payload
}.

Definition parse_schema_qualified_name_parts name : result Error SchemaQualifiedNameParts :=
  match name with
  | [object] =>
      _ ← ok_or (as_ident object)
            (unsupported_schema_qualification name (lit "table segment must be an identifier"));
      Ok {| explicit_schema := None; object_part := object |}
  | [schema; object] =>
      schema_ident ← ok_or (as_ident schema)
        (unsupported_schema_qualification name (lit "schema segment must be an identifier"));
      _ ← ok_or (as_ident object)
            (unsupported_schema_qualification name (lit "table segment must be an identifier"));
      Ok {| explicit_schema := Some schema_ident; object_part := object |}
  | _ => Err (unsupported_schema_qualification name
                (lit "object names with more than two parts are not supported"))
  end.

Definition schema_resolves schema (schema_name : Ident) : bool :=
  identifiers_match (lit "public") false (value schema_name) (is_some (quote_style schema_name))
  || resolve_schema_ident schema schema_name.

Definition ensure_schema_resolves schema name (explicit_schema : option Ident) : result Error unit :=
  match explicit_schema with
  | Some schema_name =>
      if negb (schema_resolves schema schema_name) then
        Err (unsupported_schema_qualification name
          (lit "schema '" ++ ident_to_string schema_name
           ++ lit "' does not resolve in the translation schema"))
      else Ok tt
  | None => Ok tt
  end.

Definition validate_schema_qualified_object_name_for_sqlite schema name : result Error unit :=
  parts ← parse_schema_qualified_name_parts name;
  ensure_schema_resolves schema name (explicit_schema parts).

Definition normalize_schema_qualified_object_name_for_sqlite schema name
    : result Error (ObjectName Payload) :=
  parts ← parse_schema_qualified_name_parts name;
  _ ← ensure_schema_resolves schema name (explicit_schema parts);
  Ok [object_part parts].

Definition resolve_translation_table schema name : result Error (option Table) :=
  _ ← validate_schema_qualified_object_name_for_sqlite schema name;
  resolve_table_object_name schema name.

Definition translation_table_has_rls schema name : result Error bool :=
  table ← resolve_translation_table schema name;
  match table with Some table => has_row_level_security schema table | None => Ok false end.
End Names.

(** ** Quoting *)

Definition is_ascii_alphanumeric (c : Z) : bool := is_ascii_alphabetic c || is_ascii_digit c.
Definition is_word_start (c : Z) : bool := (c =? 95) || is_ascii_alphabetic c.
Definition is_word_char (c : Z) : bool := (c =? 95) || is_ascii_alphanumeric c.

(** The replacement of every double quote by two. *)
Fixpoint double_quotes (s : str) : str :=
  match s with
  | [] => []
  | c :: s => if c =? 34 then 34 :: 34 :: double_quotes s else c :: double_quotes s
  end.

Definition quote_identifier (name : str) : str :=
  let is_simple := match name with
                   | first :: rest => is_word_start first && forallb is_word_char rest
                   | [] => false
                   end in
  if is_simple then name else [34] ++ double_quotes name ++ [34].

Definition quoted_ident (name : str) : Ident :=
  if str_eqb (quote_identifier name) name then Ident_new name else Ident_with_quote 34 name.

Lemma value_quoted_ident (name : str) : value (quoted_ident name) = name.
Proof. unfold quoted_ident. by destruct (str_eqb _ _). Qed.

(** The identifier at the start of SQL text, and what follows it: a word, or a
    run in double quotes in which a doubled quote stands for one. *)
Fixpoint read_quoted (s : str) : option (str * str) :=
  match s with
  | [] => None
  | c :: s =>
      if c =? 34 then
        match s with
        | c' :: s' => if c' =? 34 then '(name, rest) ← read_quoted s'; Some (34 :: name, rest)
                      else Some ([], s)
        | [] => Some ([], [])
        end
      else '(name, rest) ← read_quoted s; Some (c :: name, rest)
  end.

Fixpoint read_word (s : str) : str * str :=
  match s with
  | c :: s' => if is_word_char c then let '(w, rest) := read_word s' in (c :: w, rest) else ([], s)
  | [] => ([], [])
  end.

Definition read_identifier (s : str) : option (str * str) :=
  match s with
  | c :: s' => if c =? 34 then read_quoted s'
               else if is_word_start c then Some (read_word s) else None
  | [] => None
  end.

(** ** Reading a quoted name back *)

(** What may follow an identifier without becoming part of it. *)
Definition ends_identifier (rest : str) : Prop :=
  match rest with c :: _ => is_word_char c = false ∧ c ≠ 34 | [] => True end.

Lemma read_quoted_double s rest :
  ends_identifier rest → read_quoted (double_quotes s ++ 34 :: rest) = Some (s, rest).
Proof.
  intros Hr. induction s as [|c s IH]; cbn [double_quotes app read_quoted].
  - rewrite Z.eqb_refl. destruct rest as [|c rest]; [done|]. destruct Hr as [_ Hne].
    by replace (c =? 34) with false by lia.
  - destruct (Z.eqb_spec c 34) as [->|Hne]; cbn [app read_quoted].
    + rewrite !Z.eqb_refl. by rewrite IH.
    + replace (c =? 34) with false by lia. by rewrite IH.
Qed.

Lemma read_word_app w rest :
  forallb is_word_char w = true → ends_identifier rest → read_word (w ++ rest) = (w, rest).
Proof.
  intros Hw Hr. induction w as [|c w IH]; cbn [app read_word].
  - destruct rest as [|c rest]; [done|]. cbn. by destruct Hr as [-> _].
  - cbn in Hw. bools. rewrite IH by done. by replace (is_word_char c) with true.
Qed.

Lemma word_start_char c : is_word_start c = true → is_word_char c = true.
Proof. unfold is_word_start, is_word_char, is_ascii_alphanumeric. destruct (_ =? _), (is_ascii_alphabetic c); done. Qed.

(** Quoted identifiers.  Whatever the name, the identifier
    [quote_identifier] writes is read back as that name and ends where it was
    written to end, whatever follows it that is not a word character or a quote;
    so two names never share a spelling. *)
Lemma quote_identifier_reads_back name rest :
  ends_identifier rest → read_identifier (quote_identifier name ++ rest) = Some (name, rest).
Proof.
  intros Hr. unfold quote_identifier. destruct (match name with [] => _ | _ => _ end) eqn:E.
  - destruct name as [|c w]; [done|]. bools. cbn [app read_identifier].
    assert (c ≠ 34) by (intros ->; done). replace (c =? 34) with false by lia.
    replace (is_word_start c) with true by done.
    change (c :: w ++ rest) with ((c :: w) ++ rest). rewrite read_word_app; [done| |done].
    cbn. rewrite word_start_char by done. done.
  - cbn [app read_identifier]. rewrite Z.eqb_refl, <- app_assoc. by apply read_quoted_double.
Qed.

Lemma quote_identifier_reads_back_witness :
  quote_identifier [97; 34; 98] = [34; 97; 34; 34; 98; 34]
  ∧ read_identifier (quote_identifier [97; 34; 98] ++ lit " (id)") = Some ([97; 34; 98], lit " (id)").
Proof. split; [reflexivity|]. apply quote_identifier_reads_back. split; [reflexivity|discriminate]. Defined.

(** ** Normalised names *)

Section Normalised.
Context {Payload Schema Table : Type} `{Library Payload Schema Table}.

(** Names in SQLite's shape.  A name is normalised to its last part exactly
    when it has one or two identifier parts and the schema, where one is written,
    resolves; every other name is refused as an unsupported qualification. *)
Lemma normalized_name_spec (schema : Schema) (name : ObjectName Payload) :
  match normalize_schema_qualified_object_name_for_sqlite schema name with
  | Ok normalized =>
      ∃ ident, normalized = [Identifier ident] ∧ last_ident name = Some ident
      ∧ (name = [Identifier ident]
         ∨ ∃ schema_name, name = [Identifier schema_name; Identifier ident]
             ∧ schema_resolves schema schema_name = true)
  | Err error =>
      (∃ reason, error = UnsupportedSchemaQualification (name_to_string name) reason)
      ∧ ¬ (∃ ident, name = [Identifier ident])
      ∧ ¬ (∃ s ident, name = [Identifier s; Identifier ident] ∧ schema_resolves schema s = true)
  end.
Proof.
  unfold normalize_schema_qualified_object_name_for_sqlite, parse_schema_qualified_name_parts,
    unsupported_schema_qualification.
  destruct name as [|[i|f] [|[j|g] [|k name]]]; cbn -[schema_resolves];
    try (split_and!; [by eexists | by intros [? ?] | by intros (? & ? & ? & ?)]; fail).
  - eexists; eauto.
  - destruct (schema_resolves schema i) eqn:E; cbn.
    + exists j. split_and!; [done..|]. right. eauto.
    + split_and!; [by eexists | by intros [? ?] |]. intros (s & x & [= <- <-] & Hs). congruence.
Qed.
End Normalised.
