(* ===== verification/SqliteEval.v ===== *)
(** * What SQLite answers for the expressions the code emits

    The reading side of the expressions built in [src/src/impls/translator_impls/data_type.rs],
    [uuid.rs] beside it and [src/src/impls/shared_helpers.rs]: SQLite's 64-bit integer arithmetic, its
    comparisons and [BETWEEN] with three-valued logic, [CASE], scalar subqueries that
    read nothing, the functions [length], [abs], [sign], [printf], [replace], [unhex]
    and [coalesce], and those the application registers, over columns that hold
    integers, text, blobs or NULL.  [None] is an
    expression outside this fragment, a real number among them: an integer
    operation that leaves 64 bits becomes one.  The last part is the grammar: a
    tree is printed without parentheses of its own, and [reread] is the tree
    SQLite's precedences make of the text. *)

From S2P Require Import Prelude Text Utf8 Errors Ast Exprs.

Inductive SqlValue := SqlNull | SqlInt (z : Z) | SqlText (s : str) | SqlBlob (bytes : list Z).
#[global] Instance SqlValue_eq_dec : EqDecision SqlValue.
Proof. solve_decision. Defined.

Definition in_i64 (z : Z) : bool := (i64_min <=? z) && (z <=? i64_max).
Definition sql_int (z : Z) : option SqlValue := if in_i64 z then Some (SqlInt z) else None.
Definition sql_bool (b : bool) : SqlValue := SqlInt (if b then 1 else 0).

(** ** GLOB

    SQLite's patterns: [*], [?] and sets of single characters, which a caret
    negates.  Ranges are outside the fragment. *)
Inductive GlobToken := GStar | GAny | GSet (negated : bool) (members : list Z) | GChar (c : Z).

(** The state inside a set: whether it is negated, its members so far. *)
Fixpoint glob_tokens (set : option (bool * list Z)) (p : str) : option (list GlobToken) :=
  match p, set with
  | [], None => Some []
  | [], Some _ => None
  | c :: p, Some (negated, members) =>
      if (c =? 94) && negb negated && bool_decide (members = []) then glob_tokens (Some (true, [])) p
      else if (c =? 93) && negb (bool_decide (members = [])) then cons (GSet negated members) <$> glob_tokens None p
      else if c =? 45 then None
      else glob_tokens (Some (negated, members ++ [c])) p
  | c :: p, None =>
      if c =? 42 then cons GStar <$> glob_tokens None p
      else if c =? 63 then cons GAny <$> glob_tokens None p
      else if c =? 91 then glob_tokens (Some (false, [])) p
      else cons (GChar c) <$> glob_tokens None p
  end.

Definition glob_char (t : GlobToken) (c : Z) : bool :=
  match t with
  | GStar => false
  | GAny => true
  | GSet negated members => xorb negated (char_in members c)
  | GChar x => x =? c
  end.

Fixpoint glob (tokens : list GlobToken) : str → bool :=
  match tokens with
  | [] => λ s, negb (is_nonempty s)
  | GStar :: tokens =>
      fix star s := glob tokens s || match s with [] => false | _ :: s => star s end
  | t :: tokens => λ s, match s with c :: s => glob_char t c && glob tokens s | [] => false end
  end.

Definition sql_glob (text pattern : str) : option bool := (λ tokens, glob tokens text) <$> glob_tokens None pattern.

(** ** printf

    The directives [%s], [%d] and [%0Nd]; inside a directive the state is the
    width so far, with whether a zero opened it. *)
Definition pad_to (w : Z) (s : str) : str := replicate (Z.to_nat w - length s) 48 ++ s.

Fixpoint sql_printf (directive : option (option Z)) (fmt : str) (args : list SqlValue) : option str :=
  match fmt, directive with
  | [], None => match args with [] => Some [] | _ => None end
  | [], Some _ => None
  | c :: fmt, None => if c =? 37 then sql_printf (Some None) fmt args else cons c <$> sql_printf None fmt args
  | c :: fmt, Some width =>
      if is_ascii_digit c then
        match width with
        | None => if c =? 48 then sql_printf (Some (Some 0)) fmt args else None
        | Some w => sql_printf (Some (Some (w * 10 + (c - 48)))) fmt args
        end
      else
        match args with
        | SqlText s :: args => if (c =? 115) && negb (is_some width) then app s <$> sql_printf None fmt args else None
        | SqlInt z :: args =>
            if (c =? 100) && match width with Some _ => 0 <=? z | None => true end
            then app (match width with Some w => pad_to w (dec z) | None => dec_signed z end) <$> sql_printf None fmt args
            else None
        | _ => None
        end
  end.

(** ** Hexadecimal and replacement *)

Definition hex_value (c : Z) : Z := if c <=? 57 then c - 48 else if c <=? 70 then c - 55 else c - 87.

Fixpoint hex_bytes (s : str) : option (list Z) :=
  match s with
  | [] => Some []
  | a :: b :: s =>
      if is_ascii_hexdigit a && is_ascii_hexdigit b then cons (hex_value a * 16 + hex_value b) <$> hex_bytes s else None
  | [_] => None
  end.

(** Every occurrence of a pattern, left to right; the characters of the one just
    found are skipped. *)
Fixpoint replace_all (skip : nat) (pattern replacement s : str) : str :=
  match s with
  | [] => []
  | c :: s' =>
      match skip with
      | S skip => replace_all skip pattern replacement s'
      | O => if starts_with pattern s then replacement ++ replace_all (pred (length pattern)) pattern replacement s'
             else c :: replace_all O pattern replacement s'
      end
  end.

(** ** Expressions *)

(** SQLite's [length] counts the characters of a text before its first NUL. *)
Fixpoint before_nul (s : str) : str := match s with [] => [] | c :: s => if c =? 0 then [] else c :: before_nul s end.

Definition sql_length (v : SqlValue) : SqlValue :=
  match v with
  | SqlNull => SqlNull
  | SqlInt z => SqlInt (Z.of_nat (length (dec_signed z)))
  | SqlText s => SqlInt (Z.of_nat (length (before_nul s)))
  | SqlBlob bytes => SqlInt (Z.of_nat (length bytes))
  end.

(** An operation on integers, NULL with a NULL operand. *)
Definition on_ints (f : Z → Z → option SqlValue) (a b : SqlValue) : option SqlValue :=
  match a, b with
  | SqlNull, (SqlNull | SqlInt _) | SqlInt _, SqlNull => Some SqlNull
  | SqlInt x, SqlInt y => f x y
  | _, _ => None
  end.

Definition sql_compare (f : Z → Z → bool) : SqlValue → SqlValue → option SqlValue :=
  on_ints (λ x y, Some (sql_bool (f x y))).

(** Three-valued conjunction and negation. *)
Definition sql_and (a b : SqlValue) : option SqlValue :=
  match a, b with
  | SqlInt 0, (SqlInt _ | SqlNull) | (SqlInt _ | SqlNull), SqlInt 0 => Some (sql_bool false)
  | SqlInt _, SqlInt _ => Some (sql_bool true)
  | SqlNull, (SqlInt _ | SqlNull) | SqlInt _, SqlNull => Some SqlNull
  | _, _ => None
  end.
Definition sql_or (a b : SqlValue) : option SqlValue :=
  match a, b with
  | SqlInt x, SqlInt y => Some (sql_bool (negb (x =? 0) || negb (y =? 0)))
  | SqlInt x, SqlNull | SqlNull, SqlInt x => Some (if x =? 0 then SqlNull else sql_bool true)
  | SqlNull, SqlNull => Some SqlNull
  | _, _ => None
  end.
Definition sql_not (a : SqlValue) : option SqlValue :=
  match a with SqlInt z => Some (sql_bool (z =? 0)) | SqlNull => Some SqlNull | _ => None end.

(** [=] and [IS]: two values of different types are outside the fragment, as the
    affinities of their columns decide. *)
Definition sql_same (a b : SqlValue) : option bool :=
  match a, b with
  | SqlNull, SqlNull => Some true
  | SqlNull, _ | _, SqlNull => Some false
  | SqlInt x, SqlInt y => Some (x =? y)
  | SqlText x, SqlText y => Some (str_eqb x y)
  | SqlBlob x, SqlBlob y => Some (bool_decide (x = y))
  | _, _ => None
  end.
Definition sql_equal (a b : SqlValue) : option SqlValue :=
  match a, b with SqlNull, _ | _, SqlNull => Some SqlNull | _, _ => sql_bool <$> sql_same a b end.

Definition is_true (v : SqlValue) : option bool :=
  match v with SqlInt z => Some (negb (z =? 0)) | SqlNull => Some false | _ => None end.

Fixpoint coalesce_values (args : list SqlValue) : SqlValue :=
  match args with [] => SqlNull | SqlNull :: args => coalesce_values args | v :: _ => v end.

(** What an expression finds beside the bare columns: the rows a trigger names [NEW]
    and [OLD], and the functions the application registers. *)
Class Runtime := {
  named_row : str → option (str → SqlValue);
  host_function : str → list SqlValue → option SqlValue
}.
#[export] Instance no_runtime : Runtime | 100 := {| named_row := λ _, None; host_function := λ _ _, None |}.

Section Eval.
Context {Payload : Type} {runtime : Runtime}.

Definition binary (op : BinaryOperator Payload) (a b : SqlValue) : option SqlValue :=
  match op with
  | BPlus => on_ints (λ x y, sql_int (x + y)) a b
  | BMinus => on_ints (λ x y, sql_int (x - y)) a b
  | BMultiply => on_ints (λ x y, sql_int (x * y)) a b
  | BDivide => on_ints (λ x y, if y =? 0 then Some SqlNull else sql_int (x ÷ y)) a b
  | BModulo => on_ints (λ x y, if y =? 0 then Some SqlNull else sql_int (x %% y)) a b
  | BLt => sql_compare Z.ltb a b
  | BLtEq => sql_compare Z.leb a b
  | BEq => sql_equal a b
  | BAnd => sql_and a b
  | BOr => sql_or a b
  | BGlob =>
      match a, b with
      | SqlNull, SqlText _ => Some SqlNull
      | SqlText s, SqlText p => sql_bool <$> sql_glob s p
      | _, _ => None
      end
  | _ => None
  end.

Definition call (name : str) (args : list SqlValue) : option SqlValue :=
  let name := to_ascii_lowercase name in
  if str_eqb name (lit "length") then match args with [v] => Some (sql_length v) | _ => None end
  else if str_eqb name (lit "abs") then
    match args with [SqlInt z] => sql_int (Z.abs z) | [SqlNull] => Some SqlNull | _ => None end
  else if str_eqb name (lit "sign") then
    match args with [SqlInt z] => Some (SqlInt (Z.sgn z)) | [SqlNull] => Some SqlNull | _ => None end
  else if str_eqb name (lit "printf") then
    match args with SqlText fmt :: args => SqlText <$> sql_printf None fmt args | _ => None end
  else if str_eqb name (lit "replace") then
    match args with
    | [SqlText s; SqlText pattern; SqlText replacement] =>
        Some (SqlText (if is_nonempty pattern then replace_all O pattern replacement s else s))
    | [SqlNull; SqlText _; SqlText _] => Some SqlNull
    | _ => None
    end
  else if str_eqb name (lit "unhex") then
    match args with
    | [SqlText s] => Some match hex_bytes s with Some bytes => SqlBlob bytes | None => SqlNull end
    | [SqlNull] => Some SqlNull
    | _ => None
    end
  else if str_eqb name (lit "coalesce") then
    match args with _ :: _ :: _ => Some (coalesce_values args) | _ => None end
  else host_function name args.

(** The columns a derived table gives hide those around it. *)
Fixpoint bind_columns (columns : list (str * SqlValue)) (env : str → SqlValue) : str → SqlValue :=
  match columns with
  | [] => env
  | (column, v) :: columns => λ c, if str_eqb c column then v else bind_columns columns env c
  end.

Fixpoint eval (env : str → SqlValue) (e : Expr Payload) : option SqlValue :=
  match e with
  | EIdentifier ident => Some (env (value ident))
  | EValue (Number digits _) => SqlInt <$> parse_i64 digits
  | EValue (SingleQuotedString s) => Some (SqlText s)
  | EValue ValueNull => Some SqlNull
  | EValue (ValueBoolean b) => Some (sql_bool b)
  | ENested e => eval env e
  | EUnaryOp UPlus e => eval env e
  | EUnaryOp UMinus e => v ← eval env e; on_ints (λ x y, sql_int (x - y)) (SqlInt 0) v
  | EUnaryOp UNot e => v ← eval env e; sql_not v
  | EBinaryOp a op b => x ← eval env a; y ← eval env b; binary op x y
  | EBetween e negated low high =>
      v ← eval env e; l ← eval env low; h ← eval env high;
      above ← sql_compare Z.leb l v; below ← sql_compare Z.leb v h;
      r ← sql_and above below; if negated : bool then sql_not r else Some r
  | ECompoundIdentifier [row; column] => r ← named_row (value row); Some (r (value column))
  | EIsNull e => v ← eval env e; Some (sql_bool (bool_decide (v = SqlNull)))
  | EIsNotNull e => v ← eval env e; Some (sql_bool (negb (bool_decide (v = SqlNull))))
  | EIsTrue e => v ← eval env e; sql_bool <$> is_true v
  | EIsNotTrue e => v ← eval env e; sql_bool <$> (negb <$> is_true v)
  | EIsDistinctFrom a b => x ← eval env a; y ← eval env b; sql_bool <$> (negb <$> sql_same x y)
  | EIsNotDistinctFrom a b => x ← eval env a; y ← eval env b; sql_bool <$> sql_same x y
  | ECase None conditions else_result =>
      (fix arms (conditions : list (Expr Payload * Expr Payload)) : option SqlValue :=
        match conditions with
        | [] => match else_result with Some e => eval env e | None => Some SqlNull end
        | (c, r) :: conditions => v ← eval env c; b ← is_true v; if b : bool then eval env r else arms conditions
        end) conditions
  | EFunction name (ListArguments args) =>
      values ← (fix values (args : list (FunctionArg Payload)) : option (list SqlValue) :=
        match args with
        | [] => Some []
        | Unnamed (ArgExpr e) :: args => v ← eval env e; vs ← values args; Some (v :: vs)
        | _ => None
        end) args;
      match name with [Identifier ident] => call (value ident) values | _ => None end
  | ESubquery (SelectQuery None None None [UnnamedExpr e] [] None) => eval env e
  | ESubquery (SelectQuery None None None [UnnamedExpr e] [FromDerived (SelectQuery None None None items [] None)] None) =>
      columns ← (fix columns (items : list (SelectItem Payload)) : option (list (str * SqlValue)) :=
        match items with
        | [] => Some []
        | ExprWithAlias e alias :: items => v ← eval env e; rest ← columns items; Some ((value alias, v) :: rest)
        | _ => None
        end) items;
      eval (bind_columns columns env) e
  | ECast e (DataInteger None) => v ← eval env e; match v with SqlInt _ | SqlNull => Some v | _ => None end
  | _ => None
  end.

(** A CHECK refuses a row only when it answers false: NULL passes. *)
Definition check_holds (env : str → SqlValue) (e : Expr Payload) : option bool :=
  match eval env e with
  | Some (SqlInt z) => Some (negb (z =? 0))
  | Some SqlNull => Some true
  | _ => None
  end.

(** Calls of the helper [simple_function_expr]. *)
Lemma eval_simple_function1 env name a :
  eval env (simple_function_expr name [a]) = (x ← eval env a; call name [x]).
Proof. cbn. by destruct (eval env a). Qed.

Lemma eval_simple_function3 env name a b c :
  eval env (simple_function_expr name [a; b; c]) = (x ← eval env a; y ← eval env b; z ← eval env c; call name [x; y; z]).
Proof. cbn. destruct (eval env a); [|done]. cbn. destruct (eval env b); [|done]. cbn. by destruct (eval env c). Qed.

Lemma eval_simple_function4 env name a b c d :
  eval env (simple_function_expr name [a; b; c; d]) =
  (w ← eval env a; x ← eval env b; y ← eval env c; z ← eval env d; call name [w; x; y; z]).
Proof. cbn. destruct (eval env a); [|done]. cbn. destruct (eval env b); [|done]. cbn. destruct (eval env c); [|done]. cbn. by destruct (eval env d). Qed.

Lemma eval_integer env z : i64_min <= z <= i64_max → eval env (number_literal (dec_signed z)) = Some (SqlInt z).
Proof.
  intros Hz. change (eval env (number_literal (dec_signed z))) with (SqlInt <$> parse_i64 (dec_signed z)).
  pose proof (integer_literal_reads (Payload := Payload) z Hz) as H. cbn in H. by rewrite H.
Qed.

(** [low <= column <= high], where NULL passes. *)
Lemma check_between env ident low high :
  i64_min <= low <= i64_max → i64_min <= high <= i64_max →
  check_holds env (EBetween (EIdentifier ident) false (number_literal (dec_signed low)) (number_literal (dec_signed high))) =
  match env (value ident) with
  | SqlNull => Some true
  | SqlInt z => Some ((low <=? z) && (z <=? high))
  | _ => None
  end.
Proof.
  intros Hl Hh. unfold check_holds. cbn [eval]. fold (eval env (number_literal (dec_signed low))).
  change (SqlInt <$> parse_i64 (dec_signed low)) with (eval env (number_literal (dec_signed low))).
  change (SqlInt <$> parse_i64 (dec_signed high)) with (eval env (number_literal (dec_signed high))).
  rewrite !eval_integer by done. cbn. destruct (env (value ident)) as [|z|s|b]; cbn; try done.
  by destruct (low <=? z), (z <=? high).
Qed.
End Eval.

(** ** GLOB over the digits of a bit string *)

Lemma glob_star tokens s : glob (GStar :: tokens) s = true ↔ ∃ a b, s = a ++ b ∧ glob tokens b = true.
Proof.
  induction s as [|c s IH]; cbn.
  - rewrite orb_false_r. split; [intros H; by exists [], []|]. intros (a & b & Hab & Hb). by destruct a, b.
  - cbn in IH. rewrite orb_true_iff, IH. split.
    + intros [H|(a & b & -> & Hb)]; [by exists [], (c :: s)|by exists (c :: a), b].
    + intros (a & b & Hab & Hb). destruct a as [|c' a]; cbn in Hab; [left; by rewrite Hab|right]. injection Hab as -> ->. by exists a, b.
Qed.

(** A text matches star, a negated set, star when some character is outside the set. *)
Lemma glob_outside members s :
  glob [GStar; GSet true members; GStar] s = existsb (λ c, negb (char_in members c)) s.
Proof.
  apply Bool.eq_true_iff_eq. rewrite glob_star, existsb_exists. split.
  - intros (a & b & -> & Hb). destruct b as [|c b]; [done|]. cbn [glob glob_char] in Hb. bools. exists c.
    split; [apply in_or_app; right; by left|]. destruct (char_in members c); done.
  - intros (c & Hc & Hn). apply in_split in Hc as (a & b & ->). exists a, (c :: b). split; [done|].
    cbn [glob glob_char]. apply negb_true_iff in Hn. rewrite Hn. cbn. destruct b; [done|]. apply orb_true_iff. right.
    assert (Hstar : ∀ s, glob [GStar] s = true).
    { intros t. apply glob_star. exists t, []. by rewrite app_nil_r. }
    apply (Hstar (b)).
Qed.

(** ** The text of an expression read back

    The syntax library prints an operation as its operands around the operator, so
    only an [ENested] node puts parentheses in the text.  SQLite reads the text by
    its precedences, operators of one level from the left. *)
Section Grammar.
Context {Payload : Type}.
Implicit Types (e : Expr Payload) (op : BinaryOperator Payload).

Definition precedence op : Z :=
  match op with
  | BStringConcat => 5
  | BMultiply | BDivide | BModulo => 4
  | BPlus | BMinus => 3
  | BLt | BLtEq => 2
  | BEq | BGlob | BOther _ => 1
  | BAnd => 0
  | BOr => -1
  end.

(** The operands of a chain of operators, as they are printed. *)
Fixpoint operands e : Expr Payload * list (BinaryOperator Payload * Expr Payload) :=
  match e with
  | EBinaryOp a op b =>
      let '(first, rest) := operands a in
      let '(first', rest') := operands b in
      (first, rest ++ (op, first') :: rest')
  | _ => (e, [])
  end.

(** The pending operators bind ever tighter from the bottom of the stack. *)
Fixpoint reduce (least : Z) (stack : list (Expr Payload * BinaryOperator Payload)) e : list (Expr Payload * BinaryOperator Payload) * Expr Payload :=
  match stack with
  | (a, op) :: stack' => if least <=? precedence op then reduce least stack' (EBinaryOp a op e) else (stack, e)
  | [] => ([], e)
  end.

Fixpoint climb (stack : list (Expr Payload * BinaryOperator Payload)) e (rest : list (BinaryOperator Payload * Expr Payload)) : Expr Payload :=
  match rest with
  | [] => snd (reduce (-1) stack e)
  | (op, e') :: rest => let '(stack, e) := reduce (precedence op) stack e in climb ((e, op) :: stack) e' rest
  end.

Definition read_chain e : Expr Payload := let '(first, rest) := operands e in climb [] first rest.

(** Inside out: the operands are read back, then the chain they stand in. *)
Fixpoint reread e : Expr Payload :=
  match e with
  | EBinaryOp a op b => read_chain (EBinaryOp (reread a) op (reread b))
  | ENested e => ENested (reread e)
  | EFunction name (ListArguments args) =>
      EFunction name (ListArguments ((fix go (args : list (FunctionArg Payload)) :=
        match args with
        | [] => []
        | Unnamed (ArgExpr e) :: args => Unnamed (ArgExpr (reread e)) :: go args
        | arg :: args => arg :: go args
        end) args))
  | ECast e t => ECast (reread e) t
  | _ => e
  end.

(** What an operator of level [least] can take as an operand without parentheses. *)
Definition binds least e : bool := match e with EBinaryOp _ op _ => least <=? precedence op | _ => true end.
End Grammar.
