(* ===== verification/DataTypes.v ===== *)
(** * Column types

    [src/src/impls/translator_impls/data_type.rs]: the SQLite type of a PostgreSQL
    column, and the [CHECK] expressions that keep the bounds PostgreSQL enforces
    through the declared type, as [column.rs] collects them.  The printing of types
    and names is sqlparser's. *)

From S2P Require Import Prelude Text Errors Ast Exprs Names SqliteEval.

(** [traits/translation_options.rs], as far as storage goes. *)
Inductive UuidRepresentation := UuidBlob | UuidText.
Inductive ArrayRepresentation := ArrayJson.
Record StorageOptions := {
  uuid_representation : option UuidRepresentation;
  array_representation : option ArrayRepresentation;
  uuid_text_to_blob_function_name : option str }.

(** How the library prints what the messages quote. *)
Class TypeDisplay (Payload : Type) := {
  data_type_to_string : DataType Payload → str;
  data_type_debug : DataType Payload → str;
  units_to_string : CharLengthUnits → str;
  type_name_to_string : ObjectName Payload → str;
  column_to_string : Ident → str;
  value_to_string : Value Payload → str
}.

Module DataTypes.
Section DataTypes.
Context {Payload : Type} `{TypeDisplay Payload}.
Implicit Types (data_type : DataType Payload) (column_name : Ident) (options : StorageOptions).

Definition MAX_NUMERIC_PRECISION : Z := 18.

Definition character_length data_type : result Error (option Z) :=
  match data_type with
  | DataChar declared | DataCharacter declared | DataVarchar declared | DataCharacterVarying declared =>
      match declared with
      | None | Some MaxLength => Ok None
      | Some (IntegerLength length (None | Some Characters)) => Ok (Some length)
      | Some (IntegerLength _ (Some other)) =>
          Err (forward_refusal (data_type_to_string data_type ++ lit " declares its length in " ++ units_to_string other
            ++ lit ", and SQLite's length() counts characters, so the bound would measure the wrong thing. Declare the length in characters."))
      end
  | _ => Ok None
  end.

Definition column_expr column_name : Expr Payload := EIdentifier column_name.
Definition length_call column_name : Expr Payload := simple_function_expr (lit "length") [column_expr column_name].

Definition character_length_bound_expr column_name (length : Z) : Expr Payload :=
  EBinaryOp (length_call column_name) BLtEq (number_literal (dec length)).

Definition exact_numeric_info data_type : option ExactNumberInfo :=
  match data_type with DataNumeric info | DataDecimal info | DataDec info => Some info | _ => None end.

(** [u32::try_from] of a scale, which sqlparser holds in 64 bits. *)
Definition u32_try_from (z : Z) : option Z := if (0 <=? z) && (z <=? u32_max) then Some z else None.

Definition numeric_text (precision scale : Z) : str :=
  lit "NUMERIC(" ++ dec_signed precision ++ lit "," ++ dec_signed scale ++ lit ")".

Definition numeric_precision_and_scale (info : ExactNumberInfo) : result Error (Z * Z) :=
  match (match info with
         | ExactNone => Err (forward_refusal (lit "NUMERIC and DECIMAL without a precision and scale have no SQLite form: the column is emitted as an INTEGER holding minor units, which needs a fixed scale to multiply by. Declare one, as NUMERIC(10,2)."))
         | ExactPrecision precision => Ok (precision, 0)
         | ExactPrecisionAndScale precision scale =>
             match u32_try_from scale with
             | None => Err (forward_refusal (numeric_text precision scale ++ lit " has a negative scale, which cannot be a count of minor units."))
             | Some scale => Ok (precision, scale)
             end
         end) with
  | Err e => Err e
  | Ok (precision, scale) =>
      if MAX_NUMERIC_PRECISION <? precision then
        Err (forward_refusal (numeric_text precision scale ++ lit " needs " ++ dec precision ++ lit " digits, and a SQLite INTEGER holds at most "
          ++ dec MAX_NUMERIC_PRECISION ++ lit ". The column would silently become a float, which is what the scaled integer exists to avoid. Reduce the precision, or store the value as TEXT and compare it in the application."))
      else if precision <? scale then
        Err (forward_refusal (numeric_text precision scale ++ lit " has a scale larger than its precision."))
      else Ok (precision, scale)
  end.

Definition integer_range_between column_name (low high : Z) : Expr Payload :=
  EBetween (column_expr column_name) false (number_literal (dec_signed low)) (number_literal (dec_signed high)).

Definition numeric_precision_bound_expr column_name (precision : Z) : Expr Payload :=
  let exponent := default MAX_NUMERIC_PRECISION (u32_try_from precision) in
  let magnitude := 10 ^ exponent - 1 in
  integer_range_between column_name (- magnitude) magnitude.

(** The declared bit count, and whether it is exact. *)
Definition bit_length data_type : option (bool * option Z) :=
  match data_type with
  | DataBit n => Some (true, n)
  | DataBitVarying n | DataVarBit n => Some (false, n)
  | _ => None
  end.

Definition bit_length_check column_name (n : Z) (op : BinaryOperator Payload) : Expr Payload :=
  EBinaryOp (length_call column_name) op (number_literal (dec n)).
Definition bit_exact_length_check_expr column_name n := bit_length_check column_name n BEq.
Definition bit_max_length_check_expr column_name n := bit_length_check column_name n BLtEq.

Definition bit_binary_digits_check_expr column_name : Expr Payload :=
  EUnaryOp UNot (ENested (EBinaryOp (column_expr column_name) BGlob (EValue (SingleQuotedString (lit "*[^01]*"))))).

Definition small_int_range_bound_expr column_name := integer_range_between column_name (-32768) 32767.
Definition regular_int_range_bound_expr column_name := integer_range_between column_name (-2147483648) 2147483647.

(** [uuid.rs]. *)
Definition is_uuid_data_type data_type : bool := match data_type with DataUuid => true | _ => false end.
Definition is_blob_uuid_representation options : bool :=
  match uuid_representation options with Some UuidBlob => true | _ => false end.
Definition uuid_blob_length_check_expr column_name : Expr Payload :=
  EBinaryOp (length_call column_name) BEq (number_literal (lit "16")).

(** [array.rs]. *)
Definition is_json_array_representation options : bool :=
  match array_representation options with Some ArrayJson => true | None => false end.
Definition representation_required_message (construct : str) : str :=
  construct ++ lit " needs an array representation: SQLite has no array type, so pg2sqlite only emits array translations when the caller declares how arrays are stored. Call `Pg2SqliteOptions::with_array_representation(ArrayRepresentation::Json)` to store arrays as JSON array text and translate array operations through the json1 extension.".
Definition representation_required (construct : str) : Error := forward_refusal (representation_required_message construct).

(** [vector.rs]. *)
Definition halfvec_refusal : Error := forward_refusal (lit "half-precision halfvec storage is not supported by sqlite-vec").

(** ** The translation *)

Definition is_serial_type data_type : bool :=
  match data_type with
  | DataCustom name _ =>
      match last_catalog_name name with
      | Some name => one_of name ["serial"; "smallserial"; "bigserial"; "largeserial"]%string
      | None => false
      end
  | _ => false
  end.

Definition POSTGRES_BUILTINS : list string :=
  ["money"; "oid"; "xid"; "cid"; "tid"; "inet"; "cidr"; "macaddr"; "macaddr8"; "xml"; "citext"; "hstore"; "int4range"; "int8range";
   "numrange"; "tsrange"; "tstzrange"; "daterange"; "int4multirange"; "int8multirange"; "nummultirange"; "tsmultirange"; "tstzmultirange";
   "datemultirange"; "txid_snapshot"; "pg_lsn"; "aclitem"; "ltree"; "lquery"; "ltxtquery"]%string.

Definition translate_custom_type (name : ObjectName Payload) : result Error (DataType Payload) :=
  let type_name := default [] (last_catalog_name name) in
  if one_of type_name ["serial"; "smallserial"; "bigserial"; "largeserial"]%string then Ok (DataInteger None)
  else if one_of type_name ["countrycode"]%string then Ok DataText
  else if one_of type_name ["halfvec"]%string then Err halfvec_refusal
  else if one_of type_name ["geometry"; "geography"; "cas"; "molecularformula"; "mediatype"; "vector"]%string then Ok (DataBlob None)
  else if one_of type_name POSTGRES_BUILTINS then
    Err (forward_refusal (type_name_to_string name ++ lit " is a PostgreSQL built-in type with no SQLite equivalent. Remap the column to a supported type before translating."))
  else
    Err (forward_refusal (type_name_to_string name ++ lit " has no SQLite equivalent. If this is an enum or domain, remap it to a base type (TEXT or INTEGER) before translating.")).

Definition array_element (elem : ArrayElemTypeDef Payload) : option (DataType Payload) :=
  match elem with
  | SquareBracket t _ | AngleBracket t | Qualified t _ | Parenthesis t | ParenthesisNotNull t => Some t
  | ArrayNone => None
  end.

(** The scale of an array's elements, where it is not zero. *)
Definition scaled_element (elem : ArrayElemTypeDef Payload) : option Z :=
  inner ← array_element elem;
  info ← exact_numeric_info inner;
  match numeric_precision_and_scale info with
  | Ok (_, scale) => if 0 <? scale then Some scale else None
  | Err _ => None
  end.

Definition translate_data_type options data_type : result Error (DataType Payload) :=
  match data_type with
  | DataText | DataInteger None | DataReal | DataBlob None => Ok data_type
  | DataBlob (Some _) | DataBytea | DataBinary _ | DataVarbinary _ => Ok (DataBlob None)
  | DataSmallInt _ | DataInt _ | DataInteger (Some _) | DataBoolean | DataBool | DataBigInt _ | DataInt8 _ | DataInt4 _ | DataInt2 _
  | DataTinyInt _ | DataInt64 => Ok (DataInteger None)
  | DataFloat _ | DataDouble _ | DataDoublePrecision | DataFloat8 | DataFloat4 => Ok DataReal
  | DataNumeric info | DataDecimal info | DataDec info =>
      _ ← numeric_precision_and_scale info; Ok (DataInteger None)
  | DataChar _ | DataCharacter _ | DataVarchar _ | DataCharacterVarying _ => _ ← character_length data_type; Ok DataText
  | DataJSON | DataJSONB | DataClob _ | DataNvarchar _ | DataEnum _ | DataTsVector | DataTsQuery | DataTimestamp _ _ | DataDate
  | DataDatetime _ | DataTime _ _ | DataInterval _ => Ok DataText
  | DataBit _ | DataBitVarying _ | DataVarBit _ => Ok DataText
  | DataArray elem =>
      match scaled_element elem with
      | Some scale => Err (forward_refusal (lit "NUMERIC(p," ++ dec scale ++ lit ")[] cannot be translated: the scalar column stores minor units (D1) but array elements have no scale context. Store values as scaled integers in a separate table."))
      | None =>
          if is_json_array_representation options then Ok DataText
          else Err (representation_required (lit "The array type " ++ data_type_to_string data_type))
      end
  | DataUuid =>
      match uuid_representation options with
      | Some UuidBlob => Ok (DataBlob None)
      | Some UuidText => Ok DataText
      | None => Err (forward_refusal (lit "UUID translation requires specifying a representation (TEXT or BLOB)"))
      end
  | DataCustom name _ => translate_custom_type name
  | DataOther _ => Err (forward_refusal (lit "The data type " ++ data_type_debug data_type ++ lit " is not supported"))
  end.

(** [column.rs]: the bounds a column's declared type enforces. *)
Definition integer_range_bound column_name data_type : option (Expr Payload) :=
  match data_type with
  | DataSmallInt _ | DataInt2 _ => Some (small_int_range_bound_expr column_name)
  | DataInt _ | DataInteger _ | DataInt4 _ => Some (regular_int_range_bound_expr column_name)
  | _ => None
  end.

Definition declared_bound_checks column_name data_type options : result Error (list (Expr Payload)) :=
  let bounds := if is_uuid_data_type data_type && is_blob_uuid_representation options
                then [uuid_blob_length_check_expr column_name] else [] in
  bounds ← match exact_numeric_info data_type with
           | Some info => '(precision, _) ← numeric_precision_and_scale info;
                          Ok (bounds ++ [numeric_precision_bound_expr column_name precision])
           | None => Ok bounds
           end;
  let bounds := match integer_range_bound column_name data_type with Some bound => bounds ++ [bound] | None => bounds end in
  length ← character_length data_type;
  let bounds := match length with Some length => bounds ++ [character_length_bound_expr column_name length] | None => bounds end in
  Ok match bit_length data_type with
     | Some (fixed, declared) =>
         bounds ++ match declared with
                   | Some n => [if fixed : bool then bit_exact_length_check_expr column_name n else bit_max_length_check_expr column_name n]
                   | None => []
                   end ++ [bit_binary_digits_check_expr column_name]
     | None => bounds
     end.

(** The bounds a translated column carries: an identity column and a serial, whose values
    the rowid supplies, are translated apart. *)
Definition column_bounds column_name (has_identity : bool) data_type options : result Error (list (Expr Payload)) :=
  if has_identity || is_serial_type data_type then Ok [] else declared_bound_checks column_name data_type options.
End DataTypes.

(** ** The types a STRICT table takes *)

Definition strict_type {Payload} (data_type : DataType Payload) : Prop :=
  data_type = DataInteger None ∨ data_type = DataReal ∨ data_type = DataText ∨ data_type = DataBlob None.

Section TypeFacts.
Context {Payload : Type} `{TypeDisplay Payload}.
Implicit Types (data_type : DataType Payload) (column_name : Ident) (options : StorageOptions).

Lemma translate_strict options data_type t : translate_data_type options data_type = Ok t → strict_type t.
Proof.
  unfold strict_type. destruct data_type; cbn [translate_data_type]; intros Ht; try (destruct display); try (destruct length);
    inv_ok; auto; unfold translate_custom_type in *; repeat (case_match; inv_ok; auto).
Qed.

Lemma translate_strict_type options data_type : strict_type data_type → translate_data_type options data_type = Ok data_type.
Proof. by intros [->|[->|[->| ->]]]. Qed.

(** C14 (columns have a type SQLite's STRICT tables take).  A type that translates
    becomes INTEGER, REAL, TEXT or BLOB, and such a type translates to itself, so
    translating a translated schema changes no column type. *)
Theorem translated_type_strict options data_type t :
  translate_data_type options data_type = Ok t → strict_type t ∧ translate_data_type options t = Ok t.
Proof. intros Ht%translate_strict. split; [done|by apply translate_strict_type]. Qed.

(** ** The bounds PostgreSQL enforces *)

(** What a column of a type may hold, NULL apart, as it is stored: minor units
    for a scaled number, digits for a bit string. *)
Definition is_binary_digit (c : Z) : bool := (c =? 48) || (c =? 49).
Definition len (s : list Z) : Z := Z.of_nat (length s).

Definition within (precision : option Z) (z : Z) : bool :=
  match precision with Some p => Z.abs z <? 10 ^ p | None => true end.
Definition declared_precision (info : ExactNumberInfo) : option Z :=
  match info with ExactNone => None | ExactPrecision p | ExactPrecisionAndScale p _ => Some p end.
Definition at_most (declared : option CharacterLength) (s : str) : bool :=
  match declared with Some (IntegerLength n _) => len s <=? n | _ => true end.

(** Types whose bound PostgreSQL implies without the declaration spelling it. *)
Definition serial_width (name : ObjectName Payload) : option Z :=
  name ← last_catalog_name name;
  if one_of name ["serial"]%string then Some 2147483647 else if one_of name ["smallserial"]%string then Some 32767 else None.
Definition implied_bound data_type : bool :=
  match data_type with
  | DataChar None | DataCharacter None | DataBit None => true
  | DataCustom name _ => is_some (serial_width name)
  | _ => false
  end.

Definition in_bounds options data_type (v : SqlValue) : bool :=
  match data_type, v with
  | (DataChar None | DataCharacter None), SqlText s => len s <=? 1
  | DataBit None, SqlText s => (len s =? 1) && forallb is_binary_digit s
  | DataCustom name _, SqlInt z => match serial_width name with Some w => (- w - 1 <=? z) && (z <=? w) | None => true end
  | (DataSmallInt _ | DataInt2 _), SqlInt z => (-32768 <=? z) && (z <=? 32767)
  | (DataInt _ | DataInteger _ | DataInt4 _), SqlInt z => (-2147483648 <=? z) && (z <=? 2147483647)
  | (DataNumeric info | DataDecimal info | DataDec info), SqlInt z => within (declared_precision info) z
  | (DataChar d | DataCharacter d | DataVarchar d | DataCharacterVarying d), SqlText s => at_most d s
  | DataBit n, SqlText s => match n with Some n => len s =? n | None => true end && forallb is_binary_digit s
  | (DataBitVarying n | DataVarBit n), SqlText s => match n with Some n => len s <=? n | None => true end && forallb is_binary_digit s
  | DataUuid, SqlBlob bytes => len bytes =? 16
  | _, _ => true
  end.

(** What a STRICT column of a translated type can hold; PostgreSQL's text has no
    NUL character. *)
Definition stored (t : DataType Payload) (v : SqlValue) : Prop :=
  match t, v with
  | _, SqlNull => True
  | DataInteger _, SqlInt z => i64_min <= z <= i64_max
  | DataText, SqlText s => Forall (λ c, c ≠ 0) s
  | DataBlob _, SqlBlob _ => True
  | _, _ => False
  end.

(** Declared lengths SQLite reads as integers, as PostgreSQL's own limits make them. *)
Definition length_fits (n : option Z) : Prop := match n with Some n => 0 <= n <= i64_max | None => True end.
Definition lengths_fit data_type : Prop :=
  match data_type with
  | DataChar (Some (IntegerLength n _)) | DataCharacter (Some (IntegerLength n _)) | DataVarchar (Some (IntegerLength n _))
  | DataCharacterVarying (Some (IntegerLength n _)) => length_fits (Some n)
  | DataBit n | DataBitVarying n | DataVarBit n => length_fits n
  | _ => True
  end.

Lemma before_nul_id s : Forall (λ c, c ≠ 0) s → before_nul s = s.
Proof. induction 1 as [|c s Hc _ IH]; [done|]. cbn. replace (c =? 0) with false by lia. by rewrite IH. Qed.

Section Checks.
Context (env : str → SqlValue) (column_name : Ident).
#[local] Abbreviation held := (env (value column_name)).

Lemma eval_dec n : 0 <= n <= i64_max → eval (Payload := Payload) env (number_literal (dec n)) = Some (SqlInt n).
Proof.
  intros Hn. replace (dec n) with (dec_signed n) by (unfold dec_signed; by replace (n <? 0) with false by lia).
  apply eval_integer. unfold i64_min. lia.
Qed.

Lemma eval_length_call : eval env (length_call (Payload := Payload) column_name) = Some (sql_length held).
Proof. unfold length_call. rewrite eval_simple_function1. reflexivity. Qed.

Lemma check_length op f n (Hop : (op = BLtEq ∧ f = Z.leb) ∨ (op = BEq ∧ f = Z.eqb)) :
  0 <= n <= i64_max →
  check_holds env (EBinaryOp (length_call (Payload := Payload) column_name) op (number_literal (dec n))) =
  match sql_length held with SqlInt z => Some (f z n) | _ => Some true end.
Proof.
  intros Hn. unfold check_holds. cbn [eval].
  assert (eval env (length_call (Payload := Payload) column_name) = Some (sql_length held)) as Hl by apply eval_length_call.
  rewrite Hl. rewrite eval_dec by done. cbn.
  assert ((∃ z, sql_length held = SqlInt z) ∨ sql_length held = SqlNull) as [[z ->]| ->] by (destruct held; cbn; eauto);
    destruct Hop as [[-> ->]|[-> ->]]; cbn; try done; by case_match.
Qed.

Lemma check_digits s :
  held = SqlText s →
  check_holds env (bit_binary_digits_check_expr (Payload := Payload) column_name) = Some (forallb is_binary_digit s).
Proof.
  intros Hs. unfold check_holds. cbn [eval bit_binary_digits_check_expr column_expr]. rewrite Hs.
  cbn [mbind option_bind binary]. unfold sql_glob. change (glob_tokens None (lit "*[^01]*")) with (Some [GStar; GSet true [48; 49]; GStar]).
  cbn [fmap option_fmap option_map]. rewrite glob_outside. unfold sql_bool.
  assert (existsb (λ c, negb (char_in [48; 49] c)) s = negb (forallb is_binary_digit s)) as ->.
  { clear Hs. induction s as [|c s IH]; [done|]. cbn [existsb forallb]. rewrite IH. unfold is_binary_digit, char_in. cbn. rewrite orb_false_r.
    by destruct ((c =? 48) || (c =? 49)), (forallb _ s). }
  by destruct (forallb is_binary_digit s).
Qed.

Lemma check_digits_null :
  held = SqlNull → check_holds env (bit_binary_digits_check_expr (Payload := Payload) column_name) = Some true.
Proof. intros Hs. unfold check_holds. cbn [eval bit_binary_digits_check_expr column_expr]. by rewrite Hs. Qed.

Lemma check_literals low high :
  i64_min <= low <= i64_max → i64_min <= high <= i64_max →
  check_holds env (integer_range_between (Payload := Payload) column_name low high) =
  match held with SqlNull => Some true | SqlInt z => Some ((low <=? z) && (z <=? high)) | _ => None end.
Proof. apply check_between. Qed.
End Checks.

(** ** The emitted bounds are PostgreSQL's *)

(** Every check answers, and together they pass exactly the values in bounds. *)
Definition decide_bounds (env : str → SqlValue) (checks : list (Expr Payload)) (ok : bool) : Prop :=
  ∃ answers, map (check_holds env) checks = map Some answers ∧ forallb id answers = ok.

Lemma decide_bounds_nil env : decide_bounds env [] true.
Proof. by exists []. Qed.

Lemma decide_bounds_cons env check checks a ok :
  check_holds env check = Some a → decide_bounds env checks ok → decide_bounds env (check :: checks) (a && ok).
Proof. intros Ha (answers & Hm & Hf). exists (a :: answers). cbn. by rewrite Ha, Hm, Hf. Qed.

Lemma decide_bounds_one env check a : check_holds env check = Some a → decide_bounds env [check] a.
Proof. intros Ha. rewrite <- (andb_true_r a). by apply decide_bounds_cons, decide_bounds_nil. Qed.

Lemma within_pow p z : 0 <= p <= 18 → within (Some p) z = (- (10 ^ p - 1) <=? z) && (z <=? 10 ^ p - 1).
Proof. intros Hp. unfold within. pose proof (Z.pow_pos_nonneg 10 p). lia. Qed.

Lemma precision_fits info p s : numeric_precision_and_scale info = Ok (p, s) →
  declared_precision info = Some p ∧ 0 <= s <= p ∧ p <= MAX_NUMERIC_PRECISION.
Proof.
  unfold numeric_precision_and_scale. destruct info as [|q|q t]; [done| |].
  - repeat case_match; try done. intros [= <- <-]. unfold MAX_NUMERIC_PRECISION in *. split_and!; [done|lia..].
  - unfold u32_try_from. destruct (_ && _) eqn:E; [|done]. repeat case_match; try done. intros [= <- <-].
    unfold MAX_NUMERIC_PRECISION in *. split_and!; [done|lia..].
Qed.

(** The bound of a scaled integer, for a precision that fits. *)
Lemma check_precision env column_name p :
  0 <= p <= MAX_NUMERIC_PRECISION →
  check_holds env (numeric_precision_bound_expr (Payload := Payload) column_name p) =
  match env (value column_name) with SqlNull => Some true | SqlInt z => Some (within (Some p) z) | _ => None end.
Proof.
  intros Hp. unfold numeric_precision_bound_expr, u32_try_from. unfold MAX_NUMERIC_PRECISION in Hp.
  replace ((0 <=? p) && (p <=? u32_max)) with true by (unfold u32_max; lia). cbn [default].
  unfold default, id. assert (0 <= 10 ^ p - 1 <= i64_max).
  { split; [pose proof (Z.pow_pos_nonneg 10 p); lia|]. assert (10 ^ p <= 10 ^ 18) by (apply Z.pow_le_mono_r; lia). unfold i64_max. lia. }
  rewrite check_literals by (unfold i64_min, i64_max in *; lia).
  destruct (env (value column_name)) as [|z|s|b]; [done| |done|done]. by rewrite within_pow.
Qed.

Lemma digits_checks env column_name fixed n s :
  length_fits n → env (value column_name) = SqlText s → Forall (λ c, c ≠ 0) s →
  decide_bounds env (match n with
    | Some n => [if fixed : bool then bit_exact_length_check_expr (Payload := Payload) column_name n else bit_max_length_check_expr column_name n]
    | None => []
    end ++ [bit_binary_digits_check_expr column_name])
    (match n with Some n => if fixed then len s =? n else len s <=? n | None => true end && forallb is_binary_digit s).
Proof.
  intros Hn Hs H0. destruct n as [n|]; cbn [app].
  - apply decide_bounds_cons; [|by apply decide_bounds_one, check_digits].
    destruct fixed; unfold bit_exact_length_check_expr, bit_max_length_check_expr, bit_length_check.
    + rewrite (check_length env column_name BEq Z.eqb) by (try done; by right). rewrite Hs. cbn. by rewrite before_nul_id.
    + rewrite (check_length env column_name BLtEq Z.leb) by (try done; by left). rewrite Hs. cbn. by rewrite before_nul_id.
  - by apply decide_bounds_one, check_digits.
Qed.

(** What the bound of a type is, check by check. *)
Lemma bounds_decide env column_name options data_type t checks :
  translate_data_type options data_type = Ok t → declared_bound_checks column_name data_type options = Ok checks →
  lengths_fit data_type → implied_bound data_type = false →
  env (value column_name) ≠ SqlNull → stored t (env (value column_name)) →
  decide_bounds env checks (in_bounds options data_type (env (value column_name))).
Proof.
  intros Ht Hc Hl Hi Hnull Hs.
  assert (Hlen : ∀ declared, (data_type = DataChar declared ∨ data_type = DataCharacter declared ∨ data_type = DataVarchar declared ∨
      data_type = DataCharacterVarying declared) →
    t = DataText → ∀ n, character_length data_type = Ok n → checks = match n with Some n => [character_length_bound_expr column_name n] | None => [] end →
    ∀ s, env (value column_name) = SqlText s → Forall (λ c, c ≠ 0) s → decide_bounds env checks (at_most declared s)).
  { intros declared Hd _ n Hn -> s He H0. assert (Hok : match declared with
      | None | Some MaxLength => n = None
      | Some (IntegerLength k _) => n = Some k ∧ length_fits (Some k) end).
    { destruct Hd as [->|[->|[->| ->]]]; cbn in Hn, Hl; destruct declared as [[k [[]|]|]|]; by simplify_eq. }
    destruct declared as [[k u|]|]; [destruct Hok as [-> Hk]|subst n; apply decide_bounds_nil..]. cbn [at_most].
    apply decide_bounds_one. unfold character_length_bound_expr.
    rewrite (check_length env column_name BLtEq Z.leb) by (try done; by left). rewrite He. cbn. by rewrite before_nul_id. }
  unfold declared_bound_checks in Hc.
  destruct data_type; cbn [translate_data_type] in Ht;
    cbn [is_uuid_data_type andb exact_numeric_info integer_range_bound mbind result_bind app bit_length] in Hc;
    lazymatch goal with
    | |- context [DataChar _] => idtac | |- context [DataCharacter _] => idtac | |- context [DataVarchar _] => idtac
    | |- context [DataCharacterVarying _] => idtac | |- _ => cbn [character_length mbind result_bind] in Hc
    end.
  all: try (destruct declared; cbn [implied_bound] in Hi; [|discriminate Hi]).
  all: try (destruct n as [width|]; cbn [implied_bound] in Hi; [|discriminate Hi]).
  all: try (injection Hc as <-; exact (decide_bounds_nil env)).
  all: try (injection Hc as <-; cbn [implied_bound] in Hi; cbn [in_bounds]; destruct (serial_width name); [done|];
    destruct (env (value column_name)); exact (decide_bounds_nil env)).
  all: try (assert (t = DataInteger None) as -> by (by try destruct display; injection Ht as <-));
    try (injection Hc as <-; destruct (env (value column_name)) as [|z|s|b] eqn:He; [done| |done|done]; cbn [in_bounds];
         apply decide_bounds_one; unfold small_int_range_bound_expr, regular_int_range_bound_expr;
         rewrite check_literals, He by done; done).
  all: try (destruct (numeric_precision_and_scale info) as [[p sc]|] eqn:Ep; [|done];
    cbn [mbind result_bind app] in Ht, Hc; injection Ht as <-; injection Hc as <-;
    apply precision_fits in Ep as (Hp & Hps & Hmax); destruct (env (value column_name)) as [|z|s|b] eqn:He; [done| |done|done];
    cbn [in_bounds]; rewrite Hp; apply decide_bounds_one; rewrite check_precision, He by lia; done).
  all: try (destruct (character_length _) as [n|] eqn:En in Ht; [|done]; rewrite En in Hc; cbn [mbind result_bind app] in Ht, Hc;
    injection Ht as <-; injection Hc as <-; destruct (env (value column_name)) as [|z|s|b] eqn:He; [done|done| |done];
    cbn [in_bounds]; eapply (Hlen _) with (n := n); by auto).
  all: try (injection Ht as <-; injection Hc as <-; destruct (env (value column_name)) as [|z|s|b] eqn:He; [done|done| |done];
    cbn [in_bounds]; first [by apply (digits_checks env column_name true (Some width))|by apply (digits_checks env column_name false)]).
  destruct (is_blob_uuid_representation options) eqn:Eb; unfold is_blob_uuid_representation in Eb;
    destruct (uuid_representation options) as [[]|]; try done; injection Ht as <-; injection Hc as <-;
    destruct (env (value column_name)) as [|z|s|b] eqn:He; try done; [|apply decide_bounds_nil].
  apply decide_bounds_one. unfold uuid_blob_length_check_expr. change (lit "16") with (dec 16).
  rewrite (check_length env column_name BEq Z.eqb) by (first [by right|unfold i64_max; lia]). by rewrite He.
Qed.

(** NULL passes every bound, as it passes a declared type. *)
Lemma check_length_null env column_name op n :
  env (value column_name) = SqlNull → (op = BLtEq ∨ op = BEq) → 0 <= n <= i64_max →
  check_holds env (EBinaryOp (length_call (Payload := Payload) column_name) op (number_literal (dec n))) = Some true.
Proof.
  intros He [->| ->] Hn; [rewrite (check_length env column_name BLtEq Z.leb)|rewrite (check_length env column_name BEq Z.eqb)];
    try done; try (by left); try (by right); by rewrite He.
Qed.

Lemma bounds_null env column_name options data_type checks :
  declared_bound_checks column_name data_type options = Ok checks → lengths_fit data_type →
  env (value column_name) = SqlNull → Forall (λ check, check_holds env check = Some true) checks.
Proof.
  intros Hc Hl He. unfold declared_bound_checks in Hc.
  apply bind_Ok in Hc as (b1 & Hb1 & Hc). apply bind_Ok in Hc as (n & Hn & Hc). injection Hc as <-.
  assert (H1 : Forall (λ check, check_holds env check = Some true) b1).
  { assert (H0 : Forall (λ check, check_holds env check = Some true)
      (if is_uuid_data_type data_type && is_blob_uuid_representation options then [uuid_blob_length_check_expr (Payload := Payload) column_name] else [])).
    { destruct (_ && _); [|constructor]. constructor; [|constructor]. unfold uuid_blob_length_check_expr. change (lit "16") with (dec 16).
      apply check_length_null; [done|by right|unfold i64_max; lia]. }
    destruct (exact_numeric_info data_type) as [info|]; [|by injection Hb1 as <-].
    destruct (numeric_precision_and_scale info) as [[p s]|] eqn:Ep; [|done]. injection Hb1 as <-.
    apply precision_fits in Ep as (_ & Hps & Hmax). apply Forall_app. split; [done|]. constructor; [|constructor].
    rewrite check_precision by lia. by rewrite He. }
  set (b2 := match integer_range_bound column_name data_type with Some _ => _ | None => _ end).
  assert (H2 : Forall (λ check, check_holds env check = Some true) b2).
  { subst b2. destruct (integer_range_bound column_name data_type) as [bound|] eqn:Eb; [|done]. apply Forall_app. split; [done|].
    constructor; [|constructor]. destruct data_type; try done; injection Eb as <-;
      unfold small_int_range_bound_expr, regular_int_range_bound_expr; rewrite check_literals by done; by rewrite He. }
  clearbody b2. set (b3 := match n with Some _ => _ | None => _ end).
  assert (H3 : Forall (λ check, check_holds env check = Some true) b3).
  { subst b3. destruct n as [n|]; [|done]. apply Forall_app. split; [done|]. constructor; [|constructor].
    unfold character_length_bound_expr. apply check_length_null; [done|by left|].
    unfold character_length in Hn. destruct data_type; try done; repeat case_match; simplify_eq; exact Hl. }
  clearbody b3. destruct (bit_length data_type) as [[fixed [k|]]|] eqn:Eb; [| |done]; apply Forall_app; (split; [done|]).
  - assert (Hk : 0 <= k <= i64_max) by (destruct data_type; try done; injection Eb as <- ->; exact Hl).
    constructor; [destruct fixed; (apply check_length_null; [done|auto|done])|]. constructor; [by apply check_digits_null|constructor].
  - constructor; [by apply check_digits_null|constructor].
Qed.

Lemma checks_pass env (checks : list (Expr Payload)) answers : map (check_holds env) checks = map Some answers →
  Forall (λ check, check_holds env check = Some true) checks ↔ forallb id answers = true.
Proof.
  revert answers. induction checks as [|c cs IH]; intros [|a answers] Hm; cbn in *; try done. injection Hm as Hc Hm. rewrite Forall_cons, (IH answers Hm), Hc, andb_true_iff.
  unfold id. split; [intros [[= ->] ?]|intros [-> ?]]; done.
Qed.

(** What a translated column keeps of the bounds: an identity column or a serial none, a
    bare CHAR not its single character, a bare BIT its digits but not its length. *)
Definition bounds_kept (has_identity : bool) options data_type (v : SqlValue) : bool :=
  if has_identity || is_serial_type data_type then true
  else
    match data_type, v with
    | (DataChar None | DataCharacter None), _ => true
    | DataBit None, SqlText s => forallb is_binary_digit s
    | _, _ => in_bounds options data_type v
    end.

Lemma serial_implied data_type : is_serial_type data_type = false → implied_bound data_type = true →
  data_type = DataChar None ∨ data_type = DataCharacter None ∨ data_type = DataBit None.
Proof.
  intros Hs Hi. destruct data_type; try discriminate Hi; try (destruct declared; [discriminate Hi|by auto]); try (destruct n; [discriminate Hi|by auto]).
  cbn [is_serial_type implied_bound] in Hs, Hi. unfold serial_width in Hi. destruct (last_catalog_name name) as [n|]; [|done]. cbn [mbind option_bind] in Hi.
  unfold one_of in Hs, Hi. cbn [existsb] in Hs, Hi. by destruct (str_eqb n (lit "serial")), (str_eqb n (lit "smallserial")).
Qed.

Lemma kept_unimplied options data_type v : implied_bound data_type = false → bounds_kept false options data_type v = in_bounds options data_type v.
Proof.
  intros Hi. unfold bounds_kept. cbn [orb]. destruct (is_serial_type data_type) eqn:Es.
  - destruct data_type; try done. cbn in Es, Hi |- *. destruct (serial_width name) eqn:Ew; [done|]. by destruct v.
  - destruct data_type; try done; [destruct declared; [done|discriminate Hi]..|destruct n; [done|discriminate Hi]].
Qed.

Lemma kept_implied has_identity options data_type v : in_bounds options data_type v = true → bounds_kept has_identity options data_type v = true.
Proof.
  intros Hi. unfold bounds_kept. destruct (has_identity || is_serial_type data_type); [done|].
  destruct data_type; try exact Hi; [destruct declared; [exact Hi|done]..|destruct n; [exact Hi|]]. destruct v; try done. cbn in Hi. by bools.
Qed.

Lemma kept_decide env column_name has_identity options data_type t checks :
  translate_data_type options data_type = Ok t → column_bounds column_name has_identity data_type options = Ok checks →
  lengths_fit data_type → env (value column_name) ≠ SqlNull → stored t (env (value column_name)) →
  decide_bounds env checks (bounds_kept has_identity options data_type (env (value column_name))).
Proof.
  unfold column_bounds, bounds_kept. intros Ht Hc Hl Hn Hs. destruct (has_identity || is_serial_type data_type) eqn:Eh; [injection Hc as <-; apply decide_bounds_nil|].
  apply orb_false_iff in Eh as [_ Eh]. destruct (implied_bound data_type) eqn:Ei.
  - destruct (serial_implied _ Eh Ei) as [->|[->| ->]]; [injection Hc as <-; apply decide_bounds_nil..|].
    injection Ht as <-. injection Hc as <-. destruct (env (value column_name)) as [|z|s|b] eqn:He; [done|done| |done]. by apply (digits_checks env column_name true None).
  - pose proof (bounds_decide env column_name options data_type t checks Ht Hc Hl Ei Hn Hs) as Hd. clear Ht Hc.
    destruct data_type; try exact Hd; [destruct declared; [exact Hd|done]..|destruct n; [exact Hd|done]].
Qed.

Lemma kept_null env column_name has_identity options data_type checks :
  column_bounds column_name has_identity data_type options = Ok checks → lengths_fit data_type →
  env (value column_name) = SqlNull → Forall (λ check, check_holds env check = Some true) checks.
Proof. unfold column_bounds. destruct (has_identity || is_serial_type data_type); [by intros [= <-]|apply bounds_null]. Qed.

End TypeFacts.


(** ** Closed instances *)

Section Demo.
#[local] Instance demo_display : TypeDisplay unit :=
  {| data_type_to_string _ := []; data_type_debug _ := []; units_to_string _ := []; type_name_to_string _ := []; column_to_string := value; value_to_string _ := [] |}.
Definition demo_options : StorageOptions :=
  {| uuid_representation := Some UuidBlob; array_representation := Some ArrayJson; uuid_text_to_blob_function_name := None |}.
Definition price : Ident := Ident_new (lit "price").
Definition numeric_10_2 : DataType unit := DataNumeric (ExactPrecisionAndScale 10 2).
(** 12.34, in minor units. *)
Definition demo_env (_ : str) : SqlValue := SqlInt 1234.

Lemma translated_type_strict_witness :
  translate_data_type demo_options numeric_10_2 = Ok (DataInteger None) ∧
  strict_type (Payload := unit) (DataInteger None) ∧ translate_data_type demo_options (DataInteger None) = Ok (DataInteger None).
Proof. split; [reflexivity|]. apply (translated_type_strict demo_options numeric_10_2). reflexivity. Defined.


(** A value of eleven digits is out of bounds. *)
Example eleven_digits : check_holds (λ _, SqlInt 12345678901) (numeric_precision_bound_expr (Payload := unit) price 10) = Some false.
Proof. vm_compute. reflexivity. Qed.

(** A bare CHAR is CHAR(1) in PostgreSQL, a bare BIT is BIT(1) and a serial is an
    integer of four bytes; none of these bounds is emitted. *)
Example bare_char_unbounded : declared_bound_checks (Payload := unit) price (DataChar None) demo_options = Ok [].
Proof. reflexivity. Qed.
Example bare_bit_unbounded :
  declared_bound_checks (Payload := unit) price (DataBit None) demo_options = Ok [bit_binary_digits_check_expr price].
Proof. reflexivity. Qed.
Example serial_unbounded :
  declared_bound_checks (Payload := unit) price (DataCustom [Identifier (Ident_new (lit "serial"))] []) demo_options = Ok [].
Proof. reflexivity. Qed.
End Demo.
End DataTypes.
