(* ===== verification/SessionVariable.v ===== *)
(** * Session variables

    [src/src/impls/session_variable.rs], with the mapping types of
    [src/src/traits/translation_options.rs], the lookups of [src/src/options.rs], and the
    places of the two translators that read a session variable
    ([translator_impls/function.rs] and [expr.rs], [reverse_translator_impls/function.rs]
    and [expr.rs]).  The parser of a recorded type is the library's. *)

From S2P Require Import Prelude Text Errors Ast Exprs Names DataTypes.

(** ** The mapping *)

Inductive SessionVariablePattern := CurrentUser | CurrentSetting (name : str).
#[global] Instance SessionVariablePattern_eq_dec : EqDecision SessionVariablePattern.
Proof. solve_decision. Defined.

Definition pattern_to_string (self : SessionVariablePattern) : str :=
  match self with
  | CurrentUser => lit "current_user"
  | CurrentSetting name => lit "current_setting('" ++ name ++ lit "')"
  end.

Inductive SessionVariableValue := Scalar (pg_type : option str) | DelimitedSet (delimiter : Z).

Record SessionVariableMapping := {
  pg_pattern : SessionVariablePattern; sqlite_function : str; value_held : SessionVariableValue; missing_ok : bool
}.

Definition mapping_new (pattern : SessionVariablePattern) (function : str) : SessionVariableMapping :=
  {| pg_pattern := pattern; sqlite_function := function; value_held := Scalar None; missing_ok := true |}.
Definition current_user (function : str) : SessionVariableMapping := mapping_new CurrentUser function.
Definition current_setting (name function : str) : SessionVariableMapping := mapping_new (CurrentSetting name) function.
Definition current_setting_strict (name function : str) : SessionVariableMapping :=
  {| pg_pattern := CurrentSetting name; sqlite_function := function; value_held := Scalar None; missing_ok := false |}.
Definition with_pg_type (self : SessionVariableMapping) (pg_type : str) : SessionVariableMapping :=
  {| pg_pattern := pg_pattern self; sqlite_function := sqlite_function self; value_held := Scalar (Some pg_type); missing_ok := missing_ok self |}.
Definition holding_set (self : SessionVariableMapping) (delimiter : Z) : SessionVariableMapping :=
  {| pg_pattern := pg_pattern self; sqlite_function := sqlite_function self; value_held := DelimitedSet delimiter; missing_ok := missing_ok self |}.

(** The options as far as a session variable reads them: the mappings, in the order they
    were added, and the functions the caller declares, in lower case. *)
Record SessionOptions := { session_variables : list SessionVariableMapping; user_defined_functions : list str }.

Definition with_session_variable (self : SessionOptions) (mapping : SessionVariableMapping) : SessionOptions :=
  {| session_variables := session_variables self ++ [mapping]; user_defined_functions := user_defined_functions self |}.
Definition with_session_user (self : SessionOptions) (variable_name function : str) : SessionOptions :=
  with_session_variable (with_session_variable self (current_user function)) (current_setting variable_name function).

Definition find_session_variable (self : SessionOptions) (pattern : SessionVariablePattern) : option SessionVariableMapping :=
  List.find (λ m, bool_decide (pg_pattern m = pattern)) (rev (session_variables self)).

Definition declares_user_defined_function (self : SessionOptions) (name : str) : bool :=
  existsb (str_eqb (to_ascii_lowercase name)) (user_defined_functions self).

Definition scalar_reading (mapping : SessionVariableMapping) : result Error () :=
  match value_held mapping with
  | Scalar _ => Ok ()
  | DelimitedSet delimiter => Err (SessionVariableReadAsScalar (pattern_to_string (pg_pattern mapping)) delimiter)
  end.

Definition set_reading (mapping : SessionVariableMapping) (written : Z) : result Error () :=
  match value_held mapping with
  | Scalar _ => Err (SessionVariableReadAsSet (pattern_to_string (pg_pattern mapping)) written)
  | DelimitedSet delimiter =>
      if delimiter =? written then Ok ()
      else Err (SessionVariableDelimiterDisagrees (pattern_to_string (pg_pattern mapping)) delimiter written)
  end.

Definition unpaired (pattern : SessionVariablePattern) : Error := SessionVariableMappingNotFound (pattern_to_string pattern).

Definition paired_arity_refusal (mapping : SessionVariableMapping) : str :=
  sqlite_function mapping ++ lit "() pairs with " ++ pattern_to_string (pg_pattern mapping)
  ++ lit ", which takes no argument, so a call to it with arguments is not the caller's identity and has no PostgreSQL equivalent.".

Definition mapping_for_function (name : str) (options : SessionOptions) : option SessionVariableMapping :=
  let paired mapping := eq_ignore_ascii_case (sqlite_function mapping) name in
  let settings_first mapping := match pg_pattern mapping with CurrentSetting _ => true | CurrentUser => false end in
  match List.find (λ mapping, paired mapping && settings_first mapping) (rev (session_variables options)) with
  | Some mapping => Some mapping
  | None => List.find paired (rev (session_variables options))
  end.

(** The library's parser of a type: the error's text, or the type and whether the text
    ends there. *)
Class TypeParser (Payload : Type) := parse_data_type : str → result str (DataType Payload * bool).

Section SessionVariable.
Context {Payload : Type} `{EqDecision Payload, TypeDisplay Payload, TypeParser Payload}.
Implicit Types (expr : Expr Payload) (args : FunctionArguments Payload) (data_type : DataType Payload) (options : SessionOptions)
  (mapping : SessionVariableMapping).

(** [None]: the caller recorded no type. *)
Definition pg_type_node mapping : result Error (option (DataType Payload)) :=
  match value_held mapping with
  | Scalar (Some pg_type) =>
      let unreadable source := SessionVariableTypeUnreadable (pattern_to_string (pg_pattern mapping)) pg_type source in
      match parse_data_type pg_type with
      | Err source => Err (unreadable (Some (pg_type, source)))
      | Ok (data_type, true) => Ok (Some data_type)
      | Ok (_, false) => Err (unreadable None)
      end
  | _ => Ok None
  end.

Definition function_name_lower (name : ObjectName Payload) : str :=
  match last_ident name with Some ident => to_ascii_lowercase (value ident) | None => to_ascii_lowercase (type_name_to_string name) end.

Definition setting_name args : option str :=
  match args with
  | ListArguments ((Unnamed (ArgExpr expr) | Named _ (ArgExpr expr)) :: _) => single_quoted_literal expr
  | _ => None
  end.

Definition pattern_of (name : str) args : option SessionVariablePattern :=
  if str_eqb name (lit "current_user") then Some CurrentUser
  else if str_eqb name (lit "current_setting") then CurrentSetting <$> setting_name args
  else None.

Definition pattern_of_function (name : ObjectName Payload) args : option SessionVariablePattern := pattern_of (function_name_lower name) args.

Definition paired_call mapping : Expr Payload := simple_function_expr (sqlite_function mapping) [].

Definition reverse_pattern mapping : Expr Payload :=
  match pg_pattern mapping with
  | CurrentSetting name =>
      if missing_ok mapping then simple_function_expr (lit "current_setting") [string_literal name; EValue (ValueBoolean true)]
      else simple_function_expr (lit "current_setting") [string_literal name]
  | CurrentUser => EFunction [Identifier (Ident_new (lit "current_user"))] NoArguments
  end.

Definition reverse_expression mapping : result Error (Expr Payload) :=
  _ ← scalar_reading mapping;
  let pattern := reverse_pattern mapping in
  node ← pg_type_node mapping;
  Ok match node with Some data_type => ECast pattern data_type | None => pattern end.

Definition call_has_no_arguments args : bool :=
  match args with NoArguments | ListArguments [] => true | _ => false end.

(** One representative per set of PostgreSQL aliases. *)
Definition canonical data_type : DataType Payload :=
  match data_type with
  | DataInt width | DataInteger width | DataInt4 width => DataInteger width
  | DataSmallInt width | DataInt2 width => DataSmallInt width
  | DataBigInt width | DataInt8 width => DataBigInt width
  | DataNumeric info | DataDecimal info | DataDec info => DataNumeric info
  | DataReal | DataFloat4 => DataReal
  | DataDoublePrecision | DataFloat8 => DataDoublePrecision
  | DataVarchar length | DataCharacterVarying length => DataVarchar length
  | DataChar length | DataCharacter length => DataChar length
  | DataBool | DataBoolean => DataBoolean
  | DataVarBit length | DataBitVarying length => DataBitVarying length
  | DataTimestamp precision Tz => DataTimestamp precision WithTimeZone
  | DataTime precision Tz => DataTime precision WithTimeZone
  | DataCustom name modifiers =>
      DataCustom (map (λ part, match part with
                               | Identifier ident => Identifier {| value := to_ascii_lowercase (value ident); quote_style := quote_style ident |}
                               | part => part
                               end) name) modifiers
  | other => other
  end.

Definition same_postgres_type (a b : DataType Payload) : bool := bool_decide (canonical a = canonical b).

Definition translate_cast (inner : Expr Payload) data_type options : result Error (option (Expr Payload)) :=
  match inner with
  | EFunction name args =>
      match pattern_of_function name args with
      | None => Ok None
      | Some pattern =>
          match find_session_variable options pattern with
          | None => Ok None
          | Some mapping =>
              _ ← scalar_reading mapping;
              match value_held mapping with
              | Scalar (Some spelling) =>
                  node ← pg_type_node mapping;
                  match node with
                  | Some recorded =>
                      if negb (same_postgres_type recorded data_type)
                      then Err (SessionVariableTypeDisagrees (pattern_to_string pattern) spelling (data_type_to_string data_type))
                      else Ok (Some (paired_call mapping))
                  | None => Ok (Some (paired_call mapping))
                  end
              | _ => Ok (Some (paired_call mapping))
              end
          end
      end
  | _ => Ok None
  end.

Fixpoint setting_operand expr : Expr Payload :=
  match expr with
  | ENested inner | ECast inner DataText => setting_operand inner
  | _ => expr
  end.

(** ** Where the translators read one

    The first arm of [translate_catalog_function] and what [translate] makes of its
    answers; [None] is a call that names no session variable. *)
Inductive FunctionTranslation :=
| PassThrough
| PairedSessionVariable (mapping : SessionVariableMapping)
| UnpairedSessionVariable (pattern : SessionVariablePattern).

Definition translate_identity (original_name : str) args options : option FunctionTranslation :=
  pattern ← pattern_of original_name args;
  Some match find_session_variable options pattern with
       | Some mapping => PairedSessionVariable mapping
       | None => if declares_user_defined_function options original_name then PassThrough else UnpairedSessionVariable pattern
       end.

(** [whole] is the call itself, which a declared function keeps; its arguments are
    translated by the caller. *)
Definition apply_identity (translation : FunctionTranslation) (whole : Expr Payload) : result Error (Expr Payload) :=
  match translation with
  | UnpairedSessionVariable pattern => Err (unpaired pattern)
  | PairedSessionVariable mapping => _ ← scalar_reading mapping; Ok (paired_call mapping)
  | PassThrough => Ok whole
  end.

Definition mapped_setting expr options : option SessionVariableMapping :=
  match setting_operand expr with
  | EFunction name args => pattern ← pattern_of_function name args; find_session_variable options pattern
  | _ => None
  end.

Inductive FunctionReversal := ToSessionVariable (mapping : SessionVariableMapping) | Reject (message : str).

(** The names [reverse_function] answers before it looks for a pairing: the table of
    renames, and the arms above the guard. *)
Definition REVERSE_RENAMES : list (string * string) :=
  [("json_group_array", "json_agg"); ("json_group_object", "json_object_agg"); ("json_object", "json_build_object");
   ("json_array", "json_build_array"); ("sqlite_version", "version"); ("quote", "quote_nullable");
   ("json_quote", "to_jsonb"); ("ifnull", "COALESCE")].
Definition ARMS_ABOVE : list string :=
  ["group_concat"; "json_array_length"; "datetime"; "date"; "time"; "strftime"; "instr"; "unicode"; "min"; "max";
   "ltrim"; "rtrim"; "trim"; "char"; "vec_distance_l2"; "vec_distance_cosine"; "vec_distance_hamming"; "vec_f32"; "vec_f16"].
Definition answered_above (name : str) : bool :=
  existsb (λ rename, str_eqb (lit (fst rename)) name) REVERSE_RENAMES || existsb (λ arm, str_eqb (lit arm) name) ARMS_ABOVE.

(** [reverse_function] up to the arm whose guard is that a mapping pairs the name;
    [None] is an answer of another arm. *)
Definition reverse_identity (name : str) args options : option FunctionReversal :=
  if answered_above name then None
  else
    mapping ← mapping_for_function name options;
    Some (if call_has_no_arguments args then ToSessionVariable mapping else Reject (paired_arity_refusal mapping)).

Definition apply_reversal (reversal : FunctionReversal) : result Error (Expr Payload) :=
  match reversal with ToSessionVariable mapping => reverse_expression mapping | Reject message => Err (reverse_refusal message) end.

Definition paired_setting expr options : option SessionVariableMapping :=
  match setting_operand expr with
  | EFunction name args =>
      if call_has_no_arguments args then mapping_for_function (function_name_lower name) options else None
  | _ => None
  end.

(** A whole expression that reads a session variable as one value, going out: a cast
    over one, or the call ([translate_function], whose other answers are [Ok None]). *)
Definition forward_scalar expr options : result Error (option (Expr Payload)) :=
  match expr with
  | ECast inner data_type => translate_cast inner data_type options
  | EFunction name args =>
      match postgres_catalog_function_name name with
      | Some original =>
          match translate_identity original args options with
          | Some translation => Some <$> apply_identity translation expr
          | None => Ok None
          end
      | None => Ok None
      end
  | _ => Ok None
  end.

(** [reverse_translate_function] on a call.  The idioms the expression translator restores
    and the scales it brings back are read off a call's arguments, so that a call without
    any gets this answer. *)
Definition reverse_scalar expr options : result Error (option (Expr Payload)) :=
  match expr with
  | EFunction name args =>
      match reverse_identity (function_name_lower name) args options with
      | Some reversal => Some <$> apply_reversal reversal
      | None => Ok None
      end
  | _ => Ok None
  end.
End SessionVariable.

Section RoundTrip.
Context {Payload : Type} `{EqDecision Payload, TypeDisplay Payload, TypeParser Payload}.
Implicit Types (expr : Expr Payload) (args : FunctionArguments Payload) (options : SessionOptions) (mapping : SessionVariableMapping).

Lemma pattern_of_reverse mapping name args :
  reverse_pattern mapping = EFunction name args →
  pattern_of_function name args = Some (pg_pattern mapping) ∧ postgres_catalog_function_name name = Some (function_name_lower name).
Proof.
  unfold reverse_pattern, simple_function_expr. destruct (pg_pattern mapping) as [|setting]; [by intros [= <- <-]|].
  by destruct (missing_ok mapping); intros [= <- <-].
Qed.

Lemma reverse_pattern_call mapping : ∃ name args, reverse_pattern (Payload := Payload) mapping = EFunction name args.
Proof. unfold reverse_pattern, simple_function_expr. destruct (pg_pattern mapping); [|destruct (missing_ok mapping)]; by do 2 eexists. Qed.

(** The spelling of a type does not matter to the comparison. *)
Lemma canonical_idempotent (data_type : DataType Payload) : canonical (canonical data_type) = canonical data_type.
Proof.
  destruct data_type; try done; try (destruct info; done). cbn [canonical]. f_equal. rewrite map_map. apply map_ext. intros [ident|call]; [|done].
  cbn. do 2 f_equal. unfold to_ascii_lowercase. rewrite map_map. apply map_ext. intros c. unfold lower_char, is_ascii_uppercase. repeat case_match; lia.
Qed.

Lemma translate_cast_reads options mapping name args recorded data_type :
  pattern_of_function name args = Some (pg_pattern mapping) → find_session_variable options (pg_pattern mapping) = Some mapping →
  pg_type_node mapping = Ok (Some recorded) → same_postgres_type recorded data_type = true →
  translate_cast (EFunction name args) data_type options = Ok (Some (paired_call mapping)).
Proof.
  intros Hp Hf Ht Hs. unfold translate_cast. rewrite Hp, Hf. unfold scalar_reading. unfold pg_type_node in *.
  destruct (value_held mapping) as [[spelling|]|]; try done. cbn. rewrite Ht. cbn. by rewrite Hs.
Qed.

Lemma reverse_call options mapping name args :
  answered_above (function_name_lower name) = false → mapping_for_function (function_name_lower name) options = Some mapping →
  call_has_no_arguments args = true →
  reverse_scalar (EFunction name args : Expr Payload) options = Some <$> reverse_expression mapping.
Proof. intros Hn Hm Ha. unfold reverse_scalar, reverse_identity. rewrite Hn, Hm. cbn. by rewrite Ha. Qed.

Lemma set_read_as_one_value options mapping delimiter name args :
  value_held mapping = DelimitedSet delimiter → answered_above (function_name_lower name) = false →
  mapping_for_function (function_name_lower name) options = Some mapping → call_has_no_arguments args = true →
  reverse_scalar (EFunction name args : Expr Payload) options = Err (SessionVariableReadAsScalar (pattern_to_string (pg_pattern mapping)) delimiter).
Proof. intros Hv Hn Hm Ha. rewrite (reverse_call _ _ _ _ Hn Hm Ha). unfold reverse_expression, scalar_reading. by rewrite Hv. Qed.

(** C29 (session variables).  A function a mapping pairs, called without arguments and
    named like none of the functions the reverse translator answers first, comes back
    from SQLite as the reading its mapping records: [current_user], or
    [current_setting] of the setting, with [true] behind it exactly when a missing
    setting is allowed, under a cast to the recorded type exactly when there is one.
    That expression, in any spelling of the recorded type, goes out as a call of the
    paired function again.  This holds wherever the mapping is the one its setting is
    looked up under, holds one value, and its recorded type parses. *)
Theorem session_variable_round_trip options mapping name args (held : option str) (node : option (DataType Payload)) :
  answered_above (function_name_lower name) = false →
  mapping_for_function (function_name_lower name) options = Some mapping →
  find_session_variable options (pg_pattern mapping) = Some mapping →
  call_has_no_arguments args = true → value_held mapping = Scalar held → pg_type_node mapping = Ok node →
  let call (s : string) (given : FunctionArguments Payload) := EFunction [Identifier {| value := lit s; quote_style := None |}] given in
  let literal (v : Value Payload) := Unnamed (ArgExpr (EValue v)) in
  let reading := match pg_pattern mapping with
                 | CurrentUser => call "current_user" NoArguments
                 | CurrentSetting setting =>
                     call "current_setting"
                       (ListArguments (literal (SingleQuotedString setting) :: if missing_ok mapping then [literal (ValueBoolean true)] else []))
                 end in
  reverse_scalar (EFunction name args) options
  = Ok (Some match node with Some recorded => ECast reading recorded | None => reading end)
  ∧ match node with
    | None => forward_scalar reading options = Ok (Some (simple_function_expr (sqlite_function mapping) []))
    | Some recorded => ∀ spelled, canonical spelled = canonical recorded →
        forward_scalar (ECast reading spelled) options = Ok (Some (simple_function_expr (sqlite_function mapping) []))
    end.
Proof.
  intros Habove Hm Hf Ha Hv Hn call literal reading.
  assert (Hr : reverse_pattern mapping = reading).
  { unfold reverse_pattern, reading. destruct (pg_pattern mapping); [done|]. by destruct (missing_ok mapping). }
  destruct (reverse_pattern_call mapping) as (n & a & Hna). destruct (pattern_of_reverse _ _ _ Hna) as [Hp Hc].
  split.
  - rewrite (reverse_call _ _ _ _ Habove Hm Ha). unfold reverse_expression, scalar_reading. by rewrite Hv, Hn, Hr.
  - rewrite <- Hr, Hna. destruct node as [recorded|].
    + intros spelled Hs. apply (translate_cast_reads _ _ _ _ recorded); try done. by apply bool_decide_eq_true.
    + cbn [forward_scalar]. rewrite Hc. unfold translate_identity. unfold pattern_of_function in Hp. rewrite Hp. cbn. rewrite Hf. cbn.
      unfold scalar_reading. by rewrite Hv.
Qed.
End RoundTrip.

(** ** A concrete pairing *)

Section Demo.
#[local] Instance demo_display : TypeDisplay () :=
  {| data_type_to_string _ := []; data_type_debug _ := []; units_to_string _ := []; type_name_to_string _ := []; column_to_string := value; value_to_string _ := [] |}.
#[local] Instance demo_parser : TypeParser () := λ s, if str_eqb s (lit "uuid") then Ok (DataUuid, true) else Err (lit "unknown type").

Definition demo_options : SessionOptions :=
  with_session_variable {| session_variables := []; user_defined_functions := [] |}
    (with_pg_type (current_setting (lit "app.user_id") (lit "app_user_id")) (lit "uuid")).

Lemma session_variable_round_trip_witness :
  let call (s : string) (given : FunctionArguments ()) := EFunction [Identifier (Ident_new (lit s))] given in
  let setting := call "current_setting" (ListArguments [unnamed_arg (string_literal (lit "app.user_id")); unnamed_arg (EValue (ValueBoolean true))]) in
  reverse_scalar (call "APP_USER_ID" (ListArguments [])) demo_options = Ok (Some (ECast setting DataUuid))
  ∧ ∀ spelled, canonical spelled = canonical DataUuid →
      forward_scalar (ECast setting spelled) demo_options = Ok (Some (call "app_user_id" (ListArguments []))).
Proof.
  apply (session_variable_round_trip demo_options
    (with_pg_type (current_setting (lit "app.user_id") (lit "app_user_id")) (lit "uuid")) _ _ (Some (lit "uuid")) (Some DataUuid));
    vm_compute; reflexivity.
Defined.

(** A pairing under a name the reverse translator owns is never read back. *)
Example shadowed_pairing :
  let options := with_session_variable {| session_variables := []; user_defined_functions := [] |} (current_user (lit "quote")) in
  (reverse_scalar (EFunction [Identifier (Ident_new (lit "quote"))] (ListArguments []) : Expr ()) options,
   forward_scalar (EFunction [Identifier (Ident_new (lit "current_user"))] NoArguments : Expr ()) options)
  = (Ok None, Ok (Some (simple_function_expr (lit "quote") []))).
Proof. vm_compute. reflexivity. Qed.
End Demo.
