(* ===== verification/Operands.v ===== *)
(** * Operands written more than once

    [src/src/impls/replay.rs]: whether an expression answers the same each time it is
    evaluated; and [src/src/impls/bind_once.rs], which reads an operand once where SQLite
    allows it.  What counts as an aggregate call is [translator_impls/query.rs]. *)

From S2P Require Import Prelude Text Errors Ast Exprs ExprWalk SqliteNames Names SqliteEval DataTypes SessionVariable.

(** The options as far as these two files read them. *)
Record OperandOptions := {
  session_options :> SessionOptions;
  uuid_function_name : str;
  uuid_v7_function_name : option str;
  allows_subqueries : bool
}.

(** How the library prints an expression. *)
Class ExprDisplay (Payload : Type) := expr_to_string : Expr Payload → str.

(** [is_aggregate_call] or an [OVER] clause, and the operator [#]. *)
Class Lowerings (Payload : Type) := {
  is_aggregate_or_window : Expr Payload → bool;
  is_bitwise_xor : Payload → bool
}.

Definition VOLATILE : list str := words [
  "clock_timestamp"; "currval"; "gen_random_bytes"; "gen_random_uuid"; "lastval"; "nextval"; "pg_backend_pid"; "random";
  "random_bytes"; "random_normal"; "randomblob"; "setval"; "statement_timestamp"; "timeofday"; "txid_current";
  "uuid_generate_v1"; "uuid_generate_v4"; "uuid_generate_v7"; "uuidv4"; "uuidv7"].

Definition uuid_names (options : OperandOptions) : list str :=
  uuid_function_name options :: match uuid_v7_function_name options with Some v7 => [v7] | None => [] end.

Section Operands.
Context {Payload : Type} `{TypeDisplay Payload, PayloadVisit Payload, ExprDisplay Payload, Lowerings Payload}.
Implicit Types (expr operand : Expr Payload) (args : FunctionArguments Payload) (options : OperandOptions).

Definition call_replays (name : ObjectName Payload) args options : bool :=
  match last_ident name with
  | None => false
  | Some ident =>
      let lowered := to_ascii_lowercase (value ident) in
      if match pattern_of_function name args with
         | Some pattern => is_some (find_session_variable options pattern)
         | None => false
         end
         || is_some (mapping_for_function lowered options) then true
      else if is_found (binary_search VOLATILE lowered) then false
      else if existsb (λ uuid, eq_ignore_ascii_case uuid lowered) (uuid_names options) then false
      else Functions.is_known (Functions.classify lowered)
  end.

Definition replays options expr : bool :=
  match expr with
  | EFunction name args => call_replays name args options
  | ESubquery _ | EExists _ _ | EInSubquery _ _ _ => false
  | _ => true
  end.

Definition is_replayable expr options : bool := forallb (replays options) (visited expr).

Definition reject_duplicated_operand (construct : str) operand : Error :=
  forward_refusal (construct ++ lit " has no SQLite form that reads " ++ expr_to_string operand
    ++ lit " once: the emitted expression names it in more than one place, and this operand may answer a different value on each evaluation, so the copies would disagree where PostgreSQL evaluates it once. Read the value into a column or a variable first and name that, or compute "
    ++ construct ++ lit " in the application.").

(** ** [bind_once] *)

Definition is_atomic expr : bool := match expr with EIdentifier _ | ECompoundIdentifier _ | EValue _ => true | _ => false end.

Inductive Held := AggregateOrWindow | RepeatingLowering.

Definition holds expr (held : Held) : bool :=
  existsb (λ node, match held, node with
                   | AggregateOrWindow, EFunction _ _ => is_aggregate_or_window node
                   | RepeatingLowering, EBinaryOp _ (BOther op) _ => is_bitwise_xor op
                   | _, _ => false
                   end) (visited expr).

Definition operand_name (index : nat) : Ident := Ident_new (lit "pg2sqlite_operand_" ++ dec (Z.of_nat index)).

Definition bound (translated : list (Expr Payload)) (form : list (Expr Payload) → Expr Payload) : Expr Payload :=
  let names := map operand_name (seq 0 (length translated)) in
  let references := map EIdentifier names in
  let bindings := zip_with ExprWithAlias translated names in
  let operands := SelectQuery None None None bindings [] None in
  ESubquery (single_expr_query (form references) [FromDerived operands] None).

(** [sources] and [translated] are as many. *)
Definition bind_once (construct : str) (sources translated : list (Expr Payload)) options (form : list (Expr Payload) → Expr Payload)
    : result Error (Expr Payload) :=
  let compound := List.filter (λ '(_, operand), negb (is_atomic operand)) (zip sources translated) in
  match List.find (λ '(source, _), negb (is_replayable source options)) compound with
  | Some (source, _) => Err (reject_duplicated_operand construct source)
  | None =>
      match compound with
      | [] => Ok (form translated)
      | _ =>
          let groups := existsb (λ source, holds source AggregateOrWindow) sources in
          if allows_subqueries options && negb groups then Ok (bound translated form)
          else
            match List.find (λ '(source, _), holds source RepeatingLowering) compound with
            | Some (source, _) => Err (forward_refusal (construct ++ lit " over " ++ expr_to_string source
                ++ lit " would repeat an operand that already repeats its own operands, which grows the SQLite expression exponentially in this position. Compute the inner value into a column first, or move the expression where SQLite allows a subquery."))
            | None => Ok (form translated)
            end
      end
  end.
End Operands.

(** ** What replays answers alike *)

Section Replays.
Context {Payload : Type} `{TypeDisplay Payload, PayloadVisit Payload, ExprDisplay Payload, Lowerings Payload}.
Implicit Types (expr operand : Expr Payload) (options : OperandOptions).

Lemma is_replayable_node expr options :
  is_replayable expr options = true → replays options expr = true ∧ Forall (λ e, is_replayable e options = true) (child_exprs expr).
Proof.
  unfold is_replayable. rewrite forallb_Forall. intros [He Hc]%visited_children. split; [done|].
  eapply Forall_impl; [exact Hc|]. intros e. by rewrite forallb_Forall.
Qed.

(** The functions of either engine that may answer anew each time they are called:
    random numbers and identifiers, the running clock, and the sequences. *)
Definition DRAWS : list str := words [
  "random"; "random_normal"; "randomblob"; "gen_random_uuid"; "uuidv4"; "uuidv7"; "clock_timestamp"; "timeofday";
  "nextval"; "currval"; "lastval"; "setval"].

(** The functions the two engines have, by name. *)
Definition engine_functions : list str :=
  Functions.SQLITE_BUILTINS ++ Functions.SQLITE_AGGREGATES ++ Functions.TRANSLATOR_EMITTED ++ Functions.SQLITE_MATH
  ++ Functions.SHARED_WITH_POSTGRES ++ Functions.POSTGRES_ONLY.

(** A function that answers once a statement: the identity of the session, a function a
    mapping pairs with it, or a function of an engine that neither draws nor is named as
    a generator of UUIDs.  Nothing is said of a function the application defines. *)
Definition answers_once options (name : str) : Prop :=
  name ∈ (words ["current_user"; "current_setting"])
  ∨ (∃ mapping, mapping ∈ session_variables options ∧ to_ascii_lowercase (sqlite_function mapping) = name)
  ∨ ((name ∈ engine_functions) ∧ (name ∉ DRAWS) ∧ (name ∉ map to_ascii_lowercase (uuid_names options))).

(** Two moments of one statement: the same rows, and the same answers from the functions
    that answer once. *)
Definition same_moment (now later : Runtime) options : Prop :=
  @named_row now = @named_row later ∧
  ∀ name values, answers_once options name → @host_function now name values = @host_function later name values.

Lemma is_known_engine name : Functions.is_known (Functions.classify name) = true → name ∈ engine_functions.
Proof.
  unfold Functions.is_known. destruct (classify_exact name) as (-> & -> & -> & ->).
  unfold engine_functions. rewrite !orb_true_iff, !bool_decide_eq_true, !elem_of_app. tauto.
Qed.

Lemma draws_volatile name : name ∈ DRAWS → is_found (binary_search VOLATILE name) = true.
Proof.
  assert (Forall (λ name, is_found (binary_search VOLATILE name) = true) DRAWS) as Hd by (repeat constructor).
  rewrite Forall_forall in Hd. apply Hd.
Qed.

Lemma pattern_of_identity ident (args : FunctionArguments Payload) pattern :
  pattern_of_function [Identifier ident] args = Some pattern →
  to_ascii_lowercase (value ident) ∈ (words ["current_user"; "current_setting"]).
Proof.
  unfold pattern_of_function, pattern_of, function_name_lower. cbn [last_ident last mbind option_bind as_ident].
  destruct (str_eqb _ _) eqn:Eu; [intros _; apply str_eqb_eq in Eu as ->; apply list_elem_of_In; by left|].
  destruct (str_eqb _ (lit "current_setting")) eqn:Es; [|done]. intros _. apply str_eqb_eq in Es as ->. apply list_elem_of_In. by right; left.
Qed.

Lemma mapping_for_function_paired name (options : SessionOptions) mapping :
  mapping_for_function name options = Some mapping →
  mapping ∈ session_variables options ∧ eq_ignore_ascii_case (sqlite_function mapping) name = true.
Proof.
  unfold mapping_for_function. intros Hm.
  assert (mapping ∈ rev (session_variables options) ∧ eq_ignore_ascii_case (sqlite_function mapping) name = true) as [Hin He].
  { destruct (List.find _ _) as [m|] eqn:E in Hm.
    - injection Hm as ->. apply List.find_some in E as [Hin Hp]. bools. by rewrite list_elem_of_In.
    - apply List.find_some in Hm as [Hin Hp]. by rewrite list_elem_of_In. }
  split; [|done]. rewrite list_elem_of_In in *. by apply in_rev.
Qed.

(** A call the check passes is one of a function that answers once. *)
Lemma call_replays_answers_once ident (args : FunctionArguments Payload) options :
  call_replays [Identifier ident] args options = true → answers_once options (to_ascii_lowercase (value ident)).
Proof.
  unfold call_replays. cbn [last_ident last mbind option_bind as_ident]. set (lowered := to_ascii_lowercase (value ident)). unfold answers_once.
  destruct (_ || _) eqn:Ep.
  - intros _. apply orb_true_iff in Ep as [Ep|Ep].
    + left. destruct (pattern_of_function _ _) as [pattern|] eqn:E; [|done]. by eapply pattern_of_identity.
    + right; left. destruct (mapping_for_function _ _) as [mapping|] eqn:E; [|done].
      apply mapping_for_function_paired in E as [Hin He]. exists mapping. split; [done|].
      apply str_eqb_eq in He. rewrite He. apply to_ascii_lowercase_twice.
  - destruct (is_found _) eqn:Ev; [done|]. destruct (existsb _ _) eqn:Eu; [done|]. intros Hk. right; right.
    split; [by apply is_known_engine|]. split; [intros Hd%draws_volatile; congruence|].
    intros (u & Hu & Hin)%list_elem_of_fmap. apply not_true_iff_false in Eu. apply Eu, existsb_exists. exists u.
    split; [by apply list_elem_of_In|]. apply str_eqb_eq. rewrite <- Hu. symmetry. apply to_ascii_lowercase_twice.
Qed.

Lemma eval_arguments_map (ev1 ev2 : Expr Payload → option SqlValue) (f : Expr Payload → Expr Payload) (args : list (FunctionArg Payload)) :
  Forall (λ e, ev1 (f e) = ev2 e) (flat_map (for_each_function_arg (λ e, [e])) args) →
  (fix values (args : list (FunctionArg Payload)) : option (list SqlValue) :=
    match args with [] => Some [] | Unnamed (ArgExpr e) :: args => v ← ev1 e; vs ← values args; Some (v :: vs) | _ => None end) (map (map_function_arg f) args)
  = (fix values (args : list (FunctionArg Payload)) : option (list SqlValue) :=
    match args with [] => Some [] | Unnamed (ArgExpr e) :: args => v ← ev2 e; vs ← values args; Some (v :: vs) | _ => None end) args.
Proof.
  induction args as [|arg args IH]; [done|]. intros Hf. destruct arg as [[e|]|n a|n a]; try done. cbn in Hf. apply Forall_cons in Hf as [He Hf]. cbn. by rewrite He, IH.
Qed.

Lemma eval_arms_map (ev1 ev2 : Expr Payload → option SqlValue) (f : Expr Payload → Expr Payload) conditions (else_result : option (Expr Payload)) :
  Forall (λ e, ev1 (f e) = ev2 e) (child_exprs (ECase None conditions else_result)) →
  (fix arms (conditions : list (Expr Payload * Expr Payload)) : option SqlValue :=
    match conditions with
    | [] => match f <$> else_result with Some e => ev1 e | None => Some SqlNull end
    | (c, r) :: conditions => v ← ev1 c; b ← is_true v; if b : bool then ev1 r else arms conditions
    end) (map (λ '(c, r), (f c, f r)) conditions)
  = (fix arms (conditions : list (Expr Payload * Expr Payload)) : option SqlValue :=
    match conditions with
    | [] => match else_result with Some e => ev2 e | None => Some SqlNull end
    | (c, r) :: conditions => v ← ev2 c; b ← is_true v; if b : bool then ev2 r else arms conditions
    end) conditions.
Proof.
  unfold child_exprs. cbn. intros Hf. apply Forall_app in Hf as [Hc He]. induction conditions as [|[c r] conditions IH].
  - destruct else_result; cbn in He |- *; [by decompose_Forall_hyps|done].
  - cbn in Hc. apply Forall_cons in Hc as [Ha Hc]. apply Forall_cons in Hc as [Hb Hc]. cbn. by rewrite Ha, Hb, IH.
Qed.

Lemma call_ext (now later : Runtime) name values :
  @host_function now (to_ascii_lowercase name) values = @host_function later (to_ascii_lowercase name) values →
  call (runtime := now) name values = call (runtime := later) name values.
Proof. intros Hh. unfold call. by rewrite Hh. Qed.

(** A node whose children answer alike answers alike; columns, rows and subqueries are
    left to the caller. *)
Definition reads_children expr : bool :=
  match expr with
  | EIdentifier _ | ECompoundIdentifier _ | ESubquery _ | EExists _ _ | EInSubquery _ _ _ | EFunction _ (SubqueryArguments _) => false
  | _ => true
  end.

Lemma eval_map_node (now later : Runtime) env1 env2 f fq expr :
  reads_children expr = true →
  (∀ ident args values, expr = EFunction [Identifier ident] args →
    @host_function now (to_ascii_lowercase (value ident)) values = @host_function later (to_ascii_lowercase (value ident)) values) →
  Forall (λ e, eval (runtime := now) env1 (f e) = eval (runtime := later) env2 e) (child_exprs expr) →
  eval (runtime := now) env1 (map_with_queries f fq expr) = eval (runtime := later) env2 expr.
Proof.
  intros Hs Hh Hc. destruct expr; try done.
  all: try (unfold child_exprs in Hc; cbn in Hc; decompose_Forall_hyps; try destruct op; cbn [map_with_queries eval];
    repeat match goal with He : eval _ _ = eval _ _ |- _ => rewrite He; clear He end; done).
  - destruct args as [| |args]; try done. cbn [map_with_queries eval]. rewrite (eval_arguments_map _ _ f args Hc). destruct (_ args) as [values|]; [|done]. cbn.
    destruct name as [|[ident|] []]; try done. apply call_ext. by apply (Hh ident (ListArguments args)).
  - destruct operand as [on|]; [done|]. cbn [map_with_queries fmap option_fmap option_map eval]. apply (eval_arms_map _ _ f), Hc.
Qed.

Lemma eval_node_ext (now later : Runtime) options env expr :
  same_moment now later options → replays options expr = true →
  Forall (λ e, eval (runtime := now) env e = eval (runtime := later) env e) (child_exprs expr) →
  eval (runtime := now) env expr = eval (runtime := later) env expr.
Proof.
  intros [Hr Hh] Hp Hc. destruct (reads_children expr) eqn:Es.
  - rewrite <- (map_with_queries_id expr) at 1. apply eval_map_node; try done.
    intros ident args values ->. by eapply Hh, call_replays_answers_once.
  - destruct expr; try done; [|by destruct args]. destruct idents as [|r [|c []]]; cbn; by rewrite ?Hr.
Qed.

Lemma replayable_evaluates_alike (now later : Runtime) options env expr :
  same_moment now later options → is_replayable expr options = true →
  eval (runtime := now) env expr = eval (runtime := later) env expr.
Proof.
  intros Hs. induction expr as [expr IH] using Expr_child_ind. intros Hr. apply is_replayable_node in Hr as [Hp Hc].
  apply (eval_node_ext now later options); [done..|]. rewrite Forall_forall in *. auto.
Qed.

(** C30 (replayable operands).  Between two moments of a statement the rows stay, and so
    do the answers of the functions that answer once: the session's identity and what
    the mappings pair with it, and the functions of the two engines, except the random
    ones, the running clock, the sequences and the generators of UUIDs.  Any other
    function may answer differently, one of the application's own included.  Still an
    expression the check passes answers the same at both moments: its copies agree. *)
Theorem replayable_copies_agree (now later : Runtime) options env expr :
  same_moment now later options → is_replayable expr options = true →
  eval (runtime := now) env expr = eval (runtime := later) env expr.
Proof. apply replayable_evaluates_alike. Qed.
End Replays.

(** ** Binding once *)

Section BindOnce.
Context {Payload : Type} {runtime : Runtime} `{TypeDisplay Payload, PayloadVisit Payload, ExprDisplay Payload, Lowerings Payload}.
Implicit Types (expr operand : Expr Payload) (options : OperandOptions) (form : list (Expr Payload) → Expr Payload).

(** A lowering of [n] operands, whose answer depends on theirs only. *)
Definition uniform (n : nat) form : Prop :=
  ∀ env1 env2 es1 es2, length es1 = n → Forall2 (λ a b, eval env1 a = eval env2 b) es1 es2 → eval env1 (form es1) = eval env2 (form es2).

Lemma operand_name_inj i j : str_eqb (value (operand_name i)) (value (operand_name j)) = true → i = j.
Proof. intros Hn%str_eqb_eq. cbn [value operand_name Ident_new] in Hn. apply app_inv_head in Hn. apply dec_inj in Hn; lia. Qed.

(** The names from [start] on, each bound to its value. *)
Lemma bound_columns env (values : list SqlValue) start i v :
  values !! i = Some v →
  bind_columns (zip (map (λ i, value (operand_name i)) (seq start (length values))) values) env (value (operand_name (start + i))) = v.
Proof.
  revert start i. induction values as [|x values IH]; intros start i Hi; [done|]. cbn [length seq map zip zip_with bind_columns]. destruct i as [|i].
  - rewrite Nat.add_0_r, str_eqb_refl. by injection Hi.
  - destruct (str_eqb _ _) eqn:E; [apply operand_name_inj in E; lia|]. replace (start + S i)%nat with (S start + i)%nat by lia. by apply IH.
Qed.

Lemma bound_items env (translated : list (Expr Payload)) (values : list SqlValue) start :
  Forall2 (λ e v, eval env e = Some v) translated values →
  (fix columns (items : list (SelectItem Payload)) : option (list (str * SqlValue)) :=
    match items with
    | [] => Some []
    | ExprWithAlias e alias :: items => v ← eval env e; rest ← columns items; Some ((value alias, v) :: rest)
    | _ => None
    end) (zip_with ExprWithAlias translated (map operand_name (seq start (length translated))))
  = Some (zip (map (λ i, value (operand_name i)) (seq start (length values))) values).
Proof.
  intros Hf. revert start. induction Hf as [|e v translated values He Hf IH]; intros start; [done|]. cbn [length seq map zip_with zip]. rewrite He. cbn [mbind option_bind].
  by rewrite IH.
Qed.

Lemma bound_evaluates env form (translated : list (Expr Payload)) :
  uniform (length translated) form → Forall (λ e, is_Some (eval env e)) translated →
  eval env (bound translated form) = eval env (form translated).
Proof.
  intros Hu Hs. assert (∃ values, Forall2 (λ e v, eval env e = Some v) translated values) as [values Hv].
  { clear Hu. induction Hs as [|e l [v He] Hs [vs IH]]; [by exists []|]. exists (v :: vs). by constructor. }
  unfold bound, single_expr_query. cbn [eval]. rewrite (bound_items env translated values 0 Hv). cbn [mbind option_bind].
  apply Hu; [by rewrite !length_map, length_seq|]. apply Forall2_same_length_lookup_2; [by rewrite !length_map, length_seq|].
  intros i a b Ha Hb. rewrite map_map in Ha. rewrite list_lookup_fmap in Ha. apply fmap_Some in Ha as (j & Hj & ->). apply lookup_seq in Hj as [-> Hj].
  destruct (Forall2_lookup_l _ _ _ _ _ Hv Hb) as (v & Hi & He). rewrite He. cbn [eval]. f_equal. by apply (bound_columns env values 0 i).
Qed.

(** C31 (operands read once).  Where the lowering is answered at all, it evaluates as the
    form over the operands as they were translated, whether they are bound in a
    subquery or written out; and a form that writes an operand more than once is only
    answered when every compound operand is safe to repeat. *)
Theorem bind_once_evaluates env construct (sources translated : list (Expr Payload)) options form answer :
  length sources = length translated → uniform (length translated) form → Forall (λ e, is_Some (eval env e)) translated →
  bind_once construct sources translated options form = Ok answer →
  eval env answer = eval env (form translated)
  ∧ ∀ source operand, (source, operand) ∈ zip sources translated → is_atomic operand = false → is_replayable source options = true.
Proof.
  intros Hl Hu Hs. unfold bind_once. set (compound := List.filter _ _).
  destruct (List.find _ compound) as [[source o]|] eqn:Ef; [done|]. intros Ha. split.
  - destruct compound; [by injection Ha as <-|]. destruct (_ && _) in Ha; [injection Ha as <-; by apply bound_evaluates|].
    destruct (List.find _ _) as [[? ?]|] in Ha; [done|]. by injection Ha as <-.
  - intros source operand Hin Hatom. pose proof (List.find_none _ _ Ef (source, operand)) as Hn. cbn in Hn. rewrite negb_false_iff in Hn. apply Hn.
    unfold compound. apply filter_In. split; [by apply list_elem_of_In|]. by rewrite Hatom.
Qed.
End BindOnce.

Section Demo.
#[local] Instance demo_display : TypeDisplay () :=
  {| data_type_to_string _ := []; data_type_debug _ := []; units_to_string _ := []; type_name_to_string _ := []; column_to_string := value; value_to_string _ := [] |}.
#[local] Instance demo_visit : PayloadVisit () := {| visited_payload _ := []; visit_payload_mut _ p := p |}.
#[local] Instance demo_expr_display : ExprDisplay () := λ _, [].
#[local] Instance demo_lowerings : Lowerings () := {| is_aggregate_or_window _ := false; is_bitwise_xor _ := false |}.

Definition demo_options : OperandOptions :=
  {| session_options := {| session_variables := [current_setting (lit "app.limit") (lit "app_limit")]; user_defined_functions := [] |};
     uuid_function_name := lit "uuid"; uuid_v7_function_name := None; allows_subqueries := true |}.

(** [abs(n - app_limit())]. *)
Definition demo_operand : Expr () :=
  simple_function_expr (lit "abs") [EBinaryOp (EIdentifier (Ident_new (lit "n"))) BMinus (simple_function_expr (lit "app_limit") [])].
Definition demo_env (_ : str) : SqlValue := SqlInt 3.

(** A replica whose [uuid] draws, and whose [app_limit] does not. *)
Definition demo_moment (draw : Z) : Runtime :=
  {| named_row _ := None;
     host_function name _ := if str_eqb name (lit "app_limit") then Some (SqlInt 10) else if str_eqb name (lit "uuid") then Some (SqlInt draw) else None |}.

Lemma demo_same_moment : same_moment (demo_moment 1) (demo_moment 2) demo_options.
Proof.
  split; [done|]. intros name values Hc. unfold host_function, demo_moment. destruct (str_eqb _ (lit "app_limit")); [done|].
  destruct (str_eqb _ (lit "uuid")) eqn:E; [|done]. exfalso. apply str_eqb_eq in E as ->.
  destruct Hc as [Hc|[(mapping & Hin & Hm)|(_ & _ & Hu)]].
  - apply list_elem_of_In in Hc as [Hc|[Hc|[]]]; by vm_compute in Hc.
  - apply list_elem_of_singleton in Hin as ->. by vm_compute in Hm.
  - apply Hu. apply list_elem_of_In. by left.
Qed.

Lemma replayable_copies_agree_witness :
  eval (runtime := demo_moment 1) demo_env demo_operand = eval (runtime := demo_moment 2) demo_env demo_operand.
Proof. apply (replayable_copies_agree _ _ demo_options); [exact demo_same_moment|vm_compute; reflexivity]. Defined.

(** [x * x]. *)
Definition demo_form (operands : list (Expr ())) : Expr () :=
  match operands with [a] => EBinaryOp a BMultiply a | _ => EValue ValueNull end.

Lemma demo_uniform : uniform (runtime := demo_moment 1) 1 demo_form.
Proof.
  intros env1 env2 es1 es2 Hl Hf. destruct Hf as [|a b es1 es2 Hab Hf]; [done|]. destruct Hf; [|done]. cbn [demo_form eval]. by rewrite Hab.
Qed.

Lemma bind_once_evaluates_witness :
  let answer := bound [demo_operand] demo_form in
  bind_once (lit "square") [demo_operand] [demo_operand] demo_options demo_form = Ok answer
  ∧ eval (runtime := demo_moment 1) demo_env answer = eval (runtime := demo_moment 1) demo_env (demo_form [demo_operand])
  ∧ ∀ source operand, (source, operand) ∈ zip [demo_operand] [demo_operand] → is_atomic operand = false → is_replayable source demo_options = true.
Proof.
  split; [vm_compute; reflexivity|].
  apply (bind_once_evaluates (runtime := demo_moment 1) demo_env (lit "square") [demo_operand] [demo_operand] demo_options demo_form);
    [done|exact demo_uniform|constructor; [by eexists|constructor]|vm_compute; reflexivity].
Defined.
End Demo.
