(* ===== verification/Uuid.v ===== *)
(** * UUID literals

    [src/src/impls/translator_impls/uuid.rs]: the text PostgreSQL reads a UUID from,
    brought to the sixteen bytes of a BLOB column or the canonical text of a TEXT
    one.  The reference is the server's own reader, [uuid_in], and printer,
    [uuid_out]. *)

From S2P Require Import Prelude Text Errors Ast Exprs Names SqliteEval DataTypes.
Import DataTypes.

Module Uuid.
Section Uuid.
Context {Payload : Type} `{TypeDisplay Payload}.
Implicit Types (expr : Expr Payload) (text hex : str) (options : StorageOptions).

(** The loop over the characters; [hex] is what it has pushed. *)
Fixpoint collect_hex hex (inner : str) : option str :=
  match inner with
  | [] => Some hex
  | c :: inner =>
      if c =? 45 then if Nat.eqb (length hex mod 4) 0 then collect_hex hex inner else None
      else if negb (is_ascii_hexdigit c) then None
      else collect_hex (hex ++ [c]) inner
  end.

Definition canonical_uuid_hex text : option str :=
  inner ← match strip_prefix_char 123 text, strip_suffix [125] text with
          | Some _, Some _ => Some (take (length text - 2) (drop 1 text))
          | None, None => Some text
          | _, _ => None
          end;
  hex ← collect_hex [] inner;
  if Nat.eqb (length hex) 32 then Some hex else None.

Definition strip_call (inner : Expr Payload) (removed : str) : Expr Payload :=
  simple_function_expr (lit "replace") [inner; string_literal removed; string_literal []].

Definition make_uuid_conversion_call (arg : Expr Payload) options : Expr Payload :=
  match uuid_text_to_blob_function_name options with
  | Some udf => simple_function_expr udf [arg]
  | None => simple_function_expr (lit "unhex") [foldl strip_call arg [lit "-"; lit "{"; lit "}"]]
  end.

Definition invalid_uuid text : Error :=
  forward_refusal (lit "invalid input syntax for type uuid: " ++ [34] ++ text ++ [34]).

(** A literal, or the literal a subquery projects; the code recurses once. *)
Definition wrap_uuid_literal text options : result Error (Expr Payload) :=
  match canonical_uuid_hex text with
  | None => Err (invalid_uuid text)
  | Some hex =>
      if is_some (uuid_text_to_blob_function_name options) then Ok (make_uuid_conversion_call (string_literal text) options)
      else Ok (simple_function_expr (lit "unhex") [string_literal hex])
  end.

Definition maybe_wrap_text_uuid_literal expr options : result Error (Expr Payload) :=
  match scalar_subquery_projection expr ≫= single_quoted_literal with
  | Some text => wrapped ← wrap_uuid_literal text options; Ok (ESubquery (single_expr_query wrapped [] None))
  | None =>
      match single_quoted_literal expr with
      | None => Ok expr
      | Some text => wrap_uuid_literal text options
      end
  end.

Definition wrap_uuid_column_default (column_name : Ident) expr options : result Error (Expr Payload) :=
  match single_quoted_literal expr with
  | None => Ok expr
  | Some text =>
      if is_some (canonical_uuid_hex text) then maybe_wrap_text_uuid_literal expr options
      else Err (forward_refusal (lit "column '" ++ column_to_string column_name ++ lit "' has a DEFAULT that is not a valid UUID: "
        ++ [34] ++ text ++ [34]
        ++ lit ". PostgreSQL refuses this at CREATE TABLE time with 'invalid input syntax for type uuid', and the Blob representation cannot convert it to sixteen bytes."))
  end.

Definition slice (from to : nat) (s : str) : str := take (to - from) (drop from s).
Definition hyphenated hex : str :=
  slice 0 8 hex ++ lit "-" ++ slice 8 12 hex ++ lit "-" ++ slice 12 16 hex ++ lit "-" ++ slice 16 20 hex ++ lit "-" ++ slice 20 32 hex.
Definition canonical_uuid_hyphenated text : option str :=
  hex ← canonical_uuid_hex text; Some (hyphenated (to_ascii_lowercase hex)).

Definition maybe_canonicalize_text_uuid_literal expr : result Error (Expr Payload) :=
  match single_quoted_literal expr with
  | None => Ok expr
  | Some text =>
      match canonical_uuid_hyphenated text with
      | None => Err (invalid_uuid text)
      | Some canonical => Ok (string_literal canonical)
      end
  end.

(** ** PostgreSQL's reader and printer *)

(** [string_to_uuid]: byte after byte, with an optional hyphen after each second one
    but the last. *)
Definition skip_hyphen (i : nat) (src : str) : str :=
  match src with
  | c :: rest => if (c =? 45) && Nat.eqb (i mod 2) 1 && Nat.ltb i 15 then rest else src
  | [] => src
  end.

Fixpoint uuid_loop (n i : nat) (src : str) : option (list Z * str) :=
  match n with
  | O => Some ([], src)
  | S n =>
      match src with
      | a :: b :: src =>
          if is_ascii_hexdigit a && is_ascii_hexdigit b then
            '(bytes, rest) ← uuid_loop n (S i) (skip_hyphen i src); Some (hex_value a * 16 + hex_value b :: bytes, rest)
          else None
      | _ => None
      end
  end.

Definition uuid_in text : option (list Z) :=
  match strip_prefix_char 123 text with
  | Some src => '(bytes, rest) ← uuid_loop 16 0 src; if str_eqb rest [125] then Some bytes else None
  | None => '(bytes, rest) ← uuid_loop 16 0 text; if str_eqb rest [] then Some bytes else None
  end.

Definition hex_digit (n : Z) : Z := if n <? 10 then 48 + n else 87 + n.
Definition hex_pair (b : Z) : str := [hex_digit (b / 16); hex_digit (b mod 16)].

(** [uuid_out], from the byte of index [i]. *)
Fixpoint print_from (i : nat) (bytes : list Z) : str :=
  match bytes with
  | [] => []
  | b :: bytes => hex_pair b ++ (if bool_decide (i ∈ [3; 5; 7; 9]%nat) then [45] else []) ++ print_from (S i) bytes
  end.
Definition uuid_out (bytes : list Z) : str := print_from 0 bytes.

(** ** Digits and bytes *)

Definition is_byte (b : Z) : Prop := 0 <= b < 256.

Lemma hex_value_range c : is_ascii_hexdigit c = true → 0 <= hex_value c < 16.
Proof. unfold is_ascii_hexdigit, is_ascii_digit, hex_value. intros Hc. repeat case_match; lia. Qed.

Lemma hex_digit_value c : is_ascii_hexdigit c = true → hex_digit (hex_value c) = lower_char c.
Proof.
  unfold is_ascii_hexdigit, is_ascii_digit, hex_digit, hex_value, lower_char, is_ascii_uppercase. intros Hc. repeat case_match; lia.
Qed.

Lemma hex_digit_hexdigit n : 0 <= n < 16 → is_ascii_hexdigit (hex_digit n) = true ∧ hex_value (hex_digit n) = n.
Proof.
  unfold is_ascii_hexdigit, is_ascii_digit, hex_digit, hex_value. intros Hn. split; repeat case_match; lia.
Qed.

Lemma pair_byte a b : is_ascii_hexdigit a = true → is_ascii_hexdigit b = true →
  is_byte (hex_value a * 16 + hex_value b) ∧ hex_pair (hex_value a * 16 + hex_value b) = [lower_char a; lower_char b].
Proof.
  intros Ha Hb. pose proof (hex_value_range a Ha). pose proof (hex_value_range b Hb). split; [unfold is_byte; lia|].
  unfold hex_pair. rewrite <- (hex_digit_value a), <- (hex_digit_value b) by done. repeat f_equal; divmod.
Qed.

(** What the server reads is a stretch of digits and hyphens, and the loop of the
    code collects the same digits out of it. *)
Lemma uuid_loop_digits n i src bytes rest :
  uuid_loop n i src = Some (bytes, rest) →
  ∃ pre digits, src = pre ++ rest ∧ hex_bytes digits = Some bytes ∧ length digits = (2 * n)%nat ∧ length bytes = n ∧
    forallb is_ascii_hexdigit digits = true ∧ Forall is_byte bytes ∧ concat (map hex_pair bytes) = to_ascii_lowercase digits ∧
    List.filter (λ c, negb (c =? 45)) pre = digits ∧
    ∀ hex, length hex = (2 * i)%nat → collect_hex hex pre = Some (hex ++ digits).
Proof.
  revert i src bytes rest. induction n as [|n IH]; intros i src bytes rest; cbn [uuid_loop].
  - intros [= <- <-]. exists [], []. split_and!; try done. intros hex _. cbn. by rewrite app_nil_r.
  - destruct src as [|a [|b src]]; [done..|]. destruct (is_ascii_hexdigit a) eqn:Ha; [|done]. destruct (is_ascii_hexdigit b) eqn:Hb; [|done].
    cbn [andb]. destruct (uuid_loop n (S i) (skip_hyphen i src)) as [[bytes' rest']|] eqn:Hl; [|done]. cbn [mbind option_bind]. intros [= <- <-].
    apply IH in Hl as (pre & digits & Hsrc & Hhex & Hlen & Hbytes & Hall & Hrange & Hprint & Hfilter & Hcollect).
    destruct (pair_byte a b Ha Hb) as [Hbyte Hpair].
    assert (Hna : (a =? 45) = false) by (unfold is_ascii_hexdigit, is_ascii_digit in Ha; lia).
    assert (Hnb : (b =? 45) = false) by (unfold is_ascii_hexdigit, is_ascii_digit in Hb; lia).
    assert (∃ hyphen, src = hyphen ++ skip_hyphen i src ∧ (hyphen = [] ∨ (hyphen = [45] ∧ (i mod 2 = 1)%nat))) as (hyphen & Hh & Hcase).
    { unfold skip_hyphen. destruct src as [|c r]; [exists []; auto|]. destruct ((c =? 45) && _ && _) eqn:E; [|exists []; auto].
      bools. exists [c]. split; [done|right]. split; [f_equal; lia|]. by apply Nat.eqb_eq. }
    exists (a :: b :: hyphen ++ pre), (a :: b :: digits). split_and!.
    + rewrite Hh, Hsrc. cbn. by rewrite app_assoc.
    + cbn [hex_bytes]. by rewrite Ha, Hb, Hhex.
    + cbn. lia.
    + cbn. lia.
    + cbn. by rewrite Ha, Hb.
    + by constructor.
    + cbn [map concat]. rewrite Hpair, Hprint. done.
    + cbn [List.filter app]. rewrite Hna, Hnb. cbn [negb]. do 2 f_equal. destruct Hcase as [->|[-> _]]; done.
    + intros hex Hx. cbn [collect_hex app]. rewrite Hna, Hnb, Ha, Hb. cbn [negb].
      assert (collect_hex ((hex ++ [a]) ++ [b]) (hyphen ++ pre) = collect_hex ((hex ++ [a]) ++ [b]) pre) as ->.
      { destruct Hcase as [->|[-> Hi]]; [done|]. cbn [app collect_hex Z.eqb Pos.eqb].
        rewrite !length_app, Hx. cbn [length].
        replace (Nat.eqb _ 0) with true; [done|]. symmetry. apply Nat.eqb_eq.
        pose proof (Nat.div_mod i 2 ltac:(lia)). replace (2 * i + 1 + 1)%nat with ((i / 2 + 1) * 4)%nat by lia. apply Nat.Div0.mod_mul. }
      rewrite Hcollect by (rewrite !length_app; cbn; lia). by rewrite <- !app_assoc.
Qed.

Lemma collect_hex_chars hex inner digits :
  collect_hex hex inner = Some digits → Forall (λ c, c = 45 ∨ is_ascii_hexdigit c = true) inner.
Proof.
  revert hex. induction inner as [|c inner IH]; intros hex; cbn [collect_hex]; [by constructor|]. destruct (c =? 45) eqn:Ec.
  - destruct (Nat.eqb _ _); [|done]. intros Hc. constructor; [left; lia|by eapply IH].
  - destruct (is_ascii_hexdigit c) eqn:Eh; [|done]. cbn [negb]. intros Hc. constructor; [by right|by eapply IH].
Qed.

(** A text the server reads is one whose digits the code collects. *)
Lemma uuid_in_digits text bytes :
  uuid_in text = Some bytes →
  ∃ digits, canonical_uuid_hex text = Some digits ∧ hex_bytes digits = Some bytes ∧ length bytes = 16%nat ∧ length digits = 32%nat ∧
    Forall is_byte bytes ∧ concat (map hex_pair bytes) = to_ascii_lowercase digits ∧
    List.filter (λ c, negb (char_in [45; 123; 125] c)) text = digits.
Proof.
  unfold uuid_in. destruct (strip_prefix_char 123 text) as [src|] eqn:Hp.
  - destruct (uuid_loop 16 0 src) as [[bytes' rest]|] eqn:Hl; [|done]. cbn [mbind option_bind].
    destruct (str_eqb rest [125]) eqn:Hr; [|done]. apply str_eqb_eq in Hr as ->. intros [= ->].
    assert (text = 123 :: src) as -> by (destruct text as [|c t]; cbn in Hp; [done|]; destruct (c =? 123) eqn:E; simplify_eq; f_equal; lia).
    apply uuid_loop_digits in Hl as (pre & digits & -> & Hhex & Hlen & Hbytes & Hall & Hrange & Hprint & Hfilter & Hcollect).
    specialize (Hcollect [] eq_refl). cbn [app] in Hcollect. exists digits. split_and!; try done.
    + unfold canonical_uuid_hex. rewrite Hp. change (123 :: pre ++ [125]) with ((123 :: pre) ++ [125]). rewrite strip_suffix_app.
      cbn [mbind option_bind]. 
      assert (take (length ((123%Z :: pre) ++ [125%Z]) - 2) (drop 1 ((123%Z :: pre) ++ [125%Z])) = take (length pre) (pre ++ [125])) as ->
        by (rewrite length_app; cbn [length app drop]; f_equal; lia). rewrite take_app_length, Hcollect. cbn [mbind option_bind]. by rewrite Hlen.
    + cbn [List.filter char_in existsb app]. change (123 =? 45) with false. change (123 =? 123) with true. cbn [orb negb].
      rewrite List.filter_app. cbn [List.filter char_in existsb]. change (125 =? 45) with false. change (125 =? 123) with false.
      change (125 =? 125) with true. cbn [orb negb]. rewrite app_nil_r, <- Hfilter. apply collect_hex_chars in Hcollect.
      apply List.filter_ext_in. intros c Hc. rewrite Forall_forall in Hcollect. apply list_elem_of_In, Hcollect in Hc.
      unfold char_in, is_ascii_hexdigit, is_ascii_digit in *. cbn. lia.
  - destruct (uuid_loop 16 0 text) as [[bytes' rest]|] eqn:Hl; [|done]. cbn [mbind option_bind].
    destruct (str_eqb rest []) eqn:Hr; [|done]. apply str_eqb_eq in Hr as ->. intros [= ->].
    apply uuid_loop_digits in Hl as (pre & digits & -> & Hhex & Hlen & Hbytes & Hall & Hrange & Hprint & Hfilter & Hcollect).
    specialize (Hcollect [] eq_refl). cbn [app] in Hcollect. rewrite app_nil_r in *. exists digits. pose proof (collect_hex_chars _ _ _ Hcollect) as Hchars.
    split_and!; try done.
    + unfold canonical_uuid_hex. rewrite Hp. assert (strip_suffix [125] pre = None) as ->.
      { destruct (strip_suffix [125] pre) as [t|] eqn:E; [|done]. apply strip_suffix_Some in E as ->.
        apply Forall_app in Hchars as [_ Hc]. apply Forall_cons in Hc as [Hc _]. unfold is_ascii_hexdigit, is_ascii_digit in Hc. lia. }
      cbn [mbind option_bind]. rewrite Hcollect. cbn. by rewrite Hlen.
    + rewrite <- Hfilter. apply List.filter_ext_in. intros c Hc. rewrite Forall_forall in Hchars. apply list_elem_of_In, Hchars in Hc.
      unfold char_in, is_ascii_hexdigit, is_ascii_digit in *. cbn. lia.
Qed.

(** The canonical text is the one the server prints. *)
Lemma hyphenated_prints bytes digits :
  length bytes = 16%nat → concat (map hex_pair bytes) = to_ascii_lowercase digits → hyphenated (to_ascii_lowercase digits) = uuid_out bytes.
Proof. intros Hl <-. do 16 (destruct bytes as [|? bytes]; [done|]). destruct bytes; [reflexivity|done]. Qed.

Lemma uuid_loop_print n i bytes :
  (n + i = 16)%nat → length bytes = n → Forall is_byte bytes → ∀ rest, uuid_loop n i (print_from i bytes ++ rest) = Some (bytes, rest).
Proof.
  revert i bytes. induction n as [|n IH]; intros i bytes Hn Hl Hb rest.
  - by destruct bytes.
  - destruct bytes as [|b bytes]; [done|]. apply Forall_cons in Hb as [Hb Hbs]. injection Hl as Hl.
    destruct (hex_digit_hexdigit (b / 16)) as [Ha Hva]; [unfold is_byte in Hb; divmod|].
    destruct (hex_digit_hexdigit (b mod 16)) as [Hc Hvc]; [divmod|].
    cbn [print_from hex_pair app uuid_loop]. rewrite Ha, Hc, Hva, Hvc. cbn [andb].
    set (src := ((if bool_decide (i ∈ [3; 5; 7; 9]%nat) then [45] else []) ++ print_from (S i) bytes) ++ rest).
    assert (match n with O => True | _ => skip_hyphen i src = print_from (S i) bytes ++ rest end) as Hsrc.
    { destruct n as [|n]; [done|]. subst src. destruct bytes as [|b' bytes]; [done|].
      case_bool_decide as Hi; cbn [app].
      - assert ((i = 3 ∨ i = 5 ∨ i = 7 ∨ i = 9)%nat) as [->|[->|[->| ->]]] by set_solver; done.
      - cbn [print_from hex_pair app skip_hyphen]. replace (hex_digit (b' / 16) =? 45) with false; [done|].
        apply Forall_cons in Hbs as [Hb' _]. destruct (hex_digit_hexdigit (b' / 16)) as [Ha' _]; [unfold is_byte in Hb'; divmod|].
        unfold is_ascii_hexdigit, is_ascii_digit in Ha'. lia. }
    replace (b / 16 * 16 + b mod 16) with b by divmod. destruct n as [|n].
    + assert (i = 15%nat) as -> by lia. destruct bytes; [|done]. subst src. rewrite bool_decide_false by set_solver. cbn [print_from app].
      destruct rest as [|c rest]; [done|]. cbn [skip_hyphen]. by rewrite andb_false_r.
    + rewrite Hsrc, IH by (try done; lia). done.
Qed.

Lemma print_from_start bytes : Forall is_byte bytes → strip_prefix_char 123 (uuid_out bytes) = None.
Proof.
  destruct bytes as [|b bytes]; [done|]. intros [Hb _]%Forall_cons. unfold uuid_out. cbn [print_from hex_pair app strip_prefix_char].
  replace (hex_digit (b / 16) =? 123) with false; [done|]. destruct (hex_digit_hexdigit (b / 16)) as [Ha _]; [unfold is_byte in Hb; divmod|].
  unfold is_ascii_hexdigit, is_ascii_digit in Ha. lia.
Qed.

Lemma uuid_in_out bytes : length bytes = 16%nat → Forall is_byte bytes → uuid_in (uuid_out bytes) = Some bytes.
Proof.
  intros Hl Hb. unfold uuid_in. rewrite print_from_start by done. rewrite <- (app_nil_r (uuid_out bytes)). unfold uuid_out.
  by rewrite uuid_loop_print.
Qed.

(** ** What the column holds *)

Lemma replace_char c s : replace_all 0 [c] [] s = List.filter (λ x, negb (x =? c)) s.
Proof.
  induction s as [|x s IH]; [done|]. cbn [replace_all List.filter]. unfold starts_with. cbn [strip_prefix].
  rewrite Z.eqb_sym. destruct (x =? c); cbn; by rewrite IH.
Qed.

Lemma filter_filter_chars (p q : Z → bool) s : List.filter p (List.filter q s) = List.filter (λ c, q c && p c) s.
Proof. induction s as [|c s IH]; [done|]. cbn. destruct (q c); cbn; [|done]. by rewrite IH. Qed.

Lemma eval_strip_call env arg s c :
  eval (Payload := Payload) env arg = Some (SqlText s) →
  eval env (strip_call arg [c]) = Some (SqlText (List.filter (λ x, negb (x =? c)) s)).
Proof. intros Ha. unfold strip_call. rewrite eval_simple_function3, Ha. rewrite <- replace_char. reflexivity. Qed.

Lemma eval_conversion_call env arg options s :
  uuid_text_to_blob_function_name options = None → eval (Payload := Payload) env arg = Some (SqlText s) →
  eval env (make_uuid_conversion_call arg options) =
  Some match hex_bytes (List.filter (λ c, negb (char_in [45; 123; 125] c)) s) with Some bytes => SqlBlob bytes | None => SqlNull end.
Proof.
  intros Ho Ha. unfold make_uuid_conversion_call. rewrite Ho, eval_simple_function1. cbn [foldl].
  rewrite (eval_strip_call _ _ (List.filter (λ x, negb (x =? 123)) (List.filter (λ x, negb (x =? 45)) s)) 125)
    by (by apply eval_strip_call, eval_strip_call).
  rewrite !filter_filter_chars. cbn [mbind option_bind].
  assert (List.filter (λ c, negb (c =? 45) && negb (c =? 123) && negb (c =? 125)) s = List.filter (λ c, negb (char_in [45; 123; 125] c)) s) as <-.
  { apply List.filter_ext. intros c. unfold char_in. cbn. by destruct (c =? 45), (c =? 123), (c =? 125). }
  rewrite (List.filter_ext (λ c, negb (c =? 45) && (negb (c =? 123) && negb (c =? 125))) (λ c, negb (c =? 45) && negb (c =? 123) && negb (c =? 125)))
    by (intros c; by rewrite andb_assoc).
  reflexivity.
Qed.

(** C12 (a UUID literal is stored as the value the server reads).  Whatever text
    PostgreSQL reads as a UUID, the code accepts in a literal, written plainly or as
    the projection of a subquery, and what the column then holds is that value: in a
    BLOB column the sixteen bytes, from the literal and from the conversion of any
    other expression that answers the text alike; in a TEXT column the text the
    server prints, which reads back as the same value and which canonicalising
    again leaves alone. *)
Theorem uuid_literal_stored_as_read env options text bytes arg :
  uuid_text_to_blob_function_name options = None → uuid_in text = Some bytes → eval env arg = Some (SqlText text) →
  length bytes = 16%nat ∧
  (∃ wrapped, maybe_wrap_text_uuid_literal (string_literal text) options = Ok wrapped ∧ eval (Payload := Payload) env wrapped = Some (SqlBlob bytes)) ∧
  (∃ wrapped, maybe_wrap_text_uuid_literal (ESubquery (single_expr_query (string_literal text) [] None)) options = Ok wrapped ∧
     eval (Payload := Payload) env wrapped = Some (SqlBlob bytes)) ∧
  eval env (make_uuid_conversion_call arg options) = Some (SqlBlob bytes) ∧
  maybe_canonicalize_text_uuid_literal (string_literal text) = Ok (string_literal (uuid_out bytes)) ∧
  uuid_in (uuid_out bytes) = Some bytes ∧
  maybe_canonicalize_text_uuid_literal (string_literal (uuid_out bytes)) = Ok (string_literal (uuid_out bytes)).
Proof.
  intros Ho Hin Harg. destruct (uuid_in_digits _ _ Hin) as (digits & Hhex & Hbytes & Hl & Hl' & Hrange & Hprint & Hfilter).
  assert (Hcanon : ∀ t, uuid_in t = Some bytes → maybe_canonicalize_text_uuid_literal (string_literal t) = Ok (string_literal (uuid_out bytes))).
  { intros t Ht. destruct (uuid_in_digits _ _ Ht) as (d & Hd & _ & _ & _ & _ & Hp & _). unfold maybe_canonicalize_text_uuid_literal.
    cbn [single_quoted_literal string_literal]. unfold canonical_uuid_hyphenated. rewrite Hd. cbn [mbind option_bind].
    by rewrite (hyphenated_prints bytes) by done. }
  assert (Hwrap : wrap_uuid_literal text options = Ok (simple_function_expr (lit "unhex") [string_literal digits]))
    by (unfold wrap_uuid_literal; by rewrite Hhex, Ho).
  assert (Heval : eval (Payload := Payload) env (simple_function_expr (lit "unhex") [string_literal digits]) = Some (SqlBlob bytes)).
  { rewrite eval_simple_function1. transitivity (Some match hex_bytes digits with Some bytes => SqlBlob bytes | None => SqlNull end);
      [reflexivity|by rewrite Hbytes]. }
  split_and!; [done| | | |by apply Hcanon|by apply uuid_in_out|by apply Hcanon, uuid_in_out].
  - exists (simple_function_expr (lit "unhex") [string_literal digits]). split; [|done]. exact Hwrap.
  - exists (ESubquery (single_expr_query (simple_function_expr (lit "unhex") [string_literal digits]) [] None)). split.
    + unfold maybe_wrap_text_uuid_literal. cbn [scalar_subquery_projection single_expr_query mbind option_bind single_quoted_literal string_literal].
      by rewrite Hwrap.
    + exact Heval.
  - rewrite (eval_conversion_call _ _ _ text) by done. by rewrite Hfilter, Hbytes.
Qed.

(** What PostgreSQL refuses is not all refused: a hyphen passes wherever a multiple
    of four digits stands before it. *)
Definition demo_uuid : str := lit "550e8400e29b41d4a716446655440000".
Example leading_hyphen : canonical_uuid_hex (45 :: demo_uuid) = Some demo_uuid ∧ uuid_in (45 :: demo_uuid) = None.
Proof. split; reflexivity. Qed.
Example doubled_hyphen : canonical_uuid_hex (lit "550e--8400e29b41d4a716446655440000") = Some demo_uuid ∧ uuid_in (lit "550e--8400e29b41d4a716446655440000") = None.
Proof. split; reflexivity. Qed.
Example trailing_hyphen : canonical_uuid_hex (demo_uuid ++ [45]) = Some demo_uuid ∧ uuid_in (demo_uuid ++ [45]) = None.
Proof. split; reflexivity. Qed.
End Uuid.

Lemma uuid_literal_stored_as_read_witness :
  let text := lit "{550E8400-e29b-41d4-a716-446655440000}" in
  let bytes := [85; 14; 132; 0; 226; 155; 65; 212; 167; 22; 68; 102; 85; 68; 0; 0] in
  uuid_out bytes = lit "550e8400-e29b-41d4-a716-446655440000" ∧ uuid_in text = Some bytes ∧
  maybe_canonicalize_text_uuid_literal (Payload := unit) (string_literal text) = Ok (string_literal (uuid_out bytes)).
Proof.
  split; [reflexivity|]. split; [reflexivity|].
  apply (uuid_literal_stored_as_read (Payload := unit) demo_env demo_options
    (lit "{550E8400-e29b-41d4-a716-446655440000}") [85; 14; 132; 0; 226; 155; 65; 212; 167; 22; 68; 102; 85; 68; 0; 0]
    (string_literal (lit "{550E8400-e29b-41d4-a716-446655440000}"))); reflexivity.
Defined.
End Uuid.
