(* ===== verification/MinorUnits.v ===== *)
(** * Decimals held as minor units

    A scaled [NUMERIC] column is an INTEGER column of minor units.  This file holds the
    arithmetic of [src/src/impls/shared_helpers.rs] that moves values on and off
    that representation, [rescale_minor_units], [scale_decimal_literal],
    [scale_parameter] and [render_minor_units_as_text], the readers of quoted
    numbers and booleans beside them, and the defaults of [column.rs]. *)

From S2P Require Import Prelude Text Errors Ast Exprs ExprWalk Names SqliteEval DataTypes.
Import DataTypes.

Module MinorUnits.
Section MinorUnits.
Context {Payload : Type} `{TypeDisplay Payload}.
Implicit Types (expr value : Expr Payload) (data_type : DataType Payload) (digits text : str) (scale from to : Z).

(** The powers are [i128]: a scale is at most 18. *)
Definition power_of_ten scale : Z := 10 ^ scale.

Definition rescale_minor_units value from to : Expr Payload :=
  if from =? to then value
  else if from <? to then ENested (EBinaryOp value BMultiply (number_literal (dec (power_of_ten (to - from)))))
  else
    let divisor := power_of_ten (from - to) in
    let half := divisor / 2 in
    let biased := ENested (EBinaryOp value BPlus
                    (EBinaryOp (number_literal (dec half)) BMultiply (simple_function_expr (lit "sign") [value]))) in
    ENested (EBinaryOp biased BDivide (number_literal (dec divisor))).

Definition signed_digits (negated : bool) (rest : str) : str := (if negated then [45] else []) ++ rest.

(** A number literal, under a sign of its own. *)
Definition signed_number (plus : bool) expr : option (bool * str) :=
  match expr with
  | EValue (Number digits _) => Some (false, digits)
  | EUnaryOp UMinus (EValue (Number digits _)) => Some (true, digits)
  | EUnaryOp UPlus (EValue (Number digits _)) => if plus then Some (false, digits) else None
  | _ => None
  end.

Definition has_exponent digits : bool := existsb (char_in (lit "eE")) digits.
Definition whole_and_fraction digits : str * str := default (digits, []) (split_once 46 digits).

Definition scale_decimal_literal expr scale : result Error (option (Expr Payload)) :=
  match signed_number true expr with
  | None => Ok None
  | Some (negated, digits) =>
      if has_exponent digits then
        Err (forward_refusal (lit "the literal " ++ digits ++ lit " is in exponent notation, which this translator does not scale onto a NUMERIC column. Write it in full."))
      else
        let '(whole, fraction) := whole_and_fraction digits in
        let fraction_digits := default u32_max (u32_try_from (Z.of_nat (length fraction))) in
        if scale <? fraction_digits then
          Err (forward_refusal (lit "the literal " ++ digits ++ lit " has " ++ dec fraction_digits ++ lit " decimal places and the column holds "
            ++ dec scale ++ lit ". PostgreSQL would round it, which silently changes the value, so write it at the column's scale instead."))
        else
          let padding := replicate (Z.to_nat (scale - fraction_digits)) 48 in
          Ok (Some (number_literal (signed_digits negated (whole ++ fraction ++ padding))))
  end.

Definition minor_unit_scale data_type : option Z :=
  info ← exact_numeric_info data_type;
  match numeric_precision_and_scale info with
  | Ok (_, scale) => if 0 <? scale then Some scale else None
  | Err _ => None
  end.

Definition scale_parameter expr scale : Expr Payload :=
  let multiplied := ENested (EBinaryOp expr BMultiply (number_literal (dec (power_of_ten scale)))) in
  ECast (simple_function_expr (lit "ROUND") [multiplied]) (DataInteger None).

Definition render_minor_units_as_text value scale : Expr Payload :=
  let factor := dec (power_of_ten scale) in
  let absolute := simple_function_expr (lit "abs") [value] in
  let sign := case_when (EBinaryOp value BLt (number_literal (lit "0"))) (string_literal (lit "-")) (Some (string_literal [])) in
  let whole := EBinaryOp absolute BDivide (number_literal factor) in
  let fraction := EBinaryOp absolute BModulo (number_literal factor) in
  let rendered := simple_function_expr (lit "printf") [string_literal (lit "%s%d.%0" ++ dec scale ++ lit "d"); sign; whole; fraction] in
  case_when (EIsNull value) (EValue ValueNull) (Some rendered).

(** ** Quoted numbers and booleans *)

Definition is_point (c : Z) : bool := c =? 46.
Definition count (p : Z → bool) (s : str) : nat := length (List.filter p s).

Definition strip_sign (s : str) : str :=
  match s with c :: rest => if (c =? 45) || (c =? 43) then rest else s | [] => s end.

Definition quoted_decimal_as_number text : option (Expr Payload) :=
  let trimmed := trim text in
  let unsigned := strip_sign trimmed in
  if is_nonempty unsigned && forallb (λ c, is_ascii_digit c || is_point c) unsigned
     && Nat.leb (count is_point unsigned) 1 && existsb is_ascii_digit unsigned
  then Some (number_literal (if starts_with (lit "-") trimmed then lit "-" ++ unsigned else unsigned))
  else None.

Definition numeric_text_literal expr : result Error (option (Expr Payload)) :=
  match single_quoted_literal expr with
  | None => Ok None
  | Some text =>
      match quoted_decimal_as_number text with
      | Some number => Ok (Some number)
      | None => Err (forward_refusal (lit "'" ++ text ++ lit "' is not a number a NUMERIC column can hold as minor units, so it cannot be written into one."))
      end
  end.

Definition prefix_of (value : str) (word : string) (least : nat) : bool := Nat.leb least (length value) && starts_with value (lit word).

Definition postgres_bool text : option bool :=
  let value := to_ascii_lowercase (trim text) in
  first ← head value;
  if (first =? 116) && prefix_of value "true" 1 then Some true
  else if (first =? 102) && prefix_of value "false" 1 then Some false
  else if (first =? 121) && prefix_of value "yes" 1 then Some true
  else if (first =? 110) && prefix_of value "no" 1 then Some false
  else if (first =? 111) && prefix_of value "on" 2 then Some true
  else if (first =? 111) && prefix_of value "off" 2 then Some false
  else if (first =? 49) && Nat.eqb (length value) 1 then Some true
  else if (first =? 48) && Nat.eqb (length value) 1 then Some false
  else None.

Definition boolean_text_literal expr : result Error (option (Expr Payload)) :=
  match single_quoted_literal expr with
  | None => Ok None
  | Some text =>
      match postgres_bool text with
      | Some b => Ok (Some (EValue (ValueBoolean b)))
      | None => Err (forward_refusal (lit "'" ++ text ++ lit "' is not a boolean PostgreSQL accepts, so it cannot be written into a boolean column."))
      end
  end.

Definition is_boolean data_type : bool := match data_type with DataBool | DataBoolean => true | _ => false end.
Definition reads_typed_text data_type : bool := is_some (minor_unit_scale data_type) || is_boolean data_type.

Definition typed_text_literal data_type expr : result Error (option (Expr Payload)) :=
  if is_some (minor_unit_scale data_type) then numeric_text_literal expr
  else if is_boolean data_type then boolean_text_literal expr
  else Ok None.

(** ** Defaults: [column.rs] *)

Fixpoint peel expr : Expr Payload := match expr with ENested inner => peel inner | _ => expr end.

Definition scaled_numeric_default expr scale : result Error (option (Expr Payload)) :=
  let peeled := peel expr in
  scaled ← scale_decimal_literal peeled scale;
  match scaled with
  | Some scaled => Ok (Some scaled)
  | None =>
      match peeled with
      | EValue ValueNull => Ok (Some peeled)
      | EValue (SingleQuotedString text) =>
          match quoted_decimal_as_number text with
          | Some number => scale_decimal_literal number scale
          | None => Ok None
          end
      | _ => Ok None
      end
  end.

(** [i64] addition, which wraps in a release build. *)
Definition wrapping_add_i64 (a b : Z) : Z := (a + b - i64_min) mod 2 ^ 64 + i64_min.

Definition round_literal_to_integer expr : option (Expr Payload) :=
  '(negated, digits) ← signed_number false expr;
  if has_exponent digits then None
  else
    let '(whole, fraction) := whole_and_fraction digits in
    if forallb (Z.eqb 48) fraction then Some (number_literal (signed_digits negated whole))
    else
      let round_up := match fraction with c :: _ => 53 <=? c | [] => false end in
      whole_val ← parse_i64 whole;
      let rounded := if round_up : bool then wrapping_add_i64 whole_val 1 else whole_val in
      Some (number_literal (if negated then lit "-" ++ dec_signed rounded else dec_signed rounded)).

Definition round_scale_zero_default data_type expr : Expr Payload :=
  match exact_numeric_info data_type with
  | None => expr
  | Some info =>
      match numeric_precision_and_scale info with
      | Ok (_, 0) => let peeled := peel expr in default peeled (round_literal_to_integer peeled)
      | _ => expr
      end
  end.

Definition scaled_default (column_name : Ident) data_type expr : result Error (Expr Payload) :=
  match minor_unit_scale data_type with
  | None =>
      boolean ← typed_text_literal data_type expr;
      Ok match boolean with Some boolean => boolean | None => round_scale_zero_default data_type expr end
  | Some scale =>
      scaled ← scaled_numeric_default expr scale;
      ok_or scaled (forward_refusal (lit "the DEFAULT on column '" ++ column_to_string column_name
        ++ lit "' does not land as one number at the column's scale. The column is a NUMERIC held as an INTEGER of minor units, so the default has to be a plain literal, which PostgreSQL coerces the same way. Write it as a number at the column's scale, or drop it."))
  end.
End MinorUnits.

(** ** Moving the point *)

(** [r] is [z / d] rounded half away from zero, as PostgreSQL rounds. *)
Definition rounds_half_away (z d r : Z) : Prop :=
  2 * Z.abs (r * d - z) <= d ∧ (2 * Z.abs (r * d - z) = d → Z.abs z < Z.abs (r * d)).

Lemma biased_division_rounds z d :
  0 < d → d mod 2 = 0 → rounds_half_away z d ((z + d / 2 * Z.sgn z) ÷ d).
Proof.
  intros Hd He. assert (Hh : d = 2 * (d / 2)) by divmod. set (h := d / 2) in *. unfold rounds_half_away.
  destruct (Z.sgn_spec z) as [[Hz ->]|[[Hz ->]|[Hz ->]]].
  - rewrite Z.quot_div_nonneg by lia. pose proof (Z.div_mod (z + h * 1) d ltac:(lia)). pose proof (Z.mod_pos_bound (z + h * 1) d ltac:(lia)).
    set (q := (z + h * 1) / d) in *. assert (0 <= q) by nia. split; [lia|nia].
  - subst z. rewrite Z.mul_0_r, Z.quot_0_l by lia. lia.
  - replace (z + h * Z.opp 1) with (- (- z + h)) by lia. rewrite Z.quot_opp_l, Z.quot_div_nonneg by lia.
    pose proof (Z.div_mod (- z + h) d ltac:(lia)). pose proof (Z.mod_pos_bound (- z + h) d ltac:(lia)).
    set (q := (- z + h) / d) in *. assert (0 <= q) by nia. split; [lia|nia].
Qed.

Lemma quot_magnitude x d : 1 <= d → Z.abs (x ÷ d) <= Z.abs x.
Proof.
  intros Hd. destruct (Z.le_ge_cases 0 x).
  - pose proof (Z.mul_quot_le x d ltac:(lia) ltac:(lia)). nia.
  - pose proof (Z.mul_quot_ge x d ltac:(lia) ltac:(lia)). nia.
Qed.

Lemma power_even n : 0 < n → 10 ^ n mod 2 = 0.
Proof. intros Hn. replace n with (Z.succ (n - 1)) by lia. rewrite Z.pow_succ_r by lia. rewrite <- Zmult_mod_idemp_l. done. Qed.

Lemma power_bounds n : 0 <= n <= 18 → 1 <= 10 ^ n <= 10 ^ 18.
Proof. intros Hn. split; [pose proof (Z.pow_pos_nonneg 10 n); lia|by apply Z.pow_le_mono_r; lia]. Qed.

Section Facts.
Context {Payload : Type} `{TypeDisplay Payload}.
Implicit Types (expr value : Expr Payload) (digits text : str) (scale from to : Z).

Lemma eval_binary env (a b : Expr Payload) op x y :
  eval env a = Some x → eval env b = Some y → eval env (EBinaryOp a op b) = binary op x y.
Proof. intros Ha Hb. cbn [eval]. by rewrite Ha, Hb. Qed.

Lemma eval_power env n : 0 <= n <= 18 → eval (Payload := Payload) env (number_literal (dec (power_of_ten n))) = Some (SqlInt (10 ^ n)).
Proof. intros Hn. apply eval_dec. pose proof (power_bounds n Hn). unfold i64_max. lia. Qed.

Lemma sql_int_in z : i64_min <= z <= i64_max → sql_int z = Some (SqlInt z).
Proof. intros Hz. unfold sql_int, in_i64. by replace (_ && _) with true by lia. Qed.

Lemma grow_eval env value from to z :
  0 <= from < to → to <= 18 → eval env value = Some (SqlInt z) → i64_min <= z * 10 ^ (to - from) <= i64_max →
  eval env (rescale_minor_units value from to) = Some (SqlInt (z * 10 ^ (to - from))).
Proof.
  intros Hf Ht Hv Hr. unfold rescale_minor_units. replace (from =? to) with false by lia. replace (from <? to) with true by lia.
  change (eval env (ENested ?e)) with (eval env e). rewrite (eval_binary _ _ _ _ _ _ Hv (eval_power _ (to - from) ltac:(lia))). by apply sql_int_in.
Qed.

Lemma shrink_eval env value from to z :
  0 <= to < from → from <= 18 → eval env value = Some (SqlInt z) → Z.abs z + 10 ^ (from - to) / 2 <= i64_max →
  eval env (rescale_minor_units value from to) =
  Some (SqlInt ((z + 10 ^ (from - to) / 2 * Z.sgn z) ÷ 10 ^ (from - to))).
Proof.
  intros Ht Hf Hv Hr. pose proof (power_bounds (from - to) ltac:(lia)) as Hp. unfold rescale_minor_units.
  replace (from =? to) with false by lia. replace (from <? to) with false by lia.
  set (d := power_of_ten (from - to)) in *. change (10 ^ (from - to)) with d in *.
  assert (Hd : 0 <= d / 2 <= d) by divmod.
  assert (Hb : Z.abs (z + d / 2 * Z.sgn z) <= Z.abs z + d / 2) by (destruct (Z.sgn_spec z) as [[? ->]|[[? ->]|[? ->]]]; lia).
  change (eval env (ENested ?e)) with (eval env e).
  rewrite (eval_binary _ _ _ _ (SqlInt (z + d / 2 * Z.sgn z)) (SqlInt d)).
  - cbn [binary on_ints]. replace (d =? 0) with false by lia. apply sql_int_in.
    pose proof (quot_magnitude (z + d / 2 * Z.sgn z) d ltac:(lia)). unfold i64_min, i64_max in *. lia.
  - change (eval env (ENested ?e)) with (eval env e). rewrite (eval_binary _ _ _ _ (SqlInt z) (SqlInt (d / 2 * Z.sgn z)) Hv).
    + cbn [binary on_ints]. apply sql_int_in. unfold i64_min, i64_max in *. clear -Hr Hb. lia.
    + rewrite (eval_binary _ _ _ _ (SqlInt (d / 2)) (SqlInt (Z.sgn z))).
      * cbn [binary on_ints]. apply sql_int_in. unfold i64_min, i64_max in *.
        clear -Hr Hd. destruct (Z.sgn_spec z) as [[? ->]|[[? ->]|[? ->]]]; lia.
      * apply eval_dec. unfold i64_max in *. lia.
      * rewrite eval_simple_function1, Hv. done.
  - apply eval_power. lia.
Qed.

Lemma rescale_null env value from to :
  0 <= from <= 18 → 0 <= to <= 18 → eval env value = Some SqlNull → eval env (rescale_minor_units value from to) = Some SqlNull.
Proof.
  intros Hf Ht Hv. unfold rescale_minor_units. destruct (from =? to); [done|]. destruct (from <? to) eqn:E.
  - change (eval env (ENested ?e)) with (eval env e). by rewrite (eval_binary _ _ _ _ _ _ Hv (eval_power _ (to - from) ltac:(lia))).
  - pose proof (power_bounds (from - to) ltac:(destruct (from =? to) eqn:?; lia)) as Hp. set (d := power_of_ten (from - to)) in *. change (10 ^ (from - to)) with d in *.
    change (eval env (ENested ?e)) with (eval env e). rewrite (eval_binary _ _ _ _ SqlNull (SqlInt d)); [done| |by apply eval_power; lia].
    change (eval env (ENested ?e)) with (eval env e). rewrite (eval_binary _ _ _ _ SqlNull SqlNull Hv); [done|].
    rewrite (eval_binary _ _ _ _ (SqlInt (d / 2)) SqlNull); [done| |by rewrite eval_simple_function1, Hv].
    apply eval_dec. assert (0 <= d / 2 <= d) by divmod. unfold i64_max. lia.
Qed.

(** An operand the text shows as one. *)
Definition one_operand value : Prop := operands value = (value, []) ∧ reread value = value.

Lemma rescale_reads_back value from to : one_operand value → reread (rescale_minor_units value from to) = rescale_minor_units value from to.
Proof.
  intros [Ho Hr]. unfold rescale_minor_units. destruct (from =? to); [done|]. destruct (from <? to).
  - cbn [reread]. rewrite Hr. unfold read_chain. cbn [operands number_literal]. by rewrite Ho.
  - cbn [reread simple_function_expr map unnamed_arg number_literal]. rewrite Hr. unfold read_chain. cbn [operands]. rewrite Ho. reflexivity.
Qed.

(** C17 (moving a value between scales).  Rescaling multiplies on the way up, and on
    the way down divides with PostgreSQL's rounding, half away from zero, over the
    whole range that fits 64 bits; NULL stays NULL; and where the value is written
    as one operand, SQLite reads the printed text as the expression that was built. *)
Theorem rescale_minor_units_exact env value from to z :
  0 <= from <= 18 → 0 <= to <= 18 → eval env value = Some (SqlInt z) →
  i64_min <= z * 10 ^ (to - from) <= i64_max → Z.abs z + 10 ^ (from - to) / 2 <= i64_max →
  (∃ r, eval env (rescale_minor_units value from to) = Some (SqlInt r) ∧
     (from <= to → r = z * 10 ^ (to - from)) ∧ (to < from → rounds_half_away z (10 ^ (from - to)) r)) ∧
  (∀ env', eval env' value = Some SqlNull → eval env' (rescale_minor_units value from to) = Some SqlNull) ∧
  (one_operand value → reread (rescale_minor_units value from to) = rescale_minor_units value from to).
Proof.
  intros Hf Ht Hv Hup Hdown. split; [|split; [by intros env'; apply rescale_null|apply rescale_reads_back]]. destruct (Z.lt_trichotomy from to) as [Hlt|[<-|Hgt]].
  - exists (z * 10 ^ (to - from)). split; [apply grow_eval; (done || lia)|]. split; [done|lia].
  - exists z. unfold rescale_minor_units. rewrite Z.eqb_refl. split; [done|]. rewrite Z.sub_diag. split; lia.
  - exists ((z + 10 ^ (from - to) / 2 * Z.sgn z) ÷ 10 ^ (from - to)). split; [apply shrink_eval; (done || lia)|]. split; [lia|]. intros _.
    apply biased_division_rounds; [pose proof (power_bounds (from - to)); lia|by apply power_even; lia].
Qed.

(** ** Literals *)

(** A decimal as it is written: [point] says whether the point is. *)
Record Decimal := { negative : bool; whole : str; point : bool; fraction : str }.
Definition decimal_ok (d : Decimal) : Prop :=
  all_digits (whole d) = true ∧ all_digits (fraction d) = true ∧ whole d ++ fraction d ≠ [] ∧ (point d = false → fraction d = []).
Definition unsigned_text (d : Decimal) : str := whole d ++ if point d then 46 :: fraction d else [].
Definition places (d : Decimal) : Z := Z.of_nat (length (fraction d)).
(** The value in units of [10 ^ - scale], which is whole where the places fit. *)
Definition units (d : Decimal) scale : Z :=
  (if negative d then -1 else 1) * digits_value (whole d ++ fraction d) * 10 ^ (scale - places d).

Lemma parse_i64_signed negative ds :
  ds ≠ [] → all_digits ds = true → i64_min <= (if negative : bool then - digits_value ds else digits_value ds) <= i64_max →
  parse_i64 (signed_digits negative ds) = Some (if negative then - digits_value ds else digits_value ds).
Proof.
  intros Hne Hd Hr. destruct ds as [|c ds]; [done|].
  assert (is_ascii_digit c = true) as Hc by (rewrite all_digits_cons in Hd; by bools).
  unfold parse_i64. destruct negative; cbn [signed_digits app].
  - change (45 =? 45) with true. cbv iota. cbn [is_nonempty]. rewrite Hd. cbn [andb]. by replace (_ && _) with true by lia.
  - replace (c =? 45) with false by (unfold is_ascii_digit in Hc; lia). replace (c =? 43) with false by (unfold is_ascii_digit in Hc; lia).
    cbn [is_nonempty]. rewrite Hd. cbn [andb]. by replace (_ && _) with true by lia.
Qed.

Lemma digits_value_padded s n : digits_value (s ++ replicate n 48) = digits_value s * 10 ^ Z.of_nat n.
Proof.
  rewrite digits_value_app. assert (digits_value (replicate n 48) = 0) as -> by (pose proof (digits_value_zeros n []) as Hz; by rewrite app_nil_r in Hz).
  rewrite length_replicate. lia.
Qed.

Lemma digits_free46 s : all_digits s = true → free (λ x, x =? 46) s.
Proof. intros Hs. eapply forallb_free; [|exact Hs]. intros c. unfold is_ascii_digit. lia. Qed.

Lemma unsigned_split d : decimal_ok d → whole_and_fraction (unsigned_text d) = (whole d, fraction d).
Proof.
  intros (Hw & Hf & _ & Hp). unfold whole_and_fraction, unsigned_text. destruct (point d).
  - rewrite split_once_app by (by apply digits_free46). done.
  - rewrite app_nil_r, split_once_free by (by apply digits_free46). by rewrite Hp.
Qed.

Lemma no_exponent s : forallb (λ c, is_ascii_digit c || char_in (lit "-.") c) s = true → has_exponent s = false.
Proof.
  intros Hs. apply existsb_false. apply forallb_Forall in Hs. eapply Forall_impl; [exact Hs|]. intros c Hc.
  change (lit "-.") with [45; 46] in Hc. change (lit "eE") with [101; 69]. unfold char_in, is_ascii_digit in *. cbn [existsb] in *. lia.
Qed.

Lemma unsigned_plain d : decimal_ok d → forallb (λ c, is_ascii_digit c || char_in (lit "-.") c) (unsigned_text d) = true.
Proof.
  intros (Hw & Hf & _ & _). unfold unsigned_text. rewrite forallb_app. apply andb_true_iff. split.
  - apply forallb_Forall. apply forallb_Forall in Hw. eapply Forall_impl; [exact Hw|]. intros c Hc. by rewrite Hc.
  - destruct (point d); [|done]. cbn [forallb]. apply andb_true_iff. split; [done|].
    apply forallb_Forall. apply forallb_Forall in Hf. eapply Forall_impl; [exact Hf|]. intros c Hc. by rewrite Hc.
Qed.

(** The scaled digits evaluate to the units. *)
Lemma eval_scaled env negated d scale :
  decimal_ok d → places d <= scale → negated = negative d → i64_min <= units d scale <= i64_max →
  eval (Payload := Payload) env (number_literal (signed_digits negated (whole d ++ fraction d ++ replicate (Z.to_nat (scale - places d)) 48))) =
  Some (SqlInt (units d scale)).
Proof.
  intros (Hw & Hf & Hne & _) Hp -> Hr. cbn [eval number_literal].
  assert (units d scale = if negative d then - digits_value (whole d ++ fraction d ++ replicate (Z.to_nat (scale - places d)) 48)
    else digits_value (whole d ++ fraction d ++ replicate (Z.to_nat (scale - places d)) 48)) as He.
  { rewrite app_assoc, digits_value_padded. rewrite Z2Nat.id by lia. unfold units. destruct (negative d); lia. }
  rewrite parse_i64_signed; [by rewrite He| | |by rewrite <- He].
  - intros H0. apply Hne. apply (f_equal length) in H0. rewrite !length_app in H0. cbn in H0. apply nil_length_inv. rewrite length_app. lia.
  - rewrite !all_digits_app, Hw, Hf. apply forallb_Forall, Forall_replicate. done.
Qed.

Lemma whole_and_fraction_prefix c s : c ≠ 46 → whole_and_fraction (c :: s) = (c :: fst (whole_and_fraction s), snd (whole_and_fraction s)).
Proof. intros Hc. unfold whole_and_fraction. cbn [split_once]. replace (c =? 46) with false by lia. by destruct (split_once 46 s) as [[a b]|]. Qed.

Lemma places_checked d scale :
  0 <= scale <= 18 → (scale <? default u32_max (u32_try_from (places d))) = (scale <? places d).
Proof.
  intros Hs. unfold u32_try_from, u32_max. assert (0 <= places d) as Hn by apply Nat2Z.is_nonneg. destruct (_ && _) eqn:E; unfold default, id; [done|lia].
Qed.

Lemma places_fit d scale : 0 <= scale <= 18 → places d <= scale → default u32_max (u32_try_from (places d)) = places d.
Proof.
  intros Hs Hp. unfold u32_try_from, u32_max. assert (0 <= places d) as Hn by apply Nat2Z.is_nonneg.
  replace (_ && _) with true by lia. done.
Qed.

Lemma scale_number env negated expr d scale digits :
  decimal_ok d → 0 <= scale <= 18 → negated = negative d → signed_number true expr = Some (negated, unsigned_text d) ∨
    (expr = number_literal digits ∧ digits = signed_digits negated (unsigned_text d)) →
  (places d <= scale → i64_min <= units d scale <= i64_max →
   ∃ e, scale_decimal_literal expr scale = Ok (Some e) ∧ eval env e = Some (SqlInt (units d scale))) ∧
  (scale < places d → is_ok (scale_decimal_literal expr scale) = false).
Proof.
  intros Hd Hs Hneg Hform.
  assert (∃ outer inner, signed_number true expr = Some (outer, signed_digits inner (unsigned_text d)) ∧ (if negated then xorb outer inner = true else outer = false ∧ inner = false))
    as (outer & inner & Hsn & Hx).
  { destruct Hform as [Hf|[-> ->]]; [exists negated, false|exists false, negated]; (split; [done|by destruct negated]). }
  unfold scale_decimal_literal. rewrite Hsn.
  assert (has_exponent (signed_digits inner (unsigned_text d)) = false) as ->.
  { apply no_exponent. pose proof (unsigned_plain d Hd) as Hp. destruct inner; [|exact Hp]. cbn [signed_digits app forallb]. by rewrite Hp. }
  assert (whole_and_fraction (signed_digits inner (unsigned_text d)) = (signed_digits inner (whole d), fraction d)) as ->.
  { destruct inner; cbn [signed_digits app]; [rewrite whole_and_fraction_prefix by done|]; by rewrite unsigned_split. }
  fold (places d). rewrite places_checked by done. destruct (scale <? places d) eqn:E; [split; [lia|done]|]. split; [|lia]. intros Hp Hr.
  eexists. split; [done|]. rewrite (places_fit d scale) by done.
  assert (signed_digits outer (signed_digits inner (whole d) ++ fraction d ++ replicate (Z.to_nat (scale - places d)) 48) =
    signed_digits negated (whole d ++ fraction d ++ replicate (Z.to_nat (scale - places d)) 48)) as ->.
  { unfold signed_digits. destruct negated, outer, inner; cbn in Hx; try done; by destruct Hx. }
  by apply eval_scaled.
Qed.

Definition signed_literal (plus : bool) (d : Decimal) : Expr Payload :=
  let number := number_literal (unsigned_text d) in
  if negative d then EUnaryOp UMinus number else if plus then EUnaryOp UPlus number else number.
Definition sign_text (plus : bool) (d : Decimal) : str := if negative d then [45] else if plus then [43] else [].

Lemma trim_spaces a s b :
  forallb is_whitespace a = true → forallb is_whitespace b = true → s ≠ [] → forallb (λ c, negb (is_whitespace c)) s = true → trim (a ++ s ++ b) = s.
Proof.
  intros Ha Hb Hne Hs. unfold trim, trim_start_matches, trim_end, trim_end_matches.
  assert (Hdrop : ∀ w t, forallb is_whitespace w = true → t ≠ [] → forallb (λ c, negb (is_whitespace c)) t = true → ∀ r, drop_while is_whitespace (w ++ t ++ r) = t ++ r).
  { intros w t Hw Ht Hall r. induction w as [|c w IH]; cbn in *.
    - destruct t as [|c t]; [done|]. cbn in *. bools. destruct (is_whitespace c); done.
    - bools. destruct (is_whitespace c); [by apply IH|done]. }
  rewrite Hdrop by done. rewrite reverse_app. rewrite <- (app_nil_r (reverse s)), Hdrop.
  - by rewrite app_nil_r, reverse_involutive.
  - apply forallb_Forall. apply forallb_Forall in Hb. by apply Forall_reverse.
  - intros H0. apply Hne. apply (f_equal reverse) in H0. by rewrite reverse_involutive in H0.
  - apply forallb_Forall. apply forallb_Forall in Hs. by apply Forall_reverse.
Qed.

Lemma quoted_reads plus d a b :
  decimal_ok d → forallb is_whitespace a = true → forallb is_whitespace b = true →
  quoted_decimal_as_number (Payload := Payload) (a ++ (sign_text plus d ++ unsigned_text d) ++ b) = Some (number_literal (signed_digits (negative d) (unsigned_text d))).
Proof.
  intros Hd Ha Hb. pose proof Hd as (Hw & Hf & Hne & Hp). pose proof (unsigned_plain d Hd) as Hplain.
  assert (Hu : unsigned_text d ≠ []).
  { unfold unsigned_text. destruct (point d) eqn:E; [by destruct (whole d)|]. rewrite Hp in Hne by done. by rewrite app_nil_r in *. }
  assert (Hchars : forallb (λ c, is_ascii_digit c || is_point c) (unsigned_text d) = true).
  { unfold unsigned_text. rewrite forallb_app. apply andb_true_iff. split.
    - apply forallb_Forall. apply forallb_Forall in Hw. eapply Forall_impl; [exact Hw|]. intros c Hc. by rewrite Hc.
    - destruct (point d); [|done]. cbn [forallb]. apply andb_true_iff. split; [done|].
      apply forallb_Forall. apply forallb_Forall in Hf. eapply Forall_impl; [exact Hf|]. intros c Hc. by rewrite Hc. }
  unfold quoted_decimal_as_number. rewrite trim_spaces; try done.
  2: { unfold sign_text. destruct (negative d); [done|]. destruct plus; [done|]. exact Hu. }
  2: { rewrite forallb_app. apply andb_true_iff. split; [unfold sign_text; by destruct (negative d), plus|].
       apply forallb_Forall. apply forallb_Forall in Hchars. eapply Forall_impl; [exact Hchars|]. intros c Hc.
       unfold is_point, is_ascii_digit, is_whitespace in *. lia. }
  assert (Hfirst : ∀ c s, unsigned_text d = c :: s → c ≠ 45 ∧ c ≠ 43).
  { intros c s Hcs. rewrite Hcs in Hchars. cbn in Hchars. apply andb_true_iff in Hchars as [Hc _]. unfold is_point, is_ascii_digit in Hc. lia. }
  assert (strip_sign (sign_text plus d ++ unsigned_text d) = unsigned_text d) as ->.
  { unfold sign_text. destruct (negative d); [done|]. destruct plus; [done|]. cbn [app]. unfold strip_sign.
    destruct (unsigned_text d) as [|c s]; [done|]. destruct (Hfirst c s eq_refl). by replace ((c =? 45) || (c =? 43)) with false by lia. }
  rewrite Hchars. assert (is_nonempty (unsigned_text d) = true) as -> by (by destruct (unsigned_text d)).
  assert (Hzero : ∀ s, all_digits s = true → List.filter is_point s = []).
  { intros s Hs. apply forallb_Forall in Hs. induction Hs as [|c s Hc _ IH]; [done|]. cbn. unfold is_point at 1.
    replace (c =? 46) with false by (unfold is_ascii_digit in Hc; lia). done. }
  assert (Nat.leb (count is_point (unsigned_text d)) 1 = true) as ->.
  { unfold count, unsigned_text. rewrite List.filter_app, Hzero by done. destruct (point d); [|done]. cbn. by rewrite Hzero. }
  assert (existsb is_ascii_digit (unsigned_text d) = true) as ->.
  { unfold unsigned_text. rewrite existsb_app. destruct (whole d) as [|c w]; [|rewrite all_digits_cons in Hw; cbn; bools; by rewrite (proj1 Hw) || by destruct (is_ascii_digit c)].
    destruct (fraction d) as [|c f]; [done|]. destruct (point d); [|by rewrite Hp in * by done]. cbn. rewrite all_digits_cons in Hf. bools.
    by destruct (is_ascii_digit c). }
  cbn [andb]. f_equal. f_equal. unfold sign_text, signed_digits. destruct (negative d); [done|]. destruct plus; [done|]. cbn [app].
  unfold starts_with. change (lit "-") with [45]. destruct (unsigned_text d) as [|c s]; [done|]. cbn [strip_prefix].
  destruct (Hfirst c s eq_refl). by replace (45 =? c) with false by lia.
Qed.

Lemma unsigned_no_minus d s : decimal_ok d → unsigned_text d ≠ 45 :: s.
Proof.
  intros (Hw & Hf & Hne & Hp) He. unfold unsigned_text in He. destruct (whole d) as [|c w] eqn:Ew; cbn [app] in He, Hne.
  - destruct (point d); [done|]. by rewrite Hp in Hne.
  - injection He as -> _. by rewrite all_digits_cons in Hw.
Qed.

Lemma signed_same d d' : decimal_ok d → decimal_ok d' →
  signed_digits (negative d) (unsigned_text d) = signed_digits (negative d') (unsigned_text d') → unsigned_text d = unsigned_text d'.
Proof.
  intros Hd Hd'. unfold signed_digits. destruct (negative d), (negative d'); cbn; intros He; [by injection He| | |done].
  - by destruct (unsigned_no_minus d' (unsigned_text d) Hd').
  - by destruct (unsigned_no_minus d (unsigned_text d') Hd).
Qed.

Lemma scale_fits d scale : decimal_ok d → 0 <= scale <= 18 → places d <= scale →
  ∃ e, scale_decimal_literal (Payload := Payload) (number_literal (signed_digits (negative d) (unsigned_text d))) scale = Ok (Some e).
Proof.
  intros Hd Hs Hp. unfold scale_decimal_literal.
  assert (Hsn : signed_number (Payload := Payload) true (number_literal (signed_digits (negative d) (unsigned_text d))) = Some (false, signed_digits (negative d) (unsigned_text d))) by done.
  rewrite Hsn.
  assert (has_exponent (signed_digits (negative d) (unsigned_text d)) = false) as ->.
  { apply no_exponent. pose proof (unsigned_plain d Hd) as Hplain. destruct (negative d); [|exact Hplain]. cbn [signed_digits app forallb]. by rewrite Hplain. }
  assert (whole_and_fraction (signed_digits (negative d) (unsigned_text d)) = (signed_digits (negative d) (whole d), fraction d)) as ->.
  { destruct (negative d); cbn [signed_digits app]; [rewrite whole_and_fraction_prefix by done|]; by rewrite unsigned_split. }
  fold (places d). rewrite places_checked by done. replace (scale <? places d) with false by lia. by eexists.
Qed.

(** *** Which quoted texts are numbers *)

Lemma drop_while_split p (s : str) : ∃ a, s = a ++ drop_while p s ∧ forallb p a = true.
Proof.
  induction s as [|c s (a & Hs & Ha)]; [by exists []|]. cbn [drop_while]. destruct (p c) eqn:Hc; [|by exists []].
  exists (c :: a). cbn. by rewrite <- Hs, Hc.
Qed.

Lemma trim_split (s : str) : ∃ a b, s = a ++ trim s ++ b ∧ forallb is_whitespace a = true ∧ forallb is_whitespace b = true.
Proof.
  unfold trim, trim_end, trim_end_matches, trim_start_matches. destruct (drop_while_split is_whitespace s) as (a & Hs & Ha).
  destruct (drop_while_split is_whitespace (reverse (drop_while is_whitespace s))) as (b & Hr & Hb). exists a, (reverse b). split_and!; [|done|].
  - rewrite Hs at 1. f_equal. apply (f_equal reverse) in Hr. by rewrite reverse_involutive, reverse_app in Hr.
  - apply forallb_Forall. apply forallb_Forall in Hb. by apply Forall_reverse.
Qed.

Lemma no_points (s : str) : forallb (λ c, is_ascii_digit c || is_point c) s = true → count is_point s = 0%nat → all_digits s = true.
Proof.
  unfold count. induction s as [|c s IH]; [done|]. cbn [forallb List.filter]. intros [Hc Hs]%andb_true_iff Hn. rewrite all_digits_cons.
  destruct (is_point c); [done|]. rewrite orb_false_r in Hc. rewrite Hc. by apply IH.
Qed.

Lemma first_point (s : str) : forallb (λ c, is_ascii_digit c || is_point c) s = true → count is_point s ≠ 0%nat →
  ∃ w f, s = w ++ 46 :: f ∧ all_digits w = true ∧ forallb (λ c, is_ascii_digit c || is_point c) f = true ∧ count is_point s = S (count is_point f).
Proof.
  unfold count. induction s as [|c s IH]; [done|]. cbn [forallb List.filter]. intros [Hc Hs]%andb_true_iff. destruct (is_point c) eqn:Ep.
  - intros _. exists [], s. apply Z.eqb_eq in Ep as ->. done.
  - intros Hn. destruct (IH Hs Hn) as (w & f & -> & Hw & Hf & Hcount). rewrite orb_false_r in Hc. exists (c :: w), f. split_and!; [done| |done|done]. rewrite all_digits_cons. by rewrite Hc.
Qed.

(** A text of digits and at most one point is a decimal. *)
Lemma unsigned_decimal (sign : bool) (u : str) :
  is_nonempty u && forallb (λ c, is_ascii_digit c || is_point c) u && Nat.leb (count is_point u) 1 && existsb is_ascii_digit u = true →
  ∃ d, negative d = sign ∧ decimal_ok d ∧ unsigned_text d = u.
Proof.
  intros Hu. bools. destruct (Nat.eq_dec (count is_point u) 0) as [Hzero|Hsome].
  - exists {| negative := sign; whole := u; point := false; fraction := [] |}. unfold decimal_ok, unsigned_text. cbn. rewrite app_nil_r. split_and!; try done; [by apply no_points|by destruct u].
  - destruct (first_point u) as (w & f & -> & Hw & Hf & Hc); [done..|]. exists {| negative := sign; whole := w; point := true; fraction := f |}.
    assert (Hnp : all_digits f = true) by (apply no_points; [done|]; match goal with Hle : Nat.leb _ _ = true |- _ => apply Nat.leb_le in Hle end; lia).
    unfold decimal_ok, unsigned_text. cbn. split_and!; try done. intros [-> ->]%app_nil. done.
Qed.

Lemma quoted_inverse (text : str) (number : Expr Payload) : quoted_decimal_as_number text = Some number →
  ∃ plus d a b, decimal_ok d ∧ forallb is_whitespace a = true ∧ forallb is_whitespace b = true ∧ text = a ++ (sign_text plus d ++ unsigned_text d) ++ b.
Proof.
  unfold quoted_decimal_as_number. destruct (trim_split text) as (a & b & Ht & Ha & Hb). destruct (_ && _) eqn:Hu; [|done]. intros _.
  assert (Hsign : ∃ plus sign, ∀ d, negative d = sign → unsigned_text d = strip_sign (trim text) → trim text = sign_text plus d ++ unsigned_text d).
  { destruct (trim text) as [|c rest]; [by exists false, false; intros d _ ->|]. unfold sign_text. cbn [strip_sign]. destruct (c =? 45) eqn:E1.
    - apply Z.eqb_eq in E1 as ->. exists false, true. intros d -> ->. done.
    - destruct (c =? 43) eqn:E2; cbn [orb]; [apply Z.eqb_eq in E2 as ->; exists true, false; intros d -> ->; done|exists false, false; intros d -> ->; done]. }
  destruct Hsign as (plus & sign & Hsign). destruct (unsigned_decimal sign _ Hu) as (d & Hn & Hd & Hun). exists plus, d, a, b. split_and!; try done.
  by rewrite <- (Hsign d Hn Hun).
Qed.

(** C15 (decimals are stored exactly).  A decimal written into a scaled column, as a
    number under a sign of its own or as text between blanks, is stored as its exact
    count of minor units when its decimal places fit the column, and is refused,
    never rounded, when they do not. *)
Theorem decimal_stored_exactly env d scale plus a b :
  decimal_ok d → 0 <= scale <= 18 → forallb is_whitespace a = true → forallb is_whitespace b = true →
  let text := a ++ (sign_text plus d ++ unsigned_text d) ++ b in
  ∃ number : Expr Payload, numeric_text_literal (string_literal text) = Ok (Some number) ∧
  (places d <= scale → i64_min <= units d scale <= i64_max →
   (∃ e, scale_decimal_literal (signed_literal plus d) scale = Ok (Some e) ∧ eval env e = Some (SqlInt (units d scale))) ∧
   (∃ e, scale_decimal_literal number scale = Ok (Some e) ∧ eval env e = Some (SqlInt (units d scale)))) ∧
  (scale < places d →
   is_ok (scale_decimal_literal (signed_literal plus d) scale) = false ∧ is_ok (scale_decimal_literal number scale) = false).
Proof.
  intros Hd Hs Ha Hb text. exists (number_literal (signed_digits (negative d) (unsigned_text d))). split.
  - unfold numeric_text_literal. cbn [single_quoted_literal string_literal]. subst text. by rewrite quoted_reads.
  - destruct (scale_number env (negative d) (signed_literal plus d) d scale [] Hd Hs eq_refl) as [H1 H2].
    { left. unfold signed_literal. destruct (negative d); [done|]. by destruct plus. }
    destruct (scale_number env (negative d) _ d scale _ Hd Hs eq_refl (or_intror (conj eq_refl eq_refl))) as [H3 H4].
    split; [intros Hp Hr; split; [by apply H1|by apply H3]|intros Hp; split; [by apply H2|by apply H4]].
Qed.

(** ** The text of a stored value *)

(** [numeric_out] of a number of minor units. *)
Definition numeric_out (z scale : Z) : Decimal :=
  {| negative := z <? 0; whole := dec (Z.abs z / 10 ^ scale); point := true;
     fraction := dec_pad (Z.to_nat scale) (Z.abs z mod 10 ^ scale) |}.

Lemma printf_decimal scale sign whole fraction :
  0 < scale <= 18 → 0 <= whole → 0 <= fraction →
  sql_printf None (lit "%s%d.%0" ++ dec scale ++ lit "d") [SqlText sign; SqlInt whole; SqlInt fraction] =
  Some (sign ++ dec whole ++ lit "." ++ dec_pad (Z.to_nat scale) fraction).
Proof.
  intros Hs Hw Hf. assert (dec_signed whole = dec whole) as Hd by (unfold dec_signed; by replace (whole <? 0) with false by lia).
  assert (In scale [1; 2; 3; 4; 5; 6; 7; 8; 9; 10; 11; 12; 13; 14; 15; 16; 17; 18]) as Hin by (cbn; lia).
  assert (Hstep : ∀ d w, d = lit "%s%d.%0" ++ dec w ++ lit "d" → sql_printf None d [SqlText sign; SqlInt whole; SqlInt fraction] =
    app sign <$> (app (dec whole) <$> sql_printf None (lit ".%0" ++ dec w ++ lit "d") [SqlInt fraction])).
  { intros d w ->. rewrite <- Hd. reflexivity. }
  rewrite (Hstep _ scale eq_refl).
  assert (sql_printf None (lit ".%0" ++ dec scale ++ lit "d") [SqlInt fraction] = Some (lit "." ++ dec_pad (Z.to_nat scale) fraction)) as ->; [|done].
  assert (sql_printf None (lit ".%0" ++ dec scale ++ lit "d") [SqlInt fraction] =
    cons 46 <$> (if 0 <=? fraction then app (pad_to scale (dec fraction)) <$> Some [] else None)) as ->.
  { repeat (destruct Hin as [<-|Hin]; [reflexivity|]). done. }
  replace (0 <=? fraction) with true by lia. cbn [fmap option_fmap option_map]. by rewrite app_nil_r.
Qed.

Lemma eval_case_when env c (t e : Expr Payload) b :
  eval env c = Some (sql_bool b) → eval env (case_when c t (Some e)) = if b then eval env t else eval env e.
Proof. intros Hc. cbn [eval case_when]. rewrite Hc. by destruct b. Qed.

Lemma render_eval env value z scale :
  0 < scale <= 18 → eval env value = Some (SqlInt z) → i64_min < z <= i64_max →
  eval env (render_minor_units_as_text value scale) =
  Some (SqlText ((if z <? 0 then [45] else []) ++ unsigned_text (numeric_out z scale))).
Proof.
  intros Hs Hv Hz. unfold render_minor_units_as_text. rewrite (eval_case_when _ _ _ _ false).
  2: { cbn [eval]. by rewrite Hv. }
  pose proof (power_bounds scale ltac:(lia)) as Hp. set (F := 10 ^ scale) in *.
  assert (Habs : eval env (simple_function_expr (lit "abs") [value]) = Some (SqlInt (Z.abs z))).
  { rewrite eval_simple_function1, Hv. change (sql_int (Z.abs z) = Some (SqlInt (Z.abs z))). apply sql_int_in. unfold i64_min, i64_max in *. lia. }
  assert (Hf : eval (Payload := Payload) env (number_literal (dec (power_of_ten scale))) = Some (SqlInt F)) by (apply eval_power; lia).
  rewrite eval_simple_function4. change (eval env (string_literal ?t)) with (Some (SqlText t)). cbn [mbind option_bind].
  assert (eval env (case_when (EBinaryOp value BLt (number_literal (lit "0"))) (string_literal (lit "-")) (Some (string_literal []))) =
    Some (SqlText (if z <? 0 then [45] else []))) as ->.
  { rewrite (eval_case_when _ _ _ _ (z <? 0)); [by destruct (z <? 0)|]. by rewrite (eval_binary _ _ _ _ (SqlInt z) (SqlInt 0)). }
  cbn [mbind option_bind]. rewrite (eval_binary _ _ _ _ _ _ Habs Hf), (eval_binary _ _ _ _ _ _ Habs Hf). cbn [binary on_ints].
  replace (F =? 0) with false by lia. rewrite Z.quot_div_nonneg, Z.rem_mod_nonneg by lia.
  assert (0 <= Z.abs z / F <= Z.abs z) by (split; [apply Z.div_pos; lia|apply Z.div_le_upper_bound; nia]).
  pose proof (Z.mod_pos_bound (Z.abs z) F ltac:(lia)).
  rewrite !sql_int_in by (unfold i64_min, i64_max in *; lia). cbn [mbind option_bind].
  change (call (lit "printf") (SqlText ?f :: ?args)) with (SqlText <$> sql_printf None f args).
  rewrite printf_decimal by lia. done.
Qed.

Lemma numeric_out_ok z scale : 0 < scale <= 18 → decimal_ok (numeric_out z scale) ∧ places (numeric_out z scale) = scale ∧ units (numeric_out z scale) scale = z.
Proof.
  intros Hs. pose proof (power_bounds scale ltac:(lia)) as Hp.
  assert (0 <= Z.abs z / 10 ^ scale) by (apply Z.div_pos; lia). pose proof (Z.mod_pos_bound (Z.abs z) (10 ^ scale) ltac:(lia)).
  assert (Hl : Z.of_nat (length (dec_pad (Z.to_nat scale) (Z.abs z mod 10 ^ scale))) = scale)
    by (rewrite dec_pad_length; [lia|lia|rewrite Z2Nat.id by lia; lia]).
  split_and!.
  - unfold decimal_ok, numeric_out; cbn. split_and!; [by apply dec_digits|by apply dec_pad_digits; lia| |done].
    intros [Hnil _]%app_eq_nil. by apply dec_nonempty in Hnil.
  - done.
  - unfold units, places, numeric_out; cbn [negative whole fraction]. rewrite Hl, Z.sub_diag, digits_value_app, dec_value, dec_pad_value, Hl by lia.
    pose proof (Z.div_mod (Z.abs z) (10 ^ scale) ltac:(lia)). destruct (z <? 0) eqn:E; lia.
Qed.

(** C16 (a stored value prints and reads back).  The text a stored count of minor
    units is rendered as is PostgreSQL's, the sign, the whole part and exactly as many
    places as the scale; and written back into the column, that text is the same
    count.  The least 64-bit integer, which has no absolute value, is apart. *)
Theorem minor_units_text_round_trip env env' value z scale :
  0 < scale <= 18 → eval env value = Some (SqlInt z) → i64_min < z <= i64_max →
  let text := sign_text false (numeric_out z scale) ++ unsigned_text (numeric_out z scale) in
  eval env (render_minor_units_as_text value scale) = Some (SqlText text) ∧
  ∃ number e, numeric_text_literal (string_literal text) = Ok (Some number) ∧
    scale_decimal_literal number scale = Ok (Some e) ∧ eval (Payload := Payload) env' e = Some (SqlInt z).
Proof.
  intros Hs Hv Hz text. split; [by apply render_eval|].
  destruct (numeric_out_ok z scale Hs) as (Hok & Hplaces & Hunits).
  exists (number_literal (signed_digits (negative (numeric_out z scale)) (unsigned_text (numeric_out z scale)))).
  destruct (scale_number env' _ _ (numeric_out z scale) scale _ Hok ltac:(lia) eq_refl (or_intror (conj eq_refl eq_refl))) as [H1 _].
  destruct H1 as (e & He & Hev); [lia|rewrite Hunits; lia|]. exists e. split_and!; [|done|by rewrite Hev, Hunits].
  unfold numeric_text_literal. cbn [single_quoted_literal string_literal]. subst text.
  pose proof (quoted_reads false (numeric_out z scale) [] [] Hok eq_refl eq_refl) as Hq. rewrite app_nil_r in Hq. cbn [app] in Hq. by rewrite Hq.
Qed.

(** ** Booleans *)

Definition boolean_words (b : bool) : list string :=
  if b then ["t"; "tr"; "tru"; "true"; "y"; "ye"; "yes"; "on"; "1"]%string
  else ["f"; "fa"; "fal"; "fals"; "false"; "n"; "no"; "of"; "off"; "0"]%string.

Lemma prefix_cases v w n :
  prefix_of v w n = true → In v (map (λ k, take k (lit w)) (seq n (S (length (lit w)) - n))).
Proof.
  unfold prefix_of, starts_with. intros [Hn Hw]%andb_true_iff. apply Nat.leb_le in Hn.
  destruct (strip_prefix v (lit w)) as [t|] eqn:E; [|done]. apply strip_prefix_Some in E. rewrite E. apply in_map_iff. exists (length v). split.
  - by rewrite take_app_length.
  - apply in_seq. rewrite length_app. lia.
Qed.

Ltac prefix_word H := apply andb_true_iff in H as [_ H]; apply prefix_cases in H; cbn in H; repeat (destruct H as [<-|H]; [reflexivity|]); done.

(** The words of a boolean.  The text of a boolean is read as true or as false
    exactly when, blanks and case apart, it is one of the words [boolin] reads so. *)
Lemma postgres_bool_words text b :
  postgres_bool text = Some b ↔ one_of (to_ascii_lowercase (trim text)) (boolean_words b) = true.
Proof.
  unfold postgres_bool. set (v := to_ascii_lowercase (trim text)). clearbody v. split.
  - destruct v as [|c v]; [done|]. cbn [head mbind option_bind].
    destruct (_ && prefix_of _ "true" _) eqn:E1; [intros [= <-]; prefix_word E1|].
    destruct (_ && prefix_of _ "false" _) eqn:E2; [intros [= <-]; prefix_word E2|].
    destruct (_ && prefix_of _ "yes" _) eqn:E3; [intros [= <-]; prefix_word E3|].
    destruct (_ && prefix_of _ "no" _) eqn:E4; [intros [= <-]; prefix_word E4|].
    destruct (_ && prefix_of _ "on" _) eqn:E5; [intros [= <-]; prefix_word E5|].
    destruct (_ && prefix_of _ "off" _) eqn:E6; [intros [= <-]; prefix_word E6|].
    destruct ((c =? 49) && _) eqn:E7; [intros [= <-]; bools; destruct v; [|done]; by replace c with 49 by lia|].
    destruct ((c =? 48) && _) eqn:E8; [intros [= <-]; bools; destruct v; [|done]; by replace c with 48 by lia|done].
  - unfold one_of. rewrite existsb_exists. intros (w & Hw & He). apply str_eqb_eq in He as ->.
    destruct b; cbn in Hw; repeat (destruct Hw as [<-|Hw]; [reflexivity|]); done.
Qed.

(** ** Defaults at scale zero *)

(** A default of a column without a scale is rounded as PostgreSQL rounds it, where
    something stands before the point and the whole part is below the largest
    64-bit integer. *)
Lemma round_literal_rounds env d :
  decimal_ok d → whole d ≠ [] → digits_value (whole d) < i64_max →
  ∃ e r, round_literal_to_integer (if negative d then EUnaryOp UMinus (number_literal (unsigned_text d)) else number_literal (unsigned_text d)) = Some e ∧
    eval (Payload := Payload) env e = Some (SqlInt r) ∧ rounds_half_away ((if negative d then -1 else 1) * digits_value (whole d ++ fraction d)) (10 ^ places d) r.
Proof.
  intros Hd Hne Hmax. pose proof Hd as (Hw & Hf & _ & _).
  assert (Hsn : signed_number false (if negative d then EUnaryOp UMinus (number_literal (unsigned_text d)) else number_literal (Payload := Payload) (unsigned_text d)) =
    Some (negative d, unsigned_text d)) by (by destruct (negative d)).
  unfold round_literal_to_integer. rewrite Hsn. cbn [mbind option_bind]. rewrite no_exponent by (by apply unsigned_plain). rewrite unsigned_split by done.
  pose proof (digits_value_bound (whole d) Hw) as Hwb. pose proof (digits_value_bound (fraction d) Hf) as Hfb. fold (places d) in Hfb.
  assert (Hpow : 1 <= 10 ^ places d) by (pose proof (Z.pow_pos_nonneg 10 (places d)); unfold places in *; lia).
  rewrite digits_value_app. fold (places d). destruct (forallb (Z.eqb 48) (fraction d)) eqn:Ez.
  - assert (digits_value (fraction d) = 0) as Hz.
    { assert (fraction d = replicate (length (fraction d)) 48 ++ []) as ->; [|by rewrite digits_value_zeros]. rewrite app_nil_r.
      clear -Ez. induction (fraction d) as [|c f IH]; [done|]. cbn [forallb length replicate] in *. apply andb_true_iff in Ez as [Hc Ez]. apply Z.eqb_eq in Hc as <-. f_equal. by apply IH. }
    exists (number_literal (signed_digits (negative d) (whole d))), (if negative d then - digits_value (whole d) else digits_value (whole d)).
    split; [done|]. split.
    + cbn [eval number_literal]. rewrite parse_i64_signed; [done|done|done|]. unfold i64_min, i64_max in *. destruct (negative d); lia.
    + rewrite Hz. unfold rounds_half_away. destruct (negative d); split; nia.
  - destruct (fraction d) as [|c f] eqn:Ef; [done|]. rewrite all_digits_cons in Hf. apply andb_true_iff in Hf as [Hc Hf].
    assert (parse_i64 (whole d) = Some (digits_value (whole d))) as ->
      by (apply (parse_i64_signed false); [done|done|unfold i64_min, i64_max in *; lia]).
    cbn [mbind option_bind]. set (W := digits_value (whole d)) in *. set (F := digits_value (c :: f)) in *.
    assert (Hr : (if 53 <=? c then wrapping_add_i64 W 1 else W) = if 53 <=? c then W + 1 else W).
    { destruct (53 <=? c); [|done]. unfold wrapping_add_i64, i64_min, i64_max in *. rewrite Z.mod_small by lia. lia. }
    rewrite Hr. set (R := if 53 <=? c then W + 1 else W).
    assert (Hhalf : if 53 <=? c then 10 ^ places d <= 2 * F else 2 * F < 10 ^ places d).
    { subst F. rewrite digits_value_cons. pose proof (digits_value_bound f Hf) as Hb. unfold places. rewrite Ef, length_cons, Nat2Z.inj_succ, Z.pow_succ_r by lia.
      set (T := 10 ^ Z.of_nat (length f)) in *. unfold digit_value, is_ascii_digit in *. destruct (53 <=? c) eqn:Ec; nia. }
    exists (number_literal (if negative d then lit "-" ++ dec_signed R else dec_signed R)), (if negative d then - R else R).
    assert (0 <= R <= i64_max) by (subst R; destruct (53 <=? c); lia).
    assert (Hds : dec_signed R = dec R) by (unfold dec_signed; by replace (R <? 0) with false by lia).
    split; [done|]. split.
    + cbn [eval number_literal]. rewrite Hds. assert ((if negative d then lit "-" ++ dec R else dec R) = signed_digits (negative d) (dec R)) as -> by (by destruct (negative d)).
      rewrite parse_i64_signed; [by rewrite dec_value by lia|apply dec_nonempty|by apply dec_digits; lia|].
      rewrite dec_value by lia. unfold i64_min, i64_max in *. destruct (negative d); lia.
    + unfold rounds_half_away. subst R. destruct (negative d), (53 <=? c); split; nia.
Qed.
End Facts.

(** ** Closed instances *)

Definition demo_column : Expr unit := EIdentifier price.
Definition demo_sum : Expr unit := EBinaryOp (EIdentifier (Ident_new (lit "a"))) BPlus (EIdentifier (Ident_new (lit "b"))).

Lemma rescale_minor_units_exact_witness :
  (∃ r, eval (λ _, SqlInt (-1005)) (rescale_minor_units demo_column 3 2) = Some (SqlInt r) ∧
     (3 <= 2 → r = -1005 * 10 ^ (2 - 3)) ∧ (2 < 3 → rounds_half_away (-1005) (10 ^ (3 - 2)) r)) ∧
  (∀ env', eval env' demo_column = Some SqlNull → eval env' (rescale_minor_units demo_column 3 2) = Some SqlNull) ∧
  (one_operand demo_column → reread (rescale_minor_units demo_column 3 2) = rescale_minor_units demo_column 3 2).
Proof. apply (rescale_minor_units_exact (λ _, SqlInt (-1005)) demo_column 3 2 (-1005)); try reflexivity; vm_compute; first [split; discriminate|discriminate]. Defined.

Definition demo_decimal : Decimal := {| negative := true; whole := lit "19"; point := true; fraction := lit "9" |}.

Lemma decimal_stored_exactly_witness :
  ∃ number : Expr unit, numeric_text_literal (string_literal (lit " -19.9 ")) = Ok (Some number) ∧
  (places demo_decimal <= 2 → i64_min <= units demo_decimal 2 <= i64_max →
   (∃ e : Expr unit, scale_decimal_literal (signed_literal false demo_decimal) 2 = Ok (Some e) ∧ eval demo_env e = Some (SqlInt (units demo_decimal 2))) ∧
   (∃ e, scale_decimal_literal number 2 = Ok (Some e) ∧ eval demo_env e = Some (SqlInt (units demo_decimal 2)))) ∧
  (2 < places demo_decimal →
   is_ok (scale_decimal_literal (Payload := unit) (signed_literal false demo_decimal) 2) = false ∧ is_ok (scale_decimal_literal number 2) = false).
Proof.
  apply (decimal_stored_exactly (Payload := unit) demo_env demo_decimal 2 false (lit " ") (lit " ")); try reflexivity.
  - unfold decimal_ok. split; [reflexivity|]. split; [reflexivity|]. split; discriminate.
  - split; discriminate.
Defined.

Lemma minor_units_text_round_trip_witness :
  let text := lit "-0.50" in
  eval (λ _, SqlInt (-50)) (render_minor_units_as_text demo_column 2) = Some (SqlText text) ∧
  ∃ (number : Expr unit) e, numeric_text_literal (string_literal text) = Ok (Some number) ∧
    scale_decimal_literal number 2 = Ok (Some e) ∧ eval demo_env e = Some (SqlInt (-50)).
Proof. apply (minor_units_text_round_trip (λ _, SqlInt (-50)) demo_env demo_column (-50) 2); try reflexivity; vm_compute; split; (reflexivity || discriminate). Defined.

(** A sum is no single operand: the product takes its right operand only, so the text
    reads as another expression, and answers another value. *)
Example rescaled_sum_reads_otherwise :
  eval (λ _, SqlInt 100) (rescale_minor_units demo_sum 2 3) = Some (SqlInt 2000) ∧
  eval (λ _, SqlInt 100) (reread (rescale_minor_units demo_sum 2 3)) = Some (SqlInt 1100).
Proof. split; vm_compute; reflexivity. Qed.

(** Nothing before the point: the default is not rounded, though PostgreSQL stores 1. *)
Example default_without_whole_part :
  round_literal_to_integer (Payload := unit) (number_literal (lit ".5")) = None.
Proof. reflexivity. Qed.
End MinorUnits.
