(* ===== verification/Vector.v ===== *)
(** * Vector columns

    [src/src/impls/translator_impls/vector.rs]: a pgvector column is a BLOB column
    with a vec0 table beside it, which three triggers keep in step.  A table is read
    here through its columns and constraints only; the conversion [vec_f32] is the
    extension's. *)

From stdpp Require Import gmap.
From S2P Require Import Prelude Text Errors Ast Exprs Names SqliteEval DataTypes.
Import DataTypes.

Module Vector.
Section Vector.
Context {Payload : Type} `{TypeDisplay Payload}.
Implicit Types (data_type : DataType Payload) (expr : Expr Payload).

Definition is_vector_data_type data_type : bool :=
  match data_type with
  | DataCustom name _ =>
      match last_catalog_name name with
      | Some type_name => str_eqb type_name (lit "vector") || str_eqb type_name (lit "halfvec")
      | None => false
      end
  | _ => false
  end.

Definition is_halfvec_data_type data_type : bool :=
  match data_type with
  | DataCustom name _ =>
      match last_ident name with
      | Some type_name => if is_some (quote_style type_name) then str_eqb (value type_name) (lit "halfvec")
                          else eq_ignore_ascii_case (value type_name) (lit "halfvec")
      | None => false
      end
  | _ => false
  end.

Definition extract_dimensions data_type : option Z :=
  match data_type with
  | DataCustom _ (ModifierNumber digits false :: _) => parse_u32 digits
  | _ => None
  end.

Definition vec_f32 (arg : Expr Payload) : Expr Payload := simple_function_expr (lit "vec_f32") [arg].

Definition maybe_wrap_text_vector_literal expr : Expr Payload :=
  match scalar_subquery_projection expr with
  | Some projected =>
      if is_some (single_quoted_literal projected) then ESubquery (SelectQuery None None None [UnnamedExpr (vec_f32 projected)] [] None)
      else expr
  | None => if is_some (single_quoted_literal expr) then vec_f32 expr else expr
  end.

(** ** The table as the generator reads it *)

(** Whether some option of the column is [PRIMARY KEY]. *)
Record Column := { col_name : Ident; col_type : DataType Payload; col_primary_key : bool }.

(** The columns of a key are expressions; only an identifier is read. *)
Inductive Constraint := PrimaryKey (columns : list (Expr Payload)) | OtherConstraint.

Record VectorTable := { tbl_name : ObjectName Payload; tbl_columns : list Column; tbl_constraints : list Constraint }.

Record VectorColumnInfo := { column_name : str; dimensions : option Z; is_halfvec : bool }.

Definition has_vector_columns (create_table : VectorTable) : bool :=
  existsb (λ col, is_vector_data_type (col_type col)) (tbl_columns create_table).

Definition vector_info (col : Column) : VectorColumnInfo :=
  {| column_name := value (col_name col); dimensions := extract_dimensions (col_type col); is_halfvec := is_halfvec_data_type (col_type col) |}.

Definition extract_vector_columns (create_table : VectorTable) : list VectorColumnInfo :=
  map vector_info (List.filter (λ col, is_vector_data_type (col_type col)) (tbl_columns create_table)).

Fixpoint constraint_key (constraints : list Constraint) : option str :=
  match constraints with
  | [] => None
  | PrimaryKey (EIdentifier ident :: _) :: _ => Some (value ident)
  | _ :: constraints => constraint_key constraints
  end.

Definition column_key (columns : list Column) : option str :=
  col ← List.find col_primary_key columns; Some (value (col_name col)).

(** [schema_key] is the catalogue's answer: the key columns of the resolved table. *)
Definition find_pk_column (create_table : VectorTable) (schema_key : option (list str)) : option str :=
  match constraint_key (tbl_constraints create_table) with
  | Some column => Some column
  | None =>
      match column_key (tbl_columns create_table) with
      | Some column => Some column
      | None => match schema_key with Some [column] => Some column | _ => None end
      end
  end.

(** ** The statements *)

Inductive RowName := NEW | OLD.
Record RowValue := { row : RowName; row_column : str }.

(** [INSERT INTO table (columns) SELECT values WHERE guard IS NOT NULL] and
    [DELETE FROM table WHERE column = key]. *)
Inductive SyncStatement :=
| InsertNotNull (table : str) (columns : list str) (values : list RowValue) (guard : RowValue)
| DeleteKey (table column : str) (key : RowValue).

(** All three are [AFTER] triggers, without a [WHEN]. *)
Record SyncTrigger := { sync_name : option str; sync_table : str; sync_event : TriggerEvent; sync_body : list SyncStatement }.

Inductive Vec0Statement :=
| CreateVirtualTable (name : str) (module_args : list str)
| CreateSyncTrigger (trigger : SyncTrigger).

Definition key_column (pk_column : str) : str := pk_column ++ lit "_id".

Definition create_vec0_virtual_table (vec_table_name pk_column : str) (vec_col : VectorColumnInfo) : Vec0Statement :=
  let pk_arg := quote_identifier (key_column pk_column) ++ lit " INTEGER PRIMARY KEY" in
  let dim_spec := match dimensions vec_col with Some d => lit "[" ++ dec d ++ lit "]" | None => [] end in
  let vec_arg := quote_identifier (column_name vec_col) ++ lit " float" ++ dim_spec in
  CreateVirtualTable vec_table_name [pk_arg; vec_arg].

Definition create_vec0_triggers (table_name vec_table_name pk_column column_name : str) : list SyncTrigger :=
  let insert pk vector := InsertNotNull vec_table_name [key_column pk_column; column_name] [pk; vector] vector in
  let delete pk := DeleteKey vec_table_name (key_column pk_column) pk in
  let new_pk := {| row := NEW; row_column := pk_column |} in
  let old_pk := {| row := OLD; row_column := pk_column |} in
  let new_vector := {| row := NEW; row_column := column_name |} in
  let update_event := EvUpdate [quoted_ident column_name; quoted_ident pk_column] in
  [ {| sync_name := sync_trigger_name vec_table_name EvInsert; sync_table := table_name; sync_event := EvInsert;
       sync_body := [insert new_pk new_vector] |};
    {| sync_name := sync_trigger_name vec_table_name EvDelete; sync_table := table_name; sync_event := EvDelete;
       sync_body := [delete old_pk] |};
    {| sync_name := sync_trigger_name vec_table_name update_event; sync_table := table_name; sync_event := update_event;
       sync_body := [delete old_pk; insert new_pk new_vector] |} ].

Definition no_dimension_warning (column_name : str) : str * str :=
  (lit "vector column '" ++ column_name ++ lit "'",
   lit "vec0 requires an explicit dimension count (e.g. vector(384)); the column '" ++ column_name
   ++ lit "' has no dimension, so no vec0 virtual table or sync triggers are emitted and the vector index is not active.").

(** The statements and the warnings, one column after the other. *)
Fixpoint generate_columns (table_name trigger_table_name pk_column : str) (cols : list VectorColumnInfo)
    : list Vec0Statement * list (str * str) :=
  match cols with
  | [] => ([], [])
  | vec_col :: cols =>
      let '(statements, warnings) := generate_columns table_name trigger_table_name pk_column cols in
      if is_some (dimensions vec_col) then
        let vec_table_name := table_name ++ lit "_" ++ column_name vec_col ++ lit "_vec" in
        (create_vec0_virtual_table vec_table_name pk_column vec_col
         :: map CreateSyncTrigger (create_vec0_triggers trigger_table_name vec_table_name pk_column (column_name vec_col)) ++ statements, warnings)
      else (statements, no_dimension_warning (column_name vec_col) :: warnings)
  end.

(** [schema_key] and [trigger_table] are what the catalogue answers for the table: its
    key columns, and the table its triggers go on where it resolves. *)
Definition generate_vec0_statements (create_table : VectorTable) (schema_key : option (list str))
    (trigger_table : str → result Error (option str)) : result Error (list Vec0Statement * list (str * str)) :=
  let vector_cols := extract_vector_columns create_table in
  if existsb is_halfvec vector_cols then Err halfvec_refusal
  else match vector_cols with
  | [] => Ok ([], [])
  | _ =>
      let table_name := match last_ident (tbl_name create_table) with Some ident => value ident | None => type_name_to_string (tbl_name create_table) end in
      pk_column ← ok_or (find_pk_column create_table schema_key)
        (forward_refusal (lit "Table '" ++ table_name ++ lit "' with vector columns requires a single-column primary key for sqlite-vec synchronization triggers."));
      resolved ← trigger_table table_name;
      trigger_table_name ← ok_or resolved
        (forward_refusal (lit "Table '" ++ table_name ++ lit "' not found in schema for vector sync triggers"));
      Ok (generate_columns table_name trigger_table_name pk_column vector_cols)
  end.
End Vector.
Arguments VectorTable Payload : clear implicits.
Arguments Column Payload : clear implicits.
Arguments Constraint Payload : clear implicits.

(** ** What the triggers do *)

Section Sync.
Context (table_name vec_table_name pk_column vec_column : str) (dimension : Z).

Definition Row := str → SqlValue.

(** The rows by their key, and the vec0 table by its own. *)
Record State := { rows : gmap Z Row; vectors : gmap Z (list Z) }.

(** A statement of the client: a row inserted, deleted or updated, with the columns
    its [SET] list names. *)
Inductive Change := Inserted (new : Row) | Deleted (old : Row) | Updated (assigned : list str) (old new : Row).

Definition fires (event : TriggerEvent) (change : Change) : bool :=
  match event, change with
  | EvInsert, Inserted _ | EvDelete, Deleted _ => true
  | EvUpdate columns, Updated assigned _ _ => existsb (λ column, existsb (str_eqb (value column)) assigned) columns
  | _, _ => false
  end.

(** [NEW] in a deletion and [OLD] in an insertion do not resolve. *)
Definition row_value (change : Change) (v : RowValue) : option SqlValue :=
  match row v, change with
  | NEW, (Inserted new | Updated _ _ new) => Some (new (row_column v))
  | OLD, (Deleted old | Updated _ old _) => Some (old (row_column v))
  | _, _ => None
  end.

(** A vector of [dimension] floats of four bytes. *)
Definition right_length (v : list Z) : bool := Z.of_nat (length v) =? 4 * dimension.

(** The vec0 table takes a new integer key and a blob of as many floats as it declares,
    and refuses everything else. *)
Definition run_sync (change : Change) (vectors : gmap Z (list Z)) (statement : SyncStatement) : option (gmap Z (list Z)) :=
  match statement with
  | InsertNotNull table columns [pk; vector] guard =>
      if str_eqb table vec_table_name && bool_decide (columns = [key_column pk_column; vec_column]) then
        g ← row_value change guard;
        if bool_decide (g = SqlNull) then Some vectors
        else
          k ← row_value change pk; v ← row_value change vector;
          match k, v with
          | SqlInt k, SqlBlob v => if is_some (vectors !! k) || negb (right_length v) then None else Some (<[k := v]> vectors)
          | _, _ => None
          end
      else None
  | DeleteKey table column key =>
      if str_eqb table vec_table_name && str_eqb column (key_column pk_column) then
        k ← row_value change key;
        match k with SqlInt k => Some (delete k vectors) | SqlNull => Some vectors | _ => None end
      else None
  | _ => None
  end.

Fixpoint run_body (change : Change) (vectors : gmap Z (list Z)) (body : list SyncStatement) : option (gmap Z (list Z)) :=
  match body with
  | [] => Some vectors
  | statement :: body => vectors ← run_sync change vectors statement; run_body change vectors body
  end.

Fixpoint run_triggers (change : Change) (vectors : gmap Z (list Z)) (triggers : list SyncTrigger) : option (gmap Z (list Z)) :=
  match triggers with
  | [] => Some vectors
  | trigger :: triggers =>
      vectors ← (if str_eqb (sync_table trigger) table_name && fires (sync_event trigger) change
                 then run_body change vectors (sync_body trigger) else Some vectors);
      run_triggers change vectors triggers
  end.

(** A row as the STRICT table holds it under the integer key [k]; a blob of the vector
    column may have any length. *)
Definition row_ok (k : Z) (r : Row) : Prop := r pk_column = SqlInt k ∧ (r vec_column = SqlNull ∨ ∃ v, r vec_column = SqlBlob v).

Definition row_fits (r : Row) : bool := match r vec_column with SqlBlob v => right_length v | _ => true end.
(** Whether the vector a change writes is one of the dimension declared. *)
Definition fits (change : Change) : bool := match change with Inserted new | Updated _ _ new => row_fits new | Deleted _ => true end.

(** What a change does to the rows, where SQLite accepts it. *)
Inductive applies : Change → gmap Z Row → gmap Z Row → Prop :=
| insert_applies rows k new : row_ok k new → rows !! k = None → applies (Inserted new) rows (<[k := new]> rows)
| delete_applies rows k old : rows !! k = Some old → applies (Deleted old) rows (delete k rows)
| update_applies rows k k' assigned old new :
    rows !! k = Some old → row_ok k' new → (k' = k ∨ rows !! k' = None) → (∀ c, c ∉ assigned → new c = old c) →
    applies (Updated assigned old new) rows (<[k' := new]> (delete k rows)).

(** The specification: the vectors are those of the rows that have one. *)
Definition vector_of (r : Row) : option (list Z) := match r vec_column with SqlBlob v => Some v | _ => None end.
Definition projected (rows : gmap Z Row) : gmap Z (list Z) := omap vector_of rows.
Definition keyed (rows : gmap Z Row) : Prop := map_Forall (λ k r, row_ok k r ∧ row_fits r = true) rows.

Definition triggers : list SyncTrigger := create_vec0_triggers table_name vec_table_name pk_column vec_column.

Lemma projected_insert rows k r : projected (<[k := r]> rows) = match vector_of r with Some v => <[k := v]> (projected rows) | None => delete k (projected rows) end.
Proof.
  unfold projected. destruct (vector_of r) as [v|] eqn:E; [by rewrite omap_insert, E|by rewrite omap_insert, E].
Qed.

Lemma projected_delete rows k : projected (delete k rows) = delete k (projected rows).
Proof. unfold projected. by rewrite omap_delete. Qed.

Lemma projected_none rows k : rows !! k = None → projected rows !! k = None.
Proof. intros Hk. unfold projected. by rewrite lookup_omap, Hk. Qed.

Lemma run_insert change k r vecs :
  row_value change {| row := NEW; row_column := pk_column |} = Some (r pk_column) →
  row_value change {| row := NEW; row_column := vec_column |} = Some (r vec_column) →
  row_ok k r → vecs !! k = None →
  run_sync change vecs (InsertNotNull vec_table_name [key_column pk_column; vec_column]
    [{| row := NEW; row_column := pk_column |}; {| row := NEW; row_column := vec_column |}] {| row := NEW; row_column := vec_column |}) =
  if row_fits r then Some match vector_of r with Some v => <[k := v]> vecs | None => vecs end else None.
Proof.
  intros Hpk Hv [Hk Hcol] Hfree. cbn [run_sync]. rewrite str_eqb_refl, bool_decide_true by done. cbn [andb].
  rewrite Hv. cbn [mbind option_bind]. unfold vector_of, row_fits. destruct Hcol as [Hn|[v Hb]].
  - rewrite Hn, bool_decide_true; done.
  - rewrite Hb, bool_decide_false by done. rewrite Hpk, Hk. cbn [mbind option_bind]. rewrite Hfree. cbn [is_some orb]. by destruct (right_length v).
Qed.

Lemma run_delete change k r vecs :
  row_value change {| row := OLD; row_column := pk_column |} = Some (r pk_column) → row_ok k r →
  run_sync change vecs (DeleteKey vec_table_name (key_column pk_column) {| row := OLD; row_column := pk_column |}) = Some (delete k vecs).
Proof. intros Hpk [Hk _]. cbn [run_sync]. rewrite !str_eqb_refl, Hpk, Hk. done. Qed.

(** An update that names neither column keeps both. *)
Lemma update_unfired rows k k' assigned old new :
  keyed rows → rows !! k = Some old → row_ok k' new → (∀ c, c ∉ assigned → new c = old c) →
  existsb (str_eqb vec_column) assigned || (existsb (str_eqb pk_column) assigned || false) = false →
  k' = k ∧ row_fits new = true ∧ projected (<[k' := new]> (delete k rows)) = projected rows.
Proof.
  intros Hok Hold Hnew Hsame Ef. pose proof (map_Forall_lookup_1 _ _ _ _ Hok Hold) as [Hko Hfit].
  assert (Hout : ∀ c, existsb (str_eqb c) assigned = false → new c = old c).
  { intros c Hc. apply Hsame. intros Hin. apply existsb_false in Hc. rewrite Forall_forall in Hc. specialize (Hc c Hin). by rewrite str_eqb_refl in Hc. }
  apply orb_false_iff in Ef as [Ev Ep]. rewrite orb_false_r in Ep. pose proof (Hout _ Ev) as Hvec. pose proof (Hout _ Ep) as Hpk.
  assert (k' = k) as ->. { destruct Hko as [Hk _], Hnew as [Hk' _]. rewrite Hpk, Hk in Hk'. by injection Hk'. }
  split_and!; [done|unfold row_fits in *; by rewrite Hvec|].
  rewrite projected_insert, projected_delete. assert (vector_of new = vector_of old) as -> by (unfold vector_of; by rewrite Hvec).
  assert (projected rows !! k = vector_of old) as Hl by (unfold projected; rewrite lookup_omap; exact (f_equal (λ o, o ≫= vector_of) Hold)).
  destruct (vector_of old) as [v|]; [by apply insert_delete_id|]. by rewrite !delete_id by (by rewrite ?lookup_delete_eq).
Qed.

(** The triggers follow every change the table takes, but one that writes a vector of
    another dimension, which they refuse. *)
Lemma triggers_follow change before after :
  keyed before → applies change before after →
  run_triggers change (projected before) triggers = (if fits change then Some (projected after) else None) ∧ (fits change = true → keyed after).
Proof.
  intros Hok Ha. unfold triggers, create_vec0_triggers. cbn [run_triggers sync_table sync_event sync_body].
  rewrite !str_eqb_refl. destruct Ha as [rows k new Hnew Hfree|rows k old Hold|rows k k' assigned old new Hold Hnew Hfree Hsame]; cbn [andb fires mbind option_bind run_body fits].
  - rewrite (run_insert _ k new) by (try done; by apply projected_none). split; [|intros; by apply map_Forall_insert_2].
    destruct (row_fits new); [|done]. cbn. rewrite projected_insert. destruct (vector_of new); [done|]. by rewrite delete_id by (by apply projected_none).
  - pose proof (map_Forall_lookup_1 _ _ _ _ Hok Hold) as [Hko _]. rewrite (run_delete _ k old) by done. cbn.
    split; [by rewrite projected_delete|intros; by apply map_Forall_delete].
  - pose proof (map_Forall_lookup_1 _ _ _ _ Hok Hold) as [Hko _].
    split; [|intros; by apply map_Forall_insert_2, map_Forall_delete].
    assert (value (quoted_ident vec_column) = vec_column ∧ value (quoted_ident pk_column) = pk_column) as [Hv Hp] by (by rewrite !value_quoted_ident).
    cbn [existsb quoted_ident value]. rewrite Hv, Hp. destruct (existsb (str_eqb vec_column) assigned || (existsb (str_eqb pk_column) assigned || false)) eqn:Ef; cbn [mbind option_bind run_body].
    + assert (Hgone : delete k (projected rows) !! k' = None) by (destruct Hfree as [->|Hf]; [by rewrite lookup_delete_eq|]; rewrite lookup_delete_None; right; by apply projected_none).
      rewrite (run_delete _ k old) by done. cbn [mbind option_bind]. rewrite (run_insert _ k' new) by done. destruct (row_fits new); [|done].
      cbn [mbind option_bind]. f_equal. rewrite projected_insert, projected_delete. destruct (vector_of new); [done|]. symmetry. by apply delete_id.
    + destruct (update_unfired rows k k' assigned old new Hok Hold Hnew Hsame Ef) as (-> & -> & ->). done.
Qed.

(** The changes a client attempts, with the rows in the end: a change whose triggers
    fail leaves no trace. *)
Inductive attempts : gmap Z Row → list Change → gmap Z Row → Prop :=
| attempts_nil rows : attempts rows [] rows
| attempts_taken before change middle changes after : applies change before middle → fits change = true → attempts middle changes after → attempts before (change :: changes) after
| attempts_refused before change middle changes after : applies change before middle → fits change = false → attempts before changes after → attempts before (change :: changes) after.

Fixpoint follow (vecs : gmap Z (list Z)) (changes : list Change) : gmap Z (list Z) :=
  match changes with
  | [] => vecs
  | change :: changes => follow (default vecs (run_triggers change vecs triggers)) changes
  end.

(** C13 (the vec0 table mirrors the column).  Take a table with an integer key, each of
    whose vectors has the dimension the vec0 table declares.  The triggers fail on a
    change the table would take exactly when it writes a vector of another dimension,
    and then the change is undone; otherwise they leave the vec0 table holding exactly
    the vectors of the rows that have one, under their keys.  So after whatever sequence
    of insertions, updates and deletions, key changes and vectors set to or from NULL
    included, the vec0 table mirrors the rows. *)
Theorem vec0_mirrors_rows before :
  keyed before →
  (∀ change middle, applies change before middle →
     run_triggers change (projected before) triggers = if fits change then Some (projected middle) else None) ∧
  (∀ changes after, attempts before changes after → follow (projected before) changes = projected after).
Proof.
  intros Hok. split; [intros change middle Ha; by apply triggers_follow|]. intros changes after Hr.
  induction Hr as [|before change middle changes after Ha Hf Hr IH|before change middle changes after Ha Hf Hr IH]; [done|..]; cbn [follow];
    destruct (triggers_follow _ _ _ Hok Ha) as [-> Hok']; rewrite Hf; unfold default, id; apply IH; auto.
Qed.
End Sync.

(** ** Closed instances *)

(** A vector is added, moves to another key, and becomes NULL. *)
Definition demo_row (id : Z) (v : SqlValue) : Row := λ c, if str_eqb c (lit "id") then SqlInt id else v.

(** One float of four bytes, and a blob of three. *)
Definition demo_vector : SqlValue := SqlBlob [0; 0; 128; 63].
Definition short_vector : SqlValue := SqlBlob [0; 128; 63].

Lemma vec0_mirrors_rows_witness :
  let changes := [Inserted (demo_row 1 demo_vector); Inserted (demo_row 3 short_vector); Updated [lit "id"] (demo_row 1 demo_vector) (demo_row 2 demo_vector)] in
  let after := <[2 := demo_row 2 demo_vector]> (delete 1 (<[1 := demo_row 1 demo_vector]> ∅)) in
  follow (lit "docs") (lit "docs_v_vec") (lit "id") (lit "v") 1 (projected (lit "v") ∅) changes = projected (lit "v") after ∧
  projected (lit "v") after !! 2 = Some [0; 0; 128; 63].
Proof.
  split; [|reflexivity]. apply (vec0_mirrors_rows (lit "docs") (lit "docs_v_vec") (lit "id") (lit "v") 1); [apply map_Forall_empty|].
  assert (Hok : ∀ k, row_ok (lit "id") (lit "v") k (demo_row k demo_vector)) by (intros k; split; [done|right; by eexists]).
  eapply attempts_taken; [by apply (insert_applies (lit "id") (lit "v") ∅ 1)|reflexivity|].
  eapply attempts_refused; [apply (insert_applies (lit "id") (lit "v") _ 3); [split; [done|right; by eexists]|done]|reflexivity|].
  eapply attempts_taken; [|reflexivity|constructor].
  apply (update_applies (lit "id") (lit "v") _ 1 2); [done|done|by right|]. intros c Hc. unfold demo_row.
  destruct (str_eqb c (lit "id")) eqn:E; [|done]. apply str_eqb_eq in E as ->. exfalso. apply Hc. by apply list_elem_of_here.
Defined.

Section Demo.
Definition demo_table : VectorTable unit :=
  {| tbl_name := [Identifier (Ident_new (lit "docs"))];
     tbl_columns := [{| col_name := Ident_new (lit "a"); col_type := DataInteger None; col_primary_key := false |};
                     {| col_name := Ident_new (lit "b"); col_type := DataInteger None; col_primary_key := false |}];
     tbl_constraints := [PrimaryKey [EIdentifier (Ident_new (lit "a")); EIdentifier (Ident_new (lit "b"))]] |}.

(** The first column of a composite key passes for the single-column key the refusal asks for. *)
Example composite_key_accepted : find_pk_column demo_table None = Some (lit "a").
Proof. reflexivity. Qed.

(** So does a key of another type, whose values the INTEGER key of the vec0 table does not
    take. *)
Example text_key_accepted :
  find_pk_column {| tbl_name := tbl_name demo_table; tbl_columns := [{| col_name := Ident_new (lit "a"); col_type := DataText; col_primary_key := true |}]; tbl_constraints := [] |} None
  = Some (lit "a").
Proof. reflexivity. Qed.
End Demo.
End Vector.
