(* ===== verification/Transactions.v ===== *)
(** * Transaction control of a batch

    [Blocks] is [src/src/impls/transaction_blocks.rs]: what PostgreSQL's
    transaction nesting says about each statement.  [History] is
    [src/src/history/transactions.rs]: which statements the batch commits.  Both
    are single passes over the statements; [Server] is the machine they answer
    for, PostgreSQL's own stack of subtransactions, as a step relation. *)

From S2P Require Import Prelude Text Ast.

Module Blocks.
Section Blocks.
Context {Payload : Type}.

(** What the batch's transaction nesting says about one statement. *)
Inductive Disposition :=
| Translate
| DropNoOp (construct reason : string).

#[global] Instance Disposition_eq_dec : EqDecision Disposition.
Proof. solve_decision. Defined.

Definition REASON_BEGIN_ALREADY_OPEN : string :=
  "a transaction is already open, where PostgreSQL answers `there is already a transaction in progress` and does nothing, so emitting nothing reproduces the server. SQLite fails the statement with `cannot start a transaction within a transaction`.".
Definition REASON_NO_TRANSACTION_OPEN : string :=
  "no transaction is open, where PostgreSQL answers `there is no transaction in progress` and does nothing, so emitting nothing reproduces the server. SQLite fails the statement with `cannot commit - no transaction is active`, and every statement after it with it.".

(** The refusals of [analyse]. *)
Inductive Refusal :=
| outside_a_transaction_block (construct : string)
| concurrent_index_inside_a_transaction_block.

(** One turn of the loop: the new value of [open] and the disposition. *)
Definition analyse_statement (opened : bool) (statement : Statement Payload)
    : result Refusal (bool * Disposition) :=
  match statement with
  | StartTransaction =>
      if opened then Ok (opened, DropNoOp "BEGIN" REASON_BEGIN_ALREADY_OPEN)
      else Ok (true, Translate)
  | Commit chain =>
      if opened then Ok (chain, Translate)
      else if chain then Err (outside_a_transaction_block "COMMIT AND CHAIN")
      else Ok (opened, DropNoOp "COMMIT" REASON_NO_TRANSACTION_OPEN)
  | Rollback chain savepoint =>
      match savepoint with
      | Some _ =>
          if negb opened then Err (outside_a_transaction_block "ROLLBACK TO SAVEPOINT")
          else Ok (opened, Translate)
      | None =>
          if opened then Ok (chain, Translate)
          else if chain then Err (outside_a_transaction_block "ROLLBACK AND CHAIN")
          else Ok (opened, DropNoOp "ROLLBACK" REASON_NO_TRANSACTION_OPEN)
      end
  | Savepoint _ =>
      if negb opened then Err (outside_a_transaction_block "SAVEPOINT")
      else Ok (opened, Translate)
  | ReleaseSavepoint _ =>
      if negb opened then Err (outside_a_transaction_block "RELEASE SAVEPOINT")
      else Ok (opened, Translate)
  | SCreateIndex create_index =>
      if opened && ci_concurrently create_index
      then Err concurrent_index_inside_a_transaction_block
      else Ok (opened, Translate)
  | _ => Ok (opened, Translate)
  end.

Fixpoint analyse_from (opened : bool) (statements : list (Statement Payload))
    : result Refusal (list Disposition) :=
  match statements with
  | [] => Ok []
  | statement :: statements =>
      '(opened, disposition) ← analyse_statement opened statement;
      dispositions ← analyse_from opened statements;
      Ok (disposition :: dispositions)
  end.

Definition analyse (statements : list (Statement Payload)) : result Refusal (list Disposition) :=
  analyse_from false statements.
End Blocks.
End Blocks.

Module History.
Import Blocks.

(** [same_name]: two identifiers as PostgreSQL compares them. *)
Definition same_name (left right : Ident) : bool :=
  match quote_style left, quote_style right with
  | None, None => eq_ignore_ascii_case (value left) (value right)
  | None, Some _ => str_eqb (to_ascii_lowercase (value left)) (value right)
  | Some _, None => str_eqb (value left) (to_ascii_lowercase (value right))
  | Some _, Some _ => str_eqb (value left) (value right)
  end.

Inductive Outcome := Committed | Undone | Control.
#[global] Instance Outcome_eq_dec : EqDecision Outcome.
Proof. solve_decision. Defined.

(** [TransactionId] is the ordinal of the explicit transaction. *)
Abbreviation TransactionId := nat (only parsing).

Record Frame := { name : option Ident; start : nat }.

(** The per-statement answers. *)
Record Outline := {
  outcomes : list Outcome;
  transactions : list (option TransactionId) }.

(** The loop's variables. *)
Record Scan := {
  scan_outcomes : list Outcome;
  scan_transactions : list (option TransactionId);
  frames : list Frame;
  pending : list nat;
  opened : option TransactionId;
  next : nat }.

Definition frame_named (ident : Ident) (frame : Frame) : bool :=
  match name frame with Some frame => same_name frame ident | None => false end.

(** [slice::rposition]: the last index satisfying [p]. *)
Fixpoint rposition {A} (p : A → bool) (l : list A) : option nat :=
  match l with
  | [] => None
  | x :: l => match rposition p l with
              | Some i => Some (S i)
              | None => if p x then Some O else None
              end
  end.

Definition innermost (frames : list Frame) (ident : Ident) : option nat :=
  rposition (frame_named ident) frames.

(** [for i in indices { outcomes[i] = outcome }]. *)
Definition mark (outcome : Outcome) (indices : list nat) (outcomes : list Outcome) : list Outcome :=
  foldl (λ outcomes i, <[i := outcome]> outcomes) outcomes indices.

Section Outline.
Context {Payload : Type}.

(** The end of a transaction: what is pending takes [outcome], the frames are
    cleared, and [AND CHAIN] opens the next transaction. *)
Definition finish (σ : Scan) (index : nat) (outcome : Outcome) (chain : bool) : Scan :=
  let outcomes := mark outcome (pending σ) (<[index := Control]> (scan_outcomes σ)) in
  if chain then
    {| scan_outcomes := outcomes; scan_transactions := scan_transactions σ;
       frames := [{| name := None; start := 0 |}]; pending := [];
       opened := Some (next σ); next := S (next σ) |}
  else
    {| scan_outcomes := outcomes; scan_transactions := scan_transactions σ;
       frames := []; pending := []; opened := None; next := next σ |}.

(** One turn of the loop of [Outline::new]. *)
Definition scan_statement (σ : Scan) (index : nat)
    (disposition : Disposition) (statement : Statement Payload) : Scan :=
  let control := <[index := Control]> (scan_outcomes σ) in
  match disposition with
  | DropNoOp _ _ =>
      {| scan_outcomes := control; scan_transactions := scan_transactions σ; frames := frames σ;
         pending := pending σ; opened := opened σ; next := next σ |}
  | Translate =>
      match statement with
      | StartTransaction =>
          {| scan_outcomes := control; scan_transactions := scan_transactions σ;
             frames := frames σ ++ [{| name := None; start := 0 |}];
             pending := pending σ; opened := Some (next σ); next := S (next σ) |}
      | Savepoint ident =>
          {| scan_outcomes := control; scan_transactions := scan_transactions σ;
             frames := frames σ ++ [{| name := Some ident; start := length (pending σ) |}];
             pending := pending σ; opened := opened σ; next := next σ |}
      | ReleaseSavepoint ident =>
          {| scan_outcomes := control; scan_transactions := scan_transactions σ;
             frames := match innermost (frames σ) ident with
                       | Some position => take position (frames σ)
                       | None => frames σ
                       end;
             pending := pending σ; opened := opened σ; next := next σ |}
      | Rollback _ (Some ident) =>
          match innermost (frames σ) ident with
          | Some position =>
              let start := match frames σ !! position with Some f => start f | None => O end in
              {| scan_outcomes := mark Undone (drop start (pending σ)) control;
                 scan_transactions := scan_transactions σ;
                 frames := take (S position) (frames σ);
                 pending := take start (pending σ); opened := opened σ; next := next σ |}
          | None =>
              {| scan_outcomes := control; scan_transactions := scan_transactions σ;
                 frames := frames σ; pending := pending σ; opened := opened σ; next := next σ |}
          end
      | Commit chain => finish σ index Committed chain
      | Rollback chain None => finish σ index Undone chain
      | _ =>
          match opened σ with
          | Some _ =>
              {| scan_outcomes := scan_outcomes σ;
                 scan_transactions := <[index := opened σ]> (scan_transactions σ);
                 frames := frames σ; pending := pending σ ++ [index];
                 opened := opened σ; next := next σ |}
          | None => σ
          end
      end
  end.

Fixpoint scan (σ : Scan) (index : nat)
    (dispositions : list Disposition) (statements : list (Statement Payload)) : Scan :=
  match statements, dispositions with
  | statement :: statements, disposition :: dispositions =>
      scan (scan_statement σ index disposition statement) (S index) dispositions statements
  | _, _ => σ
  end.

Definition scan_init (n : nat) : Scan :=
  {| scan_outcomes := replicate n Committed; scan_transactions := replicate n None;
     frames := []; pending := []; opened := None; next := 0 |}.

(** [Outline::new]. *)
Definition Outline_new (statements : list (Statement Payload)) (dispositions : list Disposition) : Outline :=
  let σ := scan (scan_init (length statements)) 0 dispositions statements in
  {| outcomes := mark Undone (pending σ) (scan_outcomes σ);
     transactions := scan_transactions σ |}.

(** [Outline::outcome] and [Outline::transaction]; the index is in range, since
    the units are the statements. *)
Definition outcome (o : Outline) (index : nat) : Outcome := default Control (outcomes o !! index).
Definition transaction (o : Outline) (index : nat) : option TransactionId :=
  default None (transactions o !! index).
End Outline.
End History.

(** ** PostgreSQL's side: the stack of subtransactions *)

Module Server.
Import Blocks History.
Section Server.
Context {Payload : Type}.

(** A (sub)transaction: its savepoint name, none for the transaction itself,
    and the statements it has run and not handed on. *)
Abbreviation Level := (option Ident * list nat)%type (only parsing).

(** The statements committed so far and the open subtransactions, outermost
    first; no level means autocommit. *)
Record server := { committed : list nat; levels : list Level }.

Definition named (ident : Ident) (l : Level) : bool :=
  match l.1 with Some m => same_name m ident | None => false end.

(** The statements of all the levels, in execution order. *)
Definition flat (ls : list Level) : list nat := concat (map snd ls).

Definition is_control (s : Statement Payload) : bool :=
  match s with
  | StartTransaction | Commit _ | Rollback _ _ | Savepoint _ | ReleaseSavepoint _ => true
  | _ => false
  end.

Definition is_concurrent_index (s : Statement Payload) : bool :=
  match s with SCreateIndex c => ci_concurrently c | _ => false end.

Definition opening (chain : bool) : list Level := if chain then [(None, [])] else [].

(** Executing statement number [i].  No rule applies where PostgreSQL raises. *)
Inductive step (i : nat) : server → Statement Payload → server → Prop :=
| step_begin c :
    step i {| committed := c; levels := [] |} StartTransaction
           {| committed := c; levels := [(None, [])] |}
| step_begin_again c l ls :
    step i {| committed := c; levels := l :: ls |} StartTransaction
           {| committed := c; levels := l :: ls |}
| step_commit c l ls chain :
    step i {| committed := c; levels := l :: ls |} (Commit chain)
           {| committed := c ++ flat (l :: ls); levels := opening chain |}
| step_commit_idle c :
    step i {| committed := c; levels := [] |} (Commit false) {| committed := c; levels := [] |}
| step_rollback c l ls chain :
    step i {| committed := c; levels := l :: ls |} (Rollback chain None)
           {| committed := c; levels := opening chain |}
| step_rollback_idle c :
    step i {| committed := c; levels := [] |} (Rollback false None) {| committed := c; levels := [] |}
| step_savepoint c l ls ident :
    step i {| committed := c; levels := l :: ls |} (Savepoint ident)
           {| committed := c; levels := (l :: ls) ++ [(Some ident, [])] |}
| step_rollback_to c outer m log inner chain ident :
    same_name m ident = true → Forall (λ l, named ident l = false) inner →
    step i {| committed := c; levels := outer ++ (Some m, log) :: inner |}
           (Rollback chain (Some ident))
           {| committed := c; levels := outer ++ [(Some m, [])] |}
| step_release c outer k log0 m log inner ident :
    same_name m ident = true → Forall (λ l, named ident l = false) inner →
    step i {| committed := c; levels := outer ++ (k, log0) :: (Some m, log) :: inner |}
           (ReleaseSavepoint ident)
           {| committed := c; levels := outer ++ [(k, log0 ++ log ++ flat inner)] |}
| step_autocommit c s :
    is_control s = false →
    step i {| committed := c; levels := [] |} s {| committed := c ++ [i]; levels := [] |}
| step_inside c outer k log s :
    is_control s = false → is_concurrent_index s = false →
    step i {| committed := c; levels := outer ++ [(k, log)] |} s
           {| committed := c; levels := outer ++ [(k, log ++ [i])] |}.

(** Executing a batch whose first statement is number [i]. *)
Inductive run : nat → server → list (Statement Payload) → server → Prop :=
| run_nil i σ : run i σ [] σ
| run_cons i σ s σ' ss σ'' : step i σ s σ' → run (S i) σ' ss σ'' → run i σ (s :: ss) σ''.

Definition idle : server := {| committed := []; levels := [] |}.

Definition in_block (σ : server) : bool := match levels σ with [] => false | _ => true end.
End Server.
End Server.

(** ** [analyse] against the server *)

Section Analyse.
Import Blocks History Server.
Context {Payload : Type}.
Implicit Types (σ : server) (s : Statement Payload) (ss : list (Statement Payload)).

Lemma in_block_app outer l ls c : in_block {| committed := c; levels := outer ++ l :: ls |} = true.
Proof. by destruct outer. Qed.

(** The server's step is one the analysis lets through, and both agree on
    whether a transaction block is open afterwards. *)
Lemma step_analysed i σ s σ' :
  step i σ s σ' → ∃ d, analyse_statement (in_block σ) s = Ok (in_block σ', d).
Proof.
  destruct 1 as [| | ? ? ? chain | | ? ? ? chain | | | | | c s Hc | c outer k log s Hc Hi];
    rewrite ?in_block_app; try (destruct chain); cbn; eauto.
  - destruct s; try done; cbn; eauto.
  - destruct s; try done; cbn in *; rewrite ?Hi; eauto.
Qed.

Lemma run_analysed i σ ss σ' :
  run i σ ss σ' → ∃ ds, analyse_from (in_block σ) ss = Ok ds.
Proof.
  induction 1 as [|i σ s σ' ss σ'' Hs _ (ds & IH)]; [by eexists|].
  destruct (step_analysed _ _ _ _ Hs) as (d & Hd). cbn. rewrite Hd. cbn. rewrite IH. by eexists.
Qed.

Lemma rposition_None {A} (p : A → bool) l :
  rposition p l = None ↔ Forall (λ y, p y = false) l.
Proof.
  induction l as [|y l IH]; cbn; [done|]. rewrite Forall_cons, <- IH.
  destruct (rposition p l), (p y); split; intros H; try done; by destruct H.
Qed.

Lemma rposition_app {A} (p : A → bool) a x b :
  p x = true → Forall (λ y, p y = false) b → rposition p (a ++ x :: b) = Some (length a).
Proof.
  intros Hx Hb. induction a as [|y a IH]; cbn.
  - by rewrite (proj2 (rposition_None p b) Hb), Hx.
  - by rewrite IH.
Qed.

(** ** [Outline::new] against the server *)

(** The frames the scan holds for the server's levels: each starts where the
    logs of the levels below it end. *)
Fixpoint frames_from (start : nat) (ls : list (option Ident * list nat)) : list Frame :=
  match ls with
  | [] => []
  | (ident, log) :: ls =>
      {| History.name := ident; History.start := start |} :: frames_from (start + length log) ls
  end.

Lemma frames_from_app n a b :
  frames_from n (a ++ b) = frames_from n a ++ frames_from (n + length (flat a)) b.
Proof.
  revert n. induction a as [|[ident log] a IH]; intros n; cbn; [by rewrite Nat.add_0_r|].
  rewrite IH. unfold flat. cbn. rewrite length_app. do 3 f_equal. lia.
Qed.

Lemma frames_from_length n ls : length (frames_from n ls) = length ls.
Proof. revert n. induction ls as [|[? ?] ls IH]; intros n; cbn; [done|]. by rewrite IH. Qed.

Lemma flat_app a b : flat (a ++ b) = flat a ++ flat b.
Proof. unfold flat. by rewrite map_app, concat_app. Qed.

Lemma frames_named ident n ls :
  Forall (λ l, named ident l = false) ls →
  Forall (λ f, frame_named ident f = false) (frames_from n ls).
Proof.
  revert n. induction ls as [|[m log] ls IH]; intros n; cbn; [constructor|].
  intros [Hm Hls]%Forall_cons. constructor; [exact Hm | by apply IH].
Qed.

Lemma innermost_frames ident outer m log inner :
  same_name m ident = true → Forall (λ l, named ident l = false) inner →
  innermost (frames_from 0 (outer ++ (Some m, log) :: inner)) ident = Some (length outer).
Proof.
  intros Hm Hin. unfold innermost. rewrite frames_from_app. cbn.
  rewrite rposition_app; [by rewrite frames_from_length | exact Hm | by apply frames_named].
Qed.

Lemma mark_lookup o idx os j :
  (j < length os)%nat →
  mark o idx os !! j = if decide (j ∈ idx) then Some o else os !! j.
Proof.
  intros Hj. unfold mark. revert os Hj. induction idx as [|i idx IH]; intros os Hj; [done|]. cbn.
  rewrite IH by (by rewrite length_insert). destruct (decide (j ∈ idx)) as [H|H].
  - rewrite decide_True; [done | set_solver].
  - destruct (decide (j = i)) as [->|Hne].
    + rewrite decide_True by set_solver. by apply list_lookup_insert_eq.
    + rewrite decide_False by set_solver. by apply list_lookup_insert_ne.
Qed.

Lemma mark_length o idx os : length (mark o idx os) = length os.
Proof.
  unfold mark. revert os. induction idx as [|i idx IH]; intros os; [done|]. cbn.
  by rewrite IH, length_insert.
Qed.

(** Statement [j] has run and has not been undone. *)
Definition live (σ : server) (j : nat) : Prop := j ∈ committed σ ∨ j ∈ flat (levels σ).
#[local] Instance live_dec σ j : Decision (live σ j).
Proof. unfold live. apply _. Defined.

Lemma live_elem σ j : live σ j ↔ j ∈ committed σ ++ flat (levels σ).
Proof. unfold live. by rewrite elem_of_app. Qed.

(** What the scan has recorded for a statement it has passed. *)
Definition recorded (σ : server) (j : nat) (s : Statement Payload) : Outcome :=
  if is_control s then Control
  else if decide (live σ j) then Committed else Undone.

(** The simulation relation between the scan after the statements [pre] of a
    batch of [n] and the server's state. *)
Record simulates (n : nat) (pre : list (Statement Payload)) (c : Scan) (σ : server) : Prop := {
  sim_frames : frames c = frames_from 0 (levels σ);
  sim_pending : pending c = flat (levels σ);
  sim_opened : is_Some (opened c) ↔ levels σ ≠ [];
  sim_length : length (scan_outcomes c) = n;
  sim_room : (length pre <= n)%nat;
  sim_past : ∀ j s, pre !! j = Some s → scan_outcomes c !! j = Some (recorded σ j s);
  sim_future : ∀ j, (length pre <= j < n)%nat → scan_outcomes c !! j = Some Committed;
  sim_bound : ∀ j, live σ j → (j < length pre)%nat;
  sim_data : ∀ j s, live σ j → pre !! j = Some s → is_control s = false;
  sim_nodup : NoDup (committed σ ++ flat (levels σ)) }.

Lemma simulates_init n : simulates n [] (scan_init n) idle.
Proof.
  split; cbn; [done | done | by split; [intros [? ?] |] | by rewrite length_replicate | lia
              | done | | | | constructor].
  - intros j Hj. rewrite lookup_replicate_2; [done | lia].
  - intros j Hj. unfold live in Hj. set_solver.
  - intros j s Hj. unfold live in Hj. set_solver.
Qed.

(** The step of the simulation: the scan has marked the statements [idx] of the
    levels with [o], and recorded the current one when it is control. *)
Lemma simulates_step n pre c σ s c' σ' o idx :
  simulates n pre c σ → (length pre < n)%nat →
  frames c' = frames_from 0 (levels σ') → pending c' = flat (levels σ') →
  (is_Some (opened c') ↔ levels σ' ≠ []) →
  scan_outcomes c' = mark o idx (if is_control s then <[length pre := Control]> (scan_outcomes c)
                                 else scan_outcomes c) →
  (∀ j, j ∈ idx → j ∈ flat (levels σ)) →
  (∀ j, j ∈ idx → if decide (live σ' j) then o = Committed else o = Undone) →
  (∀ j, j ∉ idx → j ≠ length pre → live σ' j ↔ live σ j) →
  (live σ' (length pre) ↔ is_control s = false) →
  NoDup (committed σ' ++ flat (levels σ')) →
  simulates n (pre ++ [s]) c' σ'.
Proof.
  intros [_ _ _ Hlen _ Hpast Hfut Hbound Hdata Hnd] Hn Hf Hp Ho Hos Hidx Hmark Hsame Hcur Hnd'.
  assert (Hold : ∀ j, live σ' j → j ≠ length pre → (j < length pre)%nat).
  { intros j Hj Hne. apply Hbound. destruct (decide (j ∈ idx)) as [Hi|Hi].
    - right. by apply Hidx. - by apply Hsame. }
  set (os := if is_control s then _ else _) in Hos.
  assert (Hlos : length os = n) by (subst os; destruct (is_control s); by rewrite ?length_insert).
  assert (Hget : ∀ j, (j < n)%nat → scan_outcomes c' !! j = if decide (j ∈ idx) then Some o else os !! j).
  { intros j Hj. rewrite Hos. apply mark_lookup. lia. }
  assert (Hout : length pre ∉ idx).
  { intros H. specialize (Hbound (length pre) (or_intror (Hidx _ H))). lia. }
  split; try done.
  - by rewrite Hos, mark_length.
  - rewrite length_app. cbn. lia.
  - intros j t [Ht|[Hj Ht]]%lookup_app_Some.
    + pose proof (lookup_lt_Some _ _ _ Ht) as Hlt. rewrite Hget by lia.
      specialize (Hpast _ _ Ht). specialize (Hsame j). unfold recorded in *.
      destruct (decide (j ∈ idx)) as [Hi|Hi].
      * rewrite (Hdata j t (or_intror (Hidx j Hi)) Ht). specialize (Hmark j Hi).
        by destruct (decide (live σ' j)); subst.
      * assert (os !! j = scan_outcomes c !! j) as ->.
        { subst os. destruct (is_control s); [|done]. apply list_lookup_insert_ne. lia. }
        rewrite Hpast. f_equal. destruct (is_control t); [done|].
        apply decide_ext. symmetry. apply Hsame; [done | lia].
    + apply list_lookup_singleton_Some in Ht as [Hj0 <-].
      assert (j = length pre) as -> by lia. rewrite Hget, decide_False by (done || lia).
      unfold recorded in *. subst os. destruct (is_control s) eqn:Hc.
      * apply list_lookup_insert_eq. lia.
      * rewrite decide_True by (by apply Hcur). apply Hfut. lia.
  - intros j. rewrite length_app. cbn. intros Hj. rewrite Hget by lia.
    rewrite decide_False. 2:{ intros Hi. specialize (Hbound j (or_intror (Hidx j Hi))). lia. }
    subst os. destruct (is_control s); [|apply Hfut; lia].
    rewrite list_lookup_insert_ne by lia. apply Hfut; lia.
  - intros j Hj. rewrite length_app. cbn. destruct (decide (j = length pre)) as [->|Hne]; [lia|].
    specialize (Hold j Hj Hne). lia.
  - intros j t Hj [Ht|[Hge Ht]]%lookup_app_Some.
    + pose proof (lookup_lt_Some _ _ _ Ht) as Hlt. apply (Hdata j t); [|done].
      destruct (decide (j ∈ idx)) as [Hi|Hi]; [right; by apply Hidx|].
      apply Hsame; [done | lia | done].
    + apply list_lookup_singleton_Some in Ht as [Hj0 <-].
      assert (j = length pre) as -> by lia. by apply Hcur.
Qed.

(** A control statement that moves no statement between the levels. *)
Lemma simulates_control n pre c σ s c' σ' :
  simulates n pre c σ → (length pre < n)%nat → is_control s = true →
  frames c' = frames_from 0 (levels σ') → pending c' = pending c →
  (is_Some (opened c') ↔ levels σ' ≠ []) →
  scan_outcomes c' = <[length pre := Control]> (scan_outcomes c) →
  committed σ' = committed σ → flat (levels σ') = flat (levels σ) →
  simulates n (pre ++ [s]) c' σ'.
Proof.
  intros Hsim Hn Hs Hf Hp Ho Hos Hc Hl.
  assert (Hlive : ∀ j, live σ' j ↔ live σ j) by (intros j; unfold live; by rewrite Hc, Hl).
  eapply (simulates_step n pre c σ s c' σ' Undone []); try done.
  - by rewrite Hp, (sim_pending _ _ _ _ Hsim).
  - by rewrite Hs.
  - set_solver.
  - set_solver.
  - rewrite Hlive, Hs. split; [|done]. intros H. apply (sim_bound _ _ _ _ Hsim) in H. lia.
  - rewrite Hc, Hl. apply Hsim.
Qed.

(** The end of a transaction. *)
Lemma simulates_finish n pre c σ s σ' o chain :
  simulates n pre c σ → (length pre < n)%nat → is_control s = true →
  levels σ' = opening chain →
  (o = Committed ∧ committed σ' = committed σ ++ flat (levels σ)
   ∨ o = Undone ∧ committed σ' = committed σ) →
  simulates n (pre ++ [s]) (finish c (length pre) o chain) σ'.
Proof.
  intros Hsim Hn Hs Hl Ho. pose proof (sim_nodup _ _ _ _ Hsim) as Hnd.
  assert (Hflat : flat (levels σ') = []) by (rewrite Hl; by destruct chain).
  assert (Hlive : ∀ j, live σ' j ↔ j ∈ committed σ').
  { intros j. unfold live. rewrite Hflat. set_solver. }
  eapply (simulates_step n pre c σ s _ σ' o (flat (levels σ))); try done.
  - rewrite Hl. by destruct chain.
  - rewrite Hflat. by destruct chain.
  - rewrite Hl. destruct chain; cbn; [naive_solver | by split; [intros [? ?] |]].
  - rewrite Hs. unfold finish. rewrite (sim_pending _ _ _ _ Hsim). by destruct chain.
  - intros j Hj. apply NoDup_app in Hnd as (_ & Hdis & _).
    destruct Ho as [[-> Hc]|[-> Hc]]; case_decide as Hd; try done; rewrite Hlive, Hc in Hd.
    + exfalso. set_solver.
    + by destruct (Hdis j).
  - intros j Hj _. rewrite Hlive. unfold live. destruct Ho as [[-> ->]|[-> ->]]; set_solver.
  - rewrite Hlive, Hs. split; [|done]. intros Hj. exfalso.
    assert (live σ (length pre)) as Hb
      by (unfold live; destruct Ho as [[-> Hc]|[-> Hc]]; rewrite Hc in Hj; set_solver).
    apply (sim_bound _ _ _ _ Hsim) in Hb. lia.
  - rewrite Hflat, app_nil_r. apply NoDup_app in Hnd as Hnd'.
    destruct Ho as [[-> ->]|[-> ->]]; [done | apply Hnd'].
Qed.

Lemma flat_snoc ls ident log : flat (ls ++ [(ident, log)]) = flat ls ++ log.
Proof. rewrite flat_app. unfold flat at 2. cbn. by rewrite app_nil_r. Qed.

Lemma frames_from_snoc ls ident log :
  frames_from 0 (ls ++ [(ident, log)])
  = frames_from 0 ls ++ [{| History.name := ident; History.start := length (flat ls) |}].
Proof. by rewrite frames_from_app. Qed.

(** Rolling back to a savepoint undoes its level and the levels above it. *)
Lemma simulates_rollback_to n pre c comm outer m log inner chain ident :
  simulates n pre c {| committed := comm; levels := outer ++ (Some m, log) :: inner |} →
  (length pre < n)%nat → same_name m ident = true →
  Forall (λ l, named ident l = false) inner →
  simulates n (pre ++ [Rollback chain (Some ident)])
    (scan_statement (Payload := Payload) c (length pre) Translate (Rollback chain (Some ident)))
    {| committed := comm; levels := outer ++ [(Some m, [])] |}.
Proof.
  intros Hsim Hn Hm Hin. pose proof (sim_nodup _ _ _ _ Hsim) as Hnd.
  cbn [committed levels] in Hnd. rewrite flat_app in Hnd.
  assert (Hinner : innermost (frames c) ident = Some (length outer)).
  { rewrite (sim_frames _ _ _ _ Hsim). by apply innermost_frames. }
  assert (Hget : frames c !! length outer
                 = Some {| History.name := Some m; History.start := length (flat outer) |}).
  { rewrite (sim_frames _ _ _ _ Hsim). cbn [levels].
    rewrite frames_from_app, lookup_app_r; rewrite frames_from_length; [|lia].
    by rewrite Nat.sub_diag. }
  cbn [scan_statement]. rewrite Hinner, Hget, (sim_pending _ _ _ _ Hsim). cbn [start levels].
  rewrite flat_app.
  assert (Hlive : ∀ j, live {| committed := comm; levels := outer ++ [(Some m, [])] |} j
                       ↔ j ∈ comm ∨ j ∈ flat outer).
  { intros j. unfold live. cbn [committed levels]. by rewrite flat_snoc, app_nil_r. }
  eapply (simulates_step n pre c _ _ _ _ Undone (flat ((Some m, log) :: inner)) Hsim Hn);
    cbn [scan_outcomes frames pending opened committed levels].
  - rewrite (sim_frames _ _ _ _ Hsim). cbn [levels].
    rewrite frames_from_snoc, frames_from_app. cbn [frames_from Nat.add].
    rewrite take_app_ge by (rewrite frames_from_length; lia).
    rewrite frames_from_length. by replace (S (length outer) - length outer)%nat with 1%nat by lia.
  - rewrite flat_snoc, app_nil_r, take_app_length. done.
  - rewrite (sim_opened _ _ _ _ Hsim). cbn [levels]. by destruct outer.
  - by rewrite drop_app_length.
  - intros j Hj. rewrite flat_app, elem_of_app. by right.
  - intros j Hj. case_decide as Hd; [|done]. exfalso. rewrite Hlive in Hd.
    apply NoDup_app in Hnd as (_ & Hd1 & Hnd). apply NoDup_app in Hnd as (_ & Hd2 & _).
    destruct Hd as [Hd|Hd]; [apply (Hd1 j Hd), elem_of_app; by right | by apply (Hd2 j Hd)].
  - intros j Hj _. rewrite Hlive. unfold live. cbn [committed levels].
    rewrite flat_app, elem_of_app. tauto.
  - rewrite Hlive. split; [|done]. intros Hj. exfalso.
    enough (live {| committed := comm; levels := outer ++ (Some m, log) :: inner |} (length pre)) as Hb
      by (apply (sim_bound _ _ _ _ Hsim) in Hb; lia).
    unfold live. cbn [committed levels]. rewrite flat_app, elem_of_app. tauto.
  - rewrite flat_snoc, app_nil_r. rewrite app_assoc in Hnd. by apply NoDup_app in Hnd as (? & _).
Qed.

(** A statement with effects, inside a transaction block. *)
Lemma simulates_data n pre c σ s σ' o :
  simulates n pre c σ → (length pre < n)%nat → is_control s = false →
  opened c = Some o → levels σ' ≠ [] → committed σ' = committed σ →
  flat (levels σ') = flat (levels σ) ++ [length pre] →
  frames_from 0 (levels σ') = frames_from 0 (levels σ) →
  simulates n (pre ++ [s]) (scan_statement c (length pre) Translate s) σ'.
Proof.
  intros Hsim Hn Hs Ho Hne Hc Hl Hf.
  assert (scan_statement c (length pre) Translate s =
          {| scan_outcomes := scan_outcomes c;
             scan_transactions := <[length pre := opened c]> (scan_transactions c);
             frames := frames c; pending := pending c ++ [length pre];
             opened := opened c; next := next c |}) as ->
    by (destruct s; try done; cbn; by rewrite Ho).
  assert (Hfresh : ¬ live σ (length pre))
    by (intros H; apply (sim_bound _ _ _ _ Hsim) in H; lia).
  eapply (simulates_step n pre c σ _ _ _ Undone [] Hsim Hn);
    cbn [scan_outcomes frames pending opened].
  - by rewrite Hf, (sim_frames _ _ _ _ Hsim).
  - by rewrite Hl, (sim_pending _ _ _ _ Hsim).
  - rewrite Ho. by split; [|eauto].
  - by rewrite Hs.
  - set_solver.
  - set_solver.
  - intros j _ Hj. unfold live. rewrite Hc, Hl. set_solver.
  - rewrite Hs. split; [done|]. intros _. right. rewrite Hl. set_solver.
  - rewrite Hc, Hl, app_assoc. apply NoDup_app. split_and!; [apply Hsim | | apply NoDup_singleton].
    intros j Hj Hj'%list_elem_of_singleton. subst j. apply Hfresh. by apply live_elem.
Qed.

(** A statement with effects, outside any block, which commits by itself. *)
Lemma simulates_autocommit n pre c comm s :
  simulates n pre c {| committed := comm; levels := [] |} → (length pre < n)%nat →
  is_control s = false →
  simulates n (pre ++ [s]) (scan_statement c (length pre) Translate s)
    {| committed := comm ++ [length pre]; levels := [] |}.
Proof.
  intros Hsim Hn Hs.
  assert (opened c = None) as Ho.
  { destruct (opened c) eqn:E; [|done]. destruct (sim_opened _ _ _ _ Hsim) as [H _].
    rewrite E in H. by destruct H. }
  assert (scan_statement c (length pre) Translate s = c) as ->
    by (destruct s; try done; cbn; by rewrite Ho).
  assert (Hfresh : ¬ live {| committed := comm; levels := [] |} (length pre))
    by (intros H; apply (sim_bound _ _ _ _ Hsim) in H; lia).
  eapply (simulates_step n pre c _ _ _ _ Undone [] Hsim Hn); cbn [committed levels].
  - apply Hsim.
  - apply Hsim.
  - apply Hsim.
  - by rewrite Hs.
  - set_solver.
  - set_solver.
  - intros j _ Hj. unfold live. cbn. set_solver.
  - rewrite Hs. split; [done|]. intros _. left. cbn. set_solver.
  - cbn. rewrite app_nil_r. apply NoDup_app. pose proof (sim_nodup _ _ _ _ Hsim) as Hnd.
    cbn in Hnd. rewrite app_nil_r in Hnd. split_and!; [done | | apply NoDup_singleton].
    intros j Hj Hj'%list_elem_of_singleton. subst j. apply Hfresh. by left.
Qed.

Lemma simulates_statement n pre c σ s σ' b d :
  simulates n pre c σ → (length pre < n)%nat → step (length pre) σ s σ' →
  analyse_statement (in_block σ) s = Ok (b, d) →
  simulates n (pre ++ [s]) (scan_statement c (length pre) d s) σ'.
Proof.
  intros Hsim Hn Hstep. pose proof (sim_frames _ _ _ _ Hsim) as Hf.
  pose proof (sim_opened _ _ _ _ Hsim) as Ho. destruct Hstep; rewrite ?in_block_app; cbn [in_block levels].
  - intros [= <- <-]. apply simulates_control with c {| committed := c0; levels := [] |};
      cbn in *; try done; by rewrite Hf.
  - intros [= <- <-]. eapply simulates_control; try done.
  - intros [= <- <-]. eapply simulates_finish; try done. by left.
  - intros [= <- <-]. eapply simulates_control; try done.
  - intros [= <- <-]. eapply simulates_finish; try done. by right.
  - intros [= <- <-]. eapply simulates_control; try done.
  - intros [= <- <-]. eapply simulates_control; try done; cbn [scan_statement frames opened levels].
    + by rewrite frames_from_snoc, (sim_pending _ _ _ _ Hsim), Hf.
    + rewrite Ho. done.
    + by rewrite flat_snoc, app_nil_r.
  - intros [= <- <-]. by eapply simulates_rollback_to.
  - intros [= <- <-]. eapply simulates_control; try done; cbn [scan_statement frames opened levels].
    + rewrite Hf. cbn [levels].
      change (outer ++ (k, log0) :: (Some m, log) :: inner)
        with (outer ++ ([(k, log0)] ++ (Some m, log) :: inner)).
      rewrite (app_assoc outer), innermost_frames by done.
      rewrite frames_from_app, take_app_length'; [by rewrite !frames_from_snoc|].
      by rewrite frames_from_length.
    + rewrite Ho. cbn. by destruct outer.
    + by rewrite flat_snoc, flat_app.
  - intros Hd. assert (d = Translate) as -> by (destruct s; try done; cbn in Hd; by simplify_eq).
    by apply simulates_autocommit.
  - intros Hd.
    assert (d = Translate) as ->.
    { destruct s; try done; cbn in *; try by simplify_eq. destruct (ci_concurrently create); by simplify_eq. }
    destruct (opened c) as [o|] eqn:E.
    2: { exfalso. destruct Ho as [_ Ho]. destruct Ho as [? ?]; [by destruct outer | done]. }
    eapply simulates_data; try done.
    + by destruct outer.
    + cbn [levels]. by rewrite !flat_snoc, app_assoc.
    + cbn [levels]. by rewrite !frames_from_snoc.
Qed.

Lemma simulates_run n pre c σ ss σ' ds :
  run (length pre) σ ss σ' → simulates n pre c σ → (length pre + length ss = n)%nat →
  analyse_from (in_block σ) ss = Ok ds →
  simulates n (pre ++ ss) (scan c (length pre) ds ss) σ'.
Proof.
  intros Hrun. remember (length pre) as i eqn:Hi.
  revert pre c ds Hi. induction Hrun as [i σ|i σ s σ1 ss σ2 Hstep Hrun IH]; intros pre c ds -> Hsim Hn.
  - cbn. intros [= <-]. by rewrite app_nil_r.
  - cbn [analyse_from]. intros H. inv_ok. destruct a as [b d]. inv_ok.
    destruct (step_analysed _ _ _ _ Hstep) as (d' & Hd). rewrite Ha in Hd. injection Hd as -> ->.
    cbn [scan]. cbn [length] in Hn.
    replace (pre ++ s :: ss) with ((pre ++ [s]) ++ ss) by (by rewrite <- app_assoc).
    apply IH; [rewrite length_app; cbn; lia | | lia | done].
    eapply simulates_statement; [done | lia | done | done].
Qed.
End Analyse.

Section Outcomes.
Import Blocks History Server.
Context {Payload : Type}.
Implicit Types (ss : list (Statement Payload)).

(** C6 (the outline is the server's verdict). A batch PostgreSQL executes to
    the end is one [analyse] accepts, and [Outline::new] then answers for every
    statement what the server's stack of subtransactions answers: [Control] for
    transaction control, [Committed] exactly for the statements the server has
    committed when the batch ends, and [Undone] for every other one, be it
    rolled back, rolled back to a savepoint, or left in an open transaction. *)
Theorem outline_refines_server ss σ :
  run 0 idle ss σ →
  ∃ ds, analyse ss = Ok ds ∧
  ∀ i s, ss !! i = Some s →
    outcome (Outline_new ss ds) i =
      if is_control s then Control
      else if decide (i ∈ committed σ) then Committed else Undone.
Proof.
  intros Hrun. destruct (run_analysed _ _ _ _ Hrun) as (ds & Hds). exists ds. split; [exact Hds|].
  intros i s Hi. pose proof (simulates_run (length ss) [] _ _ _ _ ds Hrun
    (simulates_init _) eq_refl Hds) as Hsim. cbn in Hsim.
  unfold outcome, Outline_new. cbn [outcomes].
  pose proof (lookup_lt_Some _ _ _ Hi) as Hlt.
  rewrite mark_lookup by (by rewrite (sim_length _ _ _ _ Hsim)).
  rewrite (sim_past _ _ _ _ Hsim i s Hi), (sim_pending _ _ _ _ Hsim). unfold recorded.
  pose proof (sim_nodup _ _ _ _ Hsim) as Hnd. apply NoDup_app in Hnd as (_ & Hdis & _).
  case_decide as Hp.
  - rewrite (sim_data _ _ _ _ Hsim i s (or_intror Hp) Hi).
    rewrite decide_False; [done|]. intros Hc. by apply (Hdis i).
  - destruct (is_control s); [done|]. cbn. apply decide_ext. unfold live. tauto.
Qed.

(** The statement names a savepoint none of the open levels carries. *)
Definition unknown_savepoint (σ : server) (s : Statement Payload) : Prop :=
  match s with
  | ReleaseSavepoint ident | Rollback _ (Some ident) =>
      Forall (λ l, named ident l = false) (levels σ)
  | _ => False
  end.

(** The levels of a reachable state: the transaction itself, then savepoints. *)
Definition well_nested (σ : server) : Prop :=
  match levels σ with
  | [] => True
  | l :: ls => l.1 = None ∧ Forall (λ l, is_Some l.1) ls
  end.

Lemma step_well_nested i σ (s : Statement Payload) σ' :
  step i σ s σ' → well_nested σ → well_nested σ'.
Proof.
  unfold well_nested. destruct 1 as [| | ? ? ? chain | | ? ? ? chain | | | c outer m log inner
    | c outer k log0 m log inner | | c outer k log]; cbn; try (destruct chain); try done.
  2-5: destruct outer as [|l ls]; cbn; rewrite ?Forall_app, ?Forall_cons, ?Forall_nil; cbn; tauto.
  intros [Hl Hls]. split; [done|]. rewrite Forall_app, Forall_singleton. eauto.
Qed.

(** The innermost level carrying a name, when there is one. *)
Lemma innermost_level ident (ls : list (option Ident * list nat)) :
  Forall (λ l, named ident l = false) ls ∨
  ∃ outer m log inner, ls = outer ++ (Some m, log) :: inner ∧ same_name m ident = true
                       ∧ Forall (λ l, named ident l = false) inner.
Proof.
  induction ls as [|[k log] ls [IH|(outer & m & log' & inner & -> & Hm & Hin)]]; [by left | |].
  - destruct (named ident (k, log)) eqn:Hk; [right | left; by constructor].
    destruct k as [m|]; [|done]. by exists [], m, log, ls.
  - right. by exists ((k, log) :: outer), m, log', inner.
Qed.

Lemma accepted_statement_steps i (σ : server) (s : Statement Payload) b d :
  well_nested σ → analyse_statement (in_block σ) s = Ok (b, d) →
  unknown_savepoint σ s ∨ ∃ σ', step i σ s σ'.
Proof.
  destruct σ as [c [|l ls]]; unfold well_nested; cbn [in_block levels].
  - intros _. destruct s; cbn; try (destruct chain); try (destruct savepoint); try done;
      intros _; right; eexists; by constructor.
  - intros [Hl Hls]. destruct (exists_last (l := l :: ls)) as (outer & [k log] & E); [done|].
    assert (Hdata : is_control s = false → is_concurrent_index s = false →
                    ∃ σ', step i {| committed := c; levels := l :: ls |} s σ').
    { intros H1 H2. rewrite E. eexists. by apply step_inside. }
    destruct s; cbn; try (intros _; right; by apply Hdata); try (intros _; right; by eexists; constructor).
    + destruct savepoint as [ident|]; [|intros _; right; by eexists; constructor]. intros _.
      destruct (innermost_level ident (l :: ls)) as [?|(o & m & lg & inner & -> & Hm & Hin)];
        [by left | right]. eexists. by apply step_rollback_to.
    + intros _. match goal with |- context [ReleaseSavepoint ?ident] =>
        destruct (innermost_level ident (l :: ls)) as [?|(o & m & lg & inner & Eq & Hm & Hin)] end;
        [by left | right]. destruct o as [|[? ?] o _] using rev_ind.
      * injection Eq as -> _. done.
      * rewrite Eq, <- app_assoc. eexists. by apply step_release.
    + destruct (ci_concurrently create) eqn:Hc; [done|]. intros _. right. by apply Hdata.
Qed.

Lemma accepted_batch_runs i (σ : server) ss ds :
  well_nested σ → analyse_from (in_block σ) ss = Ok ds →
  (∃ σ', run i σ ss σ') ∨
  ∃ pre s post σ', ss = pre ++ s :: post ∧ run i σ pre σ' ∧ unknown_savepoint σ' s.
Proof.
  revert i σ ds. induction ss as [|s ss IH]; intros i σ ds Hw; cbn.
  - intros _. left. eexists. constructor.
  - intros H. inv_ok. destruct a as [b d]. inv_ok.
    destruct (accepted_statement_steps i σ s b d Hw Ha) as [Hu|(σ' & Hstep)].
    + right. exists [], s, ss, σ. split_and!; [done | constructor | done].
    + destruct (step_analysed _ _ _ _ Hstep) as (d' & Hd). rewrite Ha in Hd. injection Hd as -> ->.
      destruct (IH (S i) σ' _ (step_well_nested _ _ _ _ Hstep Hw) Ha0)
        as [(σ'' & Hr)|(pre & t & post & σ'' & -> & Hr & Hu)].
      * left. eexists. by econstructor.
      * right. exists (s :: pre), t, post, σ''. split_and!; [done | by econstructor | done].
Qed.

(** Nothing the server executes is refused, nothing it refuses for its
    place is accepted.  A batch [analyse] accepts either executes on the server
    to its end, or executes up to a statement naming a savepoint that no open
    level carries, the one error that is not about where a statement stands. *)
Lemma analyse_accepts_what_runs ss ds :
  analyse ss = Ok ds →
  (∃ σ, run 0 idle ss σ) ∨
  ∃ pre s post σ, ss = pre ++ s :: post ∧ run 0 idle pre σ ∧ unknown_savepoint σ s.
Proof. intros H. by apply (accepted_batch_runs 0 idle ss ds). Qed.
End Outcomes.

(** ** The theorems at a concrete batch *)

Section Example_batch.
Import Blocks History Server.

Definition savepoint_a : Ident := Ident_new (lit "a").

(** [BEGIN; w; SAVEPOINT a; w; ROLLBACK TO A; w; COMMIT; w; BEGIN; w]. *)
Definition example_batch : list (Statement unit) :=
  [StartTransaction; SOther tt; Savepoint savepoint_a; SOther tt;
   Rollback false (Some (Ident_new (lit "A"))); SOther tt; Commit false; SOther tt;
   StartTransaction; SOther tt].

Lemma outline_refines_server_witness :
  ∃ ds, analyse example_batch = Ok ds ∧
    map (outcome (Outline_new example_batch ds)) [1; 3; 5; 7; 9]%nat
    = [Committed; Undone; Committed; Committed; Undone].
Proof.
  destruct (outline_refines_server example_batch {| committed := [1; 5; 7]%nat; levels := [(None, [9%nat])] |})
    as (ds & Hds & Hout).
  - unfold example_batch, idle.
    eapply run_cons; [apply step_begin|].
    eapply run_cons; [apply (step_inside 1 [] []); done|].
    eapply run_cons; [apply step_savepoint|].
    eapply run_cons; [apply (step_inside 3 [] [_]); done|].
    eapply run_cons; [apply (step_rollback_to 4 [] [_] _ _ []); [vm_compute; reflexivity | constructor]|].
    eapply run_cons; [apply (step_inside 5 [] [_]); done|].
    eapply run_cons; [apply step_commit|].
    eapply run_cons; [apply step_autocommit; done|].
    eapply run_cons; [apply step_begin|].
    eapply run_cons; [apply (step_inside 9 _ []); done|].
    apply run_nil.
  - exists ds. split; [exact Hds|]. cbn [map].
    rewrite (Hout 1%nat _ eq_refl), (Hout 3%nat _ eq_refl), (Hout 5%nat _ eq_refl),
      (Hout 7%nat _ eq_refl), (Hout 9%nat _ eq_refl). vm_compute. reflexivity.
Defined.

Lemma analyse_accepts_what_runs_witness :
  ∃ ds, analyse example_batch = Ok ds ∧
  ((∃ σ, run 0 idle example_batch σ) ∨
   ∃ pre s post σ, example_batch = pre ++ s :: post ∧ run 0 idle pre σ ∧ unknown_savepoint σ s).
Proof.
  eexists. split; [vm_compute; reflexivity|].
  eapply analyse_accepts_what_runs. vm_compute. reflexivity.
Defined.
End Example_batch.
