(* ===== verification/Calendar.v ===== *)
(** * The proleptic Gregorian calendar

    The civil arithmetic of [src/src/impls/temporal_literals.rs]: the length of
    a month, the day after a date, and the two conversions between a date and
    the number of days since 1970-01-01.  The conversions are mutually inverse,
    and the day count is the one the calendar itself defines: it is 0 on
    1970-01-01 and grows by one from a day to the next. *)

From S2P Require Import Prelude.

(** [days_in_month]. *)
Definition LENGTHS : list Z := [31; 28; 31; 30; 31; 30; 31; 31; 30; 31; 30; 31].

Definition is_multiple_of (a b : Z) : bool := a mod b =? 0.

Definition days_in_month (year month : Z) : Z :=
  if (month =? 2) && is_multiple_of year 4
     && (negb (is_multiple_of year 100) || is_multiple_of year 400)
  then 29
  else default 0 (LENGTHS !! Z.to_nat (Z.max 1 (Z.min month 12) - 1)).

(** [next_day]. *)
Definition next_day (year month day : Z) : Z * Z * Z :=
  if day <? days_in_month year month then (year, month, day + 1)
  else if month <? 12 then (year, month + 1, 1)
  else (year + 1, 1, 1).

(** [days_from_civil].  The [u32] arguments are widened to [i64] first, so
    nothing overflows. *)
Definition days_from_civil (year month day : Z) : Z :=
  let year := year - Z.b2z (month <=? 2) in
  let era := year / 400 in
  let year_of_era := year - era * 400 in
  let month_from_march := (month + 9) %% 12 in
  let day_of_year := (153 * month_from_march + 2) ÷ 5 + day - 1 in
  let day_of_era := year_of_era * 365 + year_of_era ÷ 4 - year_of_era ÷ 100 + day_of_year in
  era * 146097 + day_of_era - 719468.

(** [civil_from_days]. *)
Definition civil_from_days (days : Z) : Z * Z * Z :=
  let days := days + 719468 in
  let era := days / 146097 in
  let day_of_era := days - era * 146097 in
  let year_of_era :=
    (day_of_era - day_of_era ÷ 1460 + day_of_era ÷ 36524 - day_of_era ÷ 146096) ÷ 365 in
  let day_of_year := day_of_era - (365 * year_of_era + year_of_era ÷ 4 - year_of_era ÷ 100) in
  let month_from_march := (5 * day_of_year + 2) ÷ 153 in
  let day := day_of_year - (153 * month_from_march + 2) ÷ 5 + 1 in
  let month := if month_from_march <? 10 then month_from_march + 3 else month_from_march - 9 in
  let year := year_of_era + era * 400 + Z.b2z (month <=? 2) in
  (year, month, day).

(** A date of the calendar. *)
Definition valid_date (year month day : Z) : Prop :=
  1 <= month <= 12 /\ 1 <= day <= days_in_month year month.

(** ** Months *)

Definition is_leap (year : Z) : bool :=
  (year mod 4 =? 0) && (negb (year mod 100 =? 0) || (year mod 400 =? 0)).

Definition month_length (leap : bool) (month : Z) : Z :=
  if month =? 2 then (if leap then 29 else 28)
  else if (month =? 4) || (month =? 6) || (month =? 9) || (month =? 11) then 30 else 31.

(** Reasons by cases on the twelve months. *)
Ltac by_month m :=
  assert (m = 1 \/ m = 2 \/ m = 3 \/ m = 4 \/ m = 5 \/ m = 6 \/ m = 7 \/ m = 8 \/ m = 9
          \/ m = 10 \/ m = 11 \/ m = 12) as Hmonth by lia;
  destruct Hmonth as [-> | [-> | [-> | [-> | [-> | [-> | [-> | [-> | [-> | [-> | [-> | ->]]]]]]]]]]].

Lemma days_in_month_length y m : 1 <= m <= 12 → days_in_month y m = month_length (is_leap y) m.
Proof.
  intros Hm. unfold days_in_month, is_multiple_of, month_length. fold (is_leap y).
  rewrite <- andb_assoc. fold (is_leap y).
  by_month m; cbn; destruct (is_leap y); reflexivity.
Qed.

Lemma month_length_range leap m : 1 <= m <= 12 → 28 <= month_length leap m <= 31.
Proof. intros Hm. unfold month_length. by_month m; destruct leap; cbn; lia. Qed.

(** ** The count of days *)

(** Days in the years, counted from March, before year [y]. *)
Definition year_days (y : Z) : Z := 365 * y + y / 4 - y / 100 + y / 400.
(** Days before the month, counted from March as 0, within its year. *)
Definition month_days (mp : Z) : Z := (153 * mp + 2) / 5.
Definition from_march (m : Z) : Z := if m <=? 2 then m + 9 else m - 3.

(** Evaluates the month offsets of concrete months. *)
Ltac eval_months :=
  repeat match goal with
  | |- context [month_days ?t] =>
      let v := eval vm_compute in (month_days t) in change (month_days t) with v
  | |- context [Z.b2z (?a <=? ?b)] =>
      let v := eval vm_compute in (Z.b2z (a <=? b)) in change (Z.b2z (a <=? b)) with v
  end.

Lemma from_march_rem m : 1 <= m <= 12 → (m + 9) %% 12 = from_march m.
Proof. intros Hm. by_month m; reflexivity. Qed.

Lemma days_from_civil_eq y m d :
  1 <= m <= 12 →
  days_from_civil y m d
  = year_days (y - Z.b2z (m <=? 2)) + month_days (from_march m) + d - 1 - 719468.
Proof.
  intros Hm. unfold days_from_civil. rewrite from_march_rem by done.
  set (mp := from_march m). assert (0 <= mp) by (unfold mp, from_march; destruct (m <=? 2) eqn:?; lia).
  set (y' := y - _). unfold year_days, month_days.
  pose proof (Z.mod_pos_bound y' 400 eq_refl) as Hoe.
  pose proof (Z.div_mod y' 400 ltac:(done)) as Hdm.
  replace (y' - y' / 400 * 400) with (y' mod 400) by lia.
  rewrite !Z.quot_div_nonneg by lia.
  set (e := y' / 400) in *. set (r := y' mod 400) in *. clearbody e r. rewrite Hdm.
  replace (400 * e + r) with (100 * e * 4 + r) at 2 by lia.
  replace (400 * e + r) with (4 * e * 100 + r) at 2 by lia.
  rewrite !Z.div_add_l by lia. lia.
Qed.

Lemma div_step y k : 0 < k → y / k - (y - 1) / k = Z.b2z (y mod k =? 0).
Proof.
  intros Hk. pose proof (Z.div_mod y k ltac:(lia)) as Hy. pose proof (Z.mod_pos_bound y k Hk).
  destruct (y mod k =? 0) eqn:E; cbn.
  - rewrite <- (Z.div_unique (y - 1) k (y / k - 1) (k - 1)); lia.
  - rewrite <- (Z.div_unique (y - 1) k (y / k) (y mod k - 1)); lia.
Qed.

(** A year has 365 days, and one more when it is a leap year. *)
Lemma year_days_step y : year_days y = year_days (y - 1) + 365 + Z.b2z (is_leap y).
Proof.
  unfold year_days, is_leap.
  pose proof (div_step y 4 ltac:(lia)). pose proof (div_step y 100 ltac:(lia)).
  pose proof (div_step y 400 ltac:(lia)).
  assert (y mod 400 = 0 → y mod 100 = 0) by (intros; divmod).
  assert (y mod 100 = 0 → y mod 4 = 0) by (intros; divmod).
  destruct (y mod 4 =? 0) eqn:E4, (y mod 100 =? 0) eqn:E100, (y mod 400 =? 0) eqn:E400;
    cbn [Z.b2z andb orb negb] in *; lia.
Qed.

(** From a month to the next. *)
Lemma days_from_civil_next_month y m :
  1 <= m < 12 → days_from_civil y (m + 1) 1 = days_from_civil y m 1 + days_in_month y m.
Proof.
  intros Hm. rewrite !days_from_civil_eq, days_in_month_length by lia.
  pose proof (year_days_step y) as Hy. unfold month_length.
  by_month m; try lia; cbn [Z.leb Z.eqb Z.compare Z.add Pos.add Pos.succ Pos.compare Pos.compare_cont
    Pos.eqb Z.b2z orb andb]; eval_months; rewrite ?Z.sub_0_r; try lia.
  destruct (is_leap y); cbn in Hy; lia.
Qed.

Lemma days_from_civil_next_year y :
  days_from_civil (y + 1) 1 1 = days_from_civil y 12 1 + 31.
Proof.
  rewrite !days_from_civil_eq by lia. cbn [Z.leb Z.compare Pos.compare Pos.compare_cont Z.b2z].
  replace (y + 1 - 1) with (y - 0) by lia. eval_months. lia.
Qed.

Lemma days_from_civil_day y m d k : days_from_civil y m (d + k) = days_from_civil y m d + k.
Proof. unfold days_from_civil. lia. Qed.

Lemma next_day_step y m d :
  valid_date y m d →
  let '(y', m', d') := next_day y m d in
  valid_date y' m' d' ∧ days_from_civil y' m' d' = days_from_civil y m d + 1.
Proof.
  intros [Hm Hd]. unfold next_day, valid_date in *.
  pose proof (month_length_range (is_leap y) m Hm) as Hlen.
  rewrite <- days_in_month_length in Hlen by done.
  destruct (d <? days_in_month y m) eqn:H1; [|destruct (m <? 12) eqn:H2].
  - split; [lia | by apply days_from_civil_day].
  - split.
    + pose proof (month_length_range (is_leap y) (m + 1)) as H.
      rewrite <- days_in_month_length in H; lia.
    + rewrite days_from_civil_next_month by lia.
      replace d with (1 + (d - 1)) by lia. rewrite days_from_civil_day. lia.
  - assert (m = 12) as -> by lia. split.
    + pose proof (month_length_range (is_leap (y + 1)) 1) as H.
      rewrite <- days_in_month_length in H; lia.
    + rewrite days_from_civil_next_year. replace d with (1 + (d - 1)) by lia.
      rewrite days_from_civil_day. change (days_in_month y 12) with 31 in *. lia.
Qed.

(** The next day is the next number.  The day count of the day after a date
    of the calendar is one more, across the ends of months, of leap and common
    Februaries and of years, and 1970-01-01 is day 0. *)
Lemma next_day_counts_one y m d :
  valid_date y m d →
  (let '(y', m', d') := next_day y m d in
   valid_date y' m' d' ∧ days_from_civil y' m' d' = days_from_civil y m d + 1)
  ∧ days_from_civil 1970 1 1 = 0.
Proof. intros Hv. split; [by apply next_day_step | reflexivity]. Qed.

(** ** The inverse *)

(** The date civil arithmetic works on: years counted from March, months
    counted from March as 0. *)
Definition march_valid (e yoe mp d : Z) : Prop :=
  0 <= yoe < 400 /\ 0 <= mp <= 11
  /\ 1 <= d <= month_length (is_leap (400 * e + yoe + 1)) (if mp <? 10 then mp + 3 else mp - 9).

Lemma is_leap_era e r : is_leap (400 * e + r) = is_leap r.
Proof.
  unfold is_leap.
  replace (400 * e + r) with (r + 100 * e * 4) at 1 by lia.
  replace (400 * e + r) with (r + 4 * e * 100) at 1 by lia.
  replace (400 * e + r) with (r + e * 400) at 1 by lia.
  by rewrite !Z.mod_add by lia.
Qed.

Ltac eval_lengths H :=
  match type of H with
  | context [month_length ?l ?m] =>
      let v := eval vm_compute in (month_length l m) in change (month_length l m) with v in H
  end.

(** The position of a day within its month determines both. *)
Lemma month_of_day mp d leap :
  0 <= mp <= 11 → 1 <= d <= month_length leap (if mp <? 10 then mp + 3 else mp - 9) →
  (5 * (month_days mp + d - 1) + 2) / 153 = mp
  ∧ 0 <= month_days mp + d - 1 <= 364 + Z.b2z leap.
Proof.
  intros Hmp Hd.
  assert (mp = 0 \/ mp = 1 \/ mp = 2 \/ mp = 3 \/ mp = 4 \/ mp = 5 \/ mp = 6 \/ mp = 7
          \/ mp = 8 \/ mp = 9 \/ mp = 10 \/ mp = 11) as Hc by lia.
  repeat destruct Hc as [Hc|Hc]; subst mp; eval_months; destruct leap; eval_lengths Hd;
    cbn [Z.b2z]; (split; [divmod | lia]).
Qed.

(** The day of an era determines the year within the era. *)
Lemma year_of_day yoe doy :
  0 <= yoe < 400 → 0 <= doy <= 364 + Z.b2z (is_leap (yoe + 1)) →
  let doe := yoe * 365 + yoe / 4 - yoe / 100 + doy in
  0 <= doe <= 146096
  ∧ (doe - doe / 1460 + doe / 36524 - doe / 146096) / 365 = yoe.
Proof.
  intros Hy Hd doe.
  set (c := yoe / 100). set (q := (yoe - 100 * c) / 4). set (r := yoe - 100 * c - 4 * q).
  pose proof (Z.div_mod yoe 100 ltac:(done)) as E1. pose proof (Z.mod_pos_bound yoe 100 eq_refl).
  fold c in E1. pose proof (Z.div_mod (yoe - 100 * c) 4 ltac:(done)) as E2.
  pose proof (Z.mod_pos_bound (yoe - 100 * c) 4 eq_refl). fold q in E2.
  assert (Hc : 0 <= c <= 3 ∧ 0 <= q <= 24 ∧ 0 <= r <= 3) by lia. clear E1 E2.
  assert (Hyoe : yoe = 100 * c + 4 * q + r) by lia.
  assert (Hleap : 0 <= doy <= 364 ∨ doy = 365 ∧ r = 3 ∧ (q < 24 ∨ c = 3)).
  { unfold is_leap in Hd. destruct (decide (doy <= 364)); [lia|].
    destruct (_ && _) eqn:E in Hd; cbn in Hd; [|lia]. right. split; [lia|]. divmod. }
  assert (Hdoe : doe = 36524 * c + 1461 * q + 365 * r + doy).
  { unfold doe. fold c. replace (yoe / 4) with (25 * c + q); [lia|].
    rewrite Hyoe. apply Z.div_unique with r; lia. }
  clearbody doe. clear Hd. clearbody c q r.
  assert (Hr : 0 <= doe <= 146096) by lia. split; [done|].
  assert (doe / 36524 - doe / 146096 = c) as Hcc.
  { destruct (decide (doe = 146096)) as [->|Hne]; [change (146096 / 36524 - 146096 / 146096) with 3; lia|].
    rewrite (Z.div_small doe 146096) by lia.
    rewrite <- (Z.div_unique doe 36524 c (doe - 36524 * c)); lia. }
  set (t := 24 * c + q + 365 * r + doy).
  assert (Hq : doe / 1460 = 25 * c + q + Z.b2z (1460 <=? t)).
  { symmetry. apply Z.div_unique with (t - 1460 * Z.b2z (1460 <=? t)); [|unfold t; lia].
    left. unfold t. destruct (1460 <=? _) eqn:E; cbn [Z.b2z]; lia. }
  replace (doe - doe / 1460 + doe / 36524 - doe / 146096)
    with (365 * yoe + (doy - Z.b2z (1460 <=? t))) by lia.
  symmetry. apply Z.div_unique with (doy - Z.b2z (1460 <=? t)); [|done].
  left. unfold t. destruct (1460 <=? _) eqn:E; cbn [Z.b2z]; lia.
Qed.

Lemma civil_roundtrip y m d :
  valid_date y m d → civil_from_days (days_from_civil y m d) = (y, m, d).
Proof.
  intros [Hm Hd]. rewrite days_in_month_length in Hd by done.
  rewrite days_from_civil_eq by done. unfold civil_from_days.
  set (y' := y - Z.b2z (m <=? 2)). set (mp := from_march m).
  pose proof (Z.div_mod y' 400 ltac:(done)) as Hdm.
  pose proof (Z.mod_pos_bound y' 400 eq_refl) as Hyoe.
  set (e := y' / 400) in *. set (yoe := y' mod 400) in *. clearbody e yoe.
  assert (Hmp : 0 <= mp <= 11 ∧ (if mp <? 10 then mp + 3 else mp - 9) = m
                ∧ Z.b2z (m <=? 2) = y - y')
    by (subst mp y'; unfold from_march; destruct (m <=? 2) eqn:E1;
        [destruct (m + 9 <? 10) eqn:E2 | destruct (m - 3 <? 10) eqn:E2]; lia).
  destruct Hmp as (Hmp & Hback & Hb).
  destruct (month_of_day mp d (is_leap (yoe + 1)) Hmp) as [Hmonth Hdoy].
  { rewrite Hback. destruct (decide (m = 2)) as [->|Hne]; [|by unfold month_length in *; destruct (m =? 2) eqn:?; [lia|]].
    rewrite <- (is_leap_era e). replace (400 * e + (yoe + 1)) with y; [done|].
    unfold y' in Hdm. cbn in Hdm. lia. }
  destruct (year_of_day yoe _ Hyoe Hdoy) as [Hdoe Hyear].
  set (doy := month_days mp + d - 1) in *. set (doe := yoe * 365 + yoe / 4 - yoe / 100 + doy) in *.
  assert (Hdays : year_days y' + month_days mp + d - 1 - 719468 + 719468 = e * 146097 + doe).
  { unfold year_days, doe, doy. rewrite Hdm.
    replace ((400 * e + yoe) / 4) with (100 * e + yoe / 4)
      by (replace (400 * e + yoe) with (100 * e * 4 + yoe) by lia; by rewrite Z.div_add_l).
    replace ((400 * e + yoe) / 100) with (4 * e + yoe / 100)
      by (replace (400 * e + yoe) with (4 * e * 100 + yoe) by lia; by rewrite Z.div_add_l).
    replace ((400 * e + yoe) / 400) with e by (apply Z.div_unique with yoe; lia). lia. }
  replace (year_days y' + month_days mp + d - 1 - 719468 + 719468) with (e * 146097 + doe).
  rewrite Z.div_add_l, (Z.div_small doe), Z.add_0_r by lia.
  replace (e * 146097 + doe - e * 146097) with doe by lia.
  rewrite !(Z.quot_div_nonneg doe) by lia.
  assert (0 <= doe - doe / 1460 + doe / 36524 - doe / 146096) by divmod.
  rewrite (Z.quot_div_nonneg _ 365), Hyear by lia. rewrite !(Z.quot_div_nonneg yoe) by lia.
  replace (doe - (365 * yoe + yoe / 4 - yoe / 100)) with doy by (unfold doe; lia).
  rewrite (Z.quot_div_nonneg _ 153), Hmonth, Hback by lia.
  rewrite (Z.quot_div_nonneg _ 5) by lia. fold (month_days mp).
  f_equal; [f_equal|]; unfold doy; lia.
Qed.

(** The date of a day number.  [civil_from_days] recovers every date of the
    calendar from the number [days_from_civil] gives it. *)
Lemma civil_from_days_from_civil y m d :
  valid_date y m d → civil_from_days (days_from_civil y m d) = (y, m, d).
Proof. apply civil_roundtrip. Qed.

(** ** Every day number is a date's *)

Lemma days_from_civil_era y m d k :
  1 <= m <= 12 → days_from_civil (y + 400 * k) m d = days_from_civil y m d + 146097 * k.
Proof.
  intros Hm. rewrite !days_from_civil_eq by done. unfold year_days.
  set (y' := y - Z.b2z (m <=? 2)). replace (y + 400 * k - Z.b2z (m <=? 2)) with (y' + 400 * k) by (unfold y'; lia).
  replace (y' + 400 * k) with (y' + 100 * k * 4) at 2 by lia.
  replace (y' + 400 * k) with (y' + 4 * k * 100) at 2 by lia.
  replace (y' + 400 * k) with (y' + k * 400) at 2 by lia.
  rewrite !Z.div_add by lia. lia.
Qed.

Lemma valid_date_era y m d k : valid_date y m d → valid_date (y + 400 * k) m d.
Proof.
  intros [Hm Hd]. split; [done|]. rewrite days_in_month_length in * by done.
  rewrite (Z.add_comm y), is_leap_era. done.
Qed.

Lemma reachable_date (k : nat) :
  ∃ y m d, valid_date y m d ∧ days_from_civil y m d = Z.of_nat k - 719468.
Proof.
  induction k as [|k (y & m & d & Hv & IH)].
  - exists 0, 3, 1. split; [split; [lia | change (days_in_month 0 3) with 31; lia] | reflexivity].
  - pose proof (next_day_step y m d Hv) as Hn.
    destruct (next_day y m d) as [[y' m'] d'], Hn as [Hv' Hn]. exists y', m', d'. split; [done | lia].
Qed.

Lemma date_of_days n : ∃ y m d, valid_date y m d ∧ days_from_civil y m d = n.
Proof.
  set (e := (n + 719468) / 146097). set (k := (n + 719468) mod 146097).
  pose proof (Z.div_mod (n + 719468) 146097 ltac:(done)) as Hn.
  pose proof (Z.mod_pos_bound (n + 719468) 146097 eq_refl) as Hk. fold e k in Hn, Hk.
  destruct (reachable_date (Z.to_nat k)) as (y & m & d & Hv & Hd).
  exists (y + 400 * e), m, d. split; [by apply valid_date_era|].
  rewrite days_from_civil_era by apply Hv. lia.
Qed.

Lemma civil_from_days_spec n y m d :
  civil_from_days n = (y, m, d) → valid_date y m d ∧ days_from_civil y m d = n.
Proof.
  destruct (date_of_days n) as (y' & m' & d' & Hv & <-). rewrite civil_roundtrip by done.
  by intros [= <- <- <-].
Qed.

(** The number of a date.  Conversely every day number is the number of the
    date [civil_from_days] answers, and that date is one of the calendar, so the
    two conversions are inverse bijections. *)
Lemma days_from_civil_from_days n :
  let '(y, m, d) := civil_from_days n in valid_date y m d ∧ days_from_civil y m d = n.
Proof.
  destruct (date_of_days n) as (y & m & d & Hv & <-). by rewrite civil_roundtrip.
Qed.

(** ** Order *)

Definition date_lt (a b : Z * Z * Z) : Prop :=
  let '(y, m, d) := a in let '(y', m', d') := b in
  y < y' \/ y = y' /\ (m < m' \/ m = m' /\ d < d').

(** The first day of a month, counted from the first day of an earlier one. *)
Lemma month_start_mono y m (k : nat) :
  1 <= m <= 12 →
  days_from_civil y m 1 + days_in_month y m
  <= days_from_civil (y + (m - 1 + 1 + Z.of_nat k) / 12) ((m - 1 + 1 + Z.of_nat k) mod 12 + 1) 1.
Proof.
  intros Hm. induction k as [|k IH].
  - rewrite Z.add_0_r. replace (m - 1 + 1) with m by lia. destruct (decide (m = 12)) as [->|].
    + change (12 / 12) with 1. change (12 mod 12 + 1) with 1. rewrite days_from_civil_next_year.
      change (days_in_month y 12) with 31. lia.
    + rewrite Z.div_small, Z.mod_small, Z.add_0_r, days_from_civil_next_month by lia. lia.
  - etransitivity; [exact IH|]. clear IH. set (t := m - 1 + 1 + Z.of_nat k).
    replace (m - 1 + 1 + Z.of_nat (S k)) with (t + 1) by lia.
    pose proof (Z.div_mod t 12 ltac:(done)) as Ht. pose proof (Z.mod_pos_bound t 12 eq_refl) as Hr.
    set (q := t / 12) in *. set (r := t mod 12) in *. clearbody q r.
    destruct (decide (r = 11)) as [->|].
    + rewrite <- (Z.div_unique (t + 1) 12 (q + 1) 0), <- (Z.mod_unique (t + 1) 12 (q + 1) 0) by lia.
      replace (y + (q + 1)) with (y + q + 1) by lia. change (11 + 1) with 12. change (0 + 1) with 1.
      rewrite days_from_civil_next_year. lia.
    + rewrite <- (Z.div_unique (t + 1) 12 q (r + 1)), <- (Z.mod_unique (t + 1) 12 q (r + 1)) by lia.
      rewrite (days_from_civil_next_month _ (r + 1)) by lia.
      pose proof (month_length_range (is_leap (y + q)) (r + 1)) as H.
      rewrite <- days_in_month_length in H; lia.
Qed.

(** Later dates have greater numbers. *)
Lemma days_from_civil_mono a b :
  (let '(y, m, d) := a in valid_date y m d) → (let '(y, m, d) := b in valid_date y m d) →
  date_lt a b →
  (let '(y, m, d) := a in days_from_civil y m d) < (let '(y, m, d) := b in days_from_civil y m d).
Proof.
  destruct a as [[y m] d], b as [[y' m'] d']. intros [Hm Hd] [Hm' Hd']. cbn.
  replace d with (1 + (d - 1)) by lia. replace d' with (1 + (d' - 1)) by lia.
  rewrite !(days_from_civil_day _ _ 1). intros Hlt.
  destruct (decide (y = y' ∧ m = m')) as [[-> ->]|Hne]; [lia|].
  set (k := (y' * 12 + m') - (y * 12 + m) - 1).
  assert (0 <= k) by (unfold k; lia).
  pose proof (month_start_mono y m (Z.to_nat k) Hm) as Hms.
  replace (m - 1 + 1 + Z.of_nat (Z.to_nat k)) with ((y' - y) * 12 + (m' - 1)) in Hms by lia.
  rewrite Z.div_add_l, (Z.div_small (m' - 1)) in Hms by lia.
  rewrite (Z.add_comm ((y' - y) * 12)), Z.mod_add, Z.mod_small in Hms by lia.
  replace (y + (y' - y + 0)) with y' in Hms by lia. replace (m' - 1 + 1) with m' in Hms by lia. lia.
Qed.

Lemma days_from_civil_lt_iff y m d y' m' d' :
  valid_date y m d → valid_date y' m' d' →
  days_from_civil y m d < days_from_civil y' m' d' ↔ date_lt (y, m, d) (y', m', d').
Proof.
  intros Hv Hv'. split; [|apply (days_from_civil_mono (y, m, d) (y', m', d') Hv Hv')].
  intros Hlt. destruct (decide (y = y' ∧ m = m' ∧ d = d')) as [(-> & -> & ->)|Hne]; [lia|].
  assert (date_lt (y, m, d) (y', m', d') ∨ date_lt (y', m', d') (y, m, d)) as [?|Hgt]
    by (unfold date_lt; lia); [done|].
  pose proof (days_from_civil_mono (y', m', d') (y, m, d) Hv' Hv Hgt) as H. cbn in H. lia.
Qed.

(** ** Witnesses *)

Lemma next_day_counts_one_witness :
  next_day 2024 2 29 = (2024, 3, 1) ∧ days_from_civil 2024 3 1 = days_from_civil 2024 2 29 + 1.
Proof.
  split; [reflexivity|].
  destruct (next_day_counts_one 2024 2 29) as [[_ H] _]; [|exact H].
  split; [lia|]. change (days_in_month 2024 2) with 29. lia.
Defined.

Lemma civil_from_days_from_civil_witness :
  days_from_civil 2000 2 29 = 11016 ∧ civil_from_days (days_from_civil 2000 2 29) = (2000, 2, 29).
Proof.
  split; [reflexivity|]. apply civil_from_days_from_civil.
  split; [lia|]. change (days_in_month 2000 2) with 29. lia.
Defined.
