(* ===== verification/Rounding.v ===== *)
(** * Rounding a fraction of a second to microseconds

    [rounded_microseconds] of [src/src/impls/temporal_literals.rs] computes in
    binary64.  A non-negative double below 2^53 is the integer [mant] over
    [2 ^ expo]; every operation is the exact one rounded to nearest, ties to
    even, as IEEE 754 and Rust's [f64] have it. *)

From S2P Require Import Prelude Text.

(** [n / d] rounded to an integer, ties to even. *)
Definition rne (n d : Z) : Z :=
  let q := n / d in
  let r := n mod d in
  if 2 * r <? d then q
  else if d <? 2 * r then q + 1
  else q + Z.land q 1.

Record f64 := { mant : Z; expo : Z }.

(** The double nearest to [n / d].  The exponent leaves 53 significant bits,
    fewer when that would pass the smallest subnormal, [2 ^ -1074]. *)
Definition f64_of_ratio (n d : Z) : f64 :=
  let k := Z.log2 (n * 2 ^ 1074 / d) - 1074 in
  let e := Z.min 1074 (Z.max 0 (52 - k)) in
  {| mant := rne (n * 2 ^ e) d; expo := e |}.

(** ["0.{fraction}".parse::<f64>()]: the double nearest to the decimal. *)
Definition parse_fraction (fraction : str) : f64 :=
  f64_of_ratio (digits_value fraction) (10 ^ Z.of_nat (length fraction)).

Definition f64_mul_int (x : f64) (n : Z) : f64 := f64_of_ratio (mant x * n) (2 ^ expo x).
Definition f64_trunc (x : f64) : Z := mant x / 2 ^ expo x.
Definition f64_sub_int (x : f64) (n : Z) : f64 :=
  f64_of_ratio (mant x - n * 2 ^ expo x) (2 ^ expo x).
(** Comparison with 0.5. *)
Definition f64_compare_half (x : f64) : comparison := (2 * mant x) ?= (2 ^ expo x).

(** [rounded_microseconds]. *)
Definition rounded_microseconds (fraction : str) : Z :=
  let scaled := f64_mul_int (parse_fraction fraction) 1000000 in
  let whole := f64_trunc scaled in
  match f64_compare_half (f64_sub_int scaled whole) with
  | Gt => whole + 1
  | Eq => whole + Z.land whole 1
  | Lt => whole
  end.

(** ** Error of one rounding *)

Lemma land_1_range q : 0 <= Z.land q 1 <= 1.
Proof. assert (Z.land q 1 = q mod 2) as -> by (apply (Z.land_ones q 1); lia). divmod. Qed.

Lemma rne_error n d : 0 < d → 2 * Z.abs (rne n d * d - n) <= d.
Proof.
  intros Hd. unfold rne. pose proof (Z.div_mod n d ltac:(lia)) as Hn.
  pose proof (Z.mod_pos_bound n d Hd) as Hr. pose proof (land_1_range (n / d)).
  set (q := n / d) in *. set (r := n mod d) in *. clearbody q r.
  destruct (2 * r <? d) eqn:E1; [nia|]. destruct (d <? 2 * r) eqn:E2; [nia|].
  assert (2 * r = d) by lia. assert (Z.land q 1 = 0 ∨ Z.land q 1 = 1) as [-> | ->] by lia; nia.
Qed.

Lemma rne_exact q d : 0 < d → rne (q * d) d = q.
Proof.
  intros Hd. unfold rne. rewrite Z.div_mul, Z.mod_mul by lia.
  by replace (2 * 0 <? d) with true by lia.
Qed.

(** Rounding to the integers stays below an integer bound. *)
Lemma rne_le n d b : 0 < d → n <= b * d → rne n d <= b.
Proof. intros Hd Hn. pose proof (rne_error n d Hd). nia. Qed.

Lemma rne_nonneg n d : 0 < d → 0 <= n → 0 <= rne n d.
Proof. intros Hd Hn. pose proof (rne_error n d Hd). nia. Qed.

(** One rounding of a ratio below [2 ^ (j + 1)]: at most half a unit in a place
    no greater than [2 ^ (j - 52)]. *)
Lemma f64_of_ratio_spec n d j :
  0 <= n → 0 < d → -1 <= j < 52 → n < d * 2 ^ (j + 1) →
  let x := f64_of_ratio n d in
  52 - j <= expo x ∧ 2 * Z.abs (mant x * d - n * 2 ^ expo x) <= d ∧ 0 <= mant x
  ∧ (∀ b, n <= b * d → mant x <= b * 2 ^ expo x).
Proof.
  intros Hn Hd Hj Hb x. unfold x, f64_of_ratio. cbn [expo mant].
  set (k := Z.log2 (n * 2 ^ 1074 / d) - 1074).
  assert (Hk : k <= j).
  { unfold k. enough (Z.log2 (n * 2 ^ 1074 / d) < j + 1 + 1074) by lia.
    destruct (decide (n * 2 ^ 1074 / d <= 0)) as [Hz|Hz].
    - rewrite Z.log2_nonpos by done. lia.
    - apply Z.log2_lt_pow2; [lia|]. apply Z.div_lt_upper_bound; [done|].
      rewrite Z.pow_add_r by lia. pose proof (Z.pow_pos_nonneg 2 1074 ltac:(lia) ltac:(lia)).
      set (P := 2 ^ 1074) in *. clearbody P. nia. }
  set (e := Z.min 1074 (Z.max 0 (52 - k))). assert (52 - j <= e) by lia.
  split_and!; [done | by apply rne_error | apply rne_nonneg; [done | nia] |].
  intros b Hnb. apply rne_le; [done|].
  pose proof (Z.pow_pos_nonneg 2 e ltac:(lia) ltac:(lia)). nia.
Qed.

Lemma pow2_pos e : 0 <= e → 0 < 2 ^ e.
Proof. intros He. by apply Z.pow_pos_nonneg. Qed.

(** The significand has at most 53 bits. *)
Lemma f64_of_ratio_mant n d j :
  0 <= n → 0 < d → -1 <= j < 52 → n < d * 2 ^ (j + 1) → mant (f64_of_ratio n d) <= 2 ^ 53.
Proof.
  intros Hn Hd Hj Hb. unfold f64_of_ratio. cbn [mant]. set (q := n * 2 ^ 1074 / d).
  pose proof (pow2_pos 1074 ltac:(lia)) as HP.
  assert (Hq : 0 <= q) by (apply Z.div_pos; nia).
  assert (Hqb : q < 2 ^ (j + 1 + 1074)).
  { apply Z.div_lt_upper_bound; [done|]. rewrite Z.pow_add_r by lia.
    set (P := 2 ^ 1074) in *. clearbody P. nia. }
  pose proof (Z.mul_succ_div_gt (n * 2 ^ 1074) d Hd) as Hgt. fold q in Hgt.
  apply rne_le; [done|]. destruct (decide (q = 0)) as [Hz|Hz].
  - rewrite Hz. change (Z.log2 0 - 1074) with (-1074). cbn -[Z.pow].
    change (Z.min 1074 (Z.max 0 (52 - -1074))) with 1074. rewrite Hz in Hgt.
    pose proof (pow2_pos 53 ltac:(lia)). nia.
  - pose proof (Z.log2_spec q ltac:(lia)) as [_ Hl]. pose proof (Z.log2_nonneg q).
    assert (Z.log2 q < j + 1 + 1074) by (apply Z.log2_lt_pow2; lia).
    set (e := Z.min 1074 _). set (l := Z.log2 q) in *.
    assert (Hle : n * 2 ^ 1074 < d * 2 ^ (Z.succ l)) by nia.
    assert (He : 0 <= e <= 1074 ∧ e + Z.succ l <= 53 + 1074) by (unfold e; lia).
    assert (n * 2 ^ e * 2 ^ 1074 < 2 ^ 53 * d * 2 ^ 1074); [|nia].
    assert (2 ^ e * 2 ^ (Z.succ l) <= 2 ^ 53 * 2 ^ 1074).
    { rewrite <- !Z.pow_add_r by lia. apply Z.pow_le_mono_r; lia. }
    pose proof (pow2_pos e ltac:(lia)). clearbody e. clear He.
    set (P := 2 ^ 1074) in *. set (Q := 2 ^ 53) in *. set (R := 2 ^ Z.succ l) in *.
    set (E := 2 ^ e) in *. clearbody P Q R E. nia.
Qed.

(** Dividing by the power of two a double already has is exact, which makes
    the subtraction of the whole part exact. *)
Lemma f64_of_ratio_exact r e :
  0 <= r <= 2 ^ 53 → 0 <= e <= 1074 →
  mant (f64_of_ratio r (2 ^ e)) * 2 ^ e = r * 2 ^ expo (f64_of_ratio r (2 ^ e)).
Proof.
  intros Hr He. unfold f64_of_ratio. cbn [mant expo].
  pose proof (pow2_pos e ltac:(lia)) as HE.
  destruct (decide (r = 0)) as [->|Hnz].
  { rewrite !Z.mul_0_l. pose proof (rne_exact 0 (2 ^ e) HE) as H0. rewrite Z.mul_0_l in H0. by rewrite H0. }
  assert (Hq : r * 2 ^ 1074 / 2 ^ e = r * 2 ^ (1074 - e)).
  { replace 1074 with ((1074 - e) + e) at 1 by lia. rewrite Z.pow_add_r by lia.
    rewrite Z.mul_assoc. apply Z.div_mul. lia. }
  rewrite Hq, Z.log2_mul_pow2 by lia. set (l := Z.log2 r).
  assert (Hl : 0 <= l <= 53).
  { split; [apply Z.log2_nonneg|]. change 53 with (Z.log2 (2 ^ 53)). apply Z.log2_le_mono; lia. }
  set (e' := Z.min 1074 _). assert (He' : 0 <= e') by lia.
  destruct (decide (e <= e')) as [Hge|Hlt].
  - replace e' with ((e' - e) + e) by lia. rewrite Z.pow_add_r by lia.
    rewrite Z.mul_assoc, rne_exact by exact HE. done.
  - assert (Hl53 : l = 53) by lia. assert (e' = e - 1) by lia.
    assert (Hr53 : r = 2 ^ 53).
    { pose proof (Z.log2_spec r ltac:(lia)) as [Hlo _]. fold l in Hlo. rewrite Hl53 in Hlo. lia. }
    rewrite Hr53. replace e' with (e - 1) by lia.
    replace (2 ^ 53 * 2 ^ (e - 1)) with (2 ^ 52 * 2 ^ e).
    + by rewrite rne_exact by exact HE.
    + rewrite <- !Z.pow_add_r by lia. f_equal. lia.
Qed.

(** The final rounding takes the nearest integer of the scaled double. *)
Lemma round_half_spec m e :
  0 <= m <= 2 ^ 53 → 0 <= e <= 1074 →
  let x := {| mant := m; expo := e |} in
  let whole := f64_trunc x in
  let rounded := match f64_compare_half (f64_sub_int x whole) with
                 | Gt => whole + 1 | Eq => whole + Z.land whole 1 | Lt => whole end in
  2 * Z.abs (rounded * 2 ^ e - m) <= 2 ^ e ∧ 0 <= rounded
  ∧ (∀ b, m <= b * 2 ^ e → rounded <= b).
Proof.
  intros Hm He x whole rounded. pose proof (pow2_pos e ltac:(lia)) as HE.
  unfold rounded, f64_sub_int, f64_compare_half. change (mant x) with m. change (expo x) with e.
  pose proof (Z.div_mod m (2 ^ e) ltac:(lia)) as Hdm. pose proof (Z.mod_pos_bound m (2 ^ e) HE) as Hr.
  pose proof (Z.div_pos m (2 ^ e) ltac:(lia) HE) as Hw.
  change (m / 2 ^ e) with whole in Hdm, Hw. clearbody whole.
  replace (m - whole * 2 ^ e) with (m mod 2 ^ e) by lia.
  pose proof (f64_of_ratio_exact (m mod 2 ^ e) e) as Hex.
  assert (Hrm : m mod 2 ^ e <= 2 ^ 53) by nia. specialize (Hex ltac:(lia) He).
  assert (Hes : 0 < 2 ^ expo (f64_of_ratio (m mod 2 ^ e) (2 ^ e)))
    by (apply pow2_pos; unfold f64_of_ratio; cbn; lia).
  set (s := f64_of_ratio (m mod 2 ^ e) (2 ^ e)) in *. set (r := m mod 2 ^ e) in *.
  pose proof (land_1_range whole).
  clear rounded x. set (E := 2 ^ e) in *. set (S := 2 ^ expo s) in *. clearbody E S.
  set (ms := mant s) in *. clearbody ms. clear s. clearbody r. clear He.
  destruct (Z.compare_spec (2 * ms) S).
  - assert (2 * r = E) by nia. assert (Z.land whole 1 = 0 ∨ Z.land whole 1 = 1) as [-> | ->] by lia;
      (split_and!; [lia | lia |]); intros b Hb; nia.
  - assert (2 * r < E) by nia. split_and!; [lia | lia |]. intros b Hb; nia.
  - assert (E < 2 * r) by nia. split_and!; [lia | lia |]. intros b Hb; nia.
Qed.

(** ** The whole computation *)

Lemma pow_fraction_pos (n : nat) : 0 < 10 ^ Z.of_nat n.
Proof. apply Z.pow_pos_nonneg; lia. Qed.

Lemma rounded_microseconds_spec fraction :
  all_digits fraction = true →
  let v := digits_value fraction in
  let s := 10 ^ Z.of_nat (length fraction) in
  let R := rounded_microseconds fraction in
  0 <= R <= 1000000 ∧ 2 ^ 34 * Z.abs (R * s - v * 1000000) <= (2 ^ 33 + 2) * s.
Proof.
  intros Hd v s R. pose proof (digits_value_bound _ Hd) as Hv. fold v s in Hv.
  assert (Hs : 0 < s) by apply pow_fraction_pos.
  destruct (f64_of_ratio_spec v s (-1)) as (He1 & Hx1 & Hp1 & Hb1); [lia..|change (2 ^ (-1 + 1)) with 1; lia|].
  fold (parse_fraction fraction) in *. change (f64_of_ratio v s) with (parse_fraction fraction) in *.
  set (x := parse_fraction fraction) in *.
  assert (Hx1le : mant x <= 2 ^ expo x) by (specialize (Hb1 1); lia).
  pose proof (pow2_pos (expo x) ltac:(lia)) as HE1.
  destruct (f64_of_ratio_spec (mant x * 1000000) (2 ^ expo x) 19) as (He2 & Hx2 & Hp2 & Hb2);
    [lia..|change (2 ^ (19 + 1)) with 1048576; lia|].
  pose proof (f64_of_ratio_mant (mant x * 1000000) (2 ^ expo x) 19
    ltac:(lia) ltac:(lia) ltac:(lia) ltac:(change (2 ^ (19 + 1)) with 1048576; lia)) as Hm2.
  assert (He2' : expo (f64_of_ratio (mant x * 1000000) (2 ^ expo x)) <= 1074)
    by (unfold f64_of_ratio; cbn; lia).
  fold (f64_mul_int x 1000000) in *. unfold R, rounded_microseconds. fold x.
  destruct (f64_mul_int x 1000000) as [m e] eqn:Hy. cbn [mant expo] in *.
  destruct (round_half_spec m e ltac:(lia) ltac:(lia)) as (Hr & Hr0 & Hrb).
  set (w := match f64_compare_half _ with Gt => _ | Eq => _ | Lt => _ end) in *.
  split; [split; [done | apply Hrb, Hb2; lia]|].
  pose proof (pow2_pos e ltac:(lia)) as HE2.
  assert (H53 : 2 ^ 53 <= 2 ^ expo x) by (apply Z.pow_le_mono_r; lia).
  assert (H33 : 2 ^ 33 <= 2 ^ e) by (apply Z.pow_le_mono_r; lia).
  change (2 ^ 53) with 9007199254740992 in *. change (2 ^ 33) with 8589934592 in *.
  change (2 ^ 34) with 17179869184.
  set (E1 := 2 ^ expo x) in *. set (E2 := 2 ^ e) in *. set (mx := mant x) in *.
  clearbody E1 E2 mx w v s. clear - Hs HE1 HE2 Hr Hx1 Hx2 H53 H33.
  assert (H1 : 2 * E2 * Z.abs (w * s - v * 1000000) * E1
               <= s * E1 * E2 + s * E1 + 1000000 * s * E2).
  { assert (Ha : 2 * E2 * E1 * (w * s - v * 1000000)
      = s * E1 * (2 * (w * E2 - m)) + s * (2 * (m * E1 - mx * 1000000 * E2))
        + 1000000 * E2 * (2 * (mx * s - v * E1))) by ring.
    assert (Hb : Z.abs (2 * E2 * E1 * (w * s - v * 1000000))
      <= s * E1 * E2 + s * E1 + 1000000 * s * E2).
    { rewrite Ha.
      assert (Z.abs (s * E1 * (2 * (w * E2 - m))) <= s * E1 * E2) by
        (rewrite Z.abs_mul, (Z.abs_eq (s * E1)), (Z.abs_mul 2) by nia; apply Z.mul_le_mono_nonneg_l; nia).
      assert (Z.abs (s * (2 * (m * E1 - mx * 1000000 * E2))) <= s * E1) by
        (rewrite Z.abs_mul, (Z.abs_eq s), (Z.abs_mul 2) by nia; apply Z.mul_le_mono_nonneg_l; nia).
      assert (Z.abs (1000000 * E2 * (2 * (mx * s - v * E1))) <= 1000000 * E2 * s) by
        (rewrite Z.abs_mul, (Z.abs_eq (1000000 * E2)), (Z.abs_mul 2) by nia; apply Z.mul_le_mono_nonneg_l; nia).
      lia. }
    rewrite Z.abs_mul, (Z.abs_eq (2 * E2 * E1)) in Hb by nia. nia. }
  set (D := Z.abs _) in *. clearbody D. clear - H1 Hs HE1 HE2 H53 H33.
  (* multiply out: D*2*E1*E2*2^33 <= s*E1*E2*2^33 + s*E1*2^33 + 10^6*s*E2*2^33 *)
  assert (H2 : 8589934592 * (s * E1) <= s * E1 * E2) by nia.
  assert (H3 : 9007199254740992 * (s * E2) <= s * E1 * E2) by nia.
  assert (0 < E1 * E2) by nia.
  apply Z.mul_le_mono_pos_r with (E1 * E2); [done|]. lia.
Qed.

(** An error of about half a microsecond is none where the value is whole. *)
Lemma whole_microseconds R v s k :
  0 < s → 1000000 = k * s → 2 ^ 34 * Z.abs (R * s - v * 1000000) <= (2 ^ 33 + 2) * s →
  R * s = v * 1000000.
Proof.
  intros Hs Hk He. rewrite Hk in *.
  replace (R * s - v * (k * s)) with ((R - v * k) * s) in He by ring.
  rewrite Z.abs_mul, (Z.abs_eq s) in He by lia.
  change (2 ^ 34) with 17179869184 in He. change (2 ^ 33) with 8589934592 in He.
  assert (17179869184 * Z.abs (R - v * k) <= 8589934594) by nia.
  assert (R = v * k) as -> by lia. ring.
Qed.

Lemma fraction_divides (n : nat) : (n <= 6)%nat → ∃ k, 1000000 = k * 10 ^ Z.of_nat n.
Proof.
  intros Hn. exists (10 ^ (6 - Z.of_nat n)). rewrite <- Z.pow_add_r by lia.
  by replace (6 - Z.of_nat n + Z.of_nat n) with 6 by lia.
Qed.

Lemma rounded_microseconds_exact fraction :
  all_digits fraction = true → (length fraction <= 6)%nat →
  rounded_microseconds fraction * 10 ^ Z.of_nat (length fraction) = digits_value fraction * 1000000.
Proof.
  intros Hd Hl. destruct (rounded_microseconds_spec fraction Hd) as [_ He].
  destruct (fraction_divides _ Hl) as [k Hk].
  exact (whole_microseconds _ _ _ k (pow_fraction_pos _) Hk He).
Qed.

(** C39 (rounding to microseconds). For any fraction of a second the result
    lies between 0 and 10^6, and it is the nearest count of microseconds up to
    the rounding of the two floating-point operations: off by at most
    1/2 + 2^-33 of a microsecond.  A fraction of at most six digits, all PostgreSQL
    itself prints, is converted exactly. *)
Theorem rounded_microseconds_nearest fraction :
  all_digits fraction = true →
  let v := digits_value fraction in
  let s := 10 ^ Z.of_nat (length fraction) in
  let R := rounded_microseconds fraction in
  0 <= R <= 1000000
  ∧ 2 ^ 34 * Z.abs (R * s - v * 1000000) <= (2 ^ 33 + 2) * s
  ∧ ((length fraction <= 6)%nat → R * s = v * 1000000).
Proof.
  intros Hd v s R. destruct (rounded_microseconds_spec fraction Hd) as [Hr He].
  split_and!; [apply Hr | apply Hr | exact He | by apply rounded_microseconds_exact].
Qed.

Lemma rounded_microseconds_nearest_witness :
  rounded_microseconds (lit "1234567") = 123457 ∧ rounded_microseconds (lit "25") = 250000
  ∧ 0 <= rounded_microseconds (lit "999999999999") <= 1000000.
Proof.
  split; [vm_compute; reflexivity|]. split; [vm_compute; reflexivity|].
  apply (rounded_microseconds_nearest (lit "999999999999")). reflexivity.
Defined.
