(* ===== verification/TemporalLiterals.v ===== *)
(** * Date, time and timestamp literals

    [src/src/impls/temporal_literals.rs]: the validation and normalisation of
    the text written into a temporal column.  The calendar it rests on is in
    [Calendar], the rounding of a fraction of a second in [Rounding]. *)

From S2P Require Import Prelude Text Errors Ast Exprs Calendar Rounding.

Inductive TemporalLiteralKind :=
| Date
| Time (zoned : bool)
| Timestamp (zoned : bool).

#[global] Instance TemporalLiteralKind_eq_dec : EqDecision TemporalLiteralKind.
Proof. solve_decision. Defined.

Definition TIMESTAMPTZ : TemporalLiteralKind := Timestamp true.

Definition temporal_literal_kind {Payload} (data_type : DataType Payload)
    : option TemporalLiteralKind :=
  let zoned info := match info with Tz | WithTimeZone => true | _ => false end in
  match data_type with
  | DataDate => Some Date
  | DataTime _ info => Some (Time (zoned info))
  | DataTimestamp _ info => Some (Timestamp (zoned info))
  | _ => None
  end.

Section Literals.
Context `{Unicode}.
Implicit Types (kind : TemporalLiteralKind) (text part : str).

(** ** Refusals *)

Definition type_name kind : str :=
  match kind with
  | Date => lit "date"
  | Time false => lit "time"
  | Time true => lit "time with time zone"
  | Timestamp false => lit "timestamp"
  | Timestamp true => lit "timestamp with time zone"
  end.

Definition expected_shape kind : str :=
  match kind with
  | Date => lit "YYYY-MM-DD"
  | Time false => lit "HH:MM:SS"
  | Time true => lit "HH:MM:SS+HH:MM"
  | Timestamp false => lit "YYYY-MM-DD HH:MM:SS"
  | Timestamp true => lit "YYYY-MM-DD HH:MM:SS+HH:MM"
  end.

Definition unreadable kind text (reason : string) : Error :=
  forward_refusal
    (lit "invalid input syntax for type " ++ type_name kind ++ lit ": " ++ quoted text ++ lit ": "
     ++ lit reason
     ++ lit " The replica stores a temporal column as text, so a value it cannot read is a value it would hold verbatim. Write it as "
     ++ expected_shape kind ++ lit ".").

Definition out_of_range text : Error :=
  forward_refusal
    (lit "date/time field value out of range: " ++ quoted text
     ++ lit ". PostgreSQL refuses this value, so the replica must not hold it.").

Definition shape kind text : Error :=
  unreadable kind text "this is not the ISO 8601 form of the type.".

Definition KEYWORDS : list string :=
  ["now"; "today"; "tomorrow"; "yesterday"; "epoch"; "infinity"; "-infinity"; "+infinity";
   "allballs"]%string.

Definition is_date kind : bool := match kind with Date => true | _ => false end.

Definition iso_char (c : Z) : bool := is_ascii_digit c || char_in (lit "-+:. TZz") c.

Definition reject_non_iso_input kind text : result Error unit :=
  let lowered := to_ascii_lowercase text in
  if one_of lowered KEYWORDS then
    Err (unreadable kind text "PostgreSQL resolves this keyword when it reads it, so the replica would hold the word rather than the value it stood for.")
  else if contains_char 47 text then
    Err (unreadable kind text "a slash-separated date means different days under different DateStyle settings, which is server state the translation cannot read.")
  else if ends_with (lit " am") lowered || ends_with (lit " pm") lowered then
    Err (unreadable kind text "a 12-hour clock reading is not ISO 8601.")
  else if existsb is_alphabetic text && negb (is_date kind) && negb (forallb iso_char text) then
    Err (unreadable kind text "a month name depends on the server's locale.")
  else if is_date kind && existsb is_alphabetic text then
    Err (unreadable kind text "a month name depends on the server's locale.")
  else Ok tt.

(** ** Components *)

Definition parse_component kind part text : result Error Z :=
  if negb (is_nonempty part) || negb (forallb is_ascii_digit part) then Err (shape kind text)
  else ok_or (parse_u32 part) (out_of_range text).

Record UtcOffset := { negative : bool; hours : Z; minutes : Z }.

Definition UTC : UtcOffset := {| negative := false; hours := 0; minutes := 0 |}.

Definition offset_render (o : UtcOffset) : str :=
  [if negative o then 45 else 43] ++ dec_pad 2 (hours o) ++ lit ":" ++ dec_pad 2 (minutes o).

Definition offset_seconds (o : UtcOffset) : Z :=
  let magnitude := hours o * 3600 + minutes o * 60 in
  if negative o then - magnitude else magnitude.

(** [parse_offset]: [zone] starts with its sign. *)
Definition parse_offset kind (zone : str) text : result Error UtcOffset :=
  let sign := take 1 zone in
  let parts := split (Z.eqb 58) (drop 1 zone) in
  hours ← parse_component kind (default [] (parts !! 0%nat)) text;
  minutes ← match parts !! 1%nat with
            | Some minutes => parse_component kind minutes text
            | None => Ok 0
            end;
  match parts !! 2%nat with
  | Some _ => Err (unreadable kind text "the time zone offset has too many parts.")
  | None =>
      if (15 <? hours) || (59 <? minutes) then Err (out_of_range text)
      else Ok {| negative := str_eqb sign (lit "-"); hours := hours; minutes := minutes |}
  end.

Definition is_date_time_separator (c : Z) : bool := char_in (lit " Tt") c.
Definition is_sign (c : Z) : bool := char_in (lit "+-") c.

(** [text.strip_suffix(['Z', 'z'])]. *)
Definition strip_zulu text : option str :=
  match reverse text with
  | c :: body => if char_in (lit "Zz") c then Some (reverse body) else None
  | [] => None
  end.

Definition split_time_zone kind text (zoned : bool) : result Error (str * option UtcOffset) :=
  let time_start := match kind with
                    | Time _ => Some 0%nat
                    | _ => S <$> find is_date_time_separator text
                    end in
  let offset_at := start ← time_start;
                   (λ index, (index + start)%nat) <$> find is_sign (drop start text) in
  let '(body, zone) := match offset_at with
                       | Some index => (take index text, Some (drop index text))
                       | None => match strip_zulu text with
                                 | Some body => (body, Some (lit "Z"))
                                 | None => (text, None)
                                 end
                       end in
  match zone with
  | None => Ok (text, None)
  | Some zone =>
      if negb zoned then
        Err (unreadable kind text "this column has no time zone, so an offset in the value would be dropped.")
      else
        offset ← (if str_eqb zone (lit "Z") then Ok UTC else parse_offset kind zone text);
        Ok (trim_end body, Some offset)
  end.

Definition split_timestamp text : str * option str :=
  match find is_date_time_separator text with
  | Some index =>
      let time := trim (drop (index + 1) text) in
      (take index text, if negb (is_nonempty time) then None else Some time)
  | None => (text, None)
  end.

Definition parse_date kind (date text : str) : result Error (Z * Z * Z) :=
  let parts := split (Z.eqb 45) date in
  year ← parse_component kind (default [] (parts !! 0%nat)) text;
  month ← (part ← ok_or (parts !! 1%nat) (shape kind text); parse_component kind part text);
  day ← (part ← ok_or (parts !! 2%nat) (shape kind text); parse_component kind part text);
  match parts !! 3%nat with
  | Some _ => Err (shape kind text)
  | None =>
      if negb ((1 <=? year) && (year <=? 9999)) then Err (out_of_range text)
      else if negb ((1 <=? month) && (month <=? 12)) || (day <? 1)
              || (days_in_month year month <? day)
      then Err (out_of_range text)
      else Ok (year, month, day)
  end.

Record Clock := { hour : Z; minute : Z; second : Z; fraction : option str }.

Definition MIDNIGHT : Clock := {| hour := 0; minute := 0; second := 0; fraction := None |}.

Definition clock_render (c : Clock) : str :=
  match fraction c with
  | Some fraction =>
      dec_pad 2 (hour c) ++ lit ":" ++ dec_pad 2 (minute c) ++ lit ":" ++ dec_pad 2 (second c)
      ++ lit "." ++ fraction
  | None => dec_pad 2 (hour c) ++ lit ":" ++ dec_pad 2 (minute c) ++ lit ":" ++ dec_pad 2 (second c)
  end.

(** The seconds part of a time, with its fraction. *)
Definition parse_second kind (second text : str) : result Error (Z * option str) :=
  match split_once 46 second with
  | Some (whole, fraction) =>
      if negb (is_nonempty fraction) || negb (forallb is_ascii_digit fraction)
      then Err (shape kind text)
      else whole ← parse_component kind whole text; Ok (whole, Some fraction)
  | None => second ← parse_component kind second text; Ok (second, None)
  end.

Definition parse_time kind (time text : str) : result Error Clock :=
  let parts := split (Z.eqb 58) time in
  hour ← parse_component kind (default [] (parts !! 0%nat)) text;
  minute ← (part ← ok_or (parts !! 1%nat) (shape kind text); parse_component kind part text);
  '(second, fraction) ← match parts !! 2%nat with
                        | Some second => parse_second kind second text
                        | None => Ok (0, None)
                        end;
  match parts !! 3%nat with
  | Some _ => Err (shape kind text)
  | None =>
      if (59 <? minute) || (59 <? second) then
        if second =? 60 then
          Err (forward_refusal
            (quoted text
             ++ lit " has second=60, which PostgreSQL normalises away and SQLite cannot represent. Write the value PostgreSQL would store instead."))
        else Err (out_of_range text)
      else if (24 <? hour)
              || ((hour =? 24) && ((0 <? minute) || (0 <? second) || is_some fraction))
      then Err (out_of_range text)
      else Ok {| hour := hour; minute := minute; second := second; fraction := fraction |}
  end.

(** ** Normalisation *)

Definition MICROS_PER_SECOND : Z := 1000000.
Definition MICROS_PER_DAY : Z := 86400 * MICROS_PER_SECOND.

(** The instant in microseconds since 1970-01-01T00:00Z. *)
Definition instant_micros (date : Z * Z * Z) (clock : Clock) (offset_seconds : Z) : Z :=
  let '(year, month, day) := date in
  let seconds := hour clock * 3600 + minute clock * 60 + second clock - offset_seconds in
  days_from_civil year month day * MICROS_PER_DAY + seconds * MICROS_PER_SECOND
  + match fraction clock with None => 0 | Some fraction => rounded_microseconds fraction end.

Definition date_text (year month day : Z) : str :=
  dec_pad 4 year ++ lit "-" ++ dec_pad 2 month ++ lit "-" ++ dec_pad 2 day.

Definition canonical_instant (date : Z * Z * Z) (clock : Clock) (offset_seconds : Z) text
    : result Error str :=
  let micros := instant_micros date clock offset_seconds in
  let '(year, month, day) := civil_from_days (micros / MICROS_PER_DAY) in
  if negb ((1 <=? year) && (year <=? 9999)) then
    Err (forward_refusal
      (quoted text
       ++ lit " falls outside the years 1 to 9999 once it is moved to UTC, and the replica holds a timestamp with time zone as UTC text with a four-digit year."))
  else
    let micros_of_day := micros mod MICROS_PER_DAY in
    let second_of_day := micros_of_day ÷ MICROS_PER_SECOND in
    Ok (date_text year month day ++ lit " "
        ++ dec_pad 2 (second_of_day ÷ 3600) ++ lit ":"
        ++ dec_pad 2 ((second_of_day ÷ 60) %% 60) ++ lit ":"
        ++ dec_pad 2 (second_of_day %% 60) ++ lit "."
        ++ dec_pad 6 (micros_of_day %% MICROS_PER_SECOND) ++ lit "+00:00").

Definition normalize_temporal_literal kind text : result Error str :=
  let trimmed := trim text in
  _ ← reject_non_iso_input kind trimmed;
  match kind with
  | Date =>
      '(year, month, day) ← parse_date kind trimmed trimmed;
      Ok (date_text year month day)
  | Time zoned =>
      '(body, zone) ← split_time_zone kind trimmed zoned;
      let zone := match zone with None => [] | Some zone => offset_render zone end in
      clock ← parse_time kind body trimmed;
      Ok (clock_render clock ++ zone)
  | Timestamp zoned =>
      '(body, zone) ← split_time_zone kind trimmed zoned;
      let '(date, time) := split_timestamp body in
      '(year, month, day) ← parse_date kind date trimmed;
      clock ← match time with
              | Some time => parse_time kind time trimmed
              | None => Ok MIDNIGHT
              end;
      if zoned then
        let offset := match zone with None => 0 | Some zone => offset_seconds zone end in
        canonical_instant (year, month, day) clock offset trimmed
      else if hour clock =? 24 then
        let '(year, month, day) := next_day year month day in
        Ok (date_text year month day ++ lit " " ++ clock_render MIDNIGHT)
      else Ok (date_text year month day ++ lit " " ++ clock_render clock)
  end.
End Literals.
(** ** What is printed reads back *)

Section Roundtrip.
Context `{Unicode}.
Implicit Types (kind : TemporalLiteralKind) (text part : str).

(** The characters the printed forms are made of. *)
Definition plain_char (c : Z) : bool := is_ascii_digit c || char_in (lit "-+:. ") c.

Lemma digits_plain s : all_digits s = true → forallb plain_char s = true.
Proof.
  intros Hs. apply forallb_Forall. apply forallb_Forall in Hs. eapply Forall_impl; [exact Hs|].
  intros c Hc. unfold plain_char. by rewrite Hc.
Qed.

Lemma plain_char_range c : plain_char c = true → c = 32 ∨ c = 43 ∨ 45 <= c <= 46 ∨ 48 <= c <= 58.
Proof.
  unfold plain_char, is_ascii_digit, char_in. change (lit "-+:. ") with [45; 43; 58; 46; 32]. cbn. lia.
Qed.

Lemma plain_pad w n : 0 <= n → forallb plain_char (dec_pad w n) = true.
Proof. intros Hn. by apply digits_plain, dec_pad_digits. Qed.

(** Text put together from digits and separators is plain. *)
Ltac plain :=
  rewrite ?forallb_app, ?andb_true_iff; split_and!;
  first [apply plain_pad; lia | by apply digits_plain | reflexivity].

(** Digits contain no separator. *)
Lemma digits_free (p : Z → bool) s :
  (∀ c, is_ascii_digit c = true → p c = false) → all_digits s = true → free p s.
Proof. apply forallb_free. Qed.

Lemma parse_component_digits kind part text :
  part ≠ [] → all_digits part = true → digits_value part <= u32_max →
  parse_component kind part text = Ok (digits_value part).
Proof.
  intros Hne Hd Hm. unfold parse_component. fold (all_digits part). rewrite Hd.
  destruct part as [|c part]; [done|]. cbn [is_nonempty negb orb].
  unfold parse_u32. by rewrite parse_unsigned_digits.
Qed.

Lemma parse_component_pad kind w n text :
  0 <= n <= u32_max → parse_component kind (dec_pad w n) text = Ok n.
Proof.
  intros Hn. rewrite parse_component_digits; rewrite ?dec_pad_value by lia; try done; try lia.
  - apply dec_pad_nonempty.
  - apply dec_pad_digits; lia.
Qed.

Lemma parse_component_range kind part text n :
  parse_component kind part text = Ok n → 0 <= n <= u32_max.
Proof.
  unfold parse_component. destruct (_ || _); [done|]. intros Hn. inv_ok.
  by apply parse_unsigned_bound in Hn.
Qed.

Definition date_ok (y m d : Z) : Prop := 1 <= y <= 9999 ∧ valid_date y m d.

Lemma date_ok_bounds y m d : date_ok y m d → 1 <= y <= 9999 ∧ 1 <= m <= 12 ∧ 1 <= d <= 31.
Proof.
  intros [Hy [Hm Hd]]. pose proof (month_length_range (is_leap y) m Hm) as Hl.
  rewrite <- days_in_month_length in Hl by done. lia.
Qed.

Lemma split_pad p w n c s :
  (∀ c, is_ascii_digit c = true → p c = false) → p c = true → 0 <= n →
  split p (dec_pad w n ++ c :: s) = dec_pad w n :: split p s.
Proof. intros Hp Hc Hn. apply split_app; [|done]. apply digits_free; [done|]. by apply dec_pad_digits. Qed.

Lemma split_pad_end p w n :
  (∀ c, is_ascii_digit c = true → p c = false) → 0 <= n →
  split p (dec_pad w n) = [dec_pad w n].
Proof. intros Hp Hn. apply split_free. apply digits_free; [done|]. by apply dec_pad_digits. Qed.

Lemma digit_not c0 : is_ascii_digit c0 = false → ∀ c, is_ascii_digit c = true → (c0 =? c) = false.
Proof. intros H0 c Hc. destruct (Z.eqb_spec c0 c) as [->|]; congruence. Qed.

(** The side conditions of splitting printed text at a separator. *)
Ltac sep := first [lia | by apply digit_not | reflexivity].

Lemma parse_date_text kind y m d text :
  date_ok y m d → parse_date kind (date_text y m d) text = Ok (y, m, d).
Proof.
  intros Hok. pose proof (date_ok_bounds _ _ _ Hok) as (Hy & Hm & Hd).
  unfold parse_date, date_text. change (lit "-") with [45]. cbn [app].
  rewrite !split_pad, split_pad_end by sep.
  cbn -[parse_component dec_pad days_in_month].
  rewrite !parse_component_pad by (unfold u32_max; lia). cbn -[days_in_month].
  destruct Hok as [_ [_ Hdm]].
  replace (1 <=? y) with true by lia. replace (y <=? 9999) with true by lia.
  replace (1 <=? m) with true by lia. replace (m <=? 12) with true by lia.
  replace (d <? 1) with false by lia. by replace (days_in_month y m <? d) with false by lia.
Qed.

Lemma parse_date_ok kind date text y m d :
  parse_date kind date text = Ok (y, m, d) → date_ok y m d.
Proof.
  unfold parse_date. intros Hp. inv_ok. destruct (_ !! 3%nat); [done|].
  destruct (negb _) eqn:E1; [done|]. destruct (_ || _) eqn:E2; [done|].
  injection Hp as -> -> ->. unfold date_ok, valid_date. bools. lia.
Qed.

(** A time of day [parse_time] accepts. *)
Definition clock_ok (c : Clock) : Prop :=
  0 <= hour c <= 24 ∧ 0 <= minute c <= 59 ∧ 0 <= second c <= 59
  ∧ (hour c = 24 → minute c = 0 ∧ second c = 0 ∧ fraction c = None)
  ∧ match fraction c with None => True | Some f => f ≠ [] ∧ all_digits f = true end.

Lemma parse_time_text kind c text :
  clock_ok c → parse_time kind (clock_render c) text = Ok c.
Proof.
  destruct c as [h m s f]. intros (Hh & Hm & Hs & H24 & Hf). cbn in *.
  unfold parse_time, clock_render. cbn [hour minute second fraction].
  change (lit ":") with [58]. change (lit ".") with [46].
  assert (Hrest : ∀ rest, split (Z.eqb 58) rest = [rest] →
    split (Z.eqb 58) (dec_pad 2 h ++ [58] ++ dec_pad 2 m ++ [58] ++ rest)
    = [dec_pad 2 h; dec_pad 2 m; rest]).
  { intros rest Hr. cbn [app]. rewrite !split_pad by sep.
    by rewrite Hr. }
  assert (Hcheck : ((24 <? h) || (h =? 24) && ((0 <? m) || (0 <? s) || is_some f)) = false).
  { destruct (Z.eqb_spec h 24) as [->|]; [|lia].
    destruct H24 as (-> & -> & ->); done. }
  destruct f as [f|].
  - destruct Hf as [Hne Hfd].
    rewrite Hrest.
    2:{ apply split_free. unfold free. rewrite !Forall_app. split_and!.
        - apply digits_free; [by apply digit_not | apply dec_pad_digits; lia].
        - by repeat constructor.
        - apply digits_free; [by apply digit_not | done]. }
    cbn -[parse_component dec_pad parse_second]. rewrite !parse_component_pad by (unfold u32_max; lia).
    cbn -[parse_component dec_pad parse_second]. unfold parse_second at 1. cbn [app].
    rewrite split_once_app.
    2:{ apply digits_free; [|apply dec_pad_digits; lia]. intros c Hc. rewrite Z.eqb_sym.
        by apply digit_not. }
    fold (all_digits f). rewrite Hfd. destruct f as [|c f]; [done|]. cbn [is_nonempty negb orb].
    rewrite parse_component_pad by (unfold u32_max; lia). cbn -[dec_pad].
    replace (59 <? m) with false by lia. replace (59 <? s) with false by lia.
    cbn. cbn in Hcheck. by rewrite Hcheck.
  - rewrite Hrest by (rewrite split_pad_end; [done | by apply digit_not | lia]).
    cbn -[parse_component dec_pad parse_second]. rewrite !parse_component_pad by (unfold u32_max; lia).
    cbn -[parse_component dec_pad parse_second]. unfold parse_second at 1.
    rewrite split_once_free.
    2:{ apply digits_free; [|apply dec_pad_digits; lia]. intros c Hc. rewrite Z.eqb_sym.
        by apply digit_not. }
    rewrite parse_component_pad by (unfold u32_max; lia). cbn -[dec_pad].
    replace (59 <? m) with false by lia. replace (59 <? s) with false by lia.
    cbn. cbn in Hcheck. by rewrite Hcheck.
Qed.

Lemma parse_second_ok kind s text v f :
  parse_second kind s text = Ok (v, f) →
  0 <= v <= u32_max ∧ match f with None => True | Some f => f ≠ [] ∧ all_digits f = true end.
Proof.
  unfold parse_second. destruct (split_once 46 s) as [[w fr]|].
  - destruct (_ || _) eqn:E; [done|]. intros Hp. inv_ok. subst. bools.
    split; [by eapply parse_component_range|]. split; [|done]. by destruct fr.
  - intros Hp. inv_ok. subst. split; [by eapply parse_component_range | done].
Qed.

Lemma parse_time_ok kind time text c : parse_time kind time text = Ok c → clock_ok c.
Proof.
  unfold parse_time. intros Hp. apply bind_Ok in Hp as (h & Hh & Hp).
  apply bind_Ok in Hp as (m & Hm & Hp). apply bind_Ok in Hp as ([s f] & Hs & Hp).
  apply bind_Ok in Hm as (part & _ & Hm). apply parse_component_range in Hh, Hm.
  assert (Hsf : 0 <= s <= u32_max ∧ match f with None => True | Some f => f ≠ [] ∧ all_digits f = true end).
  { destruct (_ !! 2%nat); [by eapply parse_second_ok|]. injection Hs as <- <-. unfold u32_max. split; [lia | done]. }
  destruct (_ !! 3%nat); [done|]. destruct ((59 <? m) || _) eqn:E1; [by destruct (s =? 60)|].
  destruct (_ || _) eqn:E2 in Hp; [done|]. injection Hp as <-. unfold clock_ok; cbn. bools.
  split_and!; try lia; [|apply Hsf]. intros ->.
  assert ((0 <? m) || (0 <? s) || is_some f = false) as Hz by done. bools.
  destruct f; [done|]. split_and!; [lia | lia | done].
Qed.

(** Printed text is not one of the refused forms. *)
Lemma plain_not_refused kind c s :
  is_ascii_digit c = true → forallb plain_char (c :: s) = true →
  reject_non_iso_input kind (c :: s) = Ok tt.
Proof.
  intros Hc Hs. unfold reject_non_iso_input.
  assert (Hlow : to_ascii_lowercase (c :: s) = c :: s).
  { unfold to_ascii_lowercase. apply forallb_Forall in Hs. induction Hs as [|x t Hx _ IH]; [done|].
    cbn. f_equal; [|exact IH]. unfold lower_char, is_ascii_uppercase. apply plain_char_range in Hx.
    by replace (65 <=? x) with false by lia. }
  rewrite Hlow.
  assert (one_of (c :: s) KEYWORDS = false) as ->.
  { unfold one_of, KEYWORDS. unfold is_ascii_digit in Hc. cbn -[str_eqb lit].
    repeat match goal with |- context [str_eqb (c :: s) ?k] =>
      replace (str_eqb (c :: s) k) with false by
        (symmetry; apply str_eqb_neq; vm_compute; intros Hk; injection Hk as Hk _; subst c; vm_compute in Hc; discriminate) end.
    done. }
  assert (Hfree : ∀ p : Z → bool, (∀ x, plain_char x = true → p x = false) →
            Forall (λ x, p x = false) (c :: s)).
  { intros p Hp. by apply (forallb_free plain_char p). }
  assert (contains_char 47 (c :: s) = false) as ->.
  { apply existsb_false, Hfree. intros x Hx%plain_char_range. lia. }
  assert (Hends : ∀ w, last w = Some 109 → ends_with w (c :: s) = false).
  { intros w Hw. unfold ends_with. destruct (strip_suffix w (c :: s)) eqn:E; [|done].
    apply strip_suffix_Some in E. exfalso.
    assert (Hin : 109 ∈ c :: s) by (rewrite E; apply elem_of_app; right; by apply last_Some_elem_of).
    pose proof (Hfree (Z.eqb 109)) as Hf. rewrite Forall_forall in Hf.
    specialize (Hf ltac:(intros x Hx%plain_char_range; lia) 109 Hin).
    done. }
  rewrite !Hends by done.
  assert (existsb is_alphabetic (c :: s) = false) as ->.
  { apply existsb_false, Hfree. intros x Hx%plain_char_range.
    unfold is_alphabetic, is_ascii, is_ascii_alphabetic, is_ascii_uppercase, is_ascii_lowercase.
    destruct (_ && _) eqn:E; lia. }
  cbn. by rewrite andb_false_r.
Qed.

(** ** Normal forms *)

Definition starts_digit (s : str) : Prop := ∃ d t, s = d :: t ∧ is_ascii_digit d = true.
Definition ends_digit (s : str) : Prop := ∃ t d, s = t ++ [d] ∧ is_ascii_digit d = true.

Lemma starts_digit_app a b : starts_digit a → starts_digit (a ++ b).
Proof. intros (d & t & -> & Hd). by exists d, (t ++ b). Qed.

Lemma ends_digit_app a b : ends_digit b → ends_digit (a ++ b).
Proof. intros (t & d & -> & Hd). exists (a ++ t), d. by rewrite app_assoc. Qed.

Lemma starts_digits s : s ≠ [] → all_digits s = true → starts_digit s.
Proof. destruct s as [|c s]; [done|]. rewrite all_digits_cons. intros _ Hd. bools. by exists c, s. Qed.

Lemma ends_digits s : s ≠ [] → all_digits s = true → ends_digit s.
Proof.
  intros Hne Hd. destruct s as [|c s _] using rev_ind; [done|]. rewrite all_digits_app in Hd.
  bools. exists s, c. split; [done|]. rewrite all_digits_cons in *. by bools.
Qed.

Lemma starts_pad w n : 0 <= n → starts_digit (dec_pad w n).
Proof. intros Hn. apply starts_digits; [apply dec_pad_nonempty | by apply dec_pad_digits]. Qed.
Lemma ends_pad w n : 0 <= n → ends_digit (dec_pad w n).
Proof. intros Hn. apply ends_digits; [apply dec_pad_nonempty | by apply dec_pad_digits]. Qed.

Lemma trim_end_digit s : ends_digit s → trim_end s = s.
Proof. intros (t & d & -> & Hd). by apply trim_end_solid, digit_not_space. Qed.

Lemma trim_digits s : starts_digit s → ends_digit s → trim s = s.
Proof.
  intros (d & t & -> & Hd) (t' & d' & He & Hd'). eapply trim_solid; [..|exact He]; by apply digit_not_space.
Qed.

Lemma strip_zulu_digit s : ends_digit s → strip_zulu s = None.
Proof.
  intros (t & d & -> & Hd). unfold strip_zulu. rewrite reverse_snoc.
  change (lit "Zz") with [90; 122]. destruct (char_in _ d) eqn:E; [|done].
  unfold char_in, is_ascii_digit in *. cbn in E. lia.
Qed.

(** ** The pieces of a printed value *)

Lemma date_text_shape y m d :
  date_ok y m d →
  starts_digit (date_text y m d) ∧ ends_digit (date_text y m d)
  ∧ forallb plain_char (date_text y m d) = true
  ∧ free is_date_time_separator (date_text y m d).
Proof.
  intros Hok. apply date_ok_bounds in Hok as (Hy & Hm & Hd). unfold date_text.
  split_and!.
  - apply starts_digit_app, starts_pad; lia.
  - rewrite !app_assoc. apply ends_digit_app, ends_pad; lia.
  - plain.
  - unfold free. rewrite !Forall_app. split_and!;
      [apply digits_free; [|apply dec_pad_digits; lia] | by repeat constructor
      | apply digits_free; [|apply dec_pad_digits; lia] | by repeat constructor
      | apply digits_free; [|apply dec_pad_digits; lia]];
      intros c Hc; unfold is_date_time_separator, char_in, is_ascii_digit in *;
      change (lit " Tt") with [32; 84; 116]; cbn; lia.
Qed.

Lemma clock_shape c :
  clock_ok c →
  starts_digit (clock_render c) ∧ ends_digit (clock_render c)
  ∧ forallb plain_char (clock_render c) = true
  ∧ free is_sign (clock_render c).
Proof.
  intros (Hh & Hm & Hs & _ & Hf).
  assert (Hsign : ∀ s, all_digits s = true → free is_sign s).
  { intros s. apply digits_free. intros x Hx. unfold is_sign, char_in, is_ascii_digit in *.
    change (lit "+-") with [43; 45]. cbn. lia. }
  assert (Hall : ∀ n, 0 <= n → all_digits (dec_pad 2 n) = true) by (intros; by apply dec_pad_digits).
  unfold clock_render. destruct (fraction c) as [f|].
  - destruct Hf as [Hne Hfd]. split_and!.
    + apply starts_digit_app, starts_pad; lia.
    + rewrite !app_assoc. by apply ends_digit_app, ends_digits.
    + plain.
    + unfold free. rewrite !Forall_app.
      split_and!; first [apply Hsign, Hall; lia | by apply Hsign | by repeat constructor].
  - split_and!.
    + apply starts_digit_app, starts_pad; lia.
    + rewrite !app_assoc. apply ends_digit_app, ends_pad; lia.
    + plain.
    + unfold free. rewrite !Forall_app.
      split_and!; first [apply Hsign, Hall; lia | by repeat constructor].
Qed.

Definition offset_ok (o : UtcOffset) : Prop := 0 <= hours o <= 15 ∧ 0 <= minutes o <= 59.

Lemma parse_offset_ok kind zone text o : parse_offset kind zone text = Ok o → offset_ok o.
Proof.
  unfold parse_offset. intros Hp. apply bind_Ok in Hp as (h & Hh & Hp).
  apply bind_Ok in Hp as (m & Hm & Hp). destruct (_ !! 2%nat); [done|].
  destruct (_ || _) eqn:E; [done|]. injection Hp as <-. unfold offset_ok. cbn. bools.
  apply parse_component_range in Hh.
  assert (0 <= m) by (destruct (_ !! 1%nat); [apply parse_component_range in Hm; lia | injection Hm as <-; lia]).
  lia.
Qed.

Lemma parse_offset_text kind o text : offset_ok o → parse_offset kind (offset_render o) text = Ok o.
Proof.
  destruct o as [n h m]. intros [Hh Hm]. cbn in Hh, Hm. unfold parse_offset, offset_render. cbn [negative hours minutes].
  change (lit ":") with [58]. cbn [app take drop]. rewrite drop_0.
  rewrite split_pad, split_pad_end by sep. cbn -[parse_component dec_pad].
  rewrite !parse_component_pad by (unfold u32_max; lia). cbn -[dec_pad].
  replace (15 <? h) with false by lia. replace (59 <? m) with false by lia. by destruct n.
Qed.

(** A zone as printed after a clock. *)
Definition zone_text (zone : option UtcOffset) : str :=
  match zone with None => [] | Some zone => offset_render zone end.

Definition zone_ok (zoned : bool) (zone : option UtcOffset) : Prop :=
  match zone with None => True | Some zone => zoned = true ∧ offset_ok zone end.

Lemma split_time_zone_ok kind text zoned body zone :
  split_time_zone kind text zoned = Ok (body, zone) → zone_ok zoned zone.
Proof.
  unfold split_time_zone. destruct (match _ with Some _ => _ | None => _ end) as [b [z|]].
  - destruct zoned; [|done]. cbn [negb]. intros Hp. apply bind_Ok in Hp as (o & Ho & Hp).
    injection Hp as <- <-. split; [done|].
    destruct (str_eqb z (lit "Z")); [injection Ho as <-; unfold offset_ok; cbn; lia|].
    by eapply parse_offset_ok.
  - intros [= <- <-]. done.
Qed.

Lemma ends_clock_zone c zone zoned :
  clock_ok c → zone_ok zoned zone → ends_digit (clock_render c ++ zone_text zone).
Proof.
  intros Hc Hz. destruct zone as [o|]; cbn [zone_text].
  - apply ends_digit_app. unfold offset_render. rewrite !app_assoc. apply ends_digit_app, ends_pad.
    destruct Hz as [_ [_ Hm]]. lia.
  - rewrite app_nil_r. by apply clock_shape.
Qed.

Lemma plain_zone zone zoned : zone_ok zoned zone → forallb plain_char (zone_text zone) = true.
Proof.
  destruct zone as [o|]; [|done]. intros [_ [Hh Hm]]. unfold zone_text, offset_render.
  destruct (negative o); plain.
Qed.

(** The time zone of printed text splits off where it was printed: behind a
    clock, or behind a date, a space and a clock. *)
Lemma split_zone_at kind prefix c zoned zone :
  match kind with
  | Time _ => prefix = []
  | _ => ∃ date, prefix = date ++ [32] ∧ free is_date_time_separator date
  end →
  clock_ok c → zone_ok zoned zone →
  split_time_zone kind (prefix ++ clock_render c ++ zone_text zone) zoned
  = Ok (prefix ++ clock_render c, zone).
Proof.
  intros Hkind Hc Hz. unfold split_time_zone.
  set (text := prefix ++ clock_render c ++ zone_text zone).
  assert (match kind with Time _ => Some 0%nat | _ => S <$> find is_date_time_separator text end
          = Some (length prefix)) as ->.
  { destruct kind; [| by subst prefix |].
    all: destruct Hkind as (date & -> & Hfree); unfold text; rewrite <- app_assoc; cbn [app];
      rewrite find_app by done; cbn; f_equal; rewrite length_app; cbn; lia. }
  cbn [mbind option_bind]. unfold text at 1. rewrite drop_app_length.
  destruct (clock_shape c Hc) as (_ & Hend & _ & Hfree).
  destruct zone as [o|]; cbn [zone_text].
  - destruct Hz as [-> Ho]. unfold text, zone_text. unfold offset_render at 1.
    destruct (negative o) eqn:Hn.
    all: cbn [app]; rewrite find_app by done; cbn [fmap option_fmap option_map].
    all: rewrite Nat.add_comm, <- length_app, app_assoc, take_app_length, drop_app_length.
    all: assert (str_eqb (offset_render o) (lit "Z") = false) as ->
        by (unfold offset_render; rewrite Hn; reflexivity).
    all: cbn [negb]; rewrite parse_offset_text by done; cbn -[trim_end clock_render].
    all: by rewrite trim_end_digit by (by apply ends_digit_app).
  - rewrite app_nil_r, find_free by done. cbn [fmap option_fmap option_map].
    unfold text. cbn [zone_text]. rewrite app_nil_r, strip_zulu_digit; [done|].
    by apply ends_digit_app.
Qed.

Lemma plain_accepted kind s :
  starts_digit s → forallb plain_char s = true → reject_non_iso_input kind s = Ok tt.
Proof. intros (d & t & -> & Hd). by apply plain_not_refused. Qed.

(** Reading a printed time. *)
Lemma normalize_time_text zoned c zone :
  clock_ok c → zone_ok zoned zone →
  normalize_temporal_literal (Time zoned) (clock_render c ++ zone_text zone)
  = Ok (clock_render c ++ zone_text zone).
Proof.
  intros Hc Hz. destruct (clock_shape c Hc) as (Hs & Hend & Hplain & _).
  unfold normalize_temporal_literal.
  rewrite trim_digits by (by apply starts_digit_app || by eapply ends_clock_zone).
  assert (reject_non_iso_input (Time zoned) (clock_render c ++ zone_text zone) = Ok tt) as ->.
  { apply plain_accepted; [by apply starts_digit_app|].
    by rewrite forallb_app, Hplain, (plain_zone _ _ Hz). }
  cbn [mbind result_bind]. rewrite (split_zone_at _ [] c zoned zone) by done.
  cbn [mbind result_bind app]. rewrite parse_time_text by done. reflexivity.
Qed.

(** Reading a printed timestamp. *)
Lemma read_timestamp_text zoned y m d c zone :
  date_ok y m d → clock_ok c → zone_ok zoned zone →
  let text := (date_text y m d ++ [32]) ++ clock_render c ++ zone_text zone in
  normalize_temporal_literal (Timestamp zoned) text =
  if zoned then
    canonical_instant (y, m, d) c (match zone with None => 0 | Some zone => offset_seconds zone end) text
  else if hour c =? 24 then
    let '(year, month, day) := next_day y m d in
    Ok (date_text year month day ++ lit " " ++ clock_render MIDNIGHT)
  else Ok (date_text y m d ++ lit " " ++ clock_render c).
Proof.
  intros Hd Hc Hz text. destruct (date_text_shape y m d Hd) as (Hds & _ & Hdp & Hdf).
  destruct (clock_shape c Hc) as (Hcs & Hce & Hcp & _). unfold normalize_temporal_literal.
  assert (trim text = text) as ->.
  { apply trim_digits; [by do 2 apply starts_digit_app | by eapply ends_digit_app, ends_clock_zone]. }
  assert (reject_non_iso_input (Timestamp zoned) text = Ok tt) as ->.
  { apply plain_accepted; [by do 2 apply starts_digit_app|]. unfold text.
    by rewrite !forallb_app, Hdp, Hcp, (plain_zone _ _ Hz). }
  pose proof (split_zone_at (Timestamp zoned) (date_text y m d ++ [32]) c zoned zone
    ltac:(by eexists) Hc Hz) as Hsplit. change (_ ++ clock_render c ++ zone_text zone) with text in Hsplit.
  cbn [mbind result_bind]. rewrite Hsplit.
  cbn [mbind result_bind]. unfold split_timestamp. rewrite <- app_assoc. cbn [app].
  rewrite find_app by done. rewrite take_app_length.
  replace (drop (length (date_text y m d) + 1) (date_text y m d ++ 32 :: clock_render c))
    with (clock_render c).
  2:{ rewrite Nat.add_comm. change (32 :: clock_render c) with ([32] ++ clock_render c).
      rewrite app_assoc. replace (1 + length (date_text y m d))%nat with (length (date_text y m d ++ [32]))
        by (rewrite length_app; cbn; lia). by rewrite drop_app_length. }
  rewrite trim_digits by done.
  assert (is_nonempty (clock_render c) = true) as -> by (by destruct Hcs as (? & ? & -> & _)).
  cbn [negb]. rewrite parse_date_text by done. cbn [mbind result_bind].
  rewrite parse_time_text by done. reflexivity.
Qed.
End Roundtrip.

(** ** Instants *)

Section Instants.
Context `{Unicode}.
Implicit Types (kind : TemporalLiteralKind) (text : str).

(** The clock of a count of microseconds within a day. *)
Definition clock_of_micros (r : Z) : Clock :=
  let s := r ÷ MICROS_PER_SECOND in
  {| hour := s ÷ 3600; minute := (s ÷ 60) %% 60; second := s %% 60;
     fraction := Some (dec_pad 6 (r %% MICROS_PER_SECOND)) |}.

(** The positions of the fields of a time of day. *)
Lemma clock_of_micros_spec r :
  0 <= r < MICROS_PER_DAY →
  ∃ h m s f, r ÷ MICROS_PER_SECOND ÷ 3600 = h ∧ (r ÷ MICROS_PER_SECOND ÷ 60) %% 60 = m
  ∧ (r ÷ MICROS_PER_SECOND) %% 60 = s ∧ r %% MICROS_PER_SECOND = f
  ∧ 0 <= h < 24 ∧ 0 <= m < 60 ∧ 0 <= s < 60 ∧ 0 <= f < 1000000
  ∧ r = ((h * 60 + m) * 60 + s) * 1000000 + f.
Proof.
  unfold MICROS_PER_DAY, MICROS_PER_SECOND. intros Hr. do 4 eexists.
  split_and!; try reflexivity; divmod.
Qed.

(** The text of the instant [micros]. *)
Definition instant_text (micros : Z) : str :=
  let '(y, m, d) := civil_from_days (micros / MICROS_PER_DAY) in
  (date_text y m d ++ [32])
  ++ clock_render (clock_of_micros (micros mod MICROS_PER_DAY)) ++ zone_text (Some UTC).

Definition in_years (micros : Z) : bool :=
  let '(year, _, _) := civil_from_days (micros / MICROS_PER_DAY) in (1 <=? year) && (year <=? 9999).

Lemma canonical_instant_eq date clock offset text :
  let micros := instant_micros date clock offset in
  (in_years micros = true → canonical_instant date clock offset text = Ok (instant_text micros))
  ∧ (∀ out, canonical_instant date clock offset text = Ok out →
       in_years micros = true ∧ out = instant_text micros).
Proof.
  intros micros. unfold canonical_instant, in_years, instant_text. fold micros.
  destruct (civil_from_days (micros / MICROS_PER_DAY)) as [[y m] d].
  assert (Heq : date_text y m d ++ lit " " ++
    dec_pad 2 (micros mod MICROS_PER_DAY ÷ MICROS_PER_SECOND ÷ 3600) ++ lit ":" ++
    dec_pad 2 ((micros mod MICROS_PER_DAY ÷ MICROS_PER_SECOND ÷ 60) %% 60) ++ lit ":" ++
    dec_pad 2 ((micros mod MICROS_PER_DAY ÷ MICROS_PER_SECOND) %% 60) ++ lit "." ++
    dec_pad 6 (micros mod MICROS_PER_DAY %% MICROS_PER_SECOND) ++ lit "+00:00"
    = (date_text y m d ++ [32]) ++ clock_render (clock_of_micros (micros mod MICROS_PER_DAY))
      ++ zone_text (Some UTC)).
  { unfold clock_render, clock_of_micros. cbn [fraction hour minute second].
    rewrite <- !app_assoc. reflexivity. }
  rewrite Heq. destruct (_ && _); cbn [negb]; split; try done. by intros out [= <-].
Qed.

(** An instant of the four-digit years is a date and a time of day in UTC. *)
Lemma instant_fields micros y m d :
  in_years micros = true → civil_from_days (micros / MICROS_PER_DAY) = (y, m, d) →
  let c := clock_of_micros (micros mod MICROS_PER_DAY) in
  date_ok y m d ∧ clock_ok c ∧ instant_micros (y, m, d) c 0 = micros.
Proof.
  intros Hy Hc c. unfold in_years in Hy. rewrite Hc in Hy. destruct (civil_from_days_spec _ _ _ _ Hc) as [Hv Hd].
  pose proof (Z.mod_pos_bound micros MICROS_PER_DAY eq_refl) as Hr.
  pose proof (Z.div_mod micros MICROS_PER_DAY ltac:(done)) as Hm.
  unfold c, clock_of_micros, clock_ok, instant_micros. cbn [hour minute second fraction].
  destruct (clock_of_micros_spec _ Hr) as (h & mi & s & f & -> & -> & -> & -> & Hh & Hmi & Hs & Hf & Heq).
  assert (Hf6 : 0 <= f < 10 ^ Z.of_nat 6) by (change (10 ^ Z.of_nat 6) with 1000000; lia).
  pose proof (rounded_microseconds_exact (dec_pad 6 f)) as Hround.
  rewrite dec_pad_value, dec_pad_length, dec_pad_digits in Hround by lia.
  specialize (Hround eq_refl ltac:(lia)). change (10 ^ Z.of_nat 6) with 1000000 in Hround.
  split; [unfold date_ok; bools; split; [lia | done]|]. split.
  - split_and!; first [lia | apply dec_pad_nonempty | apply dec_pad_digits; lia].
  - rewrite Hd. unfold MICROS_PER_SECOND. lia.
Qed.

Lemma normalize_instant_text micros :
  in_years micros = true →
  normalize_temporal_literal TIMESTAMPTZ (instant_text micros) = Ok (instant_text micros).
Proof.
  intros Hy. unfold instant_text at 1.
  destruct (civil_from_days (micros / MICROS_PER_DAY)) as [[y m] d] eqn:Hc.
  destruct (instant_fields micros y m d Hy Hc) as (Hd & Hcl & Hi).
  pose proof (read_timestamp_text true y m d (clock_of_micros (micros mod MICROS_PER_DAY)) (Some UTC)
    Hd Hcl ltac:(split; [done | split; cbn; lia])) as Hread.
  cbv zeta in Hread. unfold TIMESTAMPTZ. rewrite Hread. change (offset_seconds UTC) with 0.
  match goal with |- canonical_instant _ _ _ ?t = _ =>
    pose proof (canonical_instant_eq (y, m, d) (clock_of_micros (micros mod MICROS_PER_DAY)) 0 t) as [Heq _] end.
  rewrite Hi in Heq. by apply Heq.
Qed.

(** The text of instants orders as the instants do. *)
Lemma instant_text_compare i j :
  in_years i = true → in_years j = true → str_compare (instant_text i) (instant_text j) = (i ?= j).
Proof.
  intros Hi Hj. unfold instant_text.
  destruct (civil_from_days (i / MICROS_PER_DAY)) as [[y m] d] eqn:Ci.
  destruct (civil_from_days (j / MICROS_PER_DAY)) as [[y' m'] d'] eqn:Cj.
  destruct (instant_fields _ _ _ _ Hi Ci) as (Hd & _ & _).
  destruct (instant_fields _ _ _ _ Hj Cj) as (Hd' & _ & _).
  apply civil_from_days_spec in Ci as [Hv Ei]. apply civil_from_days_spec in Cj as [Hv' Ej].
  pose proof (days_from_civil_lt_iff _ _ _ _ _ _ Hv Hv') as Hlt.
  pose proof (days_from_civil_lt_iff _ _ _ _ _ _ Hv' Hv) as Hgt. unfold date_lt in Hlt, Hgt.
  apply date_ok_bounds in Hd, Hd'.
  pose proof (Z.mod_pos_bound i MICROS_PER_DAY eq_refl) as Ri. pose proof (Z.div_mod i MICROS_PER_DAY ltac:(done)) as Di.
  pose proof (Z.mod_pos_bound j MICROS_PER_DAY eq_refl) as Rj. pose proof (Z.div_mod j MICROS_PER_DAY ltac:(done)) as Dj.
  unfold clock_render, clock_of_micros, date_text. cbn [hour minute second fraction].
  destruct (clock_of_micros_spec _ Ri) as (h & mi & s & f & -> & -> & -> & -> & Bh & Bm & Bs & Bf & Er).
  destruct (clock_of_micros_spec _ Rj) as (h' & mi' & s' & f' & -> & -> & -> & -> & Bh' & Bm' & Bs' & Bf' & Er').
  rewrite Ei, Ej in Hlt. rewrite Ei, Ej in Hgt. change MICROS_PER_DAY with 86400000000 in *.
  set (qi := i / _) in *. set (qj := j / _) in *. set (ri := i mod _) in *. set (rj := j mod _) in *.
  clearbody qi qj ri rj. subst ri rj i j. clear Hv Hv' Ei Ej Hi Hj.
  change (lit "-") with [45]. change (lit ":") with [58]. change (lit ".") with [46].
  rewrite <- !app_assoc. cbn [app].
  rewrite (str_compare_pad 4) by (change (10 ^ Z.of_nat 4) with 10000; lia).
  cbn [str_compare]. rewrite Z.compare_refl.
  rewrite (str_compare_pad 2 m) by (change (10 ^ Z.of_nat 2) with 100; lia).
  cbn [str_compare]. rewrite Z.compare_refl.
  rewrite (str_compare_pad 2 d) by (change (10 ^ Z.of_nat 2) with 100; lia).
  cbn [str_compare]. rewrite Z.compare_refl.
  rewrite (str_compare_pad 2 h) by (change (10 ^ Z.of_nat 2) with 100; lia).
  cbn [str_compare]. rewrite Z.compare_refl.
  rewrite (str_compare_pad 2 mi) by (change (10 ^ Z.of_nat 2) with 100; lia).
  cbn [str_compare]. rewrite Z.compare_refl.
  rewrite (str_compare_pad 2 s) by (change (10 ^ Z.of_nat 2) with 100; lia).
  cbn [str_compare]. rewrite Z.compare_refl.
  rewrite (str_compare_pad 6 f) by (change (10 ^ Z.of_nat 6) with 1000000; lia).
  rewrite str_compare_refl. symmetry.
  repeat match goal with |- context [match ?a ?= ?b with Eq => _ | Lt => _ | Gt => _ end] =>
    destruct (Z.compare_spec a b) end;
  first [apply Z.compare_eq_iff; lia | apply Z.compare_lt_iff; lia | apply Z.compare_gt_iff; lia].
Qed.

(** ** The instant a text names

    The instant of a timestamp, counted without any function of the code: the
    days of the proleptic Gregorian calendar since 0001-01-01, the time of day
    with its fraction of at most six digits, and the offset east of Greenwich
    taken away. *)

Record Written := { written_date : Z * Z * Z; written_clock : Clock; written_zone : option UtcOffset }.

Definition month_starts : list Z := [0; 31; 59; 90; 120; 151; 181; 212; 243; 273; 304; 334].

Definition day_count (year month day : Z) : Z :=
  365 * (year - 1) + (year - 1) / 4 - (year - 1) / 100 + (year - 1) / 400
  + default 0 (month_starts !! Z.to_nat (month - 1))
  + Z.b2z ((2 <? month) && is_leap year) + day - 1.

Definition utc_micros (w : Written) : Z :=
  let '(year, month, day) := written_date w in
  let c := written_clock w in
  let east := match written_zone w with
              | None => 0
              | Some o => (if negative o then -1 else 1) * (60 * hours o + minutes o)
              end in
  ((day_count year month day * 24 + hour c) * 60 + minute c - east) * 60000000 + second c * 1000000
  + match fraction c with None => 0 | Some f => digits_value f * 10 ^ (6 - Z.of_nat (length f)) end.

(** [0001-01-01 00:00] up to [10000-01-01 00:00]. *)
Definition in_calendar (micros : Z) : bool := (0 <=? micros) && (micros <? 3652059 * 86400000000).

Definition written_text (w : Written) : str :=
  let '(year, month, day) := written_date w in
  (date_text year month day ++ [32]) ++ clock_render (written_clock w) ++ zone_text (written_zone w).

Definition written_ok (w : Written) : Prop :=
  (let '(year, month, day) := written_date w in date_ok year month day)
  ∧ clock_ok (written_clock w) ∧ zone_ok true (written_zone w)
  ∧ match fraction (written_clock w) with None => True | Some f => (length f <= 6)%nat end.

Lemma day_count_civil y m d : 1 <= m <= 12 → days_from_civil y m d = day_count y m d - 719162.
Proof.
  intros Hm. rewrite days_from_civil_eq by done. pose proof (year_days_step y) as Hy.
  unfold day_count, year_days in *. by_month m; eval_months;
    match goal with |- context [default 0 ?t] => let v := eval vm_compute in (default 0 t) in change (default 0 t) with v end;
    match goal with |- context [2 <? ?t] => let v := eval vm_compute in (2 <? t) in change (2 <? t) with v end;
    rewrite ?Z.sub_0_r; cbn [Z.b2z andb]; lia.
Qed.

Lemma fraction_micros f :
  all_digits f = true → (length f <= 6)%nat →
  rounded_microseconds f = digits_value f * 10 ^ (6 - Z.of_nat (length f)).
Proof.
  intros Hd Hl. pose proof (rounded_microseconds_exact f Hd Hl) as He.
  assert (10 ^ Z.of_nat (length f) * 10 ^ (6 - Z.of_nat (length f)) = 1000000) as Hp
    by (rewrite <- Z.pow_add_r by lia; by replace (_ + _) with 6 by lia).
  rewrite <- Hp in He. assert (0 < 10 ^ Z.of_nat (length f)) by (apply Z.pow_pos_nonneg; lia). nia.
Qed.

Lemma instant_utc w :
  written_ok w →
  instant_micros (written_date w) (written_clock w)
    (match written_zone w with None => 0 | Some o => offset_seconds o end)
  = utc_micros w - 719162 * 86400000000.
Proof.
  destruct w as [[[y m] d] c z]. unfold written_ok, utc_micros, instant_micros.
  cbn [written_date written_clock written_zone]. intros (Hd & Hc & _ & Hf).
  rewrite day_count_civil by apply Hd. unfold MICROS_PER_DAY, MICROS_PER_SECOND, offset_seconds.
  destruct Hc as (_ & _ & _ & _ & Hdig).
  destruct (fraction c) as [f|]; [rewrite fraction_micros by (done || apply Hdig)|];
    destruct z as [[[|] h mi]|]; cbn [negative hours minutes]; lia.
Qed.

Lemma in_years_calendar micros :
  in_years micros = in_calendar (micros + 719162 * 86400000000).
Proof.
  unfold in_years, in_calendar. destruct (civil_from_days _) as [[y m] d] eqn:Hc.
  apply civil_from_days_spec in Hc as [Hv Hd].
  pose proof (days_from_civil_lt_iff y m d 1 1 1 Hv ltac:(split; [lia | by vm_compute])) as H1.
  pose proof (days_from_civil_lt_iff y m d 10000 1 1 Hv ltac:(split; [lia | by vm_compute])) as H2.
  unfold date_lt in H1, H2. rewrite Hd in H1, H2.
  change (days_from_civil 1 1 1) with (-719162) in H1. change (days_from_civil 10000 1 1) with 2932897 in H2.
  pose proof (Z.div_mod micros MICROS_PER_DAY ltac:(done)) as Hm.
  pose proof (Z.mod_pos_bound micros MICROS_PER_DAY eq_refl) as Hr.
  destruct Hv as [Hmo Hda]. change MICROS_PER_DAY with 86400000000 in *.
  apply eq_true_iff_eq. bools. lia.
Qed.

(** The text kept for an instant is the writing of that instant in UTC. *)
Lemma instant_text_written micros :
  in_years micros = true →
  ∃ w, instant_text micros = written_text w ∧ written_ok w ∧ written_zone w = Some UTC
  ∧ utc_micros w = micros + 719162 * 86400000000.
Proof.
  intros Hy. unfold instant_text.
  destruct (civil_from_days (micros / MICROS_PER_DAY)) as [[y m] d] eqn:Hc.
  destruct (instant_fields micros y m d Hy Hc) as (Hd & Hcl & Hi).
  set (w := {| written_date := (y, m, d); written_clock := clock_of_micros (micros mod MICROS_PER_DAY);
               written_zone := Some UTC |}).
  assert (Hw : written_ok w).
  { split; [done|]. split; [done|]. split; [split_and!; cbn; done || lia|].
    cbn -[dec_pad]. rewrite dec_pad_length; [lia | lia|].
    pose proof (Z.mod_pos_bound micros MICROS_PER_DAY eq_refl).
    pose proof (Z.rem_bound_pos (micros mod MICROS_PER_DAY) MICROS_PER_SECOND).
    unfold MICROS_PER_SECOND in *. change (10 ^ Z.of_nat 6) with 1000000. lia. }
  exists w. split; [done|]. split; [done|]. split; [done|]. pose proof (instant_utc w Hw) as Hu. cbn [written_zone w] in Hu.
  change (offset_seconds UTC) with 0 in Hu. cbn [written_date written_clock w] in Hu. lia.
Qed.

Lemma normalize_written w :
  written_ok w →
  let micros := utc_micros w - 719162 * 86400000000 in
  is_ok (normalize_temporal_literal TIMESTAMPTZ (written_text w)) = in_calendar (utc_micros w)
  ∧ (∀ out, normalize_temporal_literal TIMESTAMPTZ (written_text w) = Ok out →
     in_years micros = true ∧ out = instant_text micros).
Proof.
  intros Hw micros. pose proof (instant_utc w Hw) as Hi. fold micros in Hi.
  replace (in_calendar (utc_micros w)) with (in_years micros)
    by (rewrite in_years_calendar; f_equal; lia).
  destruct w as [[[y m] d] c z]. destruct Hw as (Hd & Hc & Hz & _).
  cbn [written_date written_clock written_zone] in *.
  pose proof (read_timestamp_text true y m d c z Hd Hc Hz) as Hr. cbv zeta in Hr.
  unfold TIMESTAMPTZ, written_text. cbn [written_date written_clock written_zone]. rewrite Hr.
  match goal with |- context [canonical_instant ?a ?b ?o ?t] =>
    pose proof (canonical_instant_eq a b o t) as [Hok Hout] end.
  rewrite Hi in Hok, Hout. split; [|exact Hout].
  destruct (canonical_instant _ _ _ _) as [out|e] eqn:E; [by destruct (Hout out eq_refl) as [-> _]|].
  destruct (in_years micros); [|done]. by specialize (Hok eq_refl).
Qed.

End Instants.

(** ** Properties *)


Section Properties.
Context `{Unicode}.
Implicit Types (kind : TemporalLiteralKind) (text : str).

Lemma normalize_date_text y m d :
  date_ok y m d → normalize_temporal_literal Date (date_text y m d) = Ok (date_text y m d).
Proof.
  intros Hd. destruct (date_text_shape y m d Hd) as (Hs & He & Hp & _).
  unfold normalize_temporal_literal. rewrite trim_digits by done.
  rewrite plain_accepted by done. cbn [mbind result_bind]. by rewrite parse_date_text.
Qed.

Lemma normalize_timestamp_text y m d c :
  date_ok y m d → clock_ok c → hour c ≠ 24 →
  normalize_temporal_literal (Timestamp false) (date_text y m d ++ lit " " ++ clock_render c)
  = Ok (date_text y m d ++ lit " " ++ clock_render c).
Proof.
  intros Hd Hc Hh. pose proof (read_timestamp_text false y m d c None Hd Hc I) as Hr.
  cbv zeta in Hr. cbn [zone_text] in Hr. rewrite app_nil_r, <- app_assoc in Hr.
  change (lit " ") with [32]. rewrite Hr. by replace (hour c =? 24) with false by lia.
Qed.

Lemma clock_ok_midnight : clock_ok MIDNIGHT.
Proof. unfold clock_ok; cbn. split_and!; done || lia. Qed.

(** Normalising what was normalised. *)
Lemma normalize_again kind text out :
  normalize_temporal_literal kind text = Ok out →
  normalize_temporal_literal kind out = Ok out
  ∨ kind = Timestamp false ∧ out = lit "10000-01-01 00:00:00".
Proof.
  unfold normalize_temporal_literal at 1. intros Hn. apply bind_Ok in Hn as (_ & _ & Hn).
  destruct kind as [|zoned|zoned].
  - apply bind_Ok in Hn as ([[y m] d] & Hp & Hn). injection Hn as <-.
    left. by eapply normalize_date_text, parse_date_ok.
  - apply bind_Ok in Hn as ([body zone] & Hz & Hn). apply bind_Ok in Hn as (c & Hc & Hn).
    injection Hn as <-. left. change (match zone with None => [] | _ => _ end) with (zone_text zone).
    apply normalize_time_text; [by eapply parse_time_ok | by eapply split_time_zone_ok].
  - apply bind_Ok in Hn as ([body zone] & Hz & Hn). destruct (split_timestamp body) as [date time].
    apply bind_Ok in Hn as ([[y m] d] & Hp & Hn). apply bind_Ok in Hn as (c & Hc & Hn).
    apply parse_date_ok in Hp.
    assert (Hcl : clock_ok c).
    { destruct time; [by eapply parse_time_ok | injection Hc as <-; apply clock_ok_midnight]. }
    destruct zoned.
    + left. apply canonical_instant_eq in Hn as [Hy ->]. by apply normalize_instant_text.
    + destruct (hour c =? 24) eqn:H24.
      * pose proof (next_day_step y m d (proj2 Hp)) as Hnext. apply date_ok_bounds in Hp as Hb.
        destruct Hp as [Hy [Hm Hd]].
        unfold next_day in *. destruct (d <? days_in_month y m) eqn:E1; [|destruct (m <? 12) eqn:E2].
        1, 2: injection Hn as <-; left; apply normalize_timestamp_text;
          [split; [lia | by apply Hnext] | apply clock_ok_midnight | done].
        injection Hn as <-. destruct (decide (y = 9999)) as [->|Hne]; [by right|].
        left. apply normalize_timestamp_text; [split; [lia | by apply Hnext] | apply clock_ok_midnight | done].
      * injection Hn as <-. left. apply normalize_timestamp_text; [done..|lia].
Qed.

(** C35 (normal forms). Normalising what [normalize_temporal_literal] answered
    answers it again, for every kind and every text it accepts: the replica's
    text is a fixed point.  The one exception is the end of the calendar, where
    24:00 on 9999-12-31 prints a five-digit year that is not read back. *)
Theorem normalize_is_fixpoint kind text out :
  normalize_temporal_literal kind text = Ok out →
  normalize_temporal_literal kind out = Ok out
  ∨ kind = Timestamp false ∧ out = lit "10000-01-01 00:00:00".
Proof. apply normalize_again. Qed.

(** C23 (one text per instant). A timestamp with time zone, written as a date, a
    time of day with at most six digits of a fraction, and an offset (none
    stands for UTC), names the instant [utc_micros] counts: the days of the
    calendar, the time of day, less the offset east of Greenwich.  The literal
    is accepted exactly when that instant lies in the years 1 to 9999.  What is
    stored is the same instant written in UTC, and two stored texts compare
    exactly as the two instants do: equal for one instant, whatever offsets it
    was written with, and in the order of time otherwise. *)
Theorem canonical_instant_order w w' :
  written_ok w → written_ok w' →
  is_ok (normalize_temporal_literal TIMESTAMPTZ (written_text w)) = in_calendar (utc_micros w)
  ∧ (∀ out, normalize_temporal_literal TIMESTAMPTZ (written_text w) = Ok out →
     (∃ u, out = written_text u ∧ written_ok u ∧ written_zone u = Some UTC ∧ utc_micros u = utc_micros w)
     ∧ (∀ out', normalize_temporal_literal TIMESTAMPTZ (written_text w') = Ok out' →
        str_compare out out' = (utc_micros w ?= utc_micros w'))).
Proof.
  intros Hw Hw'. destruct (normalize_written w Hw) as [Hok Hout]. split; [exact Hok|].
  intros out Ho. apply Hout in Ho as [Hy ->]. split.
  - destruct (instant_text_written _ Hy) as (u & -> & Hu & Hz & He).
    exists u. split; [done|]. split; [done|]. split; [done | lia].
  - intros out' Ho'. apply (normalize_written w' Hw') in Ho' as [Hy' ->].
    rewrite instant_text_compare by done. unfold Z.sub. rewrite !(Z.add_comm _ (- _)). apply Z.add_compare_mono_l.
Qed.

Lemma free_of_digits p w n : 0 <= n → (∀ c, is_ascii_digit c = true → p c = false) → free p (dec_pad w n).
Proof. intros Hn Hp. apply digits_free; [done | by apply dec_pad_digits]. Qed.

Lemma date_literal_decided wy wm wd year month day :
  0 <= year <= u32_max → 0 <= month <= u32_max → 0 <= day <= u32_max →
  let text := dec_pad wy year ++ lit "-" ++ dec_pad wm month ++ lit "-" ++ dec_pad wd day in
  normalize_temporal_literal Date text
  = if decide (date_ok year month day) then Ok (date_text year month day) else Err (out_of_range text).
Proof.
  intros Hy Hm Hd text. unfold normalize_temporal_literal.
  assert (starts_digit text) by (apply starts_digit_app, starts_pad; lia).
  assert (ends_digit text).
  { unfold text. rewrite !app_assoc. apply ends_digit_app, ends_pad; lia. }
  rewrite trim_digits by done. rewrite plain_accepted; [|done|].
  2:{ unfold text. rewrite !forallb_app, !andb_true_iff.
      split_and!; first [apply plain_pad; lia | reflexivity]. }
  cbn [mbind result_bind]. unfold parse_date.
  assert (split (Z.eqb 45) text = [dec_pad wy year; dec_pad wm month; dec_pad wd day]) as ->.
  { unfold text. change (lit "-") with [45]. cbn [app].
    by rewrite !split_pad, split_pad_end by first [lia | by apply digit_not | reflexivity]. }
  cbn -[parse_component dec_pad days_in_month text date_text decide].
  rewrite !parse_component_pad by done. cbn -[dec_pad days_in_month text date_text decide].
  destruct (decide _) as [[Hyr [Hmr Hdr]]|Hno].
  - replace (1 <=? year) with true by lia. replace (year <=? 9999) with true by lia.
    replace (1 <=? month) with true by lia. replace (month <=? 12) with true by lia.
    replace (day <? 1) with false by lia. by replace (days_in_month year month <? day) with false by lia.
  - unfold date_ok, valid_date in Hno. destruct (negb _) eqn:E1; [done|].
    destruct (_ || _ || _) eqn:E2; [done|]. bools. exfalso. apply Hno. lia.
Qed.

(** C33 (date literals). Year, month and day written as numbers, padded to any
    widths, are accepted exactly when they name a day of the Gregorian calendar
    in the years 1 to 9999, and the answer is that day in the padded form; the
    refusal is PostgreSQL's own range error, about the text as written. *)
Theorem date_literal_checked wy wm wd year month day :
  0 <= year <= u32_max → 0 <= month <= u32_max → 0 <= day <= u32_max →
  let text := dec_pad wy year ++ lit "-" ++ dec_pad wm month ++ lit "-" ++ dec_pad wd day in
  normalize_temporal_literal Date text
  = if (1 <=? year) && (year <=? 9999) && (1 <=? month) && (month <=? 12)
       && (1 <=? day) && (day <=? month_length (is_leap year) month)
    then Ok (date_text year month day) else Err (out_of_range text).
Proof.
  intros Hy Hm Hd text. unfold text. rewrite date_literal_decided by done. unfold date_ok, valid_date.
  destruct (decide _) as [(Hyr & Hmo & Hda)|Hno].
  - rewrite days_in_month_length in Hda by done. by replace (_ && _) with true by (symmetry; bools; lia).
  - destruct (_ && _) eqn:E; [|done]. exfalso. apply Hno. bools. rewrite days_in_month_length by lia. lia.
Qed.
End Properties.

(** ** Witnesses *)

Lemma normalize_is_fixpoint_witness :
  let norm := @normalize_temporal_literal ascii_only in
  norm TIMESTAMPTZ (lit " 2024-3-5T1:02:03.25+02 ") = Ok (lit "2024-03-04 23:02:03.250000+00:00")
  ∧ norm TIMESTAMPTZ (lit "2024-03-04 23:02:03.250000+00:00")
    = Ok (lit "2024-03-04 23:02:03.250000+00:00")
  ∧ norm (Timestamp false) (lit "9999-12-31 24:00") = Ok (lit "10000-01-01 00:00:00")
  ∧ is_ok (norm (Timestamp false) (lit "10000-01-01 00:00:00")) = false.
Proof.
  cbv zeta.
  assert (Hn : @normalize_temporal_literal ascii_only TIMESTAMPTZ (lit " 2024-3-5T1:02:03.25+02 ")
               = Ok (lit "2024-03-04 23:02:03.250000+00:00")) by (vm_compute; reflexivity).
  split; [exact Hn|]. split; [|split; vm_compute; reflexivity].
  destruct (@normalize_is_fixpoint ascii_only _ _ _ Hn) as [Hf|[Hk _]]; [exact Hf | discriminate Hk].
Defined.

Definition example_clock (h m : Z) : Clock := {| hour := h; minute := m; second := 0; fraction := None |}.

(** 01:30 in an offset two hours east, and 20:00 in one five hours west. *)
Definition example_east : Written :=
  {| written_date := (2024, 3, 5); written_clock := example_clock 1 30;
     written_zone := Some {| negative := false; hours := 2; minutes := 0 |} |}.
Definition example_west : Written :=
  {| written_date := (2024, 3, 4); written_clock := example_clock 20 0;
     written_zone := Some {| negative := true; hours := 5; minutes := 0 |} |}.

Lemma example_written_ok : written_ok example_east ∧ written_ok example_west.
Proof.
  split; (split; [split; [lia | split; [lia | by vm_compute]]|]);
    (split; [unfold clock_ok; cbn; split_and!; done || lia|]); (split; [split_and!; cbn; done || lia | done]).
Qed.

Lemma canonical_instant_order_witness :
  written_text example_east = lit "2024-03-05 01:30:00+02:00"
  ∧ @normalize_temporal_literal ascii_only TIMESTAMPTZ (written_text example_east)
    = Ok (lit "2024-03-04 23:30:00.000000+00:00")
  ∧ str_compare (lit "2024-03-04 23:30:00.000000+00:00") (lit "2024-03-05 01:00:00.000000+00:00") = Lt.
Proof.
  split; [vm_compute; reflexivity|].
  assert (Hn : @normalize_temporal_literal ascii_only TIMESTAMPTZ (written_text example_east)
               = Ok (lit "2024-03-04 23:30:00.000000+00:00")) by (vm_compute; reflexivity).
  split; [exact Hn|].
  destruct (@canonical_instant_order ascii_only example_east example_west
    (proj1 example_written_ok) (proj2 example_written_ok)) as [_ Ho].
  rewrite (proj2 (Ho _ Hn) (lit "2024-03-05 01:00:00.000000+00:00")); vm_compute; reflexivity.
Defined.

Lemma date_literal_checked_witness :
  @normalize_temporal_literal ascii_only Date (lit "2024-2-30") = Err (out_of_range (lit "2024-2-30"))
  ∧ @normalize_temporal_literal ascii_only Date (lit "2024-2-29") = Ok (lit "2024-02-29").
Proof.
  split.
  - apply (@date_literal_checked ascii_only 1 1 1 2024 2 30); unfold u32_max; lia.
  - apply (@date_literal_checked ascii_only 1 1 1 2024 2 29); unfold u32_max; lia.
Defined.
