(* ===== verification/Interval.v ===== *)
(** * Intervals

    [src/src/impls/interval.rs].  An [INTERVAL] operand becomes SQLite date
    modifiers ([IntervalFields]), and an interval literal becomes the text
    PostgreSQL prints for it ([LiteralFields]).  Counts are 128-bit: [checked_*]
    answers [None] outside the range, and the arithmetic the code leaves
    unchecked (a negation, the addition of [rounding_div]) wraps, as it does in a
    build without overflow checks. *)

From S2P Require Import Prelude Text Errors Ast Exprs.

Definition MICROS_PER_DAY : Z := 86400000000.
Definition MICROS_PER_HOUR : Z := 3600000000.
Definition MICROS_PER_MINUTE : Z := 60000000.
Definition MICROS_PER_SECOND : Z := 1000000.
Definition DAYS_PER_FRACTIONAL_MONTH : Z := 30.

Inductive UnitScale :=
| Month
| Months (per_unit : Z)
| Micros (per_unit : Z).

Definition unit_scale (word : str) : option UnitScale :=
  if one_of word ["microsecond"; "microseconds"; "us"; "usec"; "usecs"; "useconds"]%string
  then Some (Micros 1)
  else if one_of word ["millisecond"; "milliseconds"; "ms"; "msec"; "msecs"; "mseconds"]%string
  then Some (Micros 1000)
  else if one_of word ["second"; "seconds"; "sec"; "secs"; "s"]%string
  then Some (Micros MICROS_PER_SECOND)
  else if one_of word ["minute"; "minutes"; "min"; "mins"; "m"]%string
  then Some (Micros MICROS_PER_MINUTE)
  else if one_of word ["hour"; "hours"; "hr"; "hrs"; "h"]%string then Some (Micros MICROS_PER_HOUR)
  else if one_of word ["day"; "days"; "d"]%string then Some (Micros MICROS_PER_DAY)
  else if one_of word ["week"; "weeks"; "w"]%string then Some (Micros (7 * MICROS_PER_DAY))
  else if one_of word ["month"; "months"; "mon"; "mons"]%string then Some Month
  else if one_of word ["year"; "years"; "yr"; "yrs"; "y"]%string then Some (Months 12)
  else if one_of word ["decade"; "decades"; "dec"; "decs"]%string then Some (Months 120)
  else if one_of word ["century"; "centuries"; "cent"]%string then Some (Months 1200)
  else if one_of word ["millennium"; "millennia"; "mil"; "mils"]%string then Some (Months 12000)
  else None.

Record Decimal := { numerator : Z; denominator : Z }.

(** The digits of a numeral, accumulated with overflow checks. *)
Fixpoint accumulate (acc : Z) (bytes : str) : option Z :=
  match bytes with
  | [] => Some acc
  | byte :: bytes =>
      ten ← checked_mul acc 10; acc ← checked_add ten (byte - 48); accumulate acc bytes
  end.

(** [Decimal::parse]. *)
Definition decimal_parse (text : str) : option Decimal :=
  first ← head text;
  let '(negative, digits) := if first =? 45 then (true, drop 1 text)
                             else if first =? 43 then (false, drop 1 text)
                             else (false, text) in
  let '(whole, fraction) := default (digits, []) (split_once 46 digits) in
  if negb (is_nonempty whole) && negb (is_nonempty fraction) then None
  else if negb (all_digits (whole ++ fraction)) then None
  else
    denominator ← checked (10 ^ Z.of_nat (length fraction));
    numerator ← accumulate 0 (whole ++ fraction);
    Some {| numerator := if negative : bool then neg_i128 numerator else numerator;
            denominator := denominator |}.

Definition truncating_div (numerator denominator : Z) : Z := numerator ÷ denominator.

Definition rounding_div (numerator denominator : Z) : Z :=
  let half := denominator ÷ 2 in
  if 0 <=? numerator then wrap_i128 (numerator + half) ÷ denominator
  else wrap_i128 (numerator - half) ÷ denominator.

(** ** Date modifiers *)

Record IntervalFields := { if_months : Z; if_micros : Z }.

Definition interval_default : IntervalFields := {| if_months := 0; if_micros := 0 |}.

Definition interval_add (self : IntervalFields) (count : Decimal) (scale : UnitScale)
    : option IntervalFields :=
  match scale with
  | Months per_unit =>
      scaled ← checked_mul (numerator count) per_unit;
      months ← checked_add (if_months self) (rounding_div scaled (denominator count));
      Some {| if_months := months; if_micros := if_micros self |}
  | Month =>
      let whole := truncating_div (numerator count) (denominator count) in
      months ← checked_add (if_months self) whole;
      product ← checked_mul whole (denominator count);
      remainder ← checked_sub (numerator count) product;
      spilled ← checked_mul remainder (DAYS_PER_FRACTIONAL_MONTH * MICROS_PER_DAY);
      micros ← checked_add (if_micros self) (truncating_div spilled (denominator count));
      Some {| if_months := months; if_micros := micros |}
  | Micros per_unit =>
      scaled ← checked_mul (numerator count) per_unit;
      micros ← checked_add (if_micros self) (truncating_div scaled (denominator count));
      Some {| if_months := if_months self; if_micros := micros |}
  end.

Definition interval_negate (self : IntervalFields) : IntervalFields :=
  {| if_months := neg_i128 (if_months self); if_micros := neg_i128 (if_micros self) |}.

Definition interval_scale (self : IntervalFields) (factor : Z) : option IntervalFields :=
  months ← checked_mul (if_months self) factor;
  micros ← checked_mul (if_micros self) factor;
  Some {| if_months := months; if_micros := micros |}.

Definition signed (count : Z) (unit_name : str) : str :=
  [if count <? 0 then 45 else 43] ++ dec (Z.abs count) ++ lit " " ++ unit_name.

Definition time_modifier (micros : Z) : str :=
  if micros %% MICROS_PER_HOUR =? 0 then signed (micros ÷ MICROS_PER_HOUR) (lit "hours")
  else if micros %% MICROS_PER_MINUTE =? 0 then signed (micros ÷ MICROS_PER_MINUTE) (lit "minutes")
  else if micros %% MICROS_PER_SECOND =? 0 then signed (micros ÷ MICROS_PER_SECOND) (lit "seconds")
  else
    let magnitude := Z.abs micros in
    let fraction := dec_pad 6 (magnitude %% MICROS_PER_SECOND) in
    [if micros <? 0 then 45 else 43] ++ dec (magnitude ÷ MICROS_PER_SECOND) ++ lit "."
    ++ trim_end_matches (Z.eqb 48) fraction ++ lit " seconds".

(** [IntervalFields::modifiers]. *)
Definition modifiers (self : IntervalFields) : list str :=
  let days := if_micros self ÷ MICROS_PER_DAY in
  let time := if_micros self %% MICROS_PER_DAY in
  (if if_months self =? 0 then [] else [signed (if_months self) (lit "months"); lit "floor"])
  ++ (if days =? 0 then [] else [signed days (lit "days")])
  ++ (if time =? 0 then [] else [time_modifier time]).

(** The parser's [Interval]; its unit clauses as they are displayed. *)
Record Interval (Payload : Type) := {
  interval_value : Expr Payload; leading_field : option str; last_field : option str }.
Arguments interval_value {_}. Arguments leading_field {_}. Arguments last_field {_}.

Section Operands.
Context `{Unicode} {Payload : Type}.

(** [tokens.chunks(2)] of an even number of tokens. *)
Fixpoint chunk_pairs (tokens : list str) : list (str * str) :=
  match tokens with
  | count :: unit_name :: tokens => (count, to_lowercase unit_name) :: chunk_pairs tokens
  | _ => []
  end.

Definition unit_pairs (interval : Interval Payload) : option (list (str * str)) :=
  match last_field interval with
  | Some _ => None
  | None =>
      body ← single_quoted_literal (interval_value interval);
      let tokens := split_whitespace body in
      match leading_field interval with
      | Some field =>
          match tokens with [count] => Some [(count, to_lowercase field)] | _ => None end
      | None =>
          if match tokens with [] => true | _ => negb (Nat.even (length tokens)) end then None
          else Some (chunk_pairs tokens)
      end
  end.

(** The loop over the pairs. *)
Fixpoint add_pairs (fields : IntervalFields) (pairs : list (str * str)) : result Error IntervalFields :=
  match pairs with
  | [] => Ok fields
  | (count, unit_name) :: pairs =>
      match decimal_parse count with
      | None => Err (forward_refusal
          (lit "INTERVAL '" ++ count ++ lit " " ++ unit_name ++ lit "' cannot be translated: " ++ count
           ++ lit " is not a plain decimal count. Write the interval as a sequence of count and unit pairs, such as INTERVAL '1 month 2 days'."))
      | Some parsed =>
          match unit_scale unit_name with
          | None => Err (forward_refusal
              (lit "INTERVAL unit '" ++ unit_name
               ++ lit "' is not a PostgreSQL interval unit, so it has no SQLite date modifier. The units are microsecond, millisecond, second, minute, hour, day, week, month, year, decade, century and millennium, with their usual abbreviations."))
          | Some scale =>
              match interval_add fields parsed scale with
              | None => Err (forward_refusal
                  (lit "INTERVAL '" ++ count ++ lit " " ++ unit_name
                   ++ lit "' is too large to translate: the count overflows the months and microseconds PostgreSQL would hold it in."))
              | Some fields => add_pairs fields pairs
              end
          end
      end
  end.

Definition interval_date_modifiers_scaled (interval : Interval Payload) (negate : bool) (factor : Z)
    : result Error (option (list str)) :=
  match unit_pairs interval with
  | None => Ok None
  | Some pairs =>
      fields ← add_pairs interval_default pairs;
      match interval_scale fields factor with
      | None => Err (forward_refusal
          (lit "INTERVAL scaled by " ++ dec_signed factor
           ++ lit " overflows the months and microseconds it would hold."))
      | Some fields =>
          let fields := if negate then interval_negate fields else fields in
          Ok (Some (modifiers fields))
      end
  end.

Definition interval_date_modifiers (interval : Interval Payload) (negate : bool)
    : result Error (option (list str)) := interval_date_modifiers_scaled interval negate 1.
End Operands.

(** ** Literals *)

Inductive LiteralScale :=
| LMonths (per_unit : Z)
| LMonth
| LDays (per_unit : Z)
| LMicros (per_unit : Z).

Definition literal_unit_scale (word : str) : option LiteralScale :=
  if one_of word ["day"; "days"; "d"]%string then Some (LDays 1)
  else if one_of word ["week"; "weeks"; "w"]%string then Some (LDays 7)
  else
    scale ← unit_scale word;
    Some match scale with
         | Month => LMonth
         | Months per_unit => LMonths per_unit
         | Micros per_unit => LMicros per_unit
         end.

Record LiteralFields := { months : Z; days : Z; micros : Z }.

Definition literal_default : LiteralFields := {| months := 0; days := 0; micros := 0 |}.

Definition add_micros (self : LiteralFields) (amount : Z) : option LiteralFields :=
  days' ← checked_add (days self) (amount ÷ MICROS_PER_DAY);
  micros' ← checked_add (micros self) (amount %% MICROS_PER_DAY);
  Some {| months := months self; days := days'; micros := micros' |}.

Definition literal_add (self : LiteralFields) (count : Decimal) (scale : LiteralScale)
    : option LiteralFields :=
  match scale with
  | LMonths per_unit =>
      scaled ← checked_mul (numerator count) per_unit;
      months' ← checked_add (months self) (rounding_div scaled (denominator count));
      Some {| months := months'; days := days self; micros := micros self |}
  | LMonth =>
      let whole := truncating_div (numerator count) (denominator count) in
      months' ← checked_add (months self) whole;
      product ← checked_mul whole (denominator count);
      remainder ← checked_sub (numerator count) product;
      spilled ← checked_mul remainder (DAYS_PER_FRACTIONAL_MONTH * MICROS_PER_DAY);
      add_micros {| months := months'; days := days self; micros := micros self |}
        (truncating_div spilled (denominator count))
  | LDays per_unit =>
      scaled ← checked_mul (numerator count) per_unit;
      let whole := truncating_div scaled (denominator count) in
      days' ← checked_add (days self) whole;
      product ← checked_mul whole (denominator count);
      remainder ← checked_sub scaled product;
      spilled ← checked_mul remainder MICROS_PER_DAY;
      micros' ← checked_add (micros self) (truncating_div spilled (denominator count));
      Some {| months := months self; days := days'; micros := micros' |}
  | LMicros per_unit =>
      scaled ← checked_mul (numerator count) per_unit;
      micros' ← checked_add (micros self) (truncating_div scaled (denominator count));
      Some {| months := months self; days := days self; micros := micros' |}
  end.

Definition literal_negate (self : LiteralFields) : LiteralFields :=
  {| months := neg_i128 (months self); days := neg_i128 (days self); micros := neg_i128 (micros self) |}.

Definition clock_text (amount : Z) : str :=
  let magnitude := Z.abs amount in
  let seconds_total := magnitude ÷ MICROS_PER_SECOND in
  let fraction := magnitude %% MICROS_PER_SECOND in
  let clock := (if amount <? 0 then lit "-" else [])
               ++ dec_pad 2 (seconds_total ÷ 3600) ++ lit ":"
               ++ dec_pad 2 ((seconds_total %% 3600) ÷ 60) ++ lit ":"
               ++ dec_pad 2 (seconds_total %% 60) in
  if fraction =? 0 then clock
  else clock ++ lit "." ++ trim_end_matches (Z.eqb 48) (dec_pad 6 fraction).

(** [format!("{n} {unit}")], the unit plural unless [n] is one. *)
Definition count_text (n : Z) (one many : string) : str :=
  dec_signed n ++ lit " " ++ (if n =? 1 then lit one else lit many).

Definition to_postgres_text (self : LiteralFields) : str :=
  let years := months self ÷ 12 in
  let months := months self %% 12 in
  let parts :=
    (if years =? 0 then [] else [count_text years "year" "years"])
    ++ (if months =? 0 then [] else [count_text months "mon" "mons"])
    ++ (if days self =? 0 then [] else [count_text (days self) "day" "days"]) in
  let parts := if negb (micros self =? 0) || match parts with [] => true | _ => false end
               then parts ++ [clock_text (micros self)] else parts in
  join (lit " ") parts.

Definition unreadable_interval (text reason : str) : Error :=
  forward_refusal
    (lit "invalid input syntax for type interval: " ++ quoted text ++ lit ": " ++ reason
     ++ lit ". The replica stores an interval column as the text PostgreSQL prints for it, so a value it cannot read is a value the two databases would disagree about. Write it as a count and a unit, a clock reading, or an ISO 8601 duration.").

Definition split_count_and_unit (token : str) : str * option str :=
  match find is_ascii_alphabetic token with
  | Some index => (take index token, Some (drop index token))
  | None => (token, None)
  end.

Definition add_unit (fields : LiteralFields) (count unit_name text : str) : result Error LiteralFields :=
  match decimal_parse count with
  | None => Err (unreadable_interval text (lit "'" ++ count ++ lit "' is not a number"))
  | Some parsed =>
      match literal_unit_scale (to_ascii_lowercase unit_name) with
      | None => Err (unreadable_interval text (lit "'" ++ unit_name ++ lit "' is not an interval unit"))
      | Some scale =>
          ok_or (literal_add fields parsed scale)
            (unreadable_interval text (lit "the counts overflow what PostgreSQL holds"))
      end
  end.

(** An optional sign: whether it is a minus, and what follows it. *)
Definition split_sign (s : str) : bool * str :=
  match strip_prefix_char 45 s with
  | Some rest => (true, rest)
  | None => (false, default s (strip_prefix_char 43 s))
  end.

Definition add_clock_token (fields : LiteralFields) (leading_days : option str) (token text : str)
    : result Error LiteralFields :=
  fields ← match leading_days with
           | Some days => add_unit fields days (lit "days") text
           | None => Ok fields
           end;
  let '(negative, clock) := split_sign token in
  let parts := split (Z.eqb 58) clock in
  let hours := default [] (parts !! 0%nat) in
  let minutes := default [] (parts !! 1%nat) in
  let seconds := default (lit "0") (parts !! 2%nat) in
  match parts !! 3%nat with
  | Some _ => Err (unreadable_interval text (lit "a clock reading has three parts at most"))
  | None =>
      clock_fields ← add_unit literal_default hours (lit "hours") text;
      clock_fields ← add_unit clock_fields minutes (lit "minutes") text;
      clock_fields ← add_unit clock_fields seconds (lit "seconds") text;
      let clock_fields := if negative : bool then literal_negate clock_fields else clock_fields in
      match checked_add (micros fields) (micros clock_fields) with
      | None => Err (unreadable_interval text (lit "the counts overflow what PostgreSQL holds"))
      | Some micros => Ok {| months := months fields; days := days fields; micros := micros |}
      end
  end.

Definition parse_year_month_interval (body : str) : option LiteralFields :=
  let '(negative, digits) := split_sign body in
  '(years, months) ← split_once 45 digits;
  if negb (is_nonempty years) || negb (is_nonempty months) || negb (all_digits (years ++ months))
  then None
  else
    years ← parse_unsigned i128_max years;
    years ← checked_mul years 12;
    months ← parse_unsigned i128_max months;
    total ← checked_add years months;
    Some {| months := if negative : bool then neg_i128 total else total; days := 0; micros := 0 |}.

(** The unit an ISO 8601 designator stands for. *)
Definition designator_unit (designator : Z) (in_time : bool) : option str :=
  let letter c := lower_char designator =? c in
  if letter 121 then Some (lit "years")
  else if letter 109 && negb in_time then Some (lit "months")
  else if letter 119 then Some (lit "weeks")
  else if letter 100 then Some (lit "days")
  else if letter 104 && in_time then Some (lit "hours")
  else if letter 109 && in_time then Some (lit "minutes")
  else if letter 115 && in_time then Some (lit "seconds")
  else None.

(** The loop of [parse_iso_interval] over [rest[count_start..]].  Every turn
    consumes a character, so the fuel [parse_iso_interval] gives is enough
    ([iso_loop_total]). *)
Fixpoint iso_loop (fuel : nat) (fields : LiteralFields) (in_time : bool) (rest text : str)
    : option (result Error LiteralFields) :=
  match fuel with
  | O => None
  | S fuel =>
      match rest with
      | [] => Some (Ok fields)
      | c :: after =>
          if lower_char c =? 116 then iso_loop fuel fields true after text
          else
            match find is_ascii_alphabetic rest with
            | None => Some (Err (unreadable_interval text (lit "a count has no unit designator")))
            | Some designator_at =>
                let designator := nth designator_at rest 0 in
                match designator_unit designator in_time with
                | None => Some (Err (unreadable_interval text
                    (lit "'" ++ [designator] ++ lit "' is not an ISO 8601 interval designator here")))
                | Some unit_name =>
                    match add_unit fields (take designator_at rest) unit_name text with
                    | Err error => Some (Err error)
                    | Ok fields => iso_loop fuel fields in_time (drop (designator_at + 1) rest) text
                    end
                end
            end
      end
  end.

Definition parse_iso_interval (body text : str) : option (result Error LiteralFields) :=
  let rest := drop 1 body in iso_loop (S (length rest)) literal_default false rest text.

(** One token of the verbose form: the fields and the count still waiting for
    its unit. *)
Definition add_token (text : str) (fields : LiteralFields) (pending : option str) (token : str)
    : result Error (LiteralFields * option str) :=
  if contains_char 58 token then
    fields ← add_clock_token fields pending token text; Ok (fields, None)
  else
    let '(count, unit_name) := split_count_and_unit token in
    match unit_name with
    | Some unit_name =>
        if negb (is_nonempty count) then
          count ← ok_or pending (unreadable_interval text (lit "'" ++ unit_name ++ lit "' has no count"));
          fields ← add_unit fields count unit_name text;
          Ok (fields, None)
        else
          fields ← match pending with
                   | Some previous => add_unit fields previous (lit "seconds") text
                   | None => Ok fields
                   end;
          fields ← add_unit fields count unit_name text;
          Ok (fields, None)
    | None =>
        match pending with
        | Some previous => Err (unreadable_interval text (lit "'" ++ previous ++ lit "' names no unit"))
        | None => Ok (fields, Some count)
        end
    end.

Fixpoint add_tokens (text : str) (fields : LiteralFields) (pending : option str) (tokens : list str)
    : result Error (LiteralFields * option str) :=
  match tokens with
  | [] => Ok (fields, pending)
  | token :: tokens =>
      '(fields, pending) ← add_token text fields pending token;
      add_tokens text fields pending tokens
  end.

Definition parse_interval_fields (body text : str) : option (result Error LiteralFields) :=
  if match body with c :: _ => lower_char c =? 112 | [] => false end
  then parse_iso_interval body text
  else match parse_year_month_interval body with
       | Some fields => Some (Ok fields)
       | None => Some
           ('(fields, pending) ← add_tokens text literal_default None (split_whitespace body);
            match pending with
            | Some seconds => add_unit fields seconds (lit "seconds") text
            | None => Ok fields
            end)
       end.

(** [normalize_interval_literal].  The outer option is the fuel of the ISO
    loop. *)
Definition normalize_interval_literal (text : str) : option (result Error str) :=
  let body := trim (default (trim text) (strip_prefix_char 64 (trim text))) in
  let '(body, negated) :=
    match strip_suffix (lit "ago") (to_ascii_lowercase body) with
    | Some head => if negb (is_nonempty head) || ends_with (lit " ") head
                   then (take (length head) body, true) else (body, false)
    | None => (body, false)
    end in
  parsed ← parse_interval_fields (trim body) text;
  Some (fields ← parsed;
        let fields := if negated : bool then literal_negate fields else fields in
        Ok (to_postgres_text fields)).


(** ** Numbers as they are written *)

Ltac ranges := unfold i128_min, i128_max in *.

Lemma accumulate_digits bytes acc :
  all_digits bytes = true → 0 <= acc →
  acc * 10 ^ Z.of_nat (length bytes) + digits_value bytes <= i128_max →
  accumulate acc bytes = Some (acc * 10 ^ Z.of_nat (length bytes) + digits_value bytes).
Proof.
  revert acc. induction bytes as [|c s IH]; intros acc Hd Ha Hm.
  - cbn. unfold digits_value. cbn. f_equal. lia.
  - rewrite all_digits_cons in Hd. bools. cbn [accumulate].
    pose proof (digits_value_bound s ltac:(done)) as Hs.
    rewrite length_cons, Nat2Z.inj_succ, Z.pow_succ_r in * by lia.
    rewrite digits_value_cons in *. set (p := 10 ^ Z.of_nat (length s)) in *.
    assert (Hc : 0 <= c - 48 <= 9) by (unfold is_ascii_digit in *; lia). unfold digit_value in *.
    assert (1 <= p) by lia. assert (Hstep : (acc * 10 + (c - 48)) * p + digits_value s <= i128_max) by nia.
    unfold checked_mul, checked_add. rewrite (checked_ok (acc * 10)) by (ranges; nia). cbn [mbind option_bind].
    rewrite checked_ok by (ranges; nia). cbn [mbind option_bind].
    rewrite IH; [f_equal; ring | done | lia | exact Hstep].
Qed.

(** A count as written: an optional sign, then digits. *)
Lemma decimal_parse_digits (negative : bool) s :
  s ≠ [] → all_digits s = true → digits_value s <= i128_max →
  decimal_parse ((if negative then [45] else []) ++ s)
  = Some {| numerator := if negative then - digits_value s else digits_value s; denominator := 1 |}.
Proof.
  intros Hne Hd Hm. pose proof (digits_value_bound s Hd) as Hb.
  assert (Hdot : split_once 46 s = None).
  { apply split_once_free. eapply forallb_free; [|exact Hd]. intros c Hc. unfold is_ascii_digit in Hc. lia. }
  unfold decimal_parse. destruct s as [|c s]; [done|].
  assert (Hc : is_ascii_digit c = true) by (rewrite all_digits_cons in Hd; by bools).
  assert (Hc45 : (c =? 45) = false ∧ (c =? 43) = false) by (unfold is_ascii_digit in Hc; lia).
  destruct negative; cbn [app head mbind option_bind].
  - cbn [drop]. change (45 =? 45) with true. cbv iota. rewrite ?drop_0, Hdot. unfold default, id. cbn [is_nonempty negb andb].
    rewrite app_nil_r, Hd. cbn [negb]. rewrite accumulate_digits by (try done; lia).
    cbn [mbind option_bind length Z.of_nat]. rewrite Z.mul_0_l, Z.add_0_l.
    rewrite neg_i128_exact by (ranges; lia). reflexivity.
  - destruct Hc45 as [-> ->]. rewrite Hdot. unfold default, id. cbn [is_nonempty negb andb].
    rewrite app_nil_r, Hd. cbn [negb]. rewrite accumulate_digits by (try done; lia).
    reflexivity.
Qed.

(** A count with a fraction. *)
Lemma decimal_parse_fraction w f :
  w ≠ [] → all_digits w = true → all_digits f = true → digits_value (w ++ f) <= i128_max →
  10 ^ Z.of_nat (length f) <= i128_max →
  decimal_parse (w ++ 46 :: f)
  = Some {| numerator := digits_value (w ++ f); denominator := 10 ^ Z.of_nat (length f) |}.
Proof.
  intros Hne Hw Hf Hm Hp.
  assert (Hdot : split_once 46 (w ++ 46 :: f) = Some (w, f)).
  { apply split_once_app. eapply forallb_free; [|exact Hw]. intros c Hc. unfold is_ascii_digit in Hc. lia. }
  assert (Hd : all_digits (w ++ f) = true) by (by rewrite all_digits_app, Hw).
  pose proof (digits_value_bound (w ++ f) Hd) as Hb.
  assert (0 < 10 ^ Z.of_nat (length f)) by (apply Z.pow_pos_nonneg; lia).
  unfold decimal_parse. destruct w as [|c w]; [done|].
  assert (Hc : is_ascii_digit c = true) by (rewrite all_digits_cons in Hw; by bools).
  cbn [app head mbind option_bind].
  replace (c =? 45) with false by (unfold is_ascii_digit in Hc; lia).
  replace (c =? 43) with false by (unfold is_ascii_digit in Hc; lia).
  change (c :: w ++ 46 :: f) with ((c :: w) ++ 46 :: f). rewrite Hdot. unfold default, id. cbn [is_nonempty negb andb].
  rewrite Hd. cbn [negb]. rewrite checked_ok by (ranges; lia). cbn [mbind option_bind].
  rewrite accumulate_digits by (try done; lia). reflexivity.
Qed.

Lemma dec_signed_eq n : dec_signed n = (if n <? 0 then [45] else []) ++ dec (Z.abs n).
Proof. unfold dec_signed. destruct (n <? 0) eqn:E; cbn [app]; do 2 f_equal; lia. Qed.

Lemma decimal_parse_signed n :
  Z.abs n <= i128_max → decimal_parse (dec_signed n) = Some {| numerator := n; denominator := 1 |}.
Proof.
  intros Hn. rewrite dec_signed_eq, decimal_parse_digits.
  - rewrite dec_value by lia. do 2 f_equal. destruct (n <? 0) eqn:E; lia.
  - apply dec_nonempty.
  - apply dec_digits; lia.
  - rewrite dec_value; lia.
Qed.

(** ** What a unit adds *)

Lemma rounding_div_1 n : i128_min <= n <= i128_max → rounding_div n 1 = n.
Proof.
  intros Hn. unfold rounding_div. change (1 ÷ 2) with 0. rewrite Z.add_0_r, Z.sub_0_r, wrap_i128_id, Z.quot_1_r by done.
  by destruct (0 <=? n).
Qed.

(** Rounding is to the nearest, halves away from zero, as long as the addition
    of the half stays in range. *)
Lemma rounding_div_spec n d :
  0 < d → Z.abs n + d <= i128_max →
  2 * Z.abs (rounding_div n d * d - n) <= d ∧ (rounding_div (- n) d = - rounding_div n d).
Proof.
  intros Hd Hm. unfold rounding_div. rewrite (Z.quot_div_nonneg d 2) by lia.
  pose proof (Z.div_mod d 2 ltac:(done)). pose proof (Z.mod_pos_bound d 2 eq_refl).
  rewrite !wrap_i128_id by (ranges; lia).
  assert (Habs : ∀ m, 0 <= m → 2 * Z.abs ((m + d / 2) ÷ d * d - m) <= d).
  { intros m Hp. rewrite Z.quot_div_nonneg by lia. pose proof (Z.div_mod (m + d / 2) d ltac:(lia)).
    pose proof (Z.mod_pos_bound (m + d / 2) d Hd). lia. }
  assert (Hopp : ∀ m, (- m - d / 2) ÷ d = - ((m + d / 2) ÷ d)).
  { intros m. rewrite <- Z.quot_opp_l by lia. f_equal. lia. }
  split.
  - destruct (0 <=? n) eqn:E; [apply Habs; lia|].
    specialize (Habs (- n) ltac:(lia)). specialize (Hopp (- n)). rewrite Z.opp_involutive in Hopp.
    rewrite Hopp. lia.
  - destruct (Z.compare_spec n 0) as [->|Hn|Hn].
    + change (0 <=? - 0) with true. change (0 <=? 0) with true. cbv iota.
      change (- 0) with 0. rewrite !Z.quot_small by lia. done.
    + replace (0 <=? - n) with true by lia. replace (0 <=? n) with false by lia.
      specialize (Hopp (- n)). rewrite Z.opp_involutive in Hopp. rewrite Hopp. lia.
    + replace (0 <=? - n) with false by lia. replace (0 <=? n) with true by lia. apply Hopp.
Qed.

Definition whole (n : Z) : Decimal := {| numerator := n; denominator := 1 |}.

Lemma literal_add_months self n k :
  i128_min <= n * k <= i128_max → i128_min <= months self + n * k <= i128_max →
  literal_add self (whole n) (LMonths k)
  = Some {| months := months self + n * k; days := days self; micros := micros self |}.
Proof.
  intros Hk Hm. cbn [literal_add whole numerator denominator]. unfold checked_mul, checked_add.
  rewrite checked_ok by done. cbn [mbind option_bind]. by rewrite rounding_div_1, checked_ok.
Qed.

Lemma literal_add_month self n :
  i128_min <= n <= i128_max → i128_min <= months self + n <= i128_max →
  i128_min <= days self <= i128_max → i128_min <= micros self <= i128_max →
  literal_add self (whole n) LMonth
  = Some {| months := months self + n; days := days self; micros := micros self |}.
Proof.
  intros Hn Hm Hd Hu. cbn [literal_add whole numerator denominator].
  unfold truncating_div, checked_mul, checked_add, checked_sub. rewrite Z.quot_1_r, Z.mul_1_r.
  rewrite (checked_ok (months self + n)) by done. cbn [mbind option_bind].
  rewrite (checked_ok n) by done. cbn [mbind option_bind]. rewrite Z.sub_diag.
  rewrite (checked_ok 0) by (ranges; lia). cbn [mbind option_bind]. rewrite Z.mul_0_l, checked_ok by (ranges; lia).
  cbn [mbind option_bind]. change (0 ÷ 1) with 0. unfold add_micros, checked_add. cbn [months days micros].
  change (0 ÷ MICROS_PER_DAY) with 0. change (0 %% MICROS_PER_DAY) with 0. rewrite !Z.add_0_r.
  rewrite checked_ok by done. cbn [mbind option_bind]. by rewrite checked_ok.
Qed.

Lemma literal_add_days self n :
  i128_min <= n <= i128_max → i128_min <= days self + n <= i128_max →
  i128_min <= micros self <= i128_max →
  literal_add self (whole n) (LDays 1)
  = Some {| months := months self; days := days self + n; micros := micros self |}.
Proof.
  intros Hn Hd Hu. cbn [literal_add whole numerator denominator].
  unfold truncating_div, checked_mul, checked_add, checked_sub. rewrite Z.mul_1_r.
  rewrite (checked_ok n) by done. cbn [mbind option_bind]. rewrite Z.quot_1_r, Z.mul_1_r.
  rewrite (checked_ok (days self + n)) by done. cbn [mbind option_bind].
  rewrite (checked_ok n) by done. cbn [mbind option_bind]. rewrite Z.sub_diag.
  rewrite (checked_ok 0) by (ranges; lia). cbn [mbind option_bind].
  rewrite Z.mul_0_l, checked_ok by (ranges; lia). cbn [mbind option_bind]. change (0 ÷ 1) with 0.
  rewrite Z.add_0_r. by rewrite checked_ok.
Qed.

Lemma literal_add_micros self n d k q :
  0 < d → n * k = q * d → i128_min <= n * k <= i128_max → i128_min <= micros self + q <= i128_max →
  literal_add self {| numerator := n; denominator := d |} (LMicros k)
  = Some {| months := months self; days := days self; micros := micros self + q |}.
Proof.
  intros Hd Hq Hn Hu. cbn [literal_add numerator denominator]. unfold truncating_div, checked_mul, checked_add.
  rewrite checked_ok by done. cbn [mbind option_bind]. rewrite Hq, Z.quot_mul by lia. by rewrite checked_ok.
Qed.

(** ** Reading printed text *)

Lemma add_unit_ok fields count unit_name text d scale fields' :
  decimal_parse count = Some d → literal_unit_scale (to_ascii_lowercase unit_name) = Some scale →
  literal_add fields d scale = Some fields' → add_unit fields count unit_name text = Ok fields'.
Proof. intros Hd Hs Ha. unfold add_unit. by rewrite Hd, Hs, Ha. Qed.

Lemma signed_free (p : Z → bool) n :
  p 45 = false → (∀ c, is_ascii_digit c = true → p c = false) → free p (dec_signed n).
Proof.
  intros H45 Hd. rewrite dec_signed_eq. apply free_app. split; [destruct (n <? 0); by repeat constructor|].
  apply (forallb_free is_ascii_digit); [done|]. apply dec_digits. lia.
Qed.

Lemma add_token_count text fields n :
  add_token text fields None (dec_signed n) = Ok (fields, Some (dec_signed n)).
Proof.
  unfold add_token. assert (contains_char 58 (dec_signed n) = false) as ->.
  { apply existsb_false, signed_free; [done|]. intros c. unfold is_ascii_digit. lia. }
  unfold split_count_and_unit. rewrite find_free; [done|]. apply signed_free; [done|]. intros c.
  unfold is_ascii_digit, is_ascii_alphabetic, is_ascii_uppercase, is_ascii_lowercase. lia.
Qed.

Definition unit_word (word : str) (scale : LiteralScale) : Prop :=
  contains_char 58 word = false ∧ split_count_and_unit word = ([], Some word)
  ∧ literal_unit_scale (to_ascii_lowercase word) = Some scale.

Lemma add_group text fields fields' n word scale rest :
  unit_word word scale → Z.abs n <= i128_max → literal_add fields (whole n) scale = Some fields' →
  add_tokens text fields None (dec_signed n :: word :: rest) = add_tokens text fields' None rest.
Proof.
  intros (Hc & Hs & Hu) Hn Ha. cbn [add_tokens]. rewrite add_token_count. cbn [mbind result_bind add_tokens].
  unfold add_token at 1. rewrite Hc, Hs. cbn [is_nonempty negb ok_or mbind result_bind].
  by rewrite (add_unit_ok _ _ _ _ (whole n) scale fields') by (done || by apply decimal_parse_signed).
Qed.

(** The seconds of a clock and their fraction. *)
Definition seconds_text (s fraction : Z) : str :=
  dec_pad 2 s ++ (if fraction =? 0 then [] else 46 :: trim_end_matches (Z.eqb 48) (dec_pad 6 fraction)).

Lemma decimal_parse_pad w n :
  0 <= n <= i128_max → decimal_parse (dec_pad w n) = Some (whole n).
Proof.
  intros Hn. pose proof (decimal_parse_digits false (dec_pad w n)) as Hp. cbn [app] in Hp.
  rewrite dec_pad_value in Hp by lia.
  apply Hp; [apply dec_pad_nonempty | apply dec_pad_digits; lia | lia].
Qed.

Lemma add_seconds fields text s fraction :
  0 <= s <= 59 → 0 <= fraction < 1000000 →
  i128_min <= micros fields <= i128_max →
  micros fields + (s * 1000000 + fraction) <= i128_max →
  add_unit fields (seconds_text s fraction) (lit "seconds") text
  = Ok {| months := months fields; days := days fields; micros := micros fields + (s * 1000000 + fraction) |}.
Proof.
  intros Hs Hf Hmin Hmax. unfold seconds_text. destruct (Z.eqb_spec fraction 0) as [->|Hne].
  - rewrite app_nil_r, Z.add_0_r. eapply add_unit_ok; [apply decimal_parse_pad; ranges; lia | reflexivity |].
    apply literal_add_micros; unfold MICROS_PER_SECOND; ranges; lia.
  - assert (Hd6 : all_digits (dec_pad 6 fraction) = true) by (apply dec_pad_digits; lia).
    assert (Hl6 : length (dec_pad 6 fraction) = 6%nat) by (apply dec_pad_length; [lia|change (10 ^ Z.of_nat 6) with 1000000; lia]).
    assert (Hv6 : digits_value (dec_pad 6 fraction) = fraction) by (apply dec_pad_value; lia).
    destruct (trim_zeros _ Hd6) as [z Hz]. set (t := trim_end_matches _ _) in *.
    rewrite Hz in Hd6, Hl6, Hv6. rewrite all_digits_app in Hd6. bools.
    rewrite length_app, length_replicate in Hl6.
    rewrite digits_value_app, length_replicate in Hv6.
    assert (Hr0 : digits_value (replicate z 48) = 0).
    { pose proof (digits_value_zeros z []) as Hz0. rewrite app_nil_r in Hz0. exact Hz0. }
    pose proof (digits_value_bound t ltac:(done)) as Ht.
    set (pt := 10 ^ Z.of_nat (length t)) in *. set (pz := 10 ^ Z.of_nat z) in *.
    assert (Hpp : pt * pz = 1000000).
    { unfold pt, pz. rewrite <- Z.pow_add_r by lia. rewrite <- Nat2Z.inj_add, Hl6. reflexivity. }
    assert (Hpt : 0 < pt) by (apply Z.pow_pos_nonneg; lia).
    assert (Hpz : 0 < pz) by (apply Z.pow_pos_nonneg; lia).
    assert (Hval : digits_value (dec_pad 2 s ++ t) = s * pt + digits_value t).
    { rewrite digits_value_app, dec_pad_value by lia. done. }
    assert (Hptm : pt <= 1000000) by nia.
    eapply add_unit_ok; [apply decimal_parse_fraction| reflexivity |]; fold pt; rewrite ?Hval.
    + apply dec_pad_nonempty.
    + apply dec_pad_digits; lia.
    + done.
    + ranges; nia.
    + ranges; lia.
    + apply literal_add_micros; unfold MICROS_PER_SECOND; ranges; nia.
Qed.

(** The fields of a clock. *)
Lemma clock_text_eq a :
  ∃ h m s f, 0 <= h ∧ 0 <= m <= 59 ∧ 0 <= s <= 59 ∧ 0 <= f < 1000000
  ∧ Z.abs a = ((h * 60 + m) * 60 + s) * 1000000 + f
  ∧ clock_text a = (if a <? 0 then [45] else [])
                   ++ dec_pad 2 h ++ 58 :: dec_pad 2 m ++ 58 :: seconds_text s f.
Proof.
  unfold clock_text, seconds_text, MICROS_PER_SECOND. set (M := Z.abs a). assert (0 <= M) by lia.
  exists (M ÷ 1000000 ÷ 3600), (M ÷ 1000000 %% 3600 ÷ 60), (M ÷ 1000000 %% 60), (M %% 1000000).
  split_and!; try divmod.
  change (lit ":") with [58]. change (lit ".") with [46]. change (lit "-") with [45].
  destruct (M %% 1000000 =? 0); rewrite ?app_nil_r, <- ?app_assoc; reflexivity.
Qed.

Lemma split_sign_clock (negative : bool) w n s :
  0 <= n → split_sign ((if negative then [45] else []) ++ dec_pad w n ++ s) = (negative, dec_pad w n ++ s).
Proof.
  intros Hn. destruct negative; [done|]. cbn [app]. unfold split_sign.
  pose proof (dec_pad_digits w n Hn) as Hd. pose proof (dec_pad_nonempty w n) as Hne.
  destruct (dec_pad w n) as [|c t]; [done|]. rewrite all_digits_cons in Hd. bools. cbn.
  unfold is_ascii_digit in *. replace (c =? 45) with false by lia. by replace (c =? 43) with false by lia.
Qed.

Lemma colon_free_seconds s f : 0 <= s → 0 <= f → free (Z.eqb 58) (seconds_text s f).
Proof.
  intros Hs Hf. assert (Hdig : ∀ t, all_digits t = true → free (Z.eqb 58) t).
  { intros t. apply forallb_free. intros c. unfold is_ascii_digit. lia. }
  unfold seconds_text. apply free_app. split; [by apply Hdig, dec_pad_digits|].
  destruct (f =? 0); [constructor|]. apply free_cons. split; [done|]. apply Hdig.
  pose proof (dec_pad_digits 6 f Hf) as Hd. destruct (trim_zeros _ Hd) as [z Hz]. rewrite Hz, all_digits_app in Hd.
  by bools.
Qed.

Lemma add_clock text fields a :
  Z.abs a <= i128_max → i128_min <= micros fields <= i128_max →
  i128_min <= micros fields + a <= i128_max →
  add_token text fields None (clock_text a)
  = Ok ({| months := months fields; days := days fields; micros := micros fields + a |}, None).
Proof.
  intros Ha Hu Hs. destruct (clock_text_eq a) as (h & m & s & f & Hh & Hm & Hsec & Hf & Habs & ->).
  unfold add_token.
  assert (contains_char 58 ((if a <? 0 then [45] else []) ++ dec_pad 2 h ++ 58 :: dec_pad 2 m ++ 58 :: seconds_text s f) = true) as ->.
  { unfold contains_char. rewrite !existsb_app. cbn [existsb]. rewrite Z.eqb_refl. cbn. by rewrite !orb_true_r. }
  unfold add_clock_token. cbn [mbind result_bind]. rewrite split_sign_clock by done.
  assert (Hdig : ∀ n, 0 <= n → free (Z.eqb 58) (dec_pad 2 n)).
  { intros n Hn. apply (forallb_free is_ascii_digit); [intros c; unfold is_ascii_digit; lia|]. by apply dec_pad_digits. }
  rewrite split_app, split_app, split_free by (try apply Hdig; try apply colon_free_seconds; done || lia).
  unfold default, id. cbn [lookup list_lookup].
  rewrite (add_unit_ok _ _ _ _ (whole h) (LMicros MICROS_PER_HOUR) {| months := 0; days := 0; micros := h * 3600000000 |});
    [|apply decimal_parse_pad; ranges; lia|reflexivity|].
  2:{ unfold whole. rewrite (literal_add_micros _ _ _ _ (h * 3600000000)); [done|..]; unfold MICROS_PER_HOUR; cbn; ranges; lia. }
  cbn [mbind result_bind].
  rewrite (add_unit_ok _ _ _ _ (whole m) (LMicros MICROS_PER_MINUTE) {| months := 0; days := 0; micros := h * 3600000000 + m * 60000000 |});
    [|apply decimal_parse_pad; ranges; lia|reflexivity|].
  2:{ unfold whole. rewrite (literal_add_micros _ _ _ _ (m * 60000000)); [done|..]; unfold MICROS_PER_MINUTE; cbn; ranges; lia. }
  cbn [mbind result_bind].
  rewrite add_seconds by (cbn [micros]; ranges; lia). cbn [mbind result_bind micros].
  set (M := h * 3600000000 + m * 60000000 + (s * 1000000 + f)). assert (HM : M = Z.abs a) by (unfold M; lia).
  assert (Hsigned : micros (if a <? 0 then literal_negate {| months := 0; days := 0; micros := M |}
                            else {| months := 0; days := 0; micros := M |}) = a).
  { destruct (a <? 0) eqn:E; cbn [literal_negate micros]; [rewrite neg_i128_exact by (ranges; lia)|]; lia. }
  cbn [months days]. rewrite Hsigned. unfold checked_add. by rewrite checked_ok.
Qed.

(** ** Printing and reading back *)

Definition group (n : Z) (one many : string) : list str :=
  if n =? 0 then [] else [dec_signed n; if n =? 1 then lit one else lit many].

(** The words of the printed text. *)
Definition tokens (f : LiteralFields) : list str :=
  let counts := group (months f ÷ 12) "year" "years" ++ group (months f %% 12) "mon" "mons"
                ++ group (days f) "day" "days" in
  if negb (micros f =? 0) || match counts with [] => true | _ => false end
  then counts ++ [clock_text (micros f)] else counts.

Lemma print_tokens f : to_postgres_text f = join (lit " ") (tokens f).
Proof.
  unfold to_postgres_text, tokens, group, count_text.
  destruct (months f ÷ 12 =? 0), (months f %% 12 =? 0), (days f =? 0), (micros f =? 0);
    cbn [app negb orb join]; rewrite <- ?app_assoc; reflexivity.
Qed.

Lemma solid_signed n : solid (dec_signed n).
Proof.
  split.
  - rewrite dec_signed_eq. intros [_ Hn]%app_eq_nil. by apply dec_nonempty in Hn.
  - apply signed_free; [done|]. apply digit_not_space.
Qed.

Lemma solid_clock a : solid (clock_text a).
Proof.
  destruct (clock_text_eq a) as (h & m & s & f & Hh & Hm & Hs & Hf & _ & ->).
  assert (Hdig : ∀ w n, 0 <= n → free is_whitespace (dec_pad w n)).
  { intros w n Hn. apply (forallb_free is_ascii_digit); [apply digit_not_space | by apply dec_pad_digits]. }
  split.
  - intros [_ Hn]%app_eq_nil. apply app_eq_nil in Hn as [Hn _]. by apply dec_pad_nonempty in Hn.
  - unfold seconds_text. apply free_app. split; [destruct (a <? 0); by repeat constructor|].
    repeat first [apply Hdig; lia | apply free_cons; split; [done|] | apply free_app; split].
    destruct (f =? 0); [constructor|]. apply free_cons. split; [done|].
    pose proof (dec_pad_digits 6 f ltac:(lia)) as Hd. destruct (trim_zeros _ Hd) as [z Hz].
    rewrite Hz, all_digits_app in Hd. bools.
    apply (forallb_free is_ascii_digit); [apply digit_not_space | done].
Qed.

Lemma solid_group n one many :
  solid (lit one) → solid (lit many) → Forall solid (group n one many).
Proof.
  intros H1 H2. unfold group. destruct (n =? 0); [constructor|].
  repeat constructor; [apply solid_signed..|destruct (n =? 1); [apply H1 | apply H2]|destruct (n =? 1); [apply H1 | apply H2]].
Qed.

Lemma solid_word w : forallb (λ c, negb (is_whitespace c)) w = true → w ≠ [] → solid w.
Proof. intros Hw Hne. split; [done|]. by apply (forallb_free (λ c, negb (is_whitespace c))); [intros c; destruct (is_whitespace c)|]. Qed.

Lemma tokens_solid f : Forall solid (tokens f) ∧ tokens f ≠ [].
Proof.
  assert (Hc : Forall solid (group (months f ÷ 12) "year" "years" ++ group (months f %% 12) "mon" "mons"
                ++ group (days f) "day" "days")).
  { rewrite !Forall_app. split_and!; apply solid_group; by apply solid_word. }
  unfold tokens. destruct (_ || _) eqn:E.
  - split; [|by destruct (_ ++ _)]. apply Forall_app. split; [exact Hc|]. constructor; [apply solid_clock|constructor].
  - split; [exact Hc|]. bools. by destruct (_ ++ _).
Qed.

(** The fields printing and reading preserve: every count the code can hold but
    the least count of days and of microseconds. *)
Definition printable (f : LiteralFields) : Prop :=
  i128_min <= months f <= i128_max ∧ Z.abs (days f) <= i128_max ∧ Z.abs (micros f) <= i128_max.

Lemma unit_words :
  unit_word (lit "year") (LMonths 12) ∧ unit_word (lit "years") (LMonths 12)
  ∧ unit_word (lit "mon") LMonth ∧ unit_word (lit "mons") LMonth
  ∧ unit_word (lit "day") (LDays 1) ∧ unit_word (lit "days") (LDays 1).
Proof. repeat split. Qed.

Lemma add_group_text text fields fields' n one many scale rest :
  unit_word (lit one) scale → unit_word (lit many) scale → Z.abs n <= i128_max →
  (n = 0 → fields' = fields) → (n ≠ 0 → literal_add fields (whole n) scale = Some fields') →
  add_tokens text fields None (group n one many ++ rest) = add_tokens text fields' None rest.
Proof.
  intros H1 Hm Hn Hz Ha. unfold group. destruct (Z.eqb_spec n 0) as [->|Hne]; [by rewrite Hz|].
  cbn [app]. destruct (n =? 1); by apply (add_group _ _ _ _ _ scale); auto.
Qed.

Lemma add_printed text f :
  printable f → add_tokens text literal_default None (tokens f) = Ok (f, None).
Proof.
  intros (Hm & Hd & Hu). destruct unit_words as (Wy & Wys & Wm & Wms & Wd & Wds).
  set (y := months f ÷ 12). set (m := months f %% 12).
  assert (Hym : months f = 12 * y + m ∧ Z.abs y <= i128_max ∧ Z.abs m <= 11 ∧ i128_min <= y * 12 <= i128_max)
    by (unfold y, m; ranges; divmod).
  destruct Hym as (Hym & Hy & Hmm & Hy12).
  assert (Hcounts : ∀ rest, add_tokens text literal_default None
      (group y "year" "years" ++ group m "mon" "mons" ++ group (days f) "day" "days" ++ rest)
    = add_tokens text {| months := months f; days := days f; micros := 0 |} None rest).
  { intros rest.
    rewrite (add_group_text _ _ {| months := 12 * y; days := 0; micros := 0 |} y _ _ _ _ Wy Wys Hy);
      [|intros Hz; unfold literal_default; f_equal; lia|intros _; rewrite literal_add_months; cbn; [do 2 f_equal; lia|lia|ranges; lia]].
    rewrite (add_group_text _ _ {| months := months f; days := 0; micros := 0 |} m _ _ _ _ Wm Wms);
      [|ranges; lia|intros Hz; f_equal; lia|intros _; rewrite literal_add_month; cbn; [do 2 f_equal; lia|ranges; lia..]].
    apply (add_group_text _ _ _ (days f) _ _ _ _ Wd Wds Hd); [intros Hz; f_equal; lia|].
    intros _. rewrite literal_add_days; cbn; [by rewrite Z.add_0_l|ranges; lia..]. }
  unfold tokens. fold y m. destruct (_ || _) eqn:E.
  - rewrite <- !app_assoc, Hcounts. cbn [add_tokens]. rewrite add_clock by (cbn; ranges; lia).
    cbn. by destruct f.
  - bools. assert (Hu0 : micros f = 0) by lia. specialize (Hcounts []). rewrite app_nil_r in Hcounts. rewrite Hcounts.
    cbn. rewrite <- Hu0. by destruct f.
Qed.

Lemma strip_prefix_char_elem x s t c :
  strip_prefix_char x s = Some t → c ∈ s → c ≠ x → c ∈ t.
Proof.
  destruct s as [|a s]; cbn; [done|]. destruct (Z.eqb_spec a x) as [->|]; [|done].
  intros [= <-] Hc Hne. apply elem_of_cons in Hc as [->|?]; done.
Qed.

(** Text with a space or a colon is not the [years-months] form. *)
Lemma year_month_none body c :
  c ∈ body → is_ascii_digit c = false → c ≠ 45 → c ≠ 43 → parse_year_month_interval body = None.
Proof.
  intros Hc Hd H45 H43. unfold parse_year_month_interval. destruct (split_sign body) as [neg d] eqn:Es.
  assert (Hin : c ∈ d).
  { unfold split_sign in Es. destruct (strip_prefix_char 45 body) as [r|] eqn:E1.
    - injection Es as <- <-. by eapply strip_prefix_char_elem.
    - destruct (strip_prefix_char 43 body) as [r|] eqn:E2; injection Es as <- <-; [|done].
      by eapply strip_prefix_char_elem. }
  destruct (split_once 45 d) as [[a b]|] eqn:E; [|done]. cbn [mbind option_bind].
  apply split_once_Some in E as [-> _].
  assert (all_digits (a ++ b) = false) as ->; [|by rewrite orb_true_r].
  destruct (all_digits (a ++ b)) eqn:Hall; [|done]. apply forallb_Forall in Hall.
  rewrite Forall_forall in Hall. rewrite Hall in Hd; [done|].
  apply elem_of_app in Hin as [?|Hin]; [apply elem_of_app; auto|].
  apply elem_of_cons in Hin as [?|?]; [done|apply elem_of_app; auto].
Qed.

(** What the printed text starts and ends with, and a character it contains. *)
Lemma signed_starts n : ∃ c w, dec_signed n = c :: w ∧ (c = 45 ∨ is_ascii_digit c = true).
Proof.
  rewrite dec_signed_eq. destruct (n <? 0); [by eexists _, _; split; [done|left]|].
  pose proof (dec_digits (Z.abs n) ltac:(lia)) as Hd. pose proof (dec_nonempty (Z.abs n)) as Hne.
  destruct (dec (Z.abs n)) as [|c w]; [done|]. rewrite all_digits_cons in Hd. bools. exists c, w. auto.
Qed.

Lemma clock_starts a : ∃ c w, clock_text a = c :: w ∧ (c = 45 ∨ is_ascii_digit c = true).
Proof.
  destruct (clock_text_eq a) as (h & m & s & f & Hh & _ & _ & _ & _ & ->).
  destruct (a <? 0); [by eexists _, _; split; [done|left]|].
  pose proof (dec_pad_digits 2 h Hh) as Hd. pose proof (dec_pad_nonempty 2 h) as Hne.
  destruct (dec_pad 2 h) as [|c w]; [done|]. rewrite all_digits_cons in Hd. bools. eexists c, _. split; [done|auto].
Qed.

Lemma digits_end s : s ≠ [] → all_digits s = true → ∃ w c, s = w ++ [c] ∧ is_ascii_digit c = true.
Proof.
  intros Hne Hd. destruct s as [|c s _] using rev_ind; [done|]. rewrite all_digits_app in Hd. bools.
  exists s, c. split; [done|]. rewrite all_digits_cons in *. by bools.
Qed.

Lemma clock_ends a : ∃ w c, clock_text a = w ++ [c] ∧ is_ascii_digit c = true.
Proof.
  destruct (clock_text_eq a) as (h & m & s & f & Hh & Hm & Hs & Hf & _ & ->). unfold seconds_text.
  assert (Hend : ∃ w c, dec_pad 2 s ++ (if f =? 0 then [] else 46 :: trim_end_matches (Z.eqb 48) (dec_pad 6 f))
    = w ++ [c] ∧ is_ascii_digit c = true).
  { destruct (Z.eqb_spec f 0) as [->|Hne].
    - rewrite app_nil_r. apply digits_end; [apply dec_pad_nonempty | apply dec_pad_digits; lia].
    - pose proof (dec_pad_digits 6 f ltac:(lia)) as Hd. destruct (trim_zeros _ Hd) as [z Hz].
      pose proof (dec_pad_value 6 f ltac:(lia)) as Hv. set (t := trim_end_matches _ _) in *.
      rewrite Hz, all_digits_app in Hd. bools.
      assert (Ht : t ≠ []).
      { intros Ht. rewrite Hz, Ht in Hv. cbn [app] in Hv.
        pose proof (digits_value_zeros z []) as Hz0. rewrite app_nil_r in Hz0. rewrite Hz0 in Hv.
        unfold digits_value in Hv. cbn in Hv. lia. }
      destruct (digits_end t Ht ltac:(done)) as (w & c & -> & Hc).
      exists (dec_pad 2 s ++ 46 :: w), c. by rewrite <- app_assoc. }
  destruct Hend as (w & c & -> & Hc).
  exists ((if a <? 0 then [45] else []) ++ dec_pad 2 h ++ 58 :: dec_pad 2 m ++ 58 :: w), c.
  split; [|done]. rewrite <- !app_assoc. cbn [app]. by rewrite <- !app_assoc.
Qed.

Definition final_char (c : Z) : Prop := is_ascii_digit c = true ∨ c = 110 ∨ c = 114 ∨ c = 115 ∨ c = 121.

Definition starts_well (words : list str) : Prop :=
  ∃ c w rest, words = (c :: w) :: rest ∧ (c = 45 ∨ is_ascii_digit c = true).
Definition ends_well (words : list str) : Prop :=
  ∃ c w before, words = before ++ [w ++ [c]] ∧ final_char c ∧ before ≠ [].

Lemma starts_well_app a b : starts_well a → starts_well (a ++ b).
Proof. intros (c & w & rest & -> & Hc). by exists c, w, (rest ++ b). Qed.

Lemma ends_well_app a b : ends_well b → ends_well (a ++ b).
Proof.
  intros (c & w & before & -> & Hc & Hne). exists c, w, (a ++ before).
  split_and!; [by rewrite app_assoc|done|]. by intros [_ ?]%app_eq_nil.
Qed.

Lemma group_well n one many c c' w w' :
  lit one = w ++ [c] → lit many = w' ++ [c'] → final_char c → final_char c' →
  group n one many = [] ∨ starts_well (group n one many) ∧ ends_well (group n one many).
Proof.
  intros H1 Hm Hc Hc'. unfold group. destruct (n =? 0); [by left|]. right. split.
  - destruct (signed_starts n) as (x & v & -> & Hx). by eexists x, v, _.
  - destruct (n =? 1); [exists c, w, [dec_signed n]; by rewrite H1 | exists c', w', [dec_signed n]; by rewrite Hm].
Qed.

Definition counts (f : LiteralFields) : list str :=
  group (months f ÷ 12) "year" "years" ++ group (months f %% 12) "mon" "mons"
  ++ group (days f) "day" "days".

Lemma counts_well f : counts f = [] ∨ starts_well (counts f) ∧ ends_well (counts f).
Proof.
  assert (Hfin : Forall final_char [110; 114; 115; 121]) by (repeat constructor; unfold final_char; auto 6).
  rewrite !Forall_cons in Hfin. destruct Hfin as (F1 & F2 & F3 & F4 & _).
  pose proof (group_well (months f ÷ 12) "year" "years" 114 115 (lit "yea") (lit "year") eq_refl eq_refl F2 F3) as G1.
  pose proof (group_well (months f %% 12) "mon" "mons" 110 115 (lit "mo") (lit "mon") eq_refl eq_refl F1 F3) as G2.
  pose proof (group_well (days f) "day" "days" 121 115 (lit "da") (lit "day") eq_refl eq_refl F4 F3) as G3.
  unfold counts.
  destruct G1 as [->|[H1 H1']], G2 as [->|[H2 H2']], G3 as [->|[H3 H3']];
    rewrite ?app_nil_r; cbn [app]; auto 7 using starts_well_app, ends_well_app.
Qed.

(** Neither the sign of a subtraction nor an [ago] is read off printed text. *)
Lemma tokens_ends f :
  starts_well (tokens f)
  ∧ ∃ c w before, tokens f = before ++ [w ++ [c]] ∧ final_char c ∧ (before = [] → 58 ∈ w).
Proof.
  unfold tokens. fold (counts f). destruct (counts_well f) as [->|[Hs He]].
  - cbn [orb app]. rewrite orb_true_r. destruct (clock_starts (micros f)) as (c & v & Hv & Hc).
    split; [by exists c, v, []; rewrite Hv|]. destruct (clock_ends (micros f)) as (w & c' & Hw & Hc').
    exists c', w, []. rewrite Hw. split_and!; [done|by left|]. intros _.
    assert (Hin : 58 ∈ clock_text (micros f)).
    { destruct (clock_text_eq (micros f)) as (h & m & s & x & _ & _ & _ & _ & _ & ->).
      rewrite !elem_of_app, elem_of_cons. auto. }
    rewrite Hw in Hin. apply elem_of_app in Hin as [?|Hx%list_elem_of_singleton]; [done|]. by subst c'.
  - destruct (_ || _).
    + split; [by apply starts_well_app|]. destruct (clock_ends (micros f)) as (w & c' & Hw & Hc').
      exists c', w, (counts f). rewrite Hw. split_and!; [done|by left|].
      destruct He as (? & ? & ? & -> & _). by intros [_ ?]%app_eq_nil.
    + split; [done|]. destruct He as (c & w & before & -> & Hc & Hne). by exists c, w, before.
Qed.

(** Reading the printed text back. *)
Lemma parse_printed f text :
  printable f → parse_interval_fields (to_postgres_text f) text = Some (Ok f).
Proof.
  intros Hf. rewrite print_tokens. destruct (tokens_ends f) as [(c & w & rest & Hs & Hc) (d & v & before & He & Hd & Hcolon)].
  unfold parse_interval_fields.
  assert (Hhead : match join (lit " ") (tokens f) with c :: _ => lower_char c =? 112 | [] => false end = false).
  { rewrite Hs, join_starts. unfold lower_char, is_ascii_uppercase, is_ascii_digit in *.
    destruct Hc as [->|Hc]; [done|]. destruct ((65 <=? c) && (c <=? 90)) eqn:E; lia. }
  rewrite Hhead.
  assert (parse_year_month_interval (join (lit " ") (tokens f)) = None) as ->.
  { destruct before as [|b before].
    - apply (year_month_none _ 58); [|done..]. rewrite He. cbn. apply elem_of_app; auto.
    - apply (year_month_none _ 32); [|done..]. rewrite He. cbn [app].
      destruct (before ++ [v ++ [d]]) eqn:E; [by apply app_eq_nil in E as [_ ?]|].
      cbn [join]. change (lit " ") with [32]. rewrite !elem_of_app. right. left. by apply list_elem_of_singleton. }
  destruct (tokens_solid f) as [Hsolid Hne]. rewrite split_whitespace_join by done.
  rewrite add_printed by done. reflexivity.
Qed.

(** The whole reader on printed text. *)
Lemma normalize_printed f :
  printable f → normalize_interval_literal (to_postgres_text f) = Some (Ok (to_postgres_text f)).
Proof.
  intros Hf. pose proof (parse_printed f (to_postgres_text f) Hf) as Hp.
  destruct (tokens_ends f) as [(c & w & rest & Hs & Hc) (d & v & before & He & Hd & _)].
  destruct (join_ends before v d) as [s Hend]. rewrite <- He, <- print_tokens in Hend.
  pose proof (join_starts rest c w) as Hstart. rewrite <- Hs, <- print_tokens in Hstart.
  assert (Hcs : is_whitespace c = false) by (destruct Hc as [->|]; [done | by apply digit_not_space]).
  assert (Hds : is_whitespace d = false ∧ lower_char d ≠ 111).
  { destruct Hd as [Hd|Hd].
    - split; [by apply digit_not_space|]. unfold lower_char, is_ascii_uppercase, is_ascii_digit in *.
      destruct (_ && _) eqn:E in |- *; lia.
    - by repeat destruct Hd as [Hd|Hd]; subst d. }
  assert (Htrim : trim (to_postgres_text f) = to_postgres_text f).
  { revert Hstart Hend. generalize (tail (to_postgres_text f)). intros T -> Hend.
    by apply (trim_solid c T s d); [|apply Hds|]. }
  unfold normalize_interval_literal. rewrite Htrim.
  assert (strip_prefix_char 64 (to_postgres_text f) = None) as ->.
  { rewrite Hstart. cbn. destruct (Z.eqb_spec c 64) as [->|]; [|done]. by destruct Hc. }
  unfold default. rewrite Htrim.
  assert (strip_suffix (lit "ago") (to_ascii_lowercase (to_postgres_text f)) = None) as ->.
  { rewrite Hend. unfold to_ascii_lowercase. rewrite map_app. cbn [map]. apply strip_suffix_last; [|done].
    cbn. intros [= Ho]. by apply Hds. }
  rewrite Htrim, Hp. reflexivity.
Qed.

(** ** The counts stay in the range they are held in *)

Definition held_count (z : Z) : Prop := i128_min <= z <= i128_max.
Definition held (f : LiteralFields) : Prop :=
  held_count (months f) ∧ held_count (days f) ∧ held_count (micros f).

Lemma checked_held z z' : checked z = Some z' → held_count z'.
Proof. intros H. by apply checked_Some in H as [-> H]. Qed.

Lemma wrap_held z : held_count (wrap_i128 z).
Proof. unfold held_count, wrap_i128. ranges. pose proof (Z.mod_pos_bound (z - -170141183460469231731687303715884105728) (2 ^ 128) eq_refl). lia. Qed.

(** Collects what each checked step of [H] says. *)
Ltac steps H :=
  repeat match type of H with
  | _ ≫= _ = Some _ =>
      let x := fresh "x" in let Hx := fresh "Hx" in
      apply bind_Some in H as (x & Hx & H);
      unfold checked_add, checked_sub, checked_mul in Hx; first [apply checked_held in Hx | idtac]
  end.

Lemma literal_add_held self count scale f :
  held self → literal_add self count scale = Some f → held f.
Proof.
  intros (Hm & Hd & Hu). destruct scale; cbn [literal_add]; unfold add_micros; intros H; steps H;
    injection H as <-; unfold held; cbn; auto.
Qed.

Lemma literal_negate_held f : held (literal_negate f).
Proof. unfold held, literal_negate, neg_i128; cbn. auto using wrap_held. Qed.

Lemma held_default : held literal_default.
Proof. unfold held, held_count; cbn. ranges. lia. Qed.

Lemma add_unit_held fields count unit_name text f :
  held fields → add_unit fields count unit_name text = Ok f → held f.
Proof.
  intros Hh. unfold add_unit. destruct (decimal_parse count) as [d|]; [|done].
  destruct (literal_unit_scale _) as [scale|]; [|done]. intros H%ok_or_Ok. by eapply literal_add_held.
Qed.

Lemma add_clock_token_held fields leading token text f :
  held fields → add_clock_token fields leading token text = Ok f → held f.
Proof.
  intros Hh. unfold add_clock_token. intros H. apply bind_Ok in H as (f1 & H1 & H).
  assert (Hf1 : held f1) by (destruct leading; [by eapply add_unit_held | by injection H1 as <-]).
  destruct (split_sign token) as [neg clock]. destruct (_ !! 3%nat); [done|].
  apply bind_Ok in H as (c1 & _ & H). apply bind_Ok in H as (c2 & _ & H). apply bind_Ok in H as (c3 & _ & H).
  destruct (checked_add _ _) as [m|] eqn:E; [|done]. injection H as <-. apply checked_held in E.
  unfold held in *. cbn. tauto.
Qed.

Lemma add_token_held text fields pending token f p :
  held fields → add_token text fields pending token = Ok (f, p) → held f.
Proof.
  intros Hh. unfold add_token. destruct (contains_char 58 token).
  - intros H. apply bind_Ok in H as (f1 & H1 & H). injection H as <- <-. by eapply add_clock_token_held.
  - destruct (split_count_and_unit token) as [count [u|]].
    + destruct (negb (is_nonempty count)); intros H.
      * apply bind_Ok in H as (c & _ & H). apply bind_Ok in H as (f1 & H1 & H). injection H as <- <-.
        by eapply add_unit_held.
      * apply bind_Ok in H as (f1 & H1 & H). apply bind_Ok in H as (f2 & H2 & H). injection H as <- <-.
        eapply add_unit_held, H2. destruct pending; [by eapply add_unit_held | by injection H1 as <-].
    + destruct pending; [done|]. by intros [= <- <-].
Qed.

Lemma add_tokens_held text words fields pending f p :
  held fields → add_tokens text fields pending words = Ok (f, p) → held f.
Proof.
  revert fields pending. induction words as [|w words IH]; intros fields pending Hh; cbn [add_tokens].
  - by intros [= <- <-].
  - intros H. apply bind_Ok in H as ([f1 p1] & H1 & H). eapply IH, H. by eapply add_token_held.
Qed.

Lemma iso_loop_held fuel fields in_time rest text f :
  held fields → iso_loop fuel fields in_time rest text = Some (Ok f) → held f.
Proof.
  revert fields in_time rest. induction fuel as [|fuel IH]; intros fields in_time rest Hh; cbn [iso_loop]; [done|].
  destruct rest as [|c after]; [by intros [= <-]|]. destruct (_ =? 116); [by apply IH|].
  destruct (find _ _) as [k|]; [|done]. destruct (designator_unit _ _) as [u|]; [|done].
  destruct (add_unit _ _ _ _) as [f1|] eqn:E; [|done]. apply IH. by eapply add_unit_held.
Qed.

Lemma parse_held body text f : parse_interval_fields body text = Some (Ok f) → held f.
Proof.
  unfold parse_interval_fields. destruct (match body with [] => _ | _ => _ end).
  - apply iso_loop_held, held_default.
  - destruct (parse_year_month_interval body) as [ym|] eqn:E.
    + intros [= ->]. unfold parse_year_month_interval in E. destruct (split_sign body) as [neg d].
      apply bind_Some in E as ([a b] & _ & E). destruct (_ || _); [done|]. steps E.
      injection E as <-. unfold held; cbn. split_and!; [|unfold held_count; ranges; lia..].
      destruct neg; [apply wrap_held | done].
    + intros [= H]. apply bind_Ok in H as ([f1 p] & H1 & H).
      pose proof (add_tokens_held _ _ _ _ _ _ held_default H1) as Hf1.
      destruct p; [by eapply add_unit_held | by injection H as <-].
Qed.

(** ** Every literal is answered *)

Lemma iso_loop_total fuel fields in_time rest text :
  (length rest < fuel)%nat → is_Some (iso_loop fuel fields in_time rest text).
Proof.
  revert fields in_time rest. induction fuel as [|fuel IH]; intros fields in_time rest Hl; [lia|].
  cbn [iso_loop]. destruct rest as [|c after]; [eauto|]. cbn in Hl.
  destruct (_ =? 116); [apply IH; lia|].
  destruct (find _ _) as [k|]; [|eauto]. destruct (designator_unit _ _) as [u|]; [|eauto].
  destruct (add_unit _ _ _ _) as [f1|]; [|eauto]. apply IH. rewrite length_drop. cbn. lia.
Qed.

Lemma parse_total body text : is_Some (parse_interval_fields body text).
Proof.
  unfold parse_interval_fields. destruct (match body with [] => _ | _ => _ end).
  - apply iso_loop_total. lia.
  - destruct (parse_year_month_interval body); eauto.
Qed.

Lemma normalize_total text : is_Some (normalize_interval_literal text).
Proof.
  unfold normalize_interval_literal. destruct (match strip_suffix _ _ with Some _ => _ | None => _ end) as [body negated].
  destruct (parse_total (trim body) text) as [r ->]. by eexists.
Qed.

(** The answer itself: the fuel never runs out. *)
Definition interval_literal text : result Error str := is_Some_proj (normalize_total text).

Lemma interval_literal_spec text : normalize_interval_literal text = Some (interval_literal text).
Proof. unfold interval_literal. destruct (normalize_total text) as [r Hr]. generalize (ex_intro (λ y, normalize_interval_literal text = Some y) r Hr : is_Some _). rewrite Hr. done. Qed.

(** C20 (reading what is printed). Reading the text [to_postgres_text] prints gives
    back exactly the counts it printed, each with its own sign, for all counts
    the code can hold but the least count of days and of microseconds. *)
Theorem interval_text_roundtrip f text :
  printable f → parse_interval_fields (to_postgres_text f) text = Some (Ok f).
Proof. apply parse_printed. Qed.

(** C36 (interval literals). Every interval literal, in any of the forms, is
    answered, and an accepted one becomes the printed text of counts within the
    128-bit range; normalising that text again changes nothing, unless a count
    is the least one the code can hold. *)
Theorem interval_normal_form text :
  ∃ r, normalize_interval_literal text = Some r ∧
    ∀ out, r = Ok out →
      ∃ f, out = to_postgres_text f ∧ held f ∧
        (days f ≠ i128_min → micros f ≠ i128_min → normalize_interval_literal out = Some (Ok out)).
Proof.
  unfold normalize_interval_literal at 1. destruct (match strip_suffix _ _ with Some _ => _ | None => _ end) as [body neg].
  destruct (parse_total (trim body) text) as [r Hr]. rewrite Hr. cbn [mbind option_bind].
  eexists. split; [reflexivity|]. intros out Ho. apply bind_Ok in Ho as (f & -> & Ho). injection Ho as <-.
  apply parse_held in Hr. exists (if neg then literal_negate f else f). split; [by destruct neg|].
  assert (Hh : held (if neg then literal_negate f else f)) by (destruct neg; [apply literal_negate_held | done]).
  split; [exact Hh|]. intros Hd Hu. apply normalize_printed. unfold printable, held, held_count in *. ranges. lia.
Qed.

(** Rounding a unit above a month.  A fraction of such a unit is rounded to
    the nearest whole month, a half away from zero, and a negated count rounds to
    the negated months, as long as the count stays clear of the 128-bit range by
    its denominator. *)
Lemma rounding_div_nearest n d :
  0 < d → Z.abs n + d <= i128_max →
  2 * Z.abs (rounding_div n d * d - n) <= d ∧ rounding_div (- n) d = - rounding_div n d.
Proof. apply rounding_div_spec. Qed.

(** ** What the modifiers say *)

(** A date modifier as SQLite's documentation spells it: a signed decimal count
    and a unit, or the word [floor]. *)
Inductive Effect := AddMonths (n : Z) | Floor | AddDays (n : Z) | AddMicros (n : Z).

Definition read_modifier (modifier : str) : option Effect :=
  if str_eqb modifier (lit "floor") then Some Floor
  else
    sign ← head modifier;
    '(number, unit_name) ← split_once 32 (drop 1 modifier);
    let '(w, f) := default (number, []) (split_once 46 number) in
    let count := (if sign =? 45 then -1 else 1) * digits_value (w ++ f) in
    let scale := 10 ^ Z.of_nat (length f) in
    if str_eqb unit_name (lit "months") then Some (AddMonths (count ÷ scale))
    else if str_eqb unit_name (lit "days") then Some (AddDays (count ÷ scale))
    else if str_eqb unit_name (lit "hours") then Some (AddMicros (count * MICROS_PER_HOUR ÷ scale))
    else if str_eqb unit_name (lit "minutes") then Some (AddMicros (count * MICROS_PER_MINUTE ÷ scale))
    else if str_eqb unit_name (lit "seconds") then Some (AddMicros (count * MICROS_PER_SECOND ÷ scale))
    else None.

Lemma not_floor (n : Z) s : str_eqb ([if n <? 0 then 45 else 43] ++ s) (lit "floor") = false.
Proof. apply str_eqb_neq. by destruct (n <? 0). Qed.

Lemma read_signed n unit_name :
  read_modifier (signed n unit_name) =
  if str_eqb unit_name (lit "months") then Some (AddMonths n)
  else if str_eqb unit_name (lit "days") then Some (AddDays n)
  else if str_eqb unit_name (lit "hours") then Some (AddMicros (n * MICROS_PER_HOUR))
  else if str_eqb unit_name (lit "minutes") then Some (AddMicros (n * MICROS_PER_MINUTE))
  else if str_eqb unit_name (lit "seconds") then Some (AddMicros (n * MICROS_PER_SECOND))
  else None.
Proof.
  unfold read_modifier, signed. rewrite not_floor. cbn [app head mbind option_bind drop]. rewrite ?drop_0.
  change (lit " ") with [32]. cbn [app].
  assert (Hdig : ∀ c, is_ascii_digit c = true → (c =? 32) = false ∧ (c =? 46) = false)
    by (intros c; unfold is_ascii_digit; lia).
  assert (Hd : all_digits (dec (Z.abs n)) = true) by (apply dec_digits; lia).
  rewrite split_once_app by (eapply forallb_free; [|exact Hd]; apply Hdig). cbn [mbind option_bind].
  rewrite split_once_free by (eapply forallb_free; [|exact Hd]; apply Hdig). unfold default, id.
  rewrite app_nil_r, dec_value by lia. change (10 ^ Z.of_nat (length (@nil Z))) with 1. rewrite !Z.quot_1_r.
  assert ((if (if n <? 0 then 45 else 43) =? 45 then -1 else 1) * Z.abs n = n) as ->; [|done].
  destruct (n <? 0) eqn:E; cbn [Z.eqb Pos.eqb]; lia.
Qed.

(** A fraction of a second, its trailing zeros dropped. *)
Lemma read_fraction n whole_seconds fraction :
  0 <= whole_seconds → 0 <= fraction < 1000000 →
  read_modifier ([if n <? 0 then 45 else 43] ++ dec whole_seconds ++ lit "."
                 ++ trim_end_matches (Z.eqb 48) (dec_pad 6 fraction) ++ lit " seconds")
  = Some (AddMicros ((if n <? 0 then -1 else 1) * (whole_seconds * 1000000 + fraction))).
Proof.
  intros Hw Hf. unfold read_modifier. rewrite not_floor. cbn [app head mbind option_bind drop]. rewrite ?drop_0.
  assert (Hd6 : all_digits (dec_pad 6 fraction) = true) by (apply dec_pad_digits; lia).
  assert (Hl6 : length (dec_pad 6 fraction) = 6%nat) by (apply dec_pad_length; [lia|change (10 ^ Z.of_nat 6) with 1000000; lia]).
  assert (Hv6 : digits_value (dec_pad 6 fraction) = fraction) by (apply dec_pad_value; lia).
  destruct (trim_zeros _ Hd6) as [z Hz]. set (t := trim_end_matches _ _) in *.
  rewrite Hz in Hd6, Hl6, Hv6. rewrite all_digits_app in Hd6. bools. rewrite length_app, length_replicate in Hl6.
  rewrite digits_value_app, length_replicate in Hv6.
  pose proof (digits_value_zeros z []) as Hr0. rewrite app_nil_r in Hr0. rewrite Hr0 in Hv6.
  change (digits_value []) with 0 in Hv6.
  assert (Hdig : ∀ c, is_ascii_digit c = true → (c =? 32) = false ∧ (c =? 46) = false)
    by (intros c; unfold is_ascii_digit; lia).
  assert (Hdw : all_digits (dec whole_seconds) = true) by (by apply dec_digits).
  replace (dec whole_seconds ++ lit "." ++ t ++ lit " seconds")
    with ((dec whole_seconds ++ 46 :: t) ++ 32 :: lit "seconds") by (by rewrite <- app_assoc).
  rewrite split_once_app.
  2:{ apply free_app. split; [eapply forallb_free; [|exact Hdw]; apply Hdig|].
      apply free_cons. split; [done|]. eapply forallb_free; [|done]. apply Hdig. }
  cbn [mbind option_bind]. rewrite split_once_app by (eapply forallb_free; [|exact Hdw]; apply Hdig).
  unfold default, id. rewrite digits_value_app, dec_value by done.
  set (pt := 10 ^ Z.of_nat (length t)) in *. set (pz := 10 ^ Z.of_nat z) in *.
  assert (Hpp : pt * pz = 1000000).
  { unfold pt, pz. rewrite <- Z.pow_add_r, <- Nat2Z.inj_add, Hl6 by lia. reflexivity. }
  assert (Hpt : 0 < pt) by (apply Z.pow_pos_nonneg; lia).
  set (sign := if _ =? 45 then -1 else 1). assert (sign = if n <? 0 then -1 else 1) as <- by (unfold sign; by destruct (n <? 0)).
  change (str_eqb (lit "seconds") (lit "months")) with false. change (str_eqb (lit "seconds") (lit "days")) with false.
  change (str_eqb (lit "seconds") (lit "hours")) with false. change (str_eqb (lit "seconds") (lit "minutes")) with false.
  change (str_eqb (lit "seconds") (lit "seconds")) with true. cbv iota. do 2 f_equal.
  unfold MICROS_PER_SECOND. rewrite <- Hv6, <- Hpp.
  replace (sign * (whole_seconds * pt + digits_value t) * (pt * pz))
    with (sign * (whole_seconds * (pt * pz) + digits_value t * pz) * pt) by ring.
  rewrite Z.quot_mul by lia. f_equal. lia.
Qed.

Lemma read_time_modifier time : read_modifier (time_modifier time) = Some (AddMicros time).
Proof.
  unfold time_modifier.
  destruct (time %% MICROS_PER_HOUR =? 0) eqn:E1; [|destruct (time %% MICROS_PER_MINUTE =? 0) eqn:E2;
    [|destruct (time %% MICROS_PER_SECOND =? 0) eqn:E3]].
  1-3: rewrite read_signed; cbn [str_eqb]; cbv iota.
  - do 2 f_equal. pose proof (Z.quot_rem' time MICROS_PER_HOUR). lia.
  - do 2 f_equal. pose proof (Z.quot_rem' time MICROS_PER_MINUTE). lia.
  - do 2 f_equal. pose proof (Z.quot_rem' time MICROS_PER_SECOND). lia.
  - pose proof (Z.quot_rem' (Z.abs time) MICROS_PER_SECOND) as Hqr.
    pose proof (Z.rem_bound_pos (Z.abs time) MICROS_PER_SECOND ltac:(lia) eq_refl) as Hr.
    unfold MICROS_PER_SECOND in *.
    rewrite read_fraction by (try apply Z.quot_pos; lia). do 2 f_equal.
    destruct (time <? 0) eqn:E; lia.
Qed.

(** C21 (date modifiers). SQLite reads the modifiers as PostgreSQL's three steps,
    in PostgreSQL's order: the months, the clamp to the end of the month exactly
    when there are months, the whole days, and what is left of the day to the
    microsecond.  Nothing is lost: days and time add up to the interval. *)
Theorem modifiers_denote self :
  let days := if_micros self ÷ MICROS_PER_DAY in
  let time := if_micros self %% MICROS_PER_DAY in
  mapM read_modifier (modifiers self)
  = Some ((if if_months self =? 0 then [] else [AddMonths (if_months self); Floor])
          ++ (if days =? 0 then [] else [AddDays days])
          ++ (if time =? 0 then [] else [AddMicros time]))
  ∧ days * MICROS_PER_DAY + time = if_micros self ∧ Z.abs time < MICROS_PER_DAY.
Proof.
  intros days time. split; [|unfold days, time, MICROS_PER_DAY; split; divmod].
  unfold modifiers. fold days time.
  assert (Hm : read_modifier (signed (if_months self) (lit "months")) = Some (AddMonths (if_months self)))
    by (by rewrite read_signed).
  assert (Hd : read_modifier (signed days (lit "days")) = Some (AddDays days)) by (by rewrite read_signed).
  assert (Hf : read_modifier (lit "floor") = Some Floor) by done.
  pose proof (read_time_modifier time) as Ht.
  destruct (if_months self =? 0), (days =? 0), (time =? 0); cbn [app mapM]; rewrite ?Hm, ?Hf, ?Hd, ?Ht; reflexivity.
Qed.

(** ** Witnesses *)

Definition example_fields : LiteralFields := {| months := 14; days := -3; micros := -5400500000 |}.

Lemma interval_text_roundtrip_witness :
  to_postgres_text example_fields = lit "1 year 2 mons -3 days -01:30:00.5"
  ∧ parse_interval_fields (lit "1 year 2 mons -3 days -01:30:00.5") [] = Some (Ok example_fields).
Proof.
  split; [vm_compute; reflexivity|].
  apply (interval_text_roundtrip example_fields []). unfold printable; ranges; cbn; lia.
Defined.

Lemma rounding_div_nearest_witness :
  rounding_div 135 10 = 14 ∧ rounding_div (- 135) 10 = - rounding_div 135 10.
Proof. split; [reflexivity|]. apply (rounding_div_nearest 135 10); ranges; lia. Defined.

(** Where the addition of the half leaves the range, a positive count of years
    comes out negative. *)
Example rounding_div_overflow :
  normalize_interval_literal (lit "1.4178431955039102644307275309657008810 years")
  = Some (Ok (lit "-1 years -4 mons")).
Proof. vm_compute. reflexivity. Qed.
