(* ===== verification/Timezone.v ===== *)
(** * Time zone modifiers

    [src/src/impls/timezone.rs]: the zone spellings both directions of the
    translation share, the flipping of an offset, and the type resolution that
    decides when to flip. *)

From S2P Require Import Prelude Text Errors Ast Exprs.

(** ** Fixed offsets *)

Definition is_fixed_utc_offset (value : str) : bool :=
  match value with
  | [sign; h1; h2; colon; m1; m2] =>
      if (negb (sign =? 43) && negb (sign =? 45)) || negb (colon =? 58) then false
      else if negb (is_ascii_digit h1) || negb (is_ascii_digit h2)
              || negb (is_ascii_digit m1) || negb (is_ascii_digit m2) then false
      else
        let hour := (h1 - 48) * 10 + (h2 - 48) in
        let minute := (m1 - 48) * 10 + (m2 - 48) in
        (hour <=? 23) && (minute <=? 59)
  | _ => false
  end.

Definition flipped_shifting_offset (modifier : str) : option str :=
  if negb (is_fixed_utc_offset modifier) || str_eqb (drop 1 modifier) (lit "00:00") then None
  else
    let flipped := if starts_with (lit "-") modifier then 43 else 45 in
    Some (flipped :: drop 1 modifier).

(** ** Spellings *)

(** The loop over the prefixes [utc] and [gmt]. *)
Fixpoint strip_zone_prefix (prefixes : list str) (lower : str) : option str :=
  match prefixes with
  | [] => None
  | prefix :: prefixes =>
      match strip_prefix prefix lower with
      | Some rest => if is_fixed_utc_offset rest then Some rest else strip_zone_prefix prefixes lower
      | None => strip_zone_prefix prefixes lower
      end
  end.

Definition normalize_timezone_modifier (value normalized_utc normalized_local : str) : option str :=
  let trimmed := trim value in
  let lower := to_ascii_lowercase trimmed in
  if one_of lower ["utc"; "gmt"; "z"]%string then Some normalized_utc
  else if one_of lower ["local"; "localtime"]%string then Some normalized_local
  else if is_fixed_utc_offset trimmed then Some trimmed
  else strip_zone_prefix [lit "utc"; lit "gmt"] lower.

Definition normalize_timezone_modifier_for_sqlite (value : str) : option str :=
  normalize_timezone_modifier value (lit "utc") (lit "localtime").
Definition normalize_timezone_modifier_for_postgres (value : str) : option str :=
  normalize_timezone_modifier value (lit "UTC") (lit "localtime").

(** ** Whether an expression carries a zone *)

Inductive TimestampAwareness := Naive | Aware.

Section Awareness.
Context {Payload : Type}.
(** The columns in scope: whether the declared type of the column an expression
    names satisfies a predicate ([shared_helpers::declared_type_matches]). *)
Variable declared_type_matches : Expr Payload → (str → bool) → result Error bool.

Definition from_data_type (data_type : DataType Payload) : option TimestampAwareness :=
  match data_type with
  | DataTimestamp _ (Tz | WithTimeZone) => Some Aware
  | DataTimestamp _ _ | DataDate => Some Naive
  | _ => None
  end.

(** [str::contains] of a string. *)
Fixpoint contains (needle s : str) : bool :=
  starts_with needle s || match s with [] => false | _ :: s => contains needle s end.

Definition declared_contains (expr : Expr Payload) (needle : string) : result Error bool :=
  declared_type_matches expr (λ declared, contains (lit needle) (to_ascii_lowercase declared)).

Fixpoint timestamp_awareness (expr : Expr Payload) : result Error (option TimestampAwareness) :=
  match expr with
  | ENested inner => timestamp_awareness inner
  | ETypedString data_type _ => Ok (from_data_type data_type)
  | ECast _ data_type => Ok (from_data_type data_type)
  | EAtTimeZone timestamp _ =>
      awareness ← timestamp_awareness timestamp;
      Ok match awareness with
         | Some Aware => Some Naive
         | Some Naive => Some Aware
         | None => None
         end
  | EFunction name _ =>
      Ok match last_ident name with
         | Some ident =>
             let called := to_ascii_lowercase (value ident) in
             if one_of called ["now"; "current_timestamp"; "transaction_timestamp";
                               "statement_timestamp"; "clock_timestamp"]%string then Some Aware
             else if one_of called ["localtimestamp"]%string then Some Naive
             else None
         | None => None
         end
  | EIdentifier _ | ECompoundIdentifier _ =>
      zoned ← declared_contains expr "with time zone";
      zoned ← (if zoned : bool then Ok true else declared_contains expr "timestamptz");
      if zoned : bool then Ok (Some Aware)
      else
        bare ← declared_contains expr "timestamp";
        bare ← (if bare : bool then Ok true else declared_contains expr "date");
        Ok (if bare : bool then Some Naive else None)
  | _ => Ok None
  end.
End Awareness.

(** ** Flipping *)

(** The minutes an offset shifts by. *)
Definition offset_minutes (offset : str) : Z :=
  let magnitude := digits_value (take 2 (drop 1 offset)) * 60 + digits_value (drop 4 offset) in
  if starts_with (lit "-") offset then - magnitude else magnitude.

Lemma is_fixed_utc_offset_shape v :
  is_fixed_utc_offset v = true →
  ∃ sign h1 h2 m1 m2, v = [sign; h1; h2; 58; m1; m2] ∧ (sign = 43 ∨ sign = 45)
    ∧ is_ascii_digit h1 = true ∧ is_ascii_digit h2 = true ∧ is_ascii_digit m1 = true ∧ is_ascii_digit m2 = true
    ∧ (h1 - 48) * 10 + (h2 - 48) <= 23 ∧ (m1 - 48) * 10 + (m2 - 48) <= 59.
Proof.
  unfold is_fixed_utc_offset. destruct v as [|s [|h1 [|h2 [|c [|m1 [|m2 [|x v]]]]]]]; try done.
  destruct ((_ && _) || _) eqn:E1; [done|]. destruct (_ || _ || _ || _) eqn:E2; [done|].
  intros Hr. apply orb_false_iff in E1 as [E1 Ec]. bools. apply andb_false_iff in E1 as [E1|E1]; bools;
    exists s, h1, h2, m1, m2; assert (c = 58) as -> by lia; split_and!; first [done | lia].
Qed.

(** The sign of an offset can be exchanged. *)
Lemma fixed_offset_sign sign sign' rest :
  (sign = 43 ∨ sign = 45) → (sign' = 43 ∨ sign' = 45) →
  is_fixed_utc_offset (sign :: rest) = is_fixed_utc_offset (sign' :: rest).
Proof. by intros [-> | ->] [-> | ->]. Qed.

(** Flipping an offset.  Flipping is its own inverse and answers the opposite
    shift, never a zero one; every other modifier, a zero offset included, is left
    to be carried through unchanged. *)
Lemma flipped_shifting_offset_involutive modifier :
  match flipped_shifting_offset modifier with
  | Some flipped =>
      flipped_shifting_offset flipped = Some modifier
      ∧ is_fixed_utc_offset flipped = true
      ∧ offset_minutes flipped = - offset_minutes modifier ∧ offset_minutes modifier ≠ 0
  | None => is_fixed_utc_offset modifier = true → offset_minutes modifier = 0
  end.
Proof.
  unfold flipped_shifting_offset at 1. destruct (is_fixed_utc_offset modifier) eqn:Hf; cbn [negb orb].
  2:{ done. }
  destruct (is_fixed_utc_offset_shape _ Hf) as (s & h1 & h2 & m1 & m2 & -> & Hs & D1 & D2 & D3 & D4 & _).
  cbn [drop]. destruct (str_eqb [h1; h2; 58; m1; m2] (lit "00:00")) eqn:Hz.
  { intros _. apply str_eqb_eq in Hz. change (lit "00:00") with [48; 48; 58; 48; 48] in Hz.
    injection Hz as -> -> -> ->. by destruct Hs as [-> | ->]. }
  assert (Hnz : (h1 - 48) * 600 + (h2 - 48) * 60 + (m1 - 48) * 10 + (m2 - 48) ≠ 0).
  { intros Hv. unfold is_ascii_digit in *. assert (h1 = 48 ∧ h2 = 48 ∧ m1 = 48 ∧ m2 = 48) as (-> & -> & -> & ->) by lia. done. }
  assert (Hmin : ∀ sign, offset_minutes [sign; h1; h2; 58; m1; m2]
    = (if sign =? 45 then -1 else 1) * ((h1 - 48) * 600 + (h2 - 48) * 60 + (m1 - 48) * 10 + (m2 - 48))).
  { intros sign. unfold offset_minutes, digits_value, digit_value. cbn [take drop foldl].
    unfold starts_with. change (lit "-") with [45]. cbn [strip_prefix]. rewrite (Z.eqb_sym 45).
    destruct (sign =? 45); lia. }
  assert (Hall : ∀ sign, (sign = 43 ∨ sign = 45) → is_fixed_utc_offset [sign; h1; h2; 58; m1; m2] = true).
  { intros sign Hsign. by rewrite (fixed_offset_sign sign s). }
  unfold flipped_shifting_offset.
  destruct Hs as [-> | ->].
  - change (starts_with (lit "-") [43; h1; h2; 58; m1; m2]) with false. cbv iota.
    rewrite Hall by auto. cbn [negb orb drop]. rewrite Hz, !Hmin. cbn [Z.eqb Pos.eqb]. split_and!; [done|done|lia..].
  - change (starts_with (lit "-") [45; h1; h2; 58; m1; m2]) with true. cbv iota.
    rewrite Hall by auto. cbn [negb orb drop]. rewrite Hz, !Hmin. cbn [Z.eqb Pos.eqb]. split_and!; [done|done|lia..].
Qed.

(** ** The two directions agree *)

Lemma fixed_offset_trim v : is_fixed_utc_offset v = true → trim v = v ∧ to_ascii_lowercase v = v.
Proof.
  intros Hf. destruct (is_fixed_utc_offset_shape _ Hf) as (s & h1 & h2 & m1 & m2 & -> & Hs & D1 & D2 & D3 & D4 & _).
  split.
  - apply (trim_solid s _ [s; h1; h2; 58; m1] m2); [by destruct Hs as [-> | ->] | by apply digit_not_space | done].
  - assert (Hl : ∀ c, is_ascii_digit c = true → lower_char c = c).
    { intros c. unfold is_ascii_digit, lower_char, is_ascii_uppercase. intros Hc. by replace (_ && _) with false by lia. }
    unfold to_ascii_lowercase. cbn [map]. rewrite (Hl h1), (Hl h2), (Hl m1), (Hl m2) by done.
    by destruct Hs as [-> | ->].
Qed.

Lemma fixed_offset_not_word v words :
  is_fixed_utc_offset v = true →
  forallb (λ w, match lit w with c :: _ => negb ((c =? 43) || (c =? 45)) | [] => true end) words = true →
  one_of v words = false.
Proof.
  intros Hf Hw. destruct (is_fixed_utc_offset_shape _ Hf) as (s & h1 & h2 & m1 & m2 & -> & Hs & _).
  unfold one_of. apply existsb_false. apply forallb_Forall in Hw. eapply Forall_impl; [exact Hw|].
  intros w Hc. cbn in Hc. apply str_eqb_neq. intros He. rewrite <- He in Hc.
  by destruct Hs as [-> | ->].
Qed.

(** Normalising a fixed offset. *)
Lemma normalize_offset v utc local :
  is_fixed_utc_offset v = true → normalize_timezone_modifier v utc local = Some v.
Proof.
  intros Hf. destruct (fixed_offset_trim v Hf) as [Ht Hl]. unfold normalize_timezone_modifier.
  rewrite Ht, Hl, !fixed_offset_not_word by done. by rewrite Hf.
Qed.

Lemma strip_zone_prefix_fixed prefixes lower v :
  strip_zone_prefix prefixes lower = Some v → is_fixed_utc_offset v = true.
Proof.
  induction prefixes as [|p prefixes IH]; cbn; [done|].
  destruct (strip_prefix p lower) as [rest|]; [|done]. destruct (is_fixed_utc_offset rest) eqn:E; [|done].
  by intros [= <-].
Qed.

(** Zone spellings.  The two directions accept the same zones.  What the
    forward direction emits is a fixed offset, [utc] or [localtime]; it is its own
    normal form, and the reverse direction reads it as it reads the spelling it
    came from. *)
Lemma timezone_directions_agree value :
  match normalize_timezone_modifier_for_sqlite value with
  | Some modifier =>
      normalize_timezone_modifier_for_sqlite modifier = Some modifier
      ∧ normalize_timezone_modifier_for_postgres modifier = normalize_timezone_modifier_for_postgres value
      ∧ (is_fixed_utc_offset modifier = true ∨ modifier = lit "utc" ∨ modifier = lit "localtime")
  | None => normalize_timezone_modifier_for_postgres value = None
  end.
Proof.
  unfold normalize_timezone_modifier_for_sqlite, normalize_timezone_modifier_for_postgres.
  unfold normalize_timezone_modifier at 1. cbv zeta.
  assert (Hoff : ∀ v, is_fixed_utc_offset v = true →
    normalize_timezone_modifier value (lit "UTC") (lit "localtime") = Some v →
    normalize_timezone_modifier v (lit "utc") (lit "localtime") = Some v
    ∧ normalize_timezone_modifier v (lit "UTC") (lit "localtime")
      = normalize_timezone_modifier value (lit "UTC") (lit "localtime")
    ∧ (is_fixed_utc_offset v = true ∨ v = lit "utc" ∨ v = lit "localtime")).
  { intros v Hv ->. rewrite !normalize_offset by done. auto. }
  assert (Hpg : normalize_timezone_modifier value (lit "UTC") (lit "localtime") = normalize_timezone_modifier value (lit "UTC") (lit "localtime")) by done.
  unfold normalize_timezone_modifier at 2 in Hpg. cbv zeta in Hpg.
  destruct (one_of _ ["utc"; "gmt"; "z"]%string).
  { rewrite Hpg. split_and!; [reflexivity|reflexivity|auto]. }
  destruct (one_of _ ["local"; "localtime"]%string).
  { rewrite Hpg. split_and!; [reflexivity|reflexivity|auto]. }
  destruct (is_fixed_utc_offset (trim value)) eqn:Hf; [by apply Hoff|].
  destruct (strip_zone_prefix _ _) as [v|] eqn:E; [|exact Hpg].
  apply Hoff; [|exact Hpg]. by eapply strip_zone_prefix_fixed.
Qed.
