(* ===== verification/DateParts.v ===== *)
(** * Date parts and format templates

    [src/src/impls/datetime_helpers.rs]: the keys of [EXTRACT], the two format
    translations between [to_char] and [strftime], the canonical text of a
    timestamp with time zone as an expression, and the expressions that compute
    the start of a week, a quarter and a span of years. *)

From S2P Require Import Prelude Text Errors Ast Exprs.

(** ** Keys *)

Inductive DatePartKey :=
| KYear | KMonth | KDay | KHour | KMinute | KSecond | KDayOfWeek | KDayOfYear | KEpoch
| KWeek | KIsoYear | KIsoDayOfWeek.

#[global] Instance DatePartKey_eq_dec : EqDecision DatePartKey.
Proof. solve_decision. Defined.

(** The parser's fields, as far as the code names them. *)
Inductive DateTimeField :=
| Year | Years | Month | Months | Day | Days | Hour | Hours | Minute | Minutes | Second | Seconds
| Dow | DayOfWeek | Doy | DayOfYear | Epoch | Week (weekday : option Ident) | Weeks | IsoWeek
| Isoyear | Isodow | OtherField (name : str).

Definition parse_date_part_key (field : str) : option DatePartKey :=
  let word := to_ascii_lowercase field in
  if one_of word ["year"; "years"]%string then Some KYear
  else if one_of word ["month"; "months"]%string then Some KMonth
  else if one_of word ["day"; "days"]%string then Some KDay
  else if one_of word ["hour"; "hours"]%string then Some KHour
  else if one_of word ["minute"; "minutes"]%string then Some KMinute
  else if one_of word ["second"; "seconds"]%string then Some KSecond
  else if one_of word ["dow"; "weekday"]%string then Some KDayOfWeek
  else if one_of word ["doy"]%string then Some KDayOfYear
  else if one_of word ["epoch"]%string then Some KEpoch
  else if one_of word ["week"; "weeks"]%string then Some KWeek
  else if one_of word ["isoyear"]%string then Some KIsoYear
  else if one_of word ["isodow"]%string then Some KIsoDayOfWeek
  else None.

Definition datetime_field_key (field : DateTimeField) : option DatePartKey :=
  match field with
  | Year | Years => Some KYear
  | Month | Months => Some KMonth
  | Day | Days => Some KDay
  | Hour | Hours => Some KHour
  | Minute | Minutes => Some KMinute
  | Second | Seconds => Some KSecond
  | Dow | DayOfWeek => Some KDayOfWeek
  | Doy | DayOfYear => Some KDayOfYear
  | Epoch => Some KEpoch
  | Week _ | Weeks | IsoWeek => Some KWeek
  | Isoyear => Some KIsoYear
  | Isodow => Some KIsoDayOfWeek
  | OtherField _ => None
  end.

Definition strftime_mapping_for_key {Payload} (key : DatePartKey) : str * DataType Payload :=
  match key with
  | KYear => (lit "%Y", DataInteger None)
  | KMonth => (lit "%m", DataInteger None)
  | KDay => (lit "%d", DataInteger None)
  | KHour => (lit "%H", DataInteger None)
  | KMinute => (lit "%M", DataInteger None)
  | KSecond => (lit "%f", DataReal)
  | KDayOfWeek => (lit "%w", DataInteger None)
  | KDayOfYear => (lit "%j", DataInteger None)
  | KEpoch => (lit "%s", DataReal)
  | KWeek => (lit "%V", DataInteger None)
  | KIsoYear => (lit "%G", DataInteger None)
  | KIsoDayOfWeek => (lit "%u", DataInteger None)
  end.

Definition datetime_field_from_strftime_format (format : str) : option DateTimeField :=
  if one_of format ["%Y"]%string then Some Year
  else if one_of format ["%m"]%string then Some Month
  else if one_of format ["%d"]%string then Some Day
  else if one_of format ["%H"]%string then Some Hour
  else if one_of format ["%M"]%string then Some Minute
  else if one_of format ["%S"; "%f"]%string then Some Second
  else if one_of format ["%s"]%string then Some Epoch
  else if one_of format ["%V"]%string then Some (Week None)
  else if one_of format ["%G"]%string then Some Isoyear
  else if one_of format ["%u"]%string then Some Isodow
  else if one_of format ["%w"]%string then Some DayOfWeek
  else if one_of format ["%j"]%string then Some DayOfYear
  else None.

(** ** Templates *)

Definition TO_CHAR_CODES : list (str * str) :=
  [(lit "YYYY", lit "%Y"); (lit "IYYY", lit "%G"); (lit "IW", lit "%V"); (lit "ID", lit "%u");
   (lit "HH24", lit "%H"); (lit "HH12", lit "%I"); (lit "MM", lit "%m"); (lit "DD", lit "%d");
   (lit "HH", lit "%I"); (lit "MI", lit "%M"); (lit "SS", lit "%S")].

Definition TO_CHAR_SEPARATORS : list Z := lit "-:./,_ T".

Definition unsupported_template (pg_format reason : str) : Error :=
  forward_refusal (lit "to_char format '" ++ pg_format ++ lit "' " ++ reason).

(** [TO_CHAR_CODES.iter().find(...)]: the first code [rest] starts with, and
    what follows it. *)
Fixpoint find_code (codes : list (str * str)) (rest : str) : option (str * str) :=
  match codes with
  | [] => None
  | (code, specifier) :: codes =>
      match strip_prefix code rest with
      | Some after => Some (specifier, after)
      | None => find_code codes rest
      end
  end.

(** The character after a [T]. *)
Definition bare_t_is_literal (rest : str) : bool :=
  match rest !! 1%nat with Some c => negb (char_in (lit "HM") c) | None => true end.

Definition double_percent (literal : str) : str :=
  concat (map (λ c, if c =? 37 then lit "%%" else [c]) literal).

Definition push_quoted_literal (pushed literal pg_format : str) : result Error str :=
  if contains_char 92 literal then
    Err (unsupported_template pg_format
      (lit "escapes a character inside a quoted run with a backslash, which this translation does not read."))
  else Ok (pushed ++ double_percent literal).

(** One turn of the loop: the text pushed so far, and what is left. *)
Definition template_step (pg_format pushed rest : str) : result Error (str * str) :=
  match strip_prefix_char 34 rest with
  | Some after_quote =>
      match find (Z.eqb 34) after_quote with
      | None => Err (unsupported_template pg_format
          (lit "carries an unterminated quote. A literal run is written " ++ quoted (lit "like this") ++ lit "."))
      | Some stop =>
          pushed ← push_quoted_literal pushed (take stop after_quote) pg_format;
          Ok (pushed, drop (stop + 1) after_quote)
      end
  | None =>
      match find_code TO_CHAR_CODES rest with
      | Some (specifier, after) => Ok (pushed ++ specifier, after)
      | None =>
          if starts_with (lit "YY") rest then
            Err (unsupported_template pg_format
              (lit "asks for the two-digit year YY, which SQLite has no specifier for: its strftime answers NULL for '%y'. Use YYYY."))
          else if starts_with (lit "MS") rest || starts_with (lit "US") rest then
            let code := if starts_with (lit "MS") rest then lit "MS" else lit "US" in
            Err (unsupported_template pg_format
              (lit "contains the fractional-seconds code '" ++ code
               ++ lit "'. SQLite strftime has no sub-second specifier; the finest resolution is SS (whole seconds). Three-digit milliseconds can be extracted with printf('%.3f', unixepoch(ts, 'subsec') %% 1)."))
          else
            let character := default 0 (head rest) in
            if (character =? 84) && negb (bare_t_is_literal rest) then
              Err (unsupported_template pg_format
                (lit "carries a bare T before an hour or a minute, which PostgreSQL reads as the start of TH or TM rather than as a separator. Write the ISO separator as "
                 ++ quoted (lit "T") ++ lit "."))
            else if negb (char_in TO_CHAR_SEPARATORS character) then
              Err (unsupported_template pg_format
                (lit "contains '" ++ [character]
                 ++ lit "'. Supported codes: YYYY, IYYY, IW, ID, MM, DD, HH24, HH12, HH, MI, SS. Supported separators: - : . / , _ (space) T, and any text in double quotes. For number formatting codes (9, 0, FM, L, ...) use printf() or CAST."))
            else Ok (pushed ++ [character], drop 1 rest)
      end
  end.

(** The loop.  Every turn consumes a character, so the length of the template is
    fuel enough ([template_total]). *)
Fixpoint template_loop (fuel : nat) (pg_format pushed rest : str) : option (result Error str) :=
  match rest with
  | [] => Some (Ok pushed)
  | _ =>
      match fuel with
      | O => None
      | S fuel =>
          match template_step pg_format pushed rest with
          | Err error => Some (Err error)
          | Ok (pushed, rest) => template_loop fuel pg_format pushed rest
          end
      end
  end.

Definition pg_to_char_format_to_strftime (pg_format : str) : option (result Error str) :=
  template_loop (length pg_format) pg_format [] pg_format.

(** The first code whose specifier ends with [spec]. *)
Fixpoint code_of_specifier (codes : list (str * str)) (spec : Z) : option str :=
  match codes with
  | [] => None
  | (code, strftime) :: codes =>
      if ends_with [spec] strftime then Some code else code_of_specifier codes spec
  end.

Fixpoint strftime_format_to_pg_to_char (format : str) : option str :=
  match format with
  | [] => Some []
  | c :: chars =>
      if c =? 37 then
        match chars with
        | [] => None
        | spec :: chars =>
            if spec =? 121 then None
            else
              code ← code_of_specifier TO_CHAR_CODES spec;
              template ← strftime_format_to_pg_to_char chars;
              Some (code ++ template)
        end
      else if c =? 84 then
        template ← strftime_format_to_pg_to_char chars; Some (quoted (lit "T") ++ template)
      else if char_in TO_CHAR_SEPARATORS c then
        template ← strftime_format_to_pg_to_char chars; Some (c :: template)
      else None
  end.

(** ** Calls *)

Definition TIMESTAMPTZ_FORMAT : str := lit "%Y-%m-%d %H:%M:%f000+00:00".

Section Calls.
Context {Payload : Type}.
Implicit Types (expr value : Expr Payload).

Definition build_strftime_call (format : str) value : Expr Payload :=
  simple_function_expr (lit "strftime") [string_literal format; value].

Definition build_subsecond_unixepoch_call value : Expr Payload :=
  simple_function_expr (lit "unixepoch") [value; string_literal (lit "subsec")].

Definition build_date_part_expr (key : DatePartKey) value : Expr Payload :=
  if decide (key = KEpoch) then build_subsecond_unixepoch_call value
  else
    let '(format_str, cast_type) := strftime_mapping_for_key key in
    ECast (build_strftime_call format_str value) cast_type.

Definition canonical_timestamptz_call value : Expr Payload := build_strftime_call TIMESTAMPTZ_FORMAT value.

Fixpoint peel_nested expr : Expr Payload :=
  match expr with ENested inner => peel_nested inner | _ => expr end.

Definition is_canonical_timestamptz_call expr : bool :=
  match peel_nested expr with
  | EFunction name args =>
      is_function_named name (lit "strftime")
      && match function_argument_exprs args with
         | [format; _] => bool_decide (single_quoted_literal format = Some TIMESTAMPTZ_FORMAT)
         | _ => false
         end
  | _ => false
  end.

(** [take_last_argument]: the argument, and what the call becomes. *)
Fixpoint take_last_argument expr : option (Expr Payload * Expr Payload) :=
  match expr with
  | ENested inner => '(operand, inner) ← take_last_argument inner; Some (operand, ENested inner)
  | EFunction name (ListArguments args) =>
      match last args with
      | Some (Unnamed (ArgExpr operand)) =>
          Some (operand, EFunction name (ListArguments (take (length args - 1) args)))
      | _ => None
      end
  | _ => None
  end.

Definition take_canonical_timestamptz_operand expr : option (Expr Payload * Expr Payload) :=
  if is_canonical_timestamptz_call expr then take_last_argument expr else None.

Definition is_utc_datetime_call expr : bool :=
  match peel_nested expr with
  | EFunction name args =>
      is_function_named name (lit "datetime") && Nat.eqb (length (function_argument_exprs args)) 1
  | _ => false
  end.

(** The recursion enters the first argument that carries an expression. *)
Fixpoint is_offset_less_timestamp_call expr : bool :=
  match expr with
  | ENested inner => is_offset_less_timestamp_call inner
  | EFunction name args =>
      let first_offset_less := (fix first_offset_less (list : list (FunctionArg Payload)) : bool :=
        match list with
        | [] => false
        | (Unnamed (ArgExpr e) | Named _ (ArgExpr e) | ExprNamed _ (ArgExpr e)) :: _ =>
            is_offset_less_timestamp_call e
        | _ :: list => first_offset_less list
        end) in
      if is_function_named name (lit "datetime") || is_function_named name (lit "date") then true
      else if is_function_named name (lit "rtrim") then
        match args with ListArguments list => first_offset_less list | _ => false end
      else
        is_function_named name (lit "strftime")
        && match head (function_argument_exprs args) ≫= single_quoted_literal with
           | Some format =>
               negb (str_eqb format TIMESTAMPTZ_FORMAT)
               && starts_with (lit "%Y-") format && contains_char 58 format
           | None => false
           end
  | _ => false
  end.

Definition canonical_timestamptz_value value : Expr Payload :=
  if is_canonical_timestamptz_call value then value
  else
    let rest := if is_offset_less_timestamp_call value then canonical_timestamptz_call value else value in
    if is_utc_datetime_call value then
      match take_last_argument value with
      | Some (operand, _) =>
          if is_canonical_timestamptz_call operand then operand else canonical_timestamptz_call operand
      | None => rest
      end
    else rest.

Definition binary (left : Expr Payload) (op : BinaryOperator Payload) (right : Expr Payload) : Expr Payload :=
  EBinaryOp left op right.

Definition strftime_number (format : str) value : Expr Payload :=
  ECast (build_strftime_call format value) (DataInteger None).

Definition build_date_trunc_week_call value : Expr Payload :=
  simple_function_expr (lit "datetime")
    [value; string_literal (lit "-6 days"); string_literal (lit "weekday 1");
     string_literal (lit "start of day")].

Definition quarter_modifier value : Expr Payload :=
  let month_index := binary (strftime_number (lit "%m") value) BMinus (integer_literal 1) in
  let months_into_year :=
    binary (binary (ENested month_index) BDivide (integer_literal 3)) BMultiply (integer_literal 3) in
  binary (binary (string_literal (lit "+")) BStringConcat (ENested months_into_year))
    BStringConcat (string_literal (lit " months")).

Definition build_date_trunc_quarter_call value : Expr Payload :=
  simple_function_expr (lit "datetime")
    [value; string_literal (lit "start of year"); quarter_modifier value].

Definition year_span_start value (span offset : Z) : Expr Payload :=
  let year := strftime_number (lit "%Y") value in
  let counted_from := if offset =? 0 then year
                      else ENested (binary year BMinus (integer_literal offset)) in
  let floored := binary (binary counted_from BDivide (integer_literal span)) BMultiply (integer_literal span) in
  if offset =? 0 then floored else binary floored BPlus (integer_literal offset).

Definition build_date_trunc_year_span_call value (span offset : Z) : Expr Payload :=
  simple_function_expr (lit "datetime")
    [simple_function_expr (lit "printf")
       [string_literal (lit "%04d-01-01 00:00:00"); year_span_start value span offset]].
End Calls.

(** ** Keys and formats *)

(** Date parts survive the round trip.  The format a key is written with names
    a field that stands for the same key, so [EXTRACT] comes back from SQLite with
    the part it left with. *)
Lemma date_part_roundtrip (key : DatePartKey) :
  ∃ field, datetime_field_from_strftime_format (fst (@strftime_mapping_for_key unit key)) = Some field
           ∧ datetime_field_key field = Some key.
Proof. destruct key; eexists; split; reflexivity. Qed.

(** ** Lowering a template *)

Lemma find_code_shorter codes rest specifier after :
  Forall (λ c, fst c ≠ []) codes → find_code codes rest = Some (specifier, after) →
  (length after < length rest)%nat ∧ specifier ∈ map snd codes.
Proof.
  induction 1 as [|[code spec] codes Hc _ IH]; cbn [find_code map]; [done|].
  destruct (strip_prefix code rest) as [t|] eqn:E.
  - intros [= <- <-]. apply strip_prefix_Some in E as ->. rewrite length_app.
    split; [|rewrite elem_of_cons; auto]. destruct code; [done|]. cbn. lia.
  - intros Hf. apply IH in Hf as [? ?]. rewrite elem_of_cons. auto.
Qed.

Lemma codes_nonempty : Forall (λ c, fst c ≠ []) TO_CHAR_CODES.
Proof. by repeat constructor. Qed.

(** Every specifier of a format is one SQLite knows. *)
Definition known_specifier (c : Z) : bool := char_in (lit "YGVuHImdMS%") c.

Fixpoint known_format (format : str) : bool :=
  match format with
  | [] => true
  | c :: chars =>
      if c =? 37 then match chars with [] => false | spec :: chars => known_specifier spec && known_format chars end
      else known_format chars
  end.

Lemma known_format_app a b : known_format a = true → known_format (a ++ b) = known_format b.
Proof.
  revert a. fix IH 1. intros [|c chars]; [done|]. cbn [known_format app].
  destruct (c =? 37); [|apply IH]. destruct chars as [|spec chars]; [done|]. cbn [app].
  intros Hk. apply andb_true_iff in Hk as [Hs Hk]. rewrite Hs. cbn [andb]. by apply IH.
Qed.

Lemma known_double_percent literal : known_format (double_percent literal) = true.
Proof.
  unfold double_percent. induction literal as [|c literal IH]; [done|]. cbn [map concat].
  rewrite known_format_app; [done|]. destruct (c =? 37) eqn:E; [done|]. cbn [known_format]. by rewrite E.
Qed.

Lemma known_specifiers specifier : specifier ∈ map snd TO_CHAR_CODES → known_format specifier = true.
Proof.
  assert (Hall : Forall (λ s, known_format s = true) (map snd TO_CHAR_CODES)) by (by repeat constructor).
  rewrite Forall_forall in Hall. apply Hall.
Qed.

(** One turn consumes a character and pushes only known specifiers. *)
Lemma template_step_spec pg_format pushed rest pushed' rest' :
  rest ≠ [] → template_step pg_format pushed rest = Ok (pushed', rest') →
  (length rest' < length rest)%nat ∧ (known_format pushed = true → known_format pushed' = true).
Proof.
  intros Hne. unfold template_step. destruct (strip_prefix_char 34 rest) as [q|] eqn:Eq.
  - destruct rest as [|c rest]; [done|]. cbn in Eq. destruct (c =? 34); [|done]. injection Eq as ->.
    destruct (find (Z.eqb 34) q) as [stop|]; [|done]. intros H. apply bind_Ok in H as (p & Hp & H).
    injection H as <- <-. split; [rewrite length_drop; cbn; lia|]. unfold push_quoted_literal in Hp.
    destruct (contains_char _ _); [done|]. injection Hp as <-. intros Hk.
    rewrite known_format_app by done. apply known_double_percent.
  - destruct (find_code TO_CHAR_CODES rest) as [[specifier after]|] eqn:Ec.
    + intros [= <- <-]. apply find_code_shorter in Ec as [Hl Hs]; [|apply codes_nonempty].
      split; [done|]. intros Hk. rewrite known_format_app by done. by apply known_specifiers.
    + destruct (starts_with _ rest); [done|]. destruct (starts_with _ rest || _); [done|].
      destruct (_ && _); [done|]. destruct (negb (char_in _ _)) eqn:Es; [done|]. intros [= <- <-].
      destruct rest as [|c rest]; [done|]. cbn [default head] in *. unfold default, id in *. bools.
      split; [rewrite length_drop; cbn; lia|]. intros Hk. rewrite known_format_app by done. cbn [known_format].
      destruct (Z.eqb_spec c 37) as [->|]; [|done]. done.
Qed.

Lemma template_loop_spec fuel pg_format pushed rest :
  (length rest <= fuel)%nat →
  ∃ r, template_loop fuel pg_format pushed rest = Some r
       ∧ ∀ format, r = Ok format → known_format pushed = true → known_format format = true.
Proof.
  revert pushed rest. induction fuel as [|fuel IH]; intros pushed rest Hl.
  - destruct rest; [|cbn in Hl; lia]. cbn. eexists. split; [done|]. by intros f [= <-].
  - destruct rest as [|c rest]; [cbn; eexists; split; [done|]; by intros f [= <-]|].
    cbn [template_loop]. destruct (template_step pg_format pushed (c :: rest)) as [[p r]|e] eqn:E.
    + apply template_step_spec in E as [Hlt Hk]; [|done]. destruct (IH p r) as (res & Hr & Hf); [lia|].
      exists res. split; [done|]. auto.
    + eexists. split; [done|]. done.
Qed.

(** Templates are answered.  Every [to_char] template is lowered or refused,
    and a lowered one holds only specifiers SQLite has, the percent signs of its
    literal runs included, so no call that is emitted answers NULL for its format. *)
Lemma to_char_lowering_known pg_format :
  ∃ r, pg_to_char_format_to_strftime pg_format = Some r
       ∧ ∀ format, r = Ok format → known_format format = true.
Proof.
  destruct (template_loop_spec (length pg_format) pg_format [] pg_format) as (r & Hr & Hk); [lia|].
  exists r. split; [exact Hr|]. intros format Hf. by apply Hk.
Qed.

(** ** And back *)

Lemma code_of_specifier_cases spec code :
  code_of_specifier TO_CHAR_CODES spec = Some code →
  (spec, code) ∈ [(89, lit "YYYY"); (71, lit "IYYY"); (86, lit "IW"); (117, lit "ID"); (72, lit "HH24");
    (73, lit "HH12"); (109, lit "MM"); (100, lit "DD"); (77, lit "MI"); (83, lit "SS")].
Proof.
  assert (He : ∀ c, ends_with [spec] [37; c] = (spec =? c)).
  { intros c. unfold ends_with, strip_suffix. cbn. by destruct (spec =? c). }
  unfold TO_CHAR_CODES. cbn [code_of_specifier].
  change (lit "%Y") with [37; 89]. change (lit "%G") with [37; 71]. change (lit "%V") with [37; 86].
  change (lit "%u") with [37; 117]. change (lit "%H") with [37; 72]. change (lit "%I") with [37; 73].
  change (lit "%m") with [37; 109]. change (lit "%d") with [37; 100]. change (lit "%M") with [37; 77].
  change (lit "%S") with [37; 83]. rewrite !He, !elem_of_cons.
  destruct (Z.eqb_spec spec 89) as [->|]; [intros [= <-]; auto|].
  destruct (Z.eqb_spec spec 71) as [->|]; [intros [= <-]; auto|].
  destruct (Z.eqb_spec spec 86) as [->|]; [intros [= <-]; auto|].
  destruct (Z.eqb_spec spec 117) as [->|]; [intros [= <-]; auto 6|].
  destruct (Z.eqb_spec spec 72) as [->|]; [intros [= <-]; auto 7|].
  destruct (Z.eqb_spec spec 73) as [->|]; [intros [= <-]; auto 8|].
  destruct (Z.eqb_spec spec 109) as [->|]; [intros [= <-]; auto 9|].
  destruct (Z.eqb_spec spec 100) as [->|]; [intros [= <-]; auto 10|].
  destruct (Z.eqb_spec spec 77) as [->|]; [intros [= <-]; auto 11|].
  destruct (Z.eqb_spec spec 83) as [->|]; [intros [= <-]; auto 12|]. done.
Qed.

(** A code is read back whatever follows it. *)
Lemma template_step_code pg_format pushed spec code rest :
  code_of_specifier TO_CHAR_CODES spec = Some code →
  template_step pg_format pushed (code ++ rest) = Ok (pushed ++ [37; spec], rest) ∧ code ≠ [].
Proof.
  intros Hc. apply code_of_specifier_cases in Hc. rewrite !elem_of_cons, elem_of_nil in Hc.
  repeat destruct Hc as [Hc|Hc]; try done; apply pair_equal_spec in Hc as [-> ->];
    (split; [reflexivity|discriminate]).
Qed.

Lemma template_step_separator pg_format pushed c rest :
  char_in TO_CHAR_SEPARATORS c = true → (c =? 84) = false →
  template_step pg_format pushed (c :: rest) = Ok (pushed ++ [c], rest).
Proof.
  unfold char_in, TO_CHAR_SEPARATORS. change (lit "-:./,_ T") with [45; 58; 46; 47; 44; 95; 32; 84]. cbn [existsb].
  intros Hc H84.
  assert (c = 45 ∨ c = 58 ∨ c = 46 ∨ c = 47 ∨ c = 44 ∨ c = 95 ∨ c = 32) as Hcs by lia. clear Hc H84.
  repeat destruct Hcs as [Hcs|Hcs]; subst c; reflexivity.
Qed.

Lemma template_loop_step fuel pg_format pushed pushed' c rest rest' :
  template_step pg_format pushed (c :: rest) = Ok (pushed', rest') →
  template_loop (S fuel) pg_format pushed (c :: rest) = template_loop fuel pg_format pushed' rest'.
Proof. intros Hs. cbn [template_loop]. by rewrite Hs. Qed.

Lemma to_char_reads_back pg_format n : ∀ format template fuel pushed,
  (length format <= n)%nat → strftime_format_to_pg_to_char format = Some template →
  (length template <= fuel)%nat →
  template_loop fuel pg_format pushed template = Some (Ok (pushed ++ format)).
Proof.
  induction n as [|n IH]; intros format template fuel pushed Hn Hs Hf.
  - destruct format; [|cbn in Hn; lia]. injection Hs as <-. rewrite app_nil_r. by destruct fuel.
  - destruct format as [|c format]; [injection Hs as <-; rewrite app_nil_r; by destruct fuel|].
    cbn [strftime_format_to_pg_to_char] in Hs. cbn in Hn. destruct (Z.eqb_spec c 37) as [->|Hc].
    + destruct format as [|spec format]; [done|]. destruct (spec =? 121); [done|].
      apply bind_Some in Hs as (code & Hcode & Hs). apply bind_Some in Hs as (t & Ht & Hs). injection Hs as <-.
      destruct (template_step_code pg_format pushed spec code t Hcode) as [Hstep Hne].
      rewrite length_app in Hf. destruct code as [|x code]; [done|]. cbn in Hf, Hn.
      change ((x :: code) ++ t) with (x :: code ++ t) in *.
      destruct fuel as [|fuel]; [lia|]. rewrite (template_loop_step _ _ _ _ _ _ _ Hstep).
      rewrite (IH format t fuel _ ltac:(lia) Ht ltac:(lia)). by rewrite <- app_assoc.
    + destruct (Z.eqb_spec c 84) as [->|Ht84].
      * apply bind_Some in Hs as (t & Ht & Hs). injection Hs as <-. cbn in Hf.
        destruct fuel as [|fuel]; [lia|].
        assert (Hstep : template_step pg_format pushed (34 :: 84 :: 34 :: t) = Ok (pushed ++ [84], t)) by reflexivity.
        change (quoted (lit "T") ++ t) with (34 :: 84 :: 34 :: t). rewrite (template_loop_step _ _ _ _ _ _ _ Hstep).
        rewrite (IH format t fuel _ ltac:(lia) Ht ltac:(lia)). by rewrite <- app_assoc.
      * destruct (char_in TO_CHAR_SEPARATORS c) eqn:Hsep; [|done].
        apply bind_Some in Hs as (t & Ht & Hs). injection Hs as <-. cbn in Hf. destruct fuel as [|fuel]; [lia|].
        pose proof (template_step_separator pg_format pushed c t Hsep ltac:(lia)) as Hstep.
        rewrite (template_loop_step _ _ _ _ _ _ _ Hstep).
        rewrite (IH format t fuel _ ltac:(lia) Ht ltac:(lia)). by rewrite <- app_assoc.
Qed.

(** C37 (format templates round trip). A [strftime] format that is translated to a
    [to_char] template is exactly the format that template is lowered to: the
    codes run together are read back at the places they were written. *)
Theorem strftime_to_char_roundtrip format template :
  strftime_format_to_pg_to_char format = Some template →
  pg_to_char_format_to_strftime template = Some (Ok format).
Proof. intros Hs. by apply (to_char_reads_back template (length format) format template _ []). Qed.

(** ** Canonical calls *)

Section CallLemmas.
Context {Payload : Type}.
Implicit Types (value operand : Expr Payload).

Lemma canonical_call_recognised value :
  is_canonical_timestamptz_call (canonical_timestamptz_call value) = true.
Proof.
  unfold is_canonical_timestamptz_call, canonical_timestamptz_call, build_strftime_call, simple_function_expr.
  cbn [peel_nested]. change (is_function_named [Identifier (Ident_new (lit "strftime"))] (lit "strftime")) with true.
  cbn [andb map function_argument_exprs omap list_omap function_arg_expr unnamed_arg single_quoted_literal string_literal].
  by apply bool_decide_eq_true.
Qed.

(** One canonical text.  Making a value canonical twice is making it canonical
    once, and the operand of a canonical call is recovered from it: the reverse
    translation finds the value the forward one wrapped. *)
Lemma canonical_timestamptz_value_idempotent value :
  canonical_timestamptz_value (canonical_timestamptz_value value) = canonical_timestamptz_value value
  ∧ fst <$> take_canonical_timestamptz_operand (canonical_timestamptz_call value) = Some value.
Proof.
  split; [|unfold take_canonical_timestamptz_operand; by rewrite canonical_call_recognised].
  assert (Hc : ∀ v : Expr Payload, is_canonical_timestamptz_call v = true → canonical_timestamptz_value v = v)
    by (intros v Hv; unfold canonical_timestamptz_value; by rewrite Hv).
  unfold canonical_timestamptz_value at 2 3.
  destruct (is_canonical_timestamptz_call value) eqn:E1; [by apply Hc|].
  assert (Hrest : canonical_timestamptz_value
      (if is_offset_less_timestamp_call value then canonical_timestamptz_call value else value)
    = (if is_offset_less_timestamp_call value then canonical_timestamptz_call value else value)
    ∨ is_utc_datetime_call value = true ∧ is_Some (take_last_argument value)).
  { destruct (is_offset_less_timestamp_call value) eqn:E2; [left; apply Hc, canonical_call_recognised|].
    unfold canonical_timestamptz_value. rewrite E1, E2.
    destruct (is_utc_datetime_call value); [|by left].
    destruct (take_last_argument value) as [[o e]|]; [right; eauto|by left]. }
  destruct (is_utc_datetime_call value) eqn:E3; [|by destruct Hrest as [?|[? _]]].
  destruct (take_last_argument value) as [[operand rest]|] eqn:E4;
    [|by destruct Hrest as [?|[_ [? ?]]]].
  destruct (is_canonical_timestamptz_call operand) eqn:E5; [by apply Hc|].
  apply Hc, canonical_call_recognised.
Qed.
End CallLemmas.

(** ** The start of a period *)

Section Periods.
Context {Payload : Type}.
(** The number [CAST(strftime(format, value) AS INTEGER)] answers. *)
Variable part : str → Z.

Fixpoint eval_int (expr : Expr Payload) : option Z :=
  match expr with
  | EValue (Number digits _) => parse_i64 digits
  | ENested inner => eval_int inner
  | ECast call (DataInteger _) =>
      match call with
      | EFunction name args =>
          if is_function_named name (lit "strftime") then
            part <$> (head (function_argument_exprs args) ≫= single_quoted_literal)
          else None
      | _ => None
      end
  | EBinaryOp e1 op e2 =>
      l ← eval_int e1; r ← eval_int e2;
      match op with
      | BMinus => Some (l - r)
      | BPlus => Some (l + r)
      | BMultiply => Some (l * r)
      | BDivide => if r =? 0 then None else Some (l ÷ r)
      | _ => None
      end
  | _ => None
  end.

Fixpoint eval_text (expr : Expr Payload) : option str :=
  match expr with
  | EValue (SingleQuotedString text) => Some text
  | EBinaryOp e1 BStringConcat e2 => l ← eval_text e1; r ← eval_text e2; Some (l ++ r)
  | _ => dec_signed <$> eval_int expr
  end.

(** Printed without parentheses of its own, the expression is read back with the
    same grouping: SQLite binds concatenation tightest, then products, then
    sums, each to the left. *)
Definition level (expr : Expr Payload) : Z :=
  match expr with
  | EBinaryOp _ (BPlus | BMinus) _ => 1
  | EBinaryOp _ (BMultiply | BDivide) _ => 2
  | EBinaryOp _ BStringConcat _ => 3
  | EBinaryOp _ _ _ => 0
  | _ => 4
  end.

Fixpoint grouped (expr : Expr Payload) : bool :=
  match expr with
  | EBinaryOp e1 _ e2 =>
      (level expr <=? level e1) && (level expr <? level e2) && grouped e1 && grouped e2
  | ENested inner => grouped inner
  | _ => true
  end.

Lemma eval_integer_literal z : i64_min <= z <= i64_max → eval_int (integer_literal z) = Some z.
Proof. intros Hz. rewrite <- (integer_literal_reads (Payload := Payload) z Hz). done. Qed.

Lemma eval_strftime_number format value : eval_int (strftime_number format value) = Some (part format).
Proof. reflexivity. Qed.

(** The start of a quarter.  For every month of the year the modifier says how
    many months into the year its quarter starts: a multiple of three, the month
    itself one to three months after it. *)
Lemma quarter_modifier_start value :
  1 <= part (lit "%m") <= 12 →
  grouped (quarter_modifier value) = true
  ∧ ∃ k, eval_text (quarter_modifier value) = Some (lit "+" ++ dec_signed k ++ lit " months")
         ∧ k mod 3 = 0 ∧ 0 <= k <= 9 ∧ k < part (lit "%m") <= k + 3.
Proof.
  intros Hm. split; [reflexivity|]. exists ((part (lit "%m") - 1) ÷ 3 * 3).
  split; [|divmod]. unfold quarter_modifier, binary. cbn [eval_text eval_int].
  rewrite !eval_integer_literal by (unfold i64_min, i64_max; lia). rewrite eval_strftime_number. reflexivity.
Qed.

(** The start of a decade, a century, a millennium.  For every year from the
    first of the count on, the expression answers the first year of the period the
    year is in: the periods start where the count starts and are [span] years
    long. *)
Lemma year_span_start_spec value span offset :
  0 < span <= i64_max → 0 <= offset <= i64_max → offset <= part (lit "%Y") →
  grouped (year_span_start value span offset) = true
  ∧ ∃ p, eval_int (year_span_start value span offset) = Some p
         ∧ p <= part (lit "%Y") < p + span ∧ (p - offset) mod span = 0.
Proof.
  intros Hs Ho Hy. set (y := part (lit "%Y")) in *.
  split; [unfold year_span_start; by destruct (offset =? 0)|].
  exists ((y - offset) ÷ span * span + offset). split.
  - unfold year_span_start, binary. destruct (Z.eqb_spec offset 0) as [->|Hne]; cbn [eval_int].
    + rewrite !eval_integer_literal by (unfold i64_min, i64_max in *; lia). rewrite eval_strftime_number.
      fold y. cbn [mbind option_bind]. replace (span =? 0) with false by lia. cbn [mbind option_bind].
      f_equal. rewrite Z.sub_0_r. lia.
    + rewrite !eval_integer_literal by (unfold i64_min, i64_max in *; lia). rewrite eval_strftime_number.
      fold y. cbn [mbind option_bind]. replace (span =? 0) with false by lia. done.
  - rewrite Z.quot_div_nonneg by lia.
    pose proof (Z.div_mod (y - offset) span ltac:(lia)). pose proof (Z.mod_pos_bound (y - offset) span ltac:(lia)).
    split; [lia|]. replace (_ + offset - offset) with ((y - offset) / span * span) by lia.
    apply Z.mod_mul. lia.
Qed.
End Periods.

(** ** Witnesses *)

Lemma strftime_to_char_roundtrip_witness :
  strftime_format_to_pg_to_char (lit "%Y-%mT%d%d %I:%M%m")
  = Some (lit "YYYY-MM" ++ quoted (lit "T") ++ lit "DDDD HH12:MIMM")
  ∧ pg_to_char_format_to_strftime (lit "YYYY-MM" ++ quoted (lit "T") ++ lit "DDDD HH12:MIMM")
    = Some (Ok (lit "%Y-%mT%d%d %I:%M%m")).
Proof. split; [reflexivity|]. apply strftime_to_char_roundtrip. reflexivity. Defined.

Lemma quarter_modifier_start_witness :
  ∃ k, eval_text (λ _, 8) (quarter_modifier (EIdentifier (Payload := unit) (Ident_new (lit "d"))))
       = Some (lit "+" ++ dec_signed k ++ lit " months") ∧ k < 8 <= k + 3.
Proof.
  destruct (quarter_modifier_start (λ _, 8) (EIdentifier (Payload := unit) (Ident_new (lit "d"))))
    as (_ & k & Hk & _ & _ & Hr); [lia|]. exists k. split; [exact Hk | exact Hr].
Defined.

Lemma year_span_start_spec_witness :
  ∃ p, eval_int (λ _, 2000) (year_span_start (EIdentifier (Payload := unit) (Ident_new (lit "d"))) 100 1)
       = Some p ∧ p <= 2000 < p + 100.
Proof.
  destruct (year_span_start_spec (λ _, 2000) (EIdentifier (Payload := unit) (Ident_new (lit "d"))) 100 1)
    as (_ & p & Hp & Hr & _); [unfold i64_max; lia..|]. exists p. split; [exact Hp | exact Hr].
Defined.
