(* ===== verification/ColumnValues.v ===== *)
(** * Values written into typed columns

    The conversions of [src/src/impls/shared_helpers.rs] between a value as
    PostgreSQL takes it and the form its column is stored in: one function per type,
    [convert_value_for_column_type] over them all, which insertions and comparisons
    use, and [ColumnRewrites], which assignments use.  The columns of a table are what
    the catalogue lists, [None] where it cannot. *)

From S2P Require Import Prelude Text Utf8 Errors Ast Exprs Names SqliteEval DataTypes Uuid MinorUnits Vector.
From S2P Require Import TemporalLiterals Interval Timezone DateParts.
Import DataTypes Uuid MinorUnits Vector.

Module ColumnValues.
Section ColumnValues.
Context {Payload : Type} `{TypeDisplay Payload} `{Unicode}.
Implicit Types (expr value : Expr Payload) (data_type : DataType Payload) (options : StorageOptions).

Definition is_bound_parameter expr : bool := match expr with EValue (ValuePlaceholder _) => true | _ => false end.

(** ** One type at a time *)

Definition convert_bytea_hex_literal expr : result Error (Expr Payload) :=
  match single_quoted_literal expr with
  | None => Ok expr
  | Some text =>
      match strip_prefix (lit "\x") text with
      | None => Err (forward_refusal (lit "bytea literal '" ++ text ++ lit "' is not in the PostgreSQL hex format (\x<hex>). Use the hex format: E.g., '\x414243' for the bytes 'ABC'."))
      | Some hex =>
          if negb (Nat.eqb (length (utf8 hex) mod 2) 0) then
            Err (forward_refusal (lit "bytea literal '\x" ++ hex ++ lit "' has an odd number of nibbles. PostgreSQL requires pairs of hex digits."))
          else if negb (forallb is_ascii_hexdigit hex) then
            Err (forward_refusal (lit "bytea literal '\x" ++ hex ++ lit "' contains a non-hex character."))
          else Ok (simple_function_expr (lit "unhex") [string_literal hex])
      end
  end.

Definition is_jsonb data_type : bool := match data_type with DataJSONB => true | _ => false end.

Definition check_json_document_literal data_type expr : result Error (Expr Payload) :=
  match expr with
  | EValue (SingleQuotedString text) =>
      if is_jsonb data_type && contains (lit "\u0000") (to_ascii_lowercase text) then
        Err (forward_refusal (lit "the document " ++ text ++ lit " carries a \u0000 escape, which PostgreSQL refuses for a jsonb column, answering `unsupported Unicode escape sequence`: a NUL has no text form there. Remove it, or declare the column json, which does keep it."))
      else Ok expr
  | EValue (ValueNull | ValuePlaceholder _) => Ok expr
  | EValue other =>
      Err (forward_refusal (value_to_string other ++ lit " is not a document a " ++ data_type_to_string data_type
        ++ lit " column can hold: PostgreSQL answers `column is of type " ++ data_type_to_string data_type
        ++ lit " but expression is of type ...` for a value that is not JSON text, where the replica's TEXT column would take it. Write the document as a string, as '"
        ++ value_to_string other ++ lit "'."))
  | _ => Ok expr
  end.

Definition normalize_interval_literal_expr expr : result Error (Expr Payload) :=
  match expr with
  | EValue (SingleQuotedString text) => normalized ← interval_literal text; Ok (string_literal normalized)
  | _ => Ok expr
  end.

Definition normalize_temporal_literal_expr (kind : TemporalLiteralKind) expr : result Error (Expr Payload) :=
  match expr with
  | EValue (SingleQuotedString text) => normalized ← normalize_temporal_literal kind text; Ok (string_literal normalized)
  | _ => Ok expr
  end.

Definition is_timestamptz (kind : TemporalLiteralKind) : bool := match kind with Timestamp true => true | _ => false end.
Definition is_awareness (source : option TimestampAwareness) (wanted : TimestampAwareness) : bool :=
  match source, wanted with Some Naive, Naive | Some Aware, Aware => true | _, _ => false end.

Definition convert_temporal_value (kind : TemporalLiteralKind) expr (source : option TimestampAwareness) : result Error (Expr Payload) :=
  if is_some (single_quoted_literal expr) then normalize_temporal_literal_expr kind expr
  else if is_timestamptz kind then
    let value := canonical_timestamptz_value expr in
    Ok (if is_awareness source Naive && negb (is_canonical_timestamptz_call value) then canonical_timestamptz_call value else value)
  else
    match (match take_canonical_timestamptz_operand expr with
           | Some (operand, _) => Some operand
           | None => if is_awareness source Aware then Some expr else None
           end) with
    | None => Ok expr
    | Some instant =>
        Ok match kind with
           | Time true => build_strftime_call (lit "%H:%M:%S+00:00") instant
           | Time false => simple_function_expr (lit "time") [instant]
           | Date => simple_function_expr (lit "date") [instant]
           | Timestamp _ => simple_function_expr (lit "datetime") [instant]
           end
    end.

Definition is_float_special (text : str) : bool :=
  one_of (to_ascii_lowercase text) ["nan"; "infinity"; "-infinity"; "+infinity"; "inf"; "-inf"; "+inf"]%string.

Definition is_float data_type : bool :=
  match data_type with DataReal | DataFloat _ | DataDouble _ | DataDoublePrecision | DataFloat4 | DataFloat8 => true | _ => false end.

Definition float_special_refusal data_type expr : option Error :=
  if negb (is_float data_type) then None
  else
    text ← single_quoted_literal expr;
    if negb (is_float_special text) then None
    else Some (forward_refusal (lit "SQLite cannot hold " ++ text ++ lit ": CAST('" ++ text
      ++ lit "' AS REAL) stores 0.0, which silently matches WHERE col = 0. Store as TEXT and handle in the application, or exclude this column.")).

Definition array_text_literal_refusal data_type : Error :=
  forward_refusal (lit "a string literal cannot be written into " ++ data_type_to_string data_type
    ++ lit ": the replica stores arrays as JSON and has no way to parse PostgreSQL array syntax. Use an ARRAY[...] constructor instead.").

Definition is_binary (c : Z) : bool := (c =? 48) || (c =? 49).

(** The bits of a digit, most significant first. *)
Definition nibble (value : Z) : str := map (λ shift, if Z.testbit value shift then 49 else 48) [3; 2; 1; 0].

Fixpoint expand_digits (hex digits : str) : result Error str :=
  match digits with
  | [] => Ok []
  | digit :: digits =>
      if is_ascii_hexdigit digit then bits ← expand_digits hex digits; Ok (nibble (hex_value digit) ++ bits)
      else Err (forward_refusal ([34; digit; 34] ++ lit " is not a valid hexadecimal digit: X'" ++ hex ++ lit "' cannot be read as a bit string."))
  end.
Definition expand_hex_to_bits (hex : str) : result Error str := expand_digits hex hex.

Definition check_bits (bits : str) : result Error str :=
  match List.find (λ c, negb (is_binary c)) bits with
  | Some invalid =>
      Err (forward_refusal ([34; invalid; 34] ++ lit " is not a valid binary digit: a bit column is stored as its digit text, so '" ++ bits
        ++ lit "' would be held where PostgreSQL refuses it. Write a string of 0 and 1, a B'...' literal, or an X'...' literal."))
  | None => Ok bits
  end.

Definition convert_bit_literal expr : result Error (Expr Payload) :=
  match expr with
  | EValue (SingleQuotedByteStringLiteral bits | DoubleQuotedByteStringLiteral bits | SingleQuotedString bits) =>
      digits ← check_bits bits; Ok (string_literal digits)
  | EValue (HexStringLiteral hex) => digits ← expand_hex_to_bits hex; Ok (string_literal digits)
  | _ => Ok expr
  end.

(** ** All types *)

Definition is_array data_type : bool := match data_type with DataArray _ => true | _ => false end.
Definition is_interval data_type : bool := match data_type with DataInterval _ => true | _ => false end.
Definition is_json data_type : bool := match data_type with DataJSON | DataJSONB => true | _ => false end.
Definition is_bytea data_type : bool := match data_type with DataBytea => true | _ => false end.

Definition array_parameter (position : string) : Error :=
  forward_refusal (lit "a bound parameter in an array " ++ lit position
    ++ lit " cannot be translated: SQLite stores arrays as JSON and has no way to parse PostgreSQL array text at run time. Bind JSON text (e.g., '[1,2,3]') or use an ARRAY["
    ++ [8230] ++ lit "] constructor.").

Definition convert_value_for_column_type data_type expr options : result Error (Expr Payload) :=
  literal ← typed_text_literal data_type expr;
  let expr := default expr literal in
  match minor_unit_scale data_type with
  | Some scale =>
      if is_bound_parameter expr then Ok (scale_parameter expr scale)
      else scaled ← scale_decimal_literal expr scale; Ok (default expr scaled)
  | None =>
  if is_uuid_data_type data_type then
    match uuid_representation options with
    | Some UuidBlob => if is_bound_parameter expr then Ok (make_uuid_conversion_call expr options) else maybe_wrap_text_uuid_literal expr options
    | Some UuidText => if negb (is_bound_parameter expr) then maybe_canonicalize_text_uuid_literal expr else Ok expr
    | None => Ok expr
    end
  else if is_vector_data_type data_type then
    if is_halfvec_data_type data_type then Err halfvec_refusal
    else if is_bound_parameter expr then Ok (vec_f32 expr) else Ok (maybe_wrap_text_vector_literal expr)
  else if is_array data_type && is_bound_parameter expr then Err (array_parameter "position")
  else match float_special_refusal data_type expr with
  | Some refusal => Err refusal
  | None =>
  if is_array data_type && is_some (single_quoted_literal expr) then Err (array_text_literal_refusal data_type)
  else if is_bytea data_type then convert_bytea_hex_literal expr
  else if is_some (bit_length data_type) then convert_bit_literal expr
  else match temporal_literal_kind data_type with
  | Some kind => convert_temporal_value kind expr None
  | None =>
  if is_interval data_type then normalize_interval_literal_expr expr
  else if is_json data_type then check_json_document_literal data_type expr
  else Ok expr
  end end end.

Definition literal_checks_apply data_type : bool :=
  (is_float data_type || is_array data_type || is_interval data_type || is_json data_type || is_bytea data_type)
  || is_some (bit_length data_type) || is_some (temporal_literal_kind data_type).

(** [manifest.rs]: what a column stores. *)
Inductive VectorElement := Float32 | Float16.
Inductive ColumnStorage :=
| StoresDirect | StoresMinorUnits (scale : Z) | StoresUuidBlob | StoresUuidText | StoresJsonArray
| StoresVector (dimensions : option Z) (element : VectorElement).

Definition column_storage data_type options : result Error ColumnStorage :=
  match exact_numeric_info data_type with
  | Some info => '(_, scale) ← numeric_precision_and_scale info; Ok (StoresMinorUnits scale)
  | None =>
      if is_uuid_data_type data_type then
        Ok match uuid_representation options with Some UuidBlob => StoresUuidBlob | Some UuidText => StoresUuidText | None => StoresDirect end
      else if is_vector_data_type data_type then
        if is_halfvec_data_type data_type then Err halfvec_refusal else Ok (StoresVector (extract_dimensions data_type) Float32)
      else if is_array data_type && is_json_array_representation options then Ok StoresJsonArray
      else Ok StoresDirect
  end.

(** ** [ColumnRewrites] *)

Definition TableColumns := option (list (str * DataType Payload)).
Definition listed (columns : TableColumns) : list (str * DataType Payload) := default [] columns.

Definition numeric_minor_unit_scales_of_table (columns : TableColumns) : list (str * Z) :=
  omap (λ '(name, data_type), scale ← minor_unit_scale data_type; Some (name, scale)) (listed columns).
Definition vector_columns_of_table (columns : TableColumns) : list (str * bool) :=
  omap (λ '(name, data_type), if is_vector_data_type data_type then Some (name, is_halfvec_data_type data_type) else None) (listed columns).
Definition uuid_columns_of_table (columns : TableColumns) : list str :=
  omap (λ '(name, data_type), if is_uuid_data_type data_type then Some name else None) (listed columns).

Record ColumnRewrites := {
  vector_cols : list (str * bool); uuid_cols : list str; numeric_scales : list (str * Z); array_cols : list str;
  literal_checked_cols : list (str * DataType Payload); typed_text_cols : list (str * DataType Payload) }.

Definition of_table (columns : TableColumns) options : ColumnRewrites :=
  {| vector_cols := vector_columns_of_table columns;
     uuid_cols := if is_blob_uuid_representation options then uuid_columns_of_table columns else [];
     numeric_scales := numeric_minor_unit_scales_of_table columns;
     array_cols := if is_json_array_representation options
                   then map fst (List.filter (λ col, is_array (snd col)) (listed columns)) else [];
     literal_checked_cols := List.filter (λ col, literal_checks_apply (snd col)) (listed columns);
     typed_text_cols := List.filter (λ col, reads_typed_text (snd col)) (listed columns) |}.

Definition rewrites_default : ColumnRewrites :=
  {| vector_cols := []; uuid_cols := []; numeric_scales := []; array_cols := []; literal_checked_cols := []; typed_text_cols := [] |}.

(** [resolved] is the resolution of the table's name: the table where there is one. *)
Definition for_named_table (resolved : result Error (option TableColumns)) options : ColumnRewrites :=
  match resolved with Ok (Some table) => of_table table options | _ => rewrites_default end.

Definition rewrites_is_empty (self : ColumnRewrites) : bool :=
  bool_decide (length (vector_cols self) = 0%nat) && bool_decide (length (uuid_cols self) = 0%nat) && bool_decide (length (numeric_scales self) = 0%nat)
  && bool_decide (length (array_cols self) = 0%nat) && bool_decide (length (literal_checked_cols self) = 0%nat)
  && bool_decide (length (typed_text_cols self) = 0%nat).

(** The first entry of a column, by its name in any case. *)
Definition entry {A} (column : str) (cols : list (str * A)) : option A :=
  snd <$> List.find (λ '(name, _), eq_ignore_ascii_case name column) cols.

Fixpoint is_decimal_number_literal expr : bool :=
  match expr with
  | EValue (Number digits _) => contains_char 46 digits
  | EUnaryOp _ inner => is_decimal_number_literal inner
  | _ => false
  end.

Definition scale_arm expr (scale : Z) : result Error (Expr Payload) :=
  if is_decimal_number_literal expr then scaled ← scale_decimal_literal expr scale; Ok (default expr scaled) else Ok expr.

Fixpoint scale_arms (conditions : list (Expr Payload * Expr Payload)) (scale : Z) : result Error (list (Expr Payload * Expr Payload)) :=
  match conditions with
  | [] => Ok []
  | (c, arm) :: conditions => arm ← scale_arm arm scale; conditions ← scale_arms conditions scale; Ok ((c, arm) :: conditions)
  end.

Definition scale_literal_for_column value (column : str) (scales : list (str * Z)) : result Error (Expr Payload) :=
  match entry column scales with
  | None => Ok value
  | Some scale =>
      match value with
      | ECase operand conditions else_result =>
          conditions ← scale_arms conditions scale;
          else_result ← match else_result with Some arm => arm ← scale_arm arm scale; Ok (Some arm) | None => Ok None end;
          Ok (ECase operand conditions else_result)
      | _ => scaled ← scale_decimal_literal value scale; Ok (default value scaled)
      end
  end.

Definition finish_value (self : ColumnRewrites) (column : str) value options : result Error (Expr Payload) :=
  let is_param := is_bound_parameter value in
  if is_param && existsb (λ col, eq_ignore_ascii_case col column) (array_cols self) then Err (array_parameter "column position")
  else
    value ← match entry column (vector_cols self) with
            | Some is_halfvec =>
                if is_halfvec then Err halfvec_refusal
                else if is_param then Ok (vec_f32 value) else Ok (maybe_wrap_text_vector_literal value)
            | None =>
                if existsb (λ col, eq_ignore_ascii_case col column) (uuid_cols self) then
                  if is_param then Ok (make_uuid_conversion_call value options) else maybe_wrap_text_uuid_literal value options
                else Ok value
            end;
    if is_param then Ok match entry column (numeric_scales self) with Some scale => scale_parameter value scale | None => value end
    else
      value ← match entry column (typed_text_cols self) with
              | Some data_type => literal ← typed_text_literal data_type value; Ok (default value literal)
              | None => Ok value
              end;
      value ← scale_literal_for_column value column (numeric_scales self);
      match entry column (literal_checked_cols self) with
      | Some data_type => convert_value_for_column_type data_type value options
      | None => Ok value
      end.

Inductive AssignmentTarget := ColumnName (name : ObjectName Payload) | Tuple (names : list (ObjectName Payload)).

Definition finish_named (self : ColumnRewrites) (name : ObjectName Payload) value options : result Error (Expr Payload) :=
  match last_ident name with
  | Some column => finish_value self (Ast.value column) value options
  | None => Ok value
  end.

Fixpoint finish_items (self : ColumnRewrites) (names : list (ObjectName Payload)) (items : list (Expr Payload)) options : result Error (list (Expr Payload)) :=
  match names, items with
  | name :: names, item :: items => item ← finish_named self name item options; items ← finish_items self names items options; Ok (item :: items)
  | _, _ => Ok []
  end.

Definition finish_assignment (self : ColumnRewrites) (target : AssignmentTarget) value options : result Error (Expr Payload) :=
  if rewrites_is_empty self then Ok value
  else
    match target with
    | ColumnName name => finish_named self name value options
    | Tuple names =>
        match value with
        | ETuple items =>
            if negb (Nat.eqb (length items) (length names)) then Ok value
            else items ← finish_items self names items options; Ok (ETuple items)
        | _ => Ok value
        end
    end.
End ColumnValues.

(** ** Assignments and insertions *)

Lemma bind_ext_eq {E A B} (r r' : result E A) (f g : A → result E B) : r = r' → (∀ a, f a = g a) → (r ≫= f) = (r' ≫= g).
Proof. intros -> Hf. destruct r'; [apply Hf|done]. Qed.

(** What a result answers, refusals apart. *)
Definition answer {E A} (r : result E A) : option A := match r with Ok a => Some a | Err _ => None end.

Section Agreement.
Context {Payload : Type} `{TypeDisplay Payload} `{Unicode}.
Implicit Types (expr value : Expr Payload) (data_type : DataType Payload) (options : StorageOptions) (column : str).

#[local] Arguments eq_ignore_ascii_case : simpl never.
Definition matches {A} column (col : str * A) : bool := eq_ignore_ascii_case (fst col) column.

Lemma entry_find {A} column (cols : list (str * A)) : entry column cols = snd <$> List.find (matches column) cols.
Proof. unfold entry. f_equal. induction cols as [|[n a] cols IH]; [done|]. cbn. by rewrite IH. Qed.

Lemma entry_split {A} column (cols : list (str * A)) (a : A) :
  NoDup (map (to_ascii_lowercase ∘ fst) cols) → entry column cols = Some a →
  ∃ pre name post, cols = pre ++ (name, a) :: post ∧ eq_ignore_ascii_case name column = true ∧
    Forall (λ col, matches column col = false) pre ∧ Forall (λ col, matches column col = false) post.
Proof.
  rewrite entry_find. induction cols as [|[n b] cols IH]; [done|]. cbn [map List.find]. intros [Hni Hnd]%NoDup_cons.
  destruct (matches column (n, b)) eqn:E.
  - intros [= ->]. exists [], n, cols. split_and!; [done|exact E|constructor|]. apply Forall_forall. intros [m c] Hm.
    destruct (matches column (m, c)) eqn:Em; [|done]. exfalso. apply Hni. unfold matches, eq_ignore_ascii_case in *. cbn [fst] in *.
    apply str_eqb_eq in E, Em. apply list_elem_of_fmap. exists (m, c). split; [unfold compose; cbn [fst]; congruence|done].
  - intros He. destruct (IH Hnd He) as (pre & name & post & -> & Hn & Hpre & Hpost). exists ((n, b) :: pre), name, post.
    split_and!; [done|done|by constructor|done].
Qed.

Lemma find_unmatched {A} column (cols : list (str * A)) : Forall (λ col, matches column col = false) cols → List.find (matches column) cols = None.
Proof. induction 1 as [|col cols Hc _ IH]; [done|]. cbn. by rewrite Hc. Qed.

Lemma list_find_app {A} (p : A → bool) (a b : list A) : List.find p (a ++ b) = match List.find p a with Some x => Some x | None => List.find p b end.
Proof. induction a as [|x a IH]; [done|]. cbn. by destruct (p x). Qed.

Lemma unmatched_omap {A B} column (f : A → option B) (cols : list (str * A)) :
  Forall (λ col, matches column col = false) cols →
  Forall (λ col, matches column col = false) (omap (λ '(n, a), b ← f a; Some (n, b)) cols).
Proof. induction 1 as [|[n a] cols Hc _ IH]; [constructor|]. cbn. destruct (f a); [by constructor|done]. Qed.

(** A list made of the columns that pass a test holds the entry of a column exactly
    when that column passes. *)
Lemma entry_omap {A B} column (f : A → option B) (cols : list (str * A)) (a : A) :
  NoDup (map (to_ascii_lowercase ∘ fst) cols) → entry column cols = Some a →
  entry column (omap (λ '(n, a), b ← f a; Some (n, b)) cols) = f a.
Proof.
  intros Hnd He. destruct (entry_split _ _ _ Hnd He) as (pre & name & post & -> & Hn & Hpre & Hpost).
  rewrite entry_find, omap_app. cbn [omap list_omap]. rewrite list_find_app, find_unmatched by (by apply unmatched_omap).
  destruct (f a) as [b|]; cbn [mbind option_bind List.find].
  - unfold matches at 1. cbn [fst]. by rewrite Hn.
  - by rewrite find_unmatched by (by apply unmatched_omap).
Qed.

Lemma filter_as_omap {A} (p : A → bool) (cols : list (str * A)) :
  List.filter (λ col, p (snd col)) cols = omap (λ '(n, a), b ← (if p a then Some a else None); Some (n, b)) cols.
Proof. induction cols as [|[n a] cols IH]; [done|]. cbn. rewrite IH. by destruct (p a). Qed.

Lemma entry_filter {A} column (p : A → bool) (cols : list (str * A)) (a : A) :
  NoDup (map (to_ascii_lowercase ∘ fst) cols) → entry column cols = Some a →
  entry column (List.filter (λ col, p (snd col)) cols) = if p a then Some a else None.
Proof. intros Hnd He. rewrite filter_as_omap. by rewrite (entry_omap column (λ a, if p a then Some a else None) cols a). Qed.

Lemma named_filter {A} column (p : A → bool) (cols : list (str * A)) (a : A) :
  NoDup (map (to_ascii_lowercase ∘ fst) cols) → entry column cols = Some a →
  existsb (λ col, eq_ignore_ascii_case col column) (map fst (List.filter (λ col, p (snd col)) cols)) = p a.
Proof.
  intros Hnd He. destruct (entry_split _ _ _ Hnd He) as (pre & name & post & -> & Hn & Hpre & Hpost).
  assert (Hout : ∀ l, Forall (λ col : str * A, matches column col = false) l →
    existsb (λ col, eq_ignore_ascii_case col column) (map fst (List.filter (λ col, p (snd col)) l)) = false).
  { induction 1 as [|[n b] l Hc _ IH]; [done|]. cbn. destruct (p b); [|done]. cbn. unfold matches in Hc. cbn [fst] in Hc. by rewrite Hc. }
  rewrite List.filter_app, map_app, existsb_app, Hout by done. cbn. destruct (p a); cbn; [by rewrite Hn|by apply Hout].
Qed.

Lemma uuid_names (cols : list (str * DataType Payload)) :
  omap (λ '(name, data_type), if is_uuid_data_type data_type then Some name else None) cols =
  map fst (List.filter (λ col, is_uuid_data_type (snd col)) cols).
Proof. induction cols as [|[n t] cols IH]; [done|]. cbn. rewrite IH. by destruct (is_uuid_data_type t). Qed.

Lemma vector_names (cols : list (str * DataType Payload)) :
  omap (λ '(name, data_type), if is_vector_data_type data_type then Some (name, is_halfvec_data_type data_type) else None) cols =
  omap (λ '(n, a), b ← (if is_vector_data_type a then Some (is_halfvec_data_type a) else None); Some (n, b)) cols.
Proof. induction cols as [|[n t] cols IH]; [done|]. cbn. rewrite IH. by destruct (is_vector_data_type t). Qed.

(** Where the two paths are meant to differ, or do: a UUID literal under the TEXT
    representation, and the arms of a [CASE] written into a scaled column. *)
Definition apart options data_type value : bool :=
  is_uuid_data_type data_type && match uuid_representation options with Some UuidText => negb (is_bound_parameter value) | _ => false end
  || is_some (minor_unit_scale data_type) && match value with ECase _ _ _ => true | _ => false end.

(** A column that exists: its type translates. *)
Definition storable options data_type : Prop := is_array data_type = true → is_json_array_representation options = true.

(** [finish_value] with the lists read for one column. *)
Definition finish_typed data_type value options : result Error (Expr Payload) :=
  let is_param := is_bound_parameter value in
  if is_param && (if is_json_array_representation options then is_array data_type else false) then Err (array_parameter "column position")
  else
    value ← (if is_vector_data_type data_type then
               if is_halfvec_data_type data_type then Err halfvec_refusal
               else if is_param then Ok (vec_f32 value) else Ok (maybe_wrap_text_vector_literal value)
             else if is_blob_uuid_representation options && is_uuid_data_type data_type then
               if is_param then Ok (make_uuid_conversion_call value options) else maybe_wrap_text_uuid_literal value options
             else Ok value);
    if is_param then Ok match minor_unit_scale data_type with Some scale => scale_parameter value scale | None => value end
    else
      value ← (if reads_typed_text data_type then literal ← typed_text_literal data_type value; Ok (default value literal) else Ok value);
      value ← match minor_unit_scale data_type with
              | Some scale => scale_literal_for_column value [] [([], scale)]
              | None => Ok value
              end;
      if literal_checks_apply data_type then convert_value_for_column_type data_type value options else Ok value.

Lemma scale_literal_entry value column scales scale :
  entry column scales = Some scale → scale_literal_for_column value column scales = scale_literal_for_column value [] [([], scale)].
Proof. intros He. unfold scale_literal_for_column. by rewrite He. Qed.

Lemma finish_value_typed columns column data_type value options :
  NoDup (map (to_ascii_lowercase ∘ fst) columns) → entry column columns = Some data_type →
  finish_value (of_table (Some columns) options) column value options = finish_typed data_type value options.
Proof.
  intros Hnd He. unfold finish_value, finish_typed, of_table.
  cbn [array_cols vector_cols uuid_cols numeric_scales typed_text_cols literal_checked_cols].
  unfold vector_columns_of_table, uuid_columns_of_table, numeric_minor_unit_scales_of_table. change (listed (Some columns)) with columns.
  assert (existsb (λ col, eq_ignore_ascii_case col column)
    (if is_json_array_representation options then map fst (List.filter (λ col, is_array (snd col)) columns) else []) =
    if is_json_array_representation options then is_array data_type else false) as -> by (destruct (is_json_array_representation options); [by apply named_filter|done]).
  rewrite vector_names, (entry_omap column (λ a, if is_vector_data_type a then Some (is_halfvec_data_type a) else None) columns data_type) by done.
  assert (existsb (λ col, eq_ignore_ascii_case col column)
    (if is_blob_uuid_representation options then omap (λ '(name, data_type), if is_uuid_data_type data_type then Some name else None) columns else []) =
    is_blob_uuid_representation options && is_uuid_data_type data_type) as ->
    by (destruct (is_blob_uuid_representation options); [rewrite uuid_names; by apply (named_filter column is_uuid_data_type)|done]).
  rewrite !(entry_filter column _ columns data_type) by done. pose proof (entry_omap column minor_unit_scale columns data_type Hnd He) as Hn.
  rewrite Hn.
  destruct (_ && _) in |- *; [done|]. apply bind_ext_eq; [by destruct (is_vector_data_type data_type)|]. intros v.
  destruct (is_bound_parameter value); [done|]. apply bind_ext_eq; [by destruct (reads_typed_text data_type)|]. intros v'.
  apply bind_ext_eq.
  - destruct (minor_unit_scale data_type) as [scale|]; [by apply scale_literal_entry|]. unfold scale_literal_for_column. by rewrite Hn.
  - intros v''. by destruct (literal_checks_apply data_type).
Qed.

Lemma parameter_is_no_literal value : is_bound_parameter value = true → single_quoted_literal value = None.
Proof. destruct value; try done; match goal with v : Value _ |- _ => destruct v end; done. Qed.

Lemma number_is_no_parameter value scale e : scale_decimal_literal value scale = Ok (Some e) → is_bound_parameter value = false.
Proof. destruct value; try done; match goal with v : Value _ |- _ => destruct v end; done. Qed.

Lemma typed_literal_no_parameter data_type value e : typed_text_literal data_type value = Ok (Some e) → is_bound_parameter e = false ∧ is_bound_parameter value = false.
Proof.
  unfold typed_text_literal, numeric_text_literal, boolean_text_literal.
  destruct (is_some (minor_unit_scale data_type)); [|destruct (is_boolean data_type); [|done]]; destruct value; try done; match goal with v : Value _ |- _ => destruct v end; try done; cbn [single_quoted_literal].
  - unfold quoted_decimal_as_number. destruct (_ && _); [|done]. by intros [= <-].
  - destruct (postgres_bool text); [|done]. by intros [= <-].
Qed.

Lemma typed_text_parameter data_type value : is_bound_parameter value = true → typed_text_literal data_type value = Ok None.
Proof.
  intros Hp. unfold typed_text_literal, numeric_text_literal, boolean_text_literal. rewrite (parameter_is_no_literal _ Hp).
  by destruct (is_some (minor_unit_scale data_type)), (is_boolean data_type).
Qed.

Lemma scaled_text_number data_type scale value e :
  minor_unit_scale data_type = Some scale → typed_text_literal data_type value = Ok (Some e) → ∃ digits, e = number_literal digits.
Proof.
  intros Hs Ht. unfold typed_text_literal in Ht. rewrite Hs in Ht. cbn [is_some] in Ht. unfold numeric_text_literal in Ht.
  destruct (single_quoted_literal value); [|done]. unfold quoted_decimal_as_number in Ht. destruct (_ && _) in Ht; [|done].
  apply (f_equal answer) in Ht. cbn [answer] in Ht. eexists. symmetry. by injection Ht.
Qed.

Lemma scale_literal_number digits scale :
  scale_literal_for_column (number_literal (Payload := Payload) digits) [] [([], scale)] =
  (scaled ← scale_decimal_literal (number_literal digits) scale; Ok (default (number_literal digits) scaled)).
Proof. reflexivity. Qed.

(** A scaled column. *)
Lemma scaled_agree data_type scale value options :
  minor_unit_scale data_type = Some scale → match value with ECase _ _ _ => False | _ => True end →
  finish_typed data_type value options = convert_value_for_column_type data_type value options.
Proof.
  intros Hs Hcase. assert (∃ info, exact_numeric_info data_type = Some info) as [info Hinfo]
    by (unfold minor_unit_scale in Hs; destruct (exact_numeric_info data_type); [eauto|done]).
  assert (is_array data_type = false ∧ is_vector_data_type data_type = false ∧ is_uuid_data_type data_type = false ∧ literal_checks_apply data_type = false ∧
    reads_typed_text data_type = true) as (Ha & Hv & Hu & Hl & Hr).
  { unfold reads_typed_text. rewrite Hs. by destruct data_type. }
  unfold finish_typed, convert_value_for_column_type. rewrite Ha, Hv, Hu, Hl, Hr, Hs. rewrite andb_false_r.
  replace (is_bound_parameter value && _) with false by (destruct (is_json_array_representation options); by rewrite andb_false_r).
  cbn [mbind result_bind]. destruct (is_bound_parameter value) eqn:Ep.
  - rewrite typed_text_parameter by done. cbn [mbind result_bind]. unfold default, id. by rewrite Ep.
  - destruct (typed_text_literal data_type value) as [[e|]|err] eqn:Et; cbn [mbind result_bind]; [| |done]; unfold default, id.
    + destruct (typed_literal_no_parameter _ _ _ Et) as [He _]. rewrite He.
      destruct (scaled_text_number _ _ _ _ Hs Et) as [digits ->]. rewrite scale_literal_number.
      by destruct (scale_decimal_literal (number_literal digits) scale) as [[]|].
    + rewrite Ep. unfold scale_literal_for_column. cbn [entry List.find fmap option_fmap option_map]. change (eq_ignore_ascii_case [] []) with true. cbn [fmap option_fmap option_map snd].
      destruct value; try done; match goal with |- context [scale_decimal_literal ?e ?s] => by destruct (scale_decimal_literal e s) as [[]|] end.
Qed.

(** A column whose literals are checked, and any other. *)
Lemma checked_agree data_type value options :
  minor_unit_scale data_type = None → storable options data_type → literal_checks_apply data_type = true →
  answer (finish_typed data_type value options) = answer (convert_value_for_column_type data_type value options).
Proof.
  intros Hs Hst Hl. assert (is_vector_data_type data_type = false ∧ is_uuid_data_type data_type = false ∧
    reads_typed_text data_type = false ∧ typed_text_literal data_type value = Ok None) as (Hv & Hui & Hr & Ht)
    by (unfold reads_typed_text, typed_text_literal; rewrite Hs; by destruct data_type).
  unfold finish_typed. rewrite Hs, Hl, Hv, Hui, Hr, andb_false_r. cbn [mbind result_bind].
  destruct (is_bound_parameter value) eqn:Ep; [|by destruct (is_json_array_representation options), (is_array data_type)].
  unfold convert_value_for_column_type. rewrite Ht, Hs, Hui, Hv. cbn [mbind result_bind]. unfold default, id. rewrite Ep, andb_true_r. cbn [andb].
  destruct (is_array data_type) eqn:Ea; [by rewrite Hst by done|].
  assert ((if is_json_array_representation options then false else false) = false) as -> by (by destruct (is_json_array_representation options)).
  unfold float_special_refusal, convert_bytea_hex_literal, normalize_interval_literal_expr, convert_temporal_value, normalize_temporal_literal_expr.
  rewrite (parameter_is_no_literal _ Ep). destruct value; try done; match goal with v : Value _ |- _ => destruct v end; try done.
  destruct (negb (is_float data_type)), (is_bytea data_type), (is_some (bit_length data_type)); try done;
    destruct (temporal_literal_kind data_type) as [[]|]; try done; try (by destruct zoned);
    destruct (is_interval data_type), (is_json data_type); done.
Qed.

(** Conversion of a column whose literals are not checked. *)
Definition convert_plain data_type value options : result Error (Expr Payload) :=
  if is_uuid_data_type data_type then
    match uuid_representation options with
    | Some UuidBlob => if is_bound_parameter value then Ok (make_uuid_conversion_call value options) else maybe_wrap_text_uuid_literal value options
    | Some UuidText => if negb (is_bound_parameter value) then maybe_canonicalize_text_uuid_literal value else Ok value
    | None => Ok value
    end
  else if is_vector_data_type data_type then
    if is_halfvec_data_type data_type then Err halfvec_refusal
    else if is_bound_parameter value then Ok (vec_f32 value) else Ok (maybe_wrap_text_vector_literal value)
  else Ok value.

Lemma convert_plain_spec data_type value options :
  minor_unit_scale data_type = None → literal_checks_apply data_type = false →
  convert_value_for_column_type data_type value options =
  (literal ← typed_text_literal data_type value; convert_plain data_type (default value literal) options).
Proof.
  intros Hs Hl. unfold convert_value_for_column_type, convert_plain. rewrite Hs. apply bind_ext_eq; [done|]. intros literal.
  destruct (is_uuid_data_type data_type); [done|]. destruct (is_vector_data_type data_type); [done|].
  unfold literal_checks_apply in Hl. by destruct data_type.
Qed.

Lemma plain_agree data_type value options :
  minor_unit_scale data_type = None → literal_checks_apply data_type = false → apart options data_type value = false →
  finish_typed data_type value options = convert_value_for_column_type data_type value options.
Proof.
  intros Hs Hl Hap. unfold apart in Hap. apply orb_false_iff in Hap as [Hu _]. rewrite convert_plain_spec by done. unfold finish_typed. rewrite Hs, Hl.
  assert (is_array data_type = false) as Ha by (by destruct data_type).
  replace (is_bound_parameter value && _) with false by (rewrite Ha; destruct (is_json_array_representation options); by rewrite andb_false_r).
  assert ((is_boolean data_type = true ∧ is_vector_data_type data_type = false ∧ is_uuid_data_type data_type = false) ∨
    (reads_typed_text data_type = false ∧ typed_text_literal data_type value = Ok None)) as [(Hb & Hv & Hui)|[Hr Ht]].
  { unfold reads_typed_text, typed_text_literal. rewrite Hs. destruct data_type; auto. }
  - assert (reads_typed_text data_type = true) as -> by (unfold reads_typed_text; rewrite Hb; apply orb_true_r).
    unfold convert_plain. rewrite Hv, Hui, andb_false_r. cbn [mbind result_bind]. destruct (is_bound_parameter value) eqn:Ep.
    + by rewrite typed_text_parameter by done.
    + by destruct (typed_text_literal data_type value).
  - rewrite Hr, Ht. cbn [mbind result_bind]. unfold default, id, convert_plain, is_blob_uuid_representation.
    destruct (is_vector_data_type data_type) eqn:Ev.
    + assert (is_uuid_data_type data_type = false) as -> by (by destruct data_type).
      destruct (is_halfvec_data_type data_type); [done|]. by destruct (is_bound_parameter value).
    + destruct (is_uuid_data_type data_type); [|rewrite andb_false_r; by destruct (is_bound_parameter value)].
      destruct (uuid_representation options) as [[]|]; cbn [andb mbind result_bind].
      * destruct (is_bound_parameter value); [done|]. by destruct (maybe_wrap_text_uuid_literal value options).
      * destruct (is_bound_parameter value); done.
      * by destruct (is_bound_parameter value).
Qed.

(** C18 (an assignment stores what an insertion stores).  For every column of a table,
    the value an [UPDATE] or a [DO UPDATE] assigns is converted exactly as the value
    an [INSERT] writes, and one is refused where the other is, apart from a UUID
    literal under the TEXT representation and the arms of a [CASE] in a scaled column. *)
Theorem assignment_agrees_with_insertion columns column data_type value options :
  NoDup (map (to_ascii_lowercase ∘ fst) columns) → entry column columns = Some data_type →
  storable options data_type → apart options data_type value = false →
  answer (finish_value (of_table (Some columns) options) column value options) =
  answer (convert_value_for_column_type data_type value options).
Proof.
  intros Hnd He Hst Hap. rewrite (finish_value_typed columns column data_type value options Hnd He).
  destruct (minor_unit_scale data_type) as [scale|] eqn:Hs.
  - f_equal. apply (scaled_agree _ scale); [done|]. unfold apart in Hap. rewrite Hs in Hap. apply orb_false_iff in Hap as [_ Hc]. by destruct value.
  - destruct (literal_checks_apply data_type) eqn:Hl; [by apply checked_agree|]. f_equal. by apply plain_agree.
Qed.

(** ** Bits *)

Definition bits_value (bits : str) : Z := foldl (λ acc c, 2 * acc + (c - 48)) 0 bits.
Definition hex_number (hex : str) : Z := foldl (λ acc c, 16 * acc + hex_value c) 0 hex.

Lemma nibble_spec v acc :
  0 <= v < 16 → foldl (λ acc c, 2 * acc + (c - 48)) acc (nibble v) = 16 * acc + v ∧ forallb is_binary (nibble v) = true ∧ length (nibble v) = 4%nat.
Proof.
  intros Hv. assert (In v [0; 1; 2; 3; 4; 5; 6; 7; 8; 9; 10; 11; 12; 13; 14; 15]) as Hin by (cbn; lia).
  repeat (destruct Hin as [<-|Hin]; [split_and!; [cbn -[Z.mul Z.add Z.sub]; lia|reflexivity|reflexivity]|]). done.
Qed.

Lemma expand_digits_spec hex digits :
  forallb is_ascii_hexdigit digits = true →
  ∃ bits, expand_digits hex digits = Ok bits ∧ forallb is_binary bits = true ∧ length bits = (4 * length digits)%nat ∧
    ∀ acc, foldl (λ acc c, 2 * acc + (c - 48)) acc bits = foldl (λ acc c, 16 * acc + hex_value c) acc digits.
Proof.
  induction digits as [|c digits IH]; [by exists []|]. cbn [forallb expand_digits]. intros [Hc Hd]%andb_true_iff.
  destruct (IH Hd) as (bits & -> & Hb & Hl & Hv). rewrite Hc. pose proof (hex_value_range c Hc) as Hr.
  exists (nibble (hex_value c) ++ bits). cbn [mbind result_bind]. destruct (nibble_spec (hex_value c) 0 Hr) as (_ & Hn & Hl').
  split_and!; [done|by rewrite forallb_app, Hn|rewrite length_app, Hl', Hl; cbn; lia|]. intros acc. rewrite foldl_app. cbn [foldl].
  destruct (nibble_spec (hex_value c) acc Hr) as (-> & _ & _). apply Hv.
Qed.

Lemma bits_value_cons acc bits : foldl (λ acc c, 2 * acc + (c - 48)) acc bits = acc * 2 ^ Z.of_nat (length bits) + bits_value bits.
Proof.
  unfold bits_value. revert acc. induction bits as [|c bits IH]; intros acc; [cbn; lia|]. cbn [foldl length].
  rewrite IH, (IH (2 * 0 + _)), Nat2Z.inj_succ, Z.pow_succ_r by lia. lia.
Qed.

Lemma bits_value_bound bits : forallb is_binary bits = true → 0 <= bits_value bits < 2 ^ Z.of_nat (length bits).
Proof.
  induction bits as [|c bits IH]; [cbn; lia|]. cbn [forallb]. intros [Hc Hb]%andb_true_iff. specialize (IH Hb).
  change (bits_value (c :: bits)) with (foldl (λ acc c, 2 * acc + (c - 48)) (2 * 0 + (c - 48)) bits). rewrite bits_value_cons.
  cbn [length]. rewrite Nat2Z.inj_succ, Z.pow_succ_r by lia. unfold is_binary in Hc. nia.
Qed.

Lemma bits_value_inj a b :
  forallb is_binary a = true → forallb is_binary b = true → length a = length b → bits_value a = bits_value b → a = b.
Proof.
  revert b. induction a as [|c a IH]; intros [|d b]; try done. cbn [forallb length]. intros [Hc Ha]%andb_true_iff [Hd Hb]%andb_true_iff [= Hl].
  change (bits_value (?c :: ?bits)) with (foldl (λ acc c, 2 * acc + (c - 48)) (2 * 0 + (c - 48)) bits). rewrite !bits_value_cons, Hl. intros Hv.
  pose proof (bits_value_bound a Ha) as Hba. pose proof (bits_value_bound b Hb) as Hbb. rewrite Hl in Hba. unfold is_binary in Hc, Hd.
  assert (c = d) as -> by nia. f_equal. apply IH; try done. lia.
Qed.

Lemma check_bits_ok bits : forallb is_binary bits = true → check_bits bits = Ok bits.
Proof.
  intros Hb. unfold check_bits. destruct (List.find _ bits) as [c|] eqn:E; [|done]. apply find_some in E as [Hin Hc].
  rewrite forallb_forall in Hb. by rewrite (Hb c Hin) in Hc.
Qed.

Lemma hex_bytes_even hex bytes : hex_bytes hex = Some bytes → forallb is_ascii_hexdigit hex = true ∧ Nat.eqb (length hex mod 2) 0 = true.
Proof.
  revert hex. induction bytes as [|b bytes IH]; intros [|x [|y hex]] Hh; try done; cbn [hex_bytes] in Hh;
    destruct (is_ascii_hexdigit x && is_ascii_hexdigit y) eqn:E; try done; destruct (hex_bytes hex) as [bs|] eqn:Eh; try done.
  injection Hh as _ ->. destruct (IH hex Eh) as [Hf Hl]. apply andb_true_iff in E as [Hx Hy]. cbn [forallb length]. rewrite Hx, Hy. split; [done|].
  apply Nat.eqb_eq in Hl. apply Nat.eqb_eq. replace (S (S (length hex))) with (length hex + 1 * 2)%nat by lia. by rewrite Nat.Div0.mod_add.
Qed.

Lemma utf8_hex hex : forallb is_ascii_hexdigit hex = true → utf8 hex = hex.
Proof.
  intros Hh. induction hex as [|c hex IH]; [done|]. cbn [forallb] in Hh. apply andb_true_iff in Hh as [Hc Hh].
  unfold utf8 in *. cbn [map concat]. rewrite IH by done. unfold encode_utf8.
  replace (c <? 128) with true by (unfold is_ascii_hexdigit, is_ascii_digit in Hc; lia). done.
Qed.

(** ** What PostgreSQL reads *)

(** What PostgreSQL makes of a literal: a truth value, a count of units of the column's
    scale, bytes, or bits. *)
Inductive Reading := Truth (b : bool) | Units (z : Z) | Bytes (bytes : list Z) | Bits (bits : str).

(** The blanks PostgreSQL skips around a word or a number. *)
Definition pg_space (c : Z) : bool := ((9 <=? c) && (c <=? 13)) || (c =? 32).

(** Plain spellings of a value, each of which PostgreSQL reads: the words of a boolean
    and their unambiguous prefixes, decimals that need no rounding, bytes in hexadecimal,
    the digits of a bit string, binary or hexadecimal. *)
Inductive reads : DataType Payload → Value Payload → Reading → Prop :=
| reads_truth data_type text word a c b :
    is_boolean data_type = true → text = a ++ word ++ c → forallb pg_space a = true → forallb pg_space c = true →
    one_of (to_ascii_lowercase word) (boolean_words b) = true →
    reads data_type (SingleQuotedString text) (Truth b)
| reads_decimal data_type text scale d plus a c :
    minor_unit_scale data_type = Some scale → text = a ++ (sign_text plus d ++ unsigned_text d) ++ c → forallb pg_space a = true → forallb pg_space c = true →
    decimal_ok d → places d <= scale →
    reads data_type (SingleQuotedString text) (Units (units d scale))
| reads_bytea hex bytes :
    hex_bytes hex = Some bytes → reads DataBytea (SingleQuotedString (lit "\x" ++ hex)) (Bytes bytes)
| reads_bits data_type bits v :
    is_some (bit_length data_type) = true → forallb is_binary bits = true →
    v = SingleQuotedString bits ∨ v = SingleQuotedByteStringLiteral bits →
    reads data_type v (Bits bits)
| reads_hex_bits data_type hex bits :
    is_some (bit_length data_type) = true → forallb is_ascii_hexdigit hex = true →
    forallb is_binary bits = true → length bits = (4 * length hex)%nat → bits_value bits = hex_number hex →
    reads data_type (HexStringLiteral hex) (Bits bits).

(** What SQLite stores of it; units beyond 64 bits are beyond every column. *)
Definition stores env (e : Expr Payload) (reading : Reading) : Prop :=
  match reading with
  | Truth b => eval env e = Some (sql_bool b)
  | Units z => in_i64 z = true → eval env e = Some (SqlInt z)
  | Bytes bytes => eval env e = Some (SqlBlob bytes)
  | Bits bits => eval env e = Some (SqlText bits)
  end.

(** A quoted literal of a boolean, scaled, bytea or bit column, or one of the two
    spellings of a bit string, with no blank PostgreSQL does not know. *)
Definition literal_of data_type (v : Value Payload) : Prop :=
  match v with
  | SingleQuotedString text =>
      (is_boolean data_type || is_some (minor_unit_scale data_type) || is_bytea data_type || is_some (bit_length data_type)) = true
      ∧ Forall (λ c, is_whitespace c = pg_space c) text
  | SingleQuotedByteStringLiteral _ | HexStringLiteral _ => is_some (bit_length data_type) = true
  | _ => False
  end.

Lemma bit_column data_type expr options :
  is_some (bit_length data_type) = true → convert_value_for_column_type data_type expr options = convert_bit_literal expr.
Proof. by destruct data_type. Qed.

Lemma pg_blanks (s : str) : Forall (λ c, is_whitespace c = pg_space c) s → forallb is_whitespace s = forallb pg_space s.
Proof. induction 1 as [|c s Hc _ IH]; [done|]. cbn. by rewrite Hc, IH. Qed.

Lemma scale_in_range data_type scale : minor_unit_scale data_type = Some scale → 0 <= scale <= 18.
Proof.
  unfold minor_unit_scale. intros Hs. destruct (exact_numeric_info data_type); [|done]. cbn in Hs. destruct (numeric_precision_and_scale _) as [[p s]|] eqn:En; [|done].
  apply precision_fits in En as (_ & Hps & Hmax). unfold MAX_NUMERIC_PRECISION in Hmax. destruct (0 <? s) eqn:E; [|done]. injection Hs as <-. lia.
Qed.

(** One type at a time, what the conversion answers for a quoted text. *)
Lemma convert_boolean data_type text options : is_boolean data_type = true →
  convert_value_for_column_type data_type (EValue (SingleQuotedString text)) options
  = match postgres_bool text with
    | Some b => Ok (EValue (ValueBoolean b))
    | None => Err (forward_refusal (lit "'" ++ text ++ lit "' is not a boolean PostgreSQL accepts, so it cannot be written into a boolean column."))
    end.
Proof.
  intros Hb. destruct data_type; try done; unfold convert_value_for_column_type, typed_text_literal; cbn [minor_unit_scale exact_numeric_info mbind option_bind is_some is_boolean];
    unfold boolean_text_literal; cbn [single_quoted_literal]; by destruct (postgres_bool text).
Qed.

Lemma convert_decimal data_type text scale options : minor_unit_scale data_type = Some scale →
  convert_value_for_column_type data_type (EValue (SingleQuotedString text)) options
  = match quoted_decimal_as_number text with
    | Some number => scaled ← scale_decimal_literal number scale; Ok (default number scaled)
    | None => Err (forward_refusal (lit "'" ++ text ++ lit "' is not a number a NUMERIC column can hold as minor units, so it cannot be written into one."))
    end.
Proof.
  intros Hs. unfold convert_value_for_column_type, typed_text_literal. rewrite Hs. cbn [is_some]. unfold numeric_text_literal. cbn [single_quoted_literal].
  destruct (quoted_decimal_as_number text) as [number|] eqn:Eq; [|done]. cbn [mbind result_bind]. unfold default, id.
  assert (is_bound_parameter number = false) as ->; [|done].
  unfold quoted_decimal_as_number in Eq. destruct (_ && _); [|done]. by injection Eq as <-.
Qed.

Lemma word_not_blank word b : one_of (to_ascii_lowercase word) (boolean_words b) = true → forallb (λ c, negb (is_whitespace c)) word = true.
Proof.
  intros Hw. unfold one_of in Hw. apply existsb_exists in Hw as (w & Hin & Heq). apply str_eqb_eq in Heq.
  assert (Hwords : forallb (λ c, negb (is_whitespace c)) (to_ascii_lowercase word) = true).
  { rewrite Heq. destruct b; cbn in Hin; repeat (destruct Hin as [<-|Hin]; [reflexivity|]); done. }
  revert Hwords. clear. unfold to_ascii_lowercase. induction word as [|c word IH]; [done|]. cbn [map forallb]. intros [Hc Hw]%andb_true_iff. rewrite (IH Hw), andb_true_r.
  destruct (is_whitespace c) eqn:Ew; [|done]. exfalso. revert Hc. unfold lower_char.
  replace (is_ascii_uppercase c) with false by (unfold is_whitespace in Ew; unfold is_ascii_uppercase; lia). by rewrite Ew.
Qed.

Lemma postgres_bool_reads data_type text b : is_boolean data_type = true → Forall (λ c, is_whitespace c = pg_space c) text →
  postgres_bool text = Some b ↔ reads data_type (SingleQuotedString text) (Truth b).
Proof.
  intros Hd Hc. rewrite postgres_bool_words. split.
  - intros Hw. destruct (trim_split text) as (a & c & Ht & Ha & Hb). rewrite Ht in Hc. apply Forall_app in Hc as [Hca [_ Hcc]%Forall_app].
    rewrite pg_blanks in Ha, Hb by done. by apply (reads_truth _ _ (trim text) a c).
  - intros Hr. inversion Hr as [dt text' word a c b' Hbt Htext Ha Hb Hw| | | |]; subst. apply Forall_app in Hc as [Hca [_ Hcc]%Forall_app].
    rewrite <- pg_blanks in Ha, Hb by done. rewrite trim_spaces; try done; [by intros ->; destruct b|].
    by apply (word_not_blank word b).
Qed.

Lemma boolean_stored env data_type text options : is_boolean data_type = true → Forall (λ c, is_whitespace c = pg_space c) text →
  match convert_value_for_column_type data_type (EValue (SingleQuotedString text)) options with
  | Ok e => ∃ r, reads data_type (SingleQuotedString text) r ∧ stores env e r
  | Err _ => ∀ r, ¬ reads data_type (SingleQuotedString text) r
  end.
Proof.
  intros Hb Hc. rewrite convert_boolean by done. destruct (postgres_bool text) as [b|] eqn:Ep.
  - exists (Truth b). split; [by apply (postgres_bool_reads data_type text b Hb Hc)|done].
  - intros r Hr. assert (∃ b, r = Truth b) as [b ->].
    { inversion Hr; subst; first [exfalso; done|exfalso; by destruct data_type|by eexists]. }
    apply (proj2 (postgres_bool_reads data_type text b Hb Hc)) in Hr. congruence.
Qed.

Lemma decimal_stored env data_type text scale options : minor_unit_scale data_type = Some scale → Forall (λ c, is_whitespace c = pg_space c) text →
  match convert_value_for_column_type data_type (EValue (SingleQuotedString text)) options with
  | Ok e => ∃ r, reads data_type (SingleQuotedString text) r ∧ stores env e r
  | Err _ => ∀ r, ¬ reads data_type (SingleQuotedString text) r
  end.
Proof.
  intros Hs Hc. pose proof (scale_in_range _ _ Hs) as Hrange. rewrite (convert_decimal _ _ scale) by done.
  assert (Hinv : ∀ r, reads data_type (SingleQuotedString text) r → ∃ d plus a c, text = a ++ (sign_text plus d ++ unsigned_text d) ++ c
    ∧ forallb is_whitespace a = true ∧ forallb is_whitespace c = true ∧ decimal_ok d ∧ places d <= scale).
  { intros r Hr. inversion Hr as [|dt t scale' d plus a c Hs' Ht Ha Hb Hd Hp| | |]; subst; try (exfalso; first [done|by destruct data_type]).
    rewrite Hs in Hs'. injection Hs' as <-. apply Forall_app in Hc as [Hca [_ Hcc]%Forall_app]. rewrite <- pg_blanks in Ha, Hb by done. by exists d, plus, a, c. }
  destruct (quoted_decimal_as_number text) as [number|] eqn:Eq.
  - destruct (quoted_inverse (Payload := Payload) _ _ Eq) as (plus & d & a & b & Hd & Ha & Hb & Ht). rewrite Ht, quoted_reads in Eq by done. injection Eq as <-.
    destruct (scale_number (Payload := Payload) env (negative d) (number_literal (signed_digits (negative d) (unsigned_text d))) d scale _ Hd Hrange eq_refl (or_intror (conj eq_refl eq_refl))) as [Hfits Hnot].
    destruct (Z.le_gt_cases (places d) scale) as [Hp|Hp].
    + destruct (scale_fits (Payload := Payload) d scale Hd Hrange Hp) as (e & He). rewrite He. cbn [mbind result_bind]. unfold default, id. exists (Units (units d scale)). split.
      * rewrite Ht in Hc. apply Forall_app in Hc as [Hca [_ Hcc]%Forall_app]. rewrite pg_blanks in Ha, Hb by done. by apply (reads_decimal _ _ scale d plus a b).
      * cbn [stores]. intros Hi. destruct Hfits as (e' & He' & Hev); [done|unfold in_i64 in Hi; lia|]. rewrite He in He'. by injection He' as <-.
    + destruct (scale_decimal_literal _ scale) as [|e] eqn:Ee; [by specialize (Hnot ltac:(lia))|]. cbn [mbind result_bind]. intros r (d' & plus' & a' & c' & Ht' & Ha' & Hc' & Hd' & Hp')%Hinv.
      assert (unsigned_text d' = unsigned_text d) as Hu.
      { pose proof (quoted_reads (Payload := Payload) plus d a b Hd Ha Hb) as H1. pose proof (quoted_reads (Payload := Payload) plus' d' a' c' Hd' Ha' Hc') as H2.
        rewrite <- Ht in H1. rewrite <- Ht', H1 in H2. injection H2 as H2. symmetry. by apply signed_same. }
      assert (fraction d' = fraction d) as Hf by (pose proof (unsigned_split d Hd); pose proof (unsigned_split d' Hd'); congruence).
      unfold places in *. rewrite Hf in Hp'. lia.
  - intros r (d & plus & a & c & -> & Ha & Hb & Hd & _)%Hinv. by rewrite quoted_reads in Eq.
Qed.

Lemma hex_bytes_of hex : forallb is_ascii_hexdigit hex = true → Nat.eqb (length (utf8 hex) mod 2) 0 = true → ∃ bytes, hex_bytes hex = Some bytes.
Proof.
  intros Hh. rewrite utf8_hex by done. intros He%Nat.eqb_eq. apply Nat.Div0.mod_divides in He as [k Hk]. revert hex Hh Hk. induction k as [|k IH]; intros hex Hh Hk.
  - destruct hex; [|done]. by exists [].
  - destruct hex as [|x [|y hex]]; cbn in Hk; [lia|lia|]. cbn [forallb] in Hh. apply andb_true_iff in Hh as [Hx [Hy Hh]%andb_true_iff].
    destruct (IH hex Hh) as [bytes Hb]; [lia|]. cbn [hex_bytes]. rewrite Hx, Hy, Hb. by eexists.
Qed.

Lemma bytea_stored env text options :
  match convert_value_for_column_type DataBytea (EValue (SingleQuotedString text)) options with
  | Ok e => ∃ r, reads DataBytea (SingleQuotedString text) r ∧ stores env e r
  | Err _ => ∀ r, ¬ reads DataBytea (SingleQuotedString text) r
  end.
Proof.
  change (convert_value_for_column_type DataBytea ?e options) with (convert_bytea_hex_literal e). unfold convert_bytea_hex_literal. cbn [single_quoted_literal].
  assert (Hinv : ∀ r, reads DataBytea (SingleQuotedString text) r → ∃ hex bytes, text = lit "\x" ++ hex ∧ hex_bytes hex = Some bytes).
  { intros r Hr. inversion Hr; subst; try done. by eexists _, _. }
  destruct (strip_prefix (lit "\x") text) as [hex|] eqn:Es.
  2: { intros r (hex & bytes & -> & _)%Hinv. by rewrite strip_prefix_app in Es. }
  assert (Hback : ∀ hex', text = lit "\x" ++ hex' → hex' = hex) by (intros hex' ->; rewrite strip_prefix_app in Es; by injection Es).
  destruct (Nat.eqb (length (utf8 hex) mod 2) 0) eqn:Ee; cbn [negb].
  2: { intros r (hex' & bytes & Ht & Hb)%Hinv. rewrite (Hback _ Ht) in Hb. destruct (hex_bytes_even _ _ Hb) as [Hall Heven]. rewrite utf8_hex in Ee by done. congruence. }
  destruct (forallb is_ascii_hexdigit hex) eqn:Eh; cbn [negb].
  2: { intros r (hex' & bytes & Ht & Hb)%Hinv. rewrite (Hback _ Ht) in Hb. destruct (hex_bytes_even _ _ Hb). congruence. }
  destruct (hex_bytes_of hex Eh Ee) as [bytes Hb]. exists (Bytes bytes). split.
  - apply strip_prefix_Some in Es as ->. by apply reads_bytea.
  - cbn [stores]. rewrite eval_simple_function1. transitivity (Some match hex_bytes hex with Some bytes => SqlBlob bytes | None => SqlNull end); [reflexivity|by rewrite Hb].
Qed.

Lemma check_bits_inv bits digits : check_bits bits = Ok digits → digits = bits ∧ forallb is_binary bits = true.
Proof.
  unfold check_bits. destruct (List.find _ bits) as [c|] eqn:E; [done|]. intros [= <-]. split; [done|]. apply forallb_forall. intros c Hc.
  pose proof (find_none _ _ E c Hc) as Hn. by apply negb_false_iff in Hn.
Qed.

Lemma expand_digits_refused hex digits e : expand_digits hex digits = Err e → forallb is_ascii_hexdigit digits = false.
Proof. revert e. induction digits as [|c digits IH]; intros e; [done|]. cbn. destruct (is_ascii_hexdigit c); [|done]. destruct (expand_digits hex digits); [done|]. intros _. by apply (IH _ eq_refl). Qed.

Lemma expand_digits_accepted hex digits bits : expand_digits hex digits = Ok bits → forallb is_ascii_hexdigit digits = true.
Proof. revert bits. induction digits as [|c digits IH]; intros bits; [done|]. cbn. destruct (is_ascii_hexdigit c); [|done]. destruct (expand_digits hex digits); [|done]. intros _. by apply (IH _ eq_refl). Qed.

Lemma bits_stored env data_type v options : is_some (bit_length data_type) = true →
  match v with SingleQuotedString _ | SingleQuotedByteStringLiteral _ | HexStringLiteral _ => True | _ => False end →
  match convert_value_for_column_type data_type (EValue v) options with
  | Ok e => ∃ r, reads data_type v r ∧ stores env e r
  | Err _ => ∀ r, ¬ reads data_type v r
  end.
Proof.
  intros Hbit Hv. rewrite bit_column by done.
  assert (Htext : ∀ bits, v = SingleQuotedString bits ∨ v = SingleQuotedByteStringLiteral bits →
    match check_bits bits with Ok digits => ∃ r, reads data_type v r ∧ stores env (string_literal digits) r | Err _ => ∀ r, ¬ reads data_type v r end).
  { intros bits Hform. destruct (check_bits bits) as [digits|e] eqn:Ec.
    - apply check_bits_inv in Ec as [-> Hb]. exists (Bits bits). split; [by apply (reads_bits _ bits)|done].
    - intros r Hr. assert (forallb is_binary bits = true) as Hb; [|by rewrite check_bits_ok in Ec].
      destruct Hform as [-> | ->]; inversion Hr; subst; try (exfalso; first [done|by destruct data_type]);
        match goal with Hor : _ ∨ _ |- _ => destruct Hor; by simplify_eq end. }
  destruct v; try done; cbn [convert_bit_literal].
  - specialize (Htext text (or_introl eq_refl)). by destruct (check_bits text).
  - specialize (Htext bits (or_intror eq_refl)). by destruct (check_bits bits).
  - unfold expand_hex_to_bits. destruct (expand_digits hex hex) as [bits|e] eqn:Ee; cbn [mbind result_bind].
    + assert (Hh : forallb is_ascii_hexdigit hex = true) by by apply (expand_digits_accepted hex hex bits).
      destruct (expand_digits_spec hex hex Hh) as (bits' & He & Hb & Hl & Hval). rewrite He in Ee. injection Ee as ->. exists (Bits bits). split; [|done].
      apply reads_hex_bits; try done. apply Hval.
    + intros r Hr. apply expand_digits_refused in Ee. inversion Hr; subst; [|congruence]. match goal with Hor : _ ∨ _ |- _ => by destruct Hor end.
Qed.

(** C10 (a literal is stored as the value PostgreSQL reads).  Take a quoted literal
    written into a boolean, a scaled, a bytea or a bit column, whose blanks are those of
    PostgreSQL, or a bit string of a bit column in one of its two other spellings.  The
    conversion accepts it exactly when it is one of the plain spellings of [reads], and
    what SQLite then stores is the value PostgreSQL reads in it: the truth value, the
    count of minor units, the bytes, the digits of the bit string, most significant
    first.  Every other literal is refused, the spellings among them that PostgreSQL also
    reads: escape-format bytea, exponents, decimals it would round, the b and x prefixes
    of a quoted bit string. *)
Theorem literal_stored_as_read env options data_type v :
  literal_of data_type v →
  match convert_value_for_column_type data_type (EValue v) options with
  | Ok e => ∃ r, reads data_type v r ∧ stores env e r
  | Err _ => ∀ r, ¬ reads data_type v r
  end.
Proof.
  intros Hl. destruct v; try done; cbn [literal_of] in Hl; try (by apply bits_stored).
  destruct Hl as [Ht Hc]. destruct (is_boolean data_type) eqn:Eb; [by apply boolean_stored|].
  destruct (minor_unit_scale data_type) as [scale|] eqn:Es; [by eapply decimal_stored|].
  destruct (is_bytea data_type) eqn:Ey; [destruct data_type; try done; apply bytea_stored|]. by apply bits_stored.
Qed.

(** ** What the manifest says of a column *)

(** The SQLite type that holds each kind of storage. *)
Definition storage_type (storage : ColumnStorage) : option (DataType Payload) :=
  match storage with
  | StoresDirect => None
  | StoresMinorUnits _ => Some (DataInteger None)
  | StoresUuidBlob | StoresVector _ _ => Some (DataBlob None)
  | StoresUuidText | StoresJsonArray => Some DataText
  end.

Lemma vector_translates data_type t options :
  is_vector_data_type data_type = true → translate_data_type options data_type = Ok t → t = DataBlob None ∧ is_halfvec_data_type data_type = false.
Proof.
  intros Hv Ht. destruct data_type; try done.
  cbn [is_vector_data_type translate_data_type] in *. unfold translate_custom_type in Ht. destruct (last_catalog_name name) as [n|] eqn:En; [|done].
  unfold default, id in Ht. apply orb_true_iff in Hv as [Hv|Hv]; apply str_eqb_eq in Hv as ->.
  - injection Ht as <-. split; [done|]. cbn [is_halfvec_data_type]. unfold last_catalog_name in En. destruct (last_ident name) as [ident|]; [|done].
    cbn [mbind option_bind] in En. unfold catalog_name in En. destruct (_ && _) eqn:Eq; [done|]. injection En as En.
    assert (eq_ignore_ascii_case (value ident) (lit "halfvec") = false) as Hni by (unfold eq_ignore_ascii_case; by rewrite En).
    destruct (is_some (quote_style ident)); [|done]. apply str_eqb_neq. intros Heq. by rewrite Heq in Hni.
  - done.
Qed.

(** The manifest describes the column that is emitted.  Where the type of a column
    translates, its storage is described, and any storage but the direct one is of
    the very SQLite type the column is emitted with: minor units in an INTEGER, the
    bytes of a UUID or of a vector in a BLOB, canonical UUIDs and arrays in TEXT. *)
Lemma storage_matches_type options data_type t :
  translate_data_type options data_type = Ok t →
  ∃ storage, column_storage data_type options = Ok storage ∧ (storage ≠ StoresDirect → storage_type storage = Some t) ∧
    (∀ scale, storage = StoresMinorUnits scale → 0 <= scale <= MAX_NUMERIC_PRECISION).
Proof.
  intros Ht. unfold column_storage. destruct (exact_numeric_info data_type) as [info|] eqn:Ei.
  - assert (Hn : (_ ← numeric_precision_and_scale info; Ok (DataInteger (Payload := Payload) None)) = Ok t) by (destruct data_type; try done; injection Ei as ->; exact Ht).
    destruct (numeric_precision_and_scale info) as [[p s]|] eqn:En; [|done]. apply precision_fits in En as (_ & Hps & Hmax).
    injection Hn as <-. exists (StoresMinorUnits s). split_and!; [done|done|]. intros scale [= <-]. lia.
  - destruct (is_uuid_data_type data_type) eqn:Eu.
    + destruct data_type; try done. cbn [translate_data_type] in Ht. destruct (uuid_representation options) as [[]|]; simplify_eq; eexists; by split_and!.
    + destruct (is_vector_data_type data_type) eqn:Ev.
      * destruct (vector_translates _ _ _ Ev Ht) as [-> ->]. eexists. by split_and!.
      * destruct (is_array data_type && is_json_array_representation options) eqn:Ea; [|eexists; by split_and!].
        apply andb_true_iff in Ea as [Ha Hj]. destruct data_type; try done. cbn [translate_data_type] in Ht.
        destruct (scaled_element elem); [done|]. rewrite Hj in Ht. simplify_eq. eexists. by split_and!.
Qed.
End Agreement.

(** ** Closed instances *)

Section Demo.
#[local] Instance demo_display : TypeDisplay unit :=
  {| data_type_to_string _ := []; data_type_debug _ := []; units_to_string _ := []; type_name_to_string _ := [];
     column_to_string := value; value_to_string _ := [] |}.
#[local] Instance demo_unicode : Unicode := ascii_only.

Definition demo_columns : list (str * DataType unit) :=
  [(lit "id", DataUuid); (lit "price", DataNumeric (ExactPrecisionAndScale 10 2))].

Lemma assignment_agrees_with_insertion_witness :
  let assigned := EValue (SingleQuotedString (lit " 19.9 ")) in
  answer (finish_value (of_table (Some demo_columns) demo_options) (lit "PRICE") assigned demo_options) =
  answer (convert_value_for_column_type (DataNumeric (ExactPrecisionAndScale 10 2)) assigned demo_options) ∧
  answer (convert_value_for_column_type (DataNumeric (ExactPrecisionAndScale 10 2)) assigned demo_options) =
  Some (number_literal (Payload := unit) (lit "1990")).
Proof.
  split; [|reflexivity]. apply (assignment_agrees_with_insertion demo_columns (lit "PRICE")); [|reflexivity|discriminate|reflexivity].
  apply NoDup_cons. split; [|apply NoDup_singleton]. intros Hin. apply list_elem_of_singleton in Hin. discriminate Hin.
Defined.

Lemma literal_stored_as_read_witness :
  match convert_value_for_column_type (Payload := unit) (DataBit (Some 8)) (EValue (HexStringLiteral (lit "1A"))) demo_options with
  | Ok e => ∃ r, reads (Payload := unit) (DataBit (Some 8)) (HexStringLiteral (lit "1A")) r ∧ stores demo_env e r
  | Err _ => ∀ r, ¬ reads (Payload := unit) (DataBit (Some 8)) (HexStringLiteral (lit "1A")) r
  end.
Proof. by apply (literal_stored_as_read demo_env demo_options (DataBit (Some 8)) (HexStringLiteral (lit "1A"))). Defined.

Lemma storage_matches_type_witness :
  ∃ storage, column_storage numeric_10_2 demo_options = Ok storage ∧
    (storage ≠ StoresDirect → storage_type storage = Some (DataInteger (Payload := unit) None)) ∧
    (∀ scale, storage = StoresMinorUnits scale → 0 <= scale <= MAX_NUMERIC_PRECISION).
Proof. apply (storage_matches_type demo_options). reflexivity. Defined.

(** Under the TEXT representation an insertion canonicalises a UUID, and refuses what
    is none; an assignment stores the text as it is written. *)
Definition text_options : StorageOptions :=
  {| uuid_representation := Some UuidText; array_representation := None; uuid_text_to_blob_function_name := None |}.
Example assigned_uuid_unread :
  let not_a_uuid := EValue (SingleQuotedString (lit "not a uuid")) in
  answer (convert_value_for_column_type DataUuid not_a_uuid text_options) = None ∧
  finish_value (of_table (Some demo_columns) text_options) (lit "id") not_a_uuid text_options = Ok not_a_uuid.
Proof. split; reflexivity. Qed.

(** A backslash that is itself escaped: no escape of the NUL character. *)
Example escaped_backslash_refused :
  is_ok (check_json_document_literal (Payload := unit) DataJSONB (EValue (SingleQuotedString ([34] ++ lit "\\u0000" ++ [34])))) = false.
Proof. reflexivity. Qed.
End Demo.
End ColumnValues.
