(* ===== verification/Rls.v ===== *)
(** * Row level security

    [src/src/impls/translator_impls/rls.rs]: a table with policies becomes a backing
    table, a view that shows what the policies of [SELECT] let through, [INSTEAD OF]
    triggers that carry the writes of the others, and [BEFORE] triggers that guard the
    backing table itself.

    A table is read here through the catalogue's answers: its columns, its key and its
    policies.  The expression translator is not modelled: what it makes of a predicate in
    the scope of the table is the parameter [translate], what it makes of a value a write
    carries, outside that scope, the parameter [translate_value], and nothing is assumed
    of either.  The rewriting of a subquery is [transform_query].

    A call keeps its name and its arguments.  The source also rewrites the FILTER, the
    OVER, the ORDER BY and the parameters of one, which only aggregates and window
    functions take, and PostgreSQL refuses both in the predicate of a policy and in a
    generated column. *)

From S2P Require Import Prelude Text Errors Ast Exprs ExprWalk Names SqliteEval TemporalLiterals DataTypes Uuid MinorUnits SessionVariable Operands.
Import DataTypes Uuid MinorUnits.

(** ** The catalogue's side *)

Inductive CreatePolicyCommand := CommandAll | CommandSelect | CommandInsert | CommandUpdate | CommandDelete.
Inductive CreatePolicyType := Permissive | Restrictive.
(** [CURRENT_ROLE], [CURRENT_USER] and [SESSION_USER] are the other owners. *)
Inductive Owner := OwnerIdent (ident : Ident) | OwnerKeyword.

#[global] Instance CreatePolicyCommand_eq_dec : EqDecision CreatePolicyCommand.
Proof. solve_decision. Defined.

Record CreatePolicy (Payload : Type) := {
  policy_name : str; policy_type : CreatePolicyType; command : CreatePolicyCommand; roles : list Owner;
  using_expression : option (Expr Payload); check_expression : option (Expr Payload)
}.
Arguments policy_name {Payload} _.
Arguments policy_type {Payload} _.
Arguments command {Payload} _.
Arguments roles {Payload} _.
Arguments using_expression {Payload} _.
Arguments check_expression {Payload} _.

(** A column: its [DEFAULT] and the expression of its [GENERATED] clause, the first of
    each. *)
Record RlsColumn (Payload : Type) := {
  rls_ident : Ident; rls_type : DataType Payload; raw_default : option (Expr Payload); generation_expr : option (Expr Payload)
}.
Arguments rls_ident {Payload} _.
Arguments rls_type {Payload} _.
Arguments raw_default {Payload} _.
Arguments generation_expr {Payload} _.

Record RlsTable (Payload : Type) := {
  table_name : str; columns : list (RlsColumn Payload); primary_key : list str; policies : list (CreatePolicy Payload)
}.
Arguments table_name {Payload} _.
Arguments columns {Payload} _.
Arguments primary_key {Payload} _.
Arguments policies {Payload} _.

Record RlsOptions := {
  rls_operands :> OperandOptions;
  rls_storage : StorageOptions;
  rls_table_suffix : str;
  session_user_role : option str;
  rls_audit_table_name : option str;
  write_exemption_function : option str;
  strict_rls_validation : bool;
  strict_rls_write_deny : bool
}.

(** ** The statements it emits *)

(** The statements of a trigger's body: [SELECT RAISE(action, message) WHERE selection],
    [SELECT NULL], an [INSERT] of one row or of a row under a condition, an [UPDATE] and
    a [DELETE]. *)
Inductive BodyStatement (Payload : Type) :=
| Raise (action : str) (message : option str) (selection : option (Expr Payload))
| SelectNull
| InsertValues (table : str) (target_columns : list str) (values : list (Expr Payload))
| InsertWhere (table : str) (target_columns : list str) (values : list (Expr Payload)) (selection : Expr Payload)
| UpdateRows (table : str) (assignments : list (str * Expr Payload)) (selection : Expr Payload)
| DeleteRows (table : str) (selection : Expr Payload).
Arguments Raise {Payload} _ _ _.
Arguments SelectNull {Payload}.
Arguments InsertValues {Payload} _ _ _.
Arguments InsertWhere {Payload} _ _ _ _.
Arguments UpdateRows {Payload} _ _ _.
Arguments DeleteRows {Payload} _ _.

Inductive TriggerPeriod := InsteadOf | Before | After.

(** A row trigger; every name it writes is [quoted_ident] of the text here. *)
Record RlsTrigger (Payload : Type) := {
  trigger_name : str; trigger_table : str; period : TriggerPeriod; event : TriggerEvent;
  condition : option (Expr Payload); body : list (BodyStatement Payload)
}.
Arguments trigger_name {Payload} _.
Arguments trigger_table {Payload} _.
Arguments period {Payload} _.
Arguments event {Payload} _.
Arguments condition {Payload} _.
Arguments body {Payload} _.

(** [CREATE VIEW name AS SELECT projection FROM relation WHERE selection]. *)
Inductive RlsStatement (Payload : Type) :=
| RlsView (name : str) (projection : list str) (relation : str) (selection : option (Expr Payload))
| RlsTriggerStatement (trigger : RlsTrigger Payload).
Arguments RlsView {Payload} _ _ _ _.
Arguments RlsTriggerStatement {Payload} _.

(** ** Expressions *)

Section Expressions.
Context {Payload : Type} `{TypeDisplay Payload, PayloadVisit Payload}.
Implicit Types (expr : Expr Payload).

Definition prefixed_column_expr (prefix column : str) : Expr Payload :=
  ECompoundIdentifier [Ident_new prefix; quoted_ident column].

Definition coalesce (value fallback : Expr Payload) : Expr Payload := simple_function_expr (lit "COALESCE") [value; fallback].

Definition GuardSubstitution : Type := str * Expr Payload.

(** [post_visit_expr] of the folder. *)
Definition fold_reference (substitutions : list GuardSubstitution) expr : Expr Payload :=
  match expr with
  | ECompoundIdentifier [prefix; column] =>
      if eq_ignore_ascii_case (value prefix) (lit "NEW") then
        match List.find (λ '(name, _), eq_ignore_ascii_case name (value column)) substitutions with
        | Some (_, replacement) => replacement
        | None => expr
        end
      else expr
  | _ => expr
  end.

Definition fold_guard expr (substitutions : list GuardSubstitution) : Expr Payload := visit_mut (fold_reference substitutions) expr.

Fixpoint is_true_literal expr : bool :=
  match expr with
  | EValue (ValueBoolean true) => true
  | ENested inner => is_true_literal inner
  | _ => false
  end.

Definition expr_contains_identifier expr (name : str) : bool :=
  existsb (λ node, match node with
                   | EIdentifier ident => eq_ignore_ascii_case (value ident) name
                   | ECompoundIdentifier parts => match last parts with Some i => eq_ignore_ascii_case (value i) name | None => false end
                   | _ => false
                   end) (visited expr).

(** *** The references of a policy

    [prefix] is the row the references name in a trigger; [table_rename] the table and
    the backing table that holds its rows now; [lowercased_columns] the columns. *)
Record ColumnRefStrategy := {
  prefix : option str; table_rename : option (str * str); lowercased_columns : list str; inner_scope_columns : list str
}.

Section Transform.
Context `{Unicode} (transform_query : ColumnRefStrategy → Query Payload → Query Payload).

Definition transform_function_arg_with_rls (transform_fn : Expr Payload → Expr Payload) (arg : FunctionArg Payload) : FunctionArg Payload :=
  let transform_arg_expr (arg_expr : FunctionArgExpr Payload) := match arg_expr with ArgExpr e => ArgExpr (transform_fn e) | other => other end in
  match arg with
  | Named name arg => Named name (transform_arg_expr arg)
  | ExprNamed name arg => ExprNamed name (transform_arg_expr arg)
  | Unnamed arg => Unnamed (transform_arg_expr arg)
  end.

Definition transform_identifier (strategy : ColumnRefStrategy) (ident : Ident) : Expr Payload :=
  let ident_lower := to_lowercase (value ident) in
  match prefix strategy with
  | Some pfx =>
      if existsb (str_eqb ident_lower) (lowercased_columns strategy) && negb (existsb (str_eqb ident_lower) (inner_scope_columns strategy))
      then ECompoundIdentifier [Ident_new pfx; ident]
      else EIdentifier ident
  | None => EIdentifier ident
  end.

Definition transform_compound (strategy : ColumnRefStrategy) (idents : list Ident) : Expr Payload :=
  match table_rename strategy, idents with
  | Some (old_name, new_name), first :: ((_ :: _) as rest) =>
      if str_eqb (to_lowercase (value first)) (to_lowercase old_name)
      then ECompoundIdentifier (Ident_new (default new_name (prefix strategy)) :: rest)
      else ECompoundIdentifier idents
  | _, _ => ECompoundIdentifier idents
  end.

Fixpoint transform_expr_generic (strategy : ColumnRefStrategy) expr : Expr Payload :=
  match expr with
  | EFunction name args =>
      EFunction name match args with
                     | ListArguments args => ListArguments (map (transform_function_arg_with_rls (transform_expr_generic strategy)) args)
                     | SubqueryArguments query => SubqueryArguments (transform_query strategy query)
                     | NoArguments => NoArguments
                     end
  | EIdentifier ident => transform_identifier strategy ident
  | ECompoundIdentifier idents => transform_compound strategy idents
  | EExists subquery negated => EExists (transform_query strategy subquery) negated
  | ESubquery subquery => ESubquery (transform_query strategy subquery)
  | EInSubquery inner subquery negated => EInSubquery (transform_expr_generic strategy inner) (transform_query strategy subquery) negated
  | other => map_expr_children (transform_expr_generic strategy) other
  end.

Definition transform_expr expr (prefix : option str) (table_rename : option (str * str)) (lowercased_columns : list str) : Expr Payload :=
  transform_expr_generic
    {| prefix := prefix; table_rename := table_rename; lowercased_columns := lowercased_columns; inner_scope_columns := [] |} expr.
End Transform.
End Expressions.
Arguments GuardSubstitution Payload : clear implicits.

(** ** The columns as the triggers see them *)

Record TriggerColumn (Payload : Type) := {
  name : str; column_default : option (Expr Payload); guard_default : option (Expr Payload); generated : option (Expr Payload)
}.
Arguments name {Payload} _.
Arguments column_default {Payload} _.
Arguments guard_default {Payload} _.
Arguments generated {Payload} _.

Inductive GuardKind := GuardInsert | GuardUpdate.
Inductive PolicyClause := Using | WithCheck.
Inductive PolicyPredicate (Payload : Type) := DenyAll | AllowAll | Predicate (predicate : Expr Payload).
Arguments DenyAll {Payload}.
Arguments AllowAll {Payload}.
Arguments Predicate {Payload} _.

Definition RLS_VIOLATION_ERROR : str := lit "new row violates row-level security policy".

(** [reduce] with an operator. *)
Definition reduce_with {Payload} (op : BinaryOperator Payload) (exprs : list (Expr Payload)) : option (Expr Payload) :=
  match exprs with
  | [] => None
  | first :: rest => Some (foldl (λ a b, EBinaryOp a op b) first rest)
  end.

Section Triggers.
Context {Payload : Type} `{TypeDisplay Payload, PayloadVisit Payload, ExprDisplay Payload, Lowerings Payload, Unicode}.
Implicit Types (expr : Expr Payload) (options : RlsOptions) (policy : CreatePolicy Payload).

(** *** Columns *)

Definition forwarded_value (column : TriggerColumn Payload) : Expr Payload :=
  let new_value := prefixed_column_expr (lit "NEW") (name column) in
  match column_default column with Some d => coalesce new_value d | None => new_value end.

Definition guard_coalesce (column : TriggerColumn Payload) : Expr Payload :=
  let new_value := prefixed_column_expr (lit "NEW") (name column) in
  match guard_default column with Some d => coalesce new_value d | None => new_value end.

Definition is_generated (column : TriggerColumn Payload) : bool := is_some (generated column).

(** [column.rs]: the [DEFAULT] in the units the translated column stores. *)
Definition declared_default (column : RlsColumn Payload) (options : StorageOptions) : result Error (option (Expr Payload)) :=
  match raw_default column with
  | None => Ok None
  | Some expr =>
      scaled ← scaled_default (rls_ident column) (rls_type column) expr;
      if is_uuid_data_type (rls_type column) && is_blob_uuid_representation options then
        Some <$> wrap_uuid_column_default (rls_ident column) scaled options
      else if is_some (temporal_literal_kind (rls_type column)) then Ok (Some (ECast scaled (rls_type column)))
      else Ok (Some scaled)
  end.

Definition trigger_column (column : RlsColumn Payload) options : result Error (TriggerColumn Payload) :=
  declared ← declared_default column (rls_storage options);
  let guard := if is_some (minor_unit_scale (rls_type column)) then raw_default column else declared in
  Ok {| name := value (rls_ident column); column_default := declared; guard_default := guard; generated := generation_expr column |}.

Definition trigger_columns (table : RlsTable Payload) options : result Error (list (TriggerColumn Payload)) :=
  mapM (λ column, trigger_column column options) (columns table).

Definition collect_column_names (table : RlsTable Payload) : list str := map (λ c, value (rls_ident c)) (columns table).
Definition lowercased (table : RlsTable Payload) : list str := map to_lowercase (collect_column_names table).
Definition inner_table_name (table : RlsTable Payload) options : str := table_name table ++ rls_table_suffix options.
Definition as_rename_tuple (table : RlsTable Payload) options : str * str := (table_name table, inner_table_name table options).

Definition ensure_usable_rls_table_suffix options : result Error () :=
  if is_nonempty (rls_table_suffix options) then Ok () else Err EmptyRlsTableSuffix.

Definition resolve_trigger_table_name (base_name : str) (table : RlsTable Payload) options (has_row_level_security : bool) : str :=
  if has_row_level_security then base_name ++ rls_table_suffix options else base_name.

Definition refuse_computed_write_statements (columns : list (TriggerColumn Payload)) (table_name : str) (guard : GuardKind) : list (BodyStatement Payload) :=
  map (λ column,
    let new_value := prefixed_column_expr (lit "NEW") (name column) in
    let supplied := match guard with
                    | GuardInsert => EIsNotNull new_value
                    | GuardUpdate => EIsDistinctFrom new_value (prefixed_column_expr (lit "OLD") (name column))
                    end in
    Raise (lit "ABORT") (Some (lit "cannot write to generated column " ++ quoted (name column) ++ lit " of " ++ quoted table_name
                               ++ lit ": SQLite computes it from the other columns")) (Some supplied))
    (List.filter is_generated columns).

(** *** Which policies apply *)

Fixpoint role_applies (roles : list Owner) (session_role : option str) : bool :=
  match roles with
  | [] => false
  | OwnerIdent ident :: roles =>
      (if eq_ignore_ascii_case (value ident) (lit "PUBLIC") then true
       else match session_role with Some role => str_eqb (value ident) role | None => false end)
      || role_applies roles session_role
  | OwnerKeyword :: roles => role_applies roles session_role
  end.

Definition names_a_role (roles : list Owner) : bool :=
  existsb (λ owner, match owner with OwnerIdent ident => negb (eq_ignore_ascii_case (value ident) (lit "PUBLIC")) | OwnerKeyword => false end) roles.

Definition scoped_to_a_role (table : RlsTable Payload) policy : Error :=
  forward_refusal (lit "policy '" ++ policy_name policy ++ lit "' on table '" ++ table_name table
    ++ lit "' is scoped to a specific role. Call with_session_user_role to specify which role this translation targets.").

Fixpoint filter_loop (table : RlsTable Payload) (commands : list CreatePolicyCommand) options (policies : list (CreatePolicy Payload))
    : result Error (list (CreatePolicy Payload)) :=
  match policies with
  | [] => Ok []
  | policy :: policies =>
      if negb (bool_decide (command policy ∈ commands)) && negb (bool_decide (command policy = CommandAll)) then filter_loop table commands options policies
      else
        let applies := match roles policy with [] => true | _ => role_applies (roles policy) (session_user_role options) end in
        if names_a_role (roles policy) && negb (is_some (session_user_role options)) then Err (scoped_to_a_role table policy)
        else
          rest ← filter_loop table commands options policies;
          Ok (if applies : bool then policy :: rest else rest)
  end.

Definition filter_policies (table : RlsTable Payload) (commands : list CreatePolicyCommand) options : result Error (list (CreatePolicy Payload)) :=
  filter_loop table commands options (policies table).

(** *** Conditions *)

Definition write_exemption_expr options : option (Expr Payload) :=
  (λ name, EFunction [Identifier (Ident_with_quote 34 name)] (ListArguments [])) <$> write_exemption_function options.

Definition write_guard_condition_expr (violation : option (Expr Payload)) options : option (Expr Payload) :=
  let enforcement := (λ call, EIsNotTrue (ENested call)) <$> write_exemption_expr options in
  match enforcement, violation with
  | None, None => None
  | Some enforcement, None => Some enforcement
  | None, Some violation => Some violation
  | Some enforcement, Some violation => Some (EBinaryOp enforcement BAnd (ENested violation))
  end.

Definition policy_or_exemption_expr (predicate : Expr Payload) options : Expr Payload :=
  match write_exemption_expr options with
  | None => predicate
  | Some call => EBinaryOp (EIsTrue (ENested call)) BOr (ENested predicate)
  end.

Definition policy_violation (predicate : Expr Payload) : Expr Payload := EIsNotTrue (ENested predicate).

Definition generated_row_filter (identity : Expr Payload) (authorization : option (Expr Payload)) : Expr Payload :=
  match authorization with
  | None => identity
  | Some authorization => EBinaryOp (ENested identity) BAnd (ENested authorization)
  end.

Definition ignored_write_body (exemption : option (Expr Payload)) : list (BodyStatement Payload) :=
  match exemption with
  | Some call => [Raise (lit "IGNORE") None (Some (EIsNotTrue (ENested call)))]
  | None => [SelectNull]
  end.

(** The source panics on a table without columns. *)
Definition build_row_identity_clause (columns pk_columns : list str) : option (Expr Payload) :=
  let use_null_safe := negb (is_some (head pk_columns)) in
  let identity_columns := if use_null_safe then columns else pk_columns in
  reduce_with BAnd
    (map (λ column,
       let current := EIdentifier (quoted_ident column) in
       let old := prefixed_column_expr (lit "OLD") column in
       if use_null_safe then EIsNotDistinctFrom current old else EBinaryOp current BEq old)
      identity_columns).

Definition backing_abort_trigger (name table_name : str) (event : TriggerEvent) (condition : option (Expr Payload)) (message : str) : RlsTrigger Payload :=
  {| trigger_name := name; trigger_table := table_name; period := Before; event := event; condition := condition;
     body := [Raise (lit "ABORT") (Some message) None] |}.

(** *** The predicate of a set of policies *)

Section Policies.
Context (transform_query : ColumnRefStrategy → Query Payload → Query Payload) (translate : Expr Payload → result Error (Expr Payload)).

Definition guard_substitutions (columns : list (TriggerColumn Payload)) (kind : GuardKind) options (table : RlsTable Payload) : list (GuardSubstitution Payload) :=
  let defaults := match kind with
                  | GuardInsert => map (λ column, (name column, guard_coalesce column)) (List.filter (λ column, is_some (guard_default column)) columns)
                  | GuardUpdate => []
                  end in
  defaults ++
  omap (λ column,
    expression ← generated column;
    let computed := transform_expr transform_query expression (Some (lit "NEW")) (Some (as_rename_tuple table options)) (lowercased table) in
    Some (name column, ENested (fold_guard computed defaults))) columns.

Definition policy_clause policy (clause : PolicyClause) : option (Expr Payload) :=
  match clause with
  | Using => using_expression policy
  | WithCheck => match check_expression policy with Some check => Some check | None => using_expression policy end
  end.

(** One turn of the loop: the policy's own predicate in SQLite. *)
Definition resolve_predicate (prefix : option str) (substitutions : list (GuardSubstitution Payload)) options (table : RlsTable Payload) expr
    : result Error (Expr Payload) :=
  translate (fold_guard (transform_expr transform_query expr prefix (Some (as_rename_tuple table options)) (lowercased table)) substitutions).

(** What the loop carries. *)
Record Combined := {
  permissive : list (Expr Payload); restrictive : list (Expr Payload); has_permissive : bool; permissive_always_true : bool
}.

Definition is_restrictive policy : bool := match policy_type policy with Restrictive => true | Permissive => false end.

Definition combine_step (resolve : Expr Payload → result Error (Expr Payload)) (clause : PolicyClause) (σ : Combined) policy : result Error Combined :=
  let σ := {| permissive := permissive σ; restrictive := restrictive σ; has_permissive := has_permissive σ || negb (is_restrictive policy);
              permissive_always_true := permissive_always_true σ |} in
  match policy_clause policy clause with
  | None => Ok σ
  | Some expr =>
      transformed ← resolve expr;
      Ok (if is_true_literal transformed then
            {| permissive := permissive σ; restrictive := restrictive σ; has_permissive := has_permissive σ;
               permissive_always_true := permissive_always_true σ || negb (is_restrictive policy) |}
          else if is_restrictive policy then
            {| permissive := permissive σ; restrictive := restrictive σ ++ [ENested transformed]; has_permissive := has_permissive σ;
               permissive_always_true := permissive_always_true σ |}
          else
            {| permissive := permissive σ ++ [ENested transformed]; restrictive := restrictive σ; has_permissive := has_permissive σ;
               permissive_always_true := permissive_always_true σ |})
  end.

Definition combined_init : Combined := {| permissive := []; restrictive := []; has_permissive := false; permissive_always_true := false |}.

Definition conjuncts (σ : Combined) : list (Expr Payload) :=
  (if permissive_always_true σ then []
   else match reduce_with BOr (permissive σ) with
        | None => []
        | Some joined => [match restrictive σ with [] => joined | _ => ENested joined end]
        end) ++ restrictive σ.

Definition combine_predicates (resolve : Expr Payload → result Error (Expr Payload)) (policies : list (CreatePolicy Payload)) (clause : PolicyClause)
    : result Error (PolicyPredicate Payload) :=
  σ ← try_fold (combine_step resolve clause) combined_init policies;
  Ok (if negb (has_permissive σ) then DenyAll
      else match reduce_with BAnd (conjuncts σ) with None => AllowAll | Some predicate => Predicate predicate end).

Definition combine_policy_predicates (policies : list (CreatePolicy Payload)) (clause : PolicyClause) (prefix : option str)
    (substitutions : list (GuardSubstitution Payload)) options (table : RlsTable Payload) : result Error (PolicyPredicate Payload) :=
  combine_predicates (resolve_predicate prefix substitutions options table) policies clause.

(** *** Expressions that must answer the same twice *)

Definition any_insert_policy_reads_column (policies : list (CreatePolicy Payload)) (column_name : str) : bool :=
  existsb (λ policy, match policy_clause policy WithCheck with Some expr => expr_contains_identifier expr column_name | None => false end) policies.

Definition scrub options expr : Expr Payload :=
  match expr with
  | ESubquery _ | EExists _ _ | EInSubquery _ _ _ => EValue (ValueBoolean true)
  | EFunction name args =>
      if is_some (pattern_of_function name args)
         || match last_ident name with
            | Some n => declares_user_defined_function options (value n)
                        || existsb (λ m, eq_ignore_ascii_case (sqlite_function m) (value n)) (session_variables options)
            | None => false
            end
      then EIdentifier (Ident_new (lit "__sv__")) else expr
  | _ => expr
  end.

Definition scrub_policy_stable_exprs expr options : Expr Payload := visit_mut (scrub options) expr.

Definition answers_twice expr options : bool := is_replayable (scrub_policy_stable_exprs expr options) options.

Fixpoint refuse_volatile_defaults (columns : list (TriggerColumn Payload)) (policies : list (CreatePolicy Payload)) options (table_name : str) : result Error () :=
  match columns with
  | [] => Ok ()
  | column :: columns =>
      match guard_default column with
      | Some guard_default =>
          if negb (is_replayable guard_default options) && any_insert_policy_reads_column policies (name column) then
            Err (reject_duplicated_operand (lit "column " ++ quoted (name column) ++ lit " DEFAULT in the RLS insert path of table " ++ quoted table_name) guard_default)
          else refuse_volatile_defaults columns policies options table_name
      | None => refuse_volatile_defaults columns policies options table_name
      end
  end.

Definition refuse_volatile_policy (kind : GuardKind) options (table_name : str) policy : result Error () :=
  let policy_named clause := lit "policy " ++ quoted (policy_name policy) ++ clause ++ lit " predicate on table " ++ quoted table_name in
  _ ← match kind, using_expression policy with
      | GuardUpdate, Some using' =>
          if answers_twice using' options then Ok () else Err (reject_duplicated_operand (policy_named (lit " USING")) using')
      | _, _ => Ok ()
      end;
  match policy_clause policy WithCheck with
  | Some check =>
      if answers_twice check options then Ok ()
      else Err (reject_duplicated_operand
                  (policy_named (if is_some (check_expression policy) then lit " WITH CHECK" else lit " USING (as WITH CHECK)")) check)
  | None => Ok ()
  end.

(** [None] for an insertion, which has no [USING]. *)
Definition build_write_guard (policies : list (CreatePolicy Payload)) (kind : GuardKind) (table : RlsTable Payload) options
    : result Error (list (TriggerColumn Payload) * option (PolicyPredicate Payload) * PolicyPredicate Payload) :=
  columns ← trigger_columns table options;
  let subs := guard_substitutions columns kind options table in
  _ ← match kind with GuardInsert => refuse_volatile_defaults columns policies options (table_name table) | GuardUpdate => Ok () end;
  _ ← try_fold (λ _ policy, refuse_volatile_policy kind options (table_name table) policy) () policies;
  using' ← match kind with
          | GuardUpdate => Some <$> combine_policy_predicates policies Using (Some (lit "OLD")) [] options table
          | GuardInsert => Ok None
          end;
  check ← combine_policy_predicates policies WithCheck (Some (lit "NEW")) subs options table;
  Ok (columns, using', check).

(** *** The view *)

(** What [rls_read_predicate] refuses a policy for; [None] when it does not. *)
Context (circular : RlsTable Payload → list (CreatePolicy Payload) → option Error).

Definition rls_read_predicate (table : RlsTable Payload) options : result Error (PolicyPredicate Payload) :=
  select_policies ← filter_policies table [CommandSelect] options;
  match circular table select_policies with
  | Some refusal => Err refusal
  | None => combine_policy_predicates select_policies Using None [] options table
  end.

Definition generate_rls_view_statement (table : RlsTable Payload) options : result Error (RlsStatement Payload) :=
  predicate ← rls_read_predicate table options;
  let selection := match predicate with
                   | DenyAll => Some (EValue (ValueBoolean false))
                   | AllowAll => None
                   | Predicate predicate => Some predicate
                   end in
  Ok (RlsView (table_name table) (collect_column_names table) (inner_table_name table options) selection).

(** *** Insertions *)

(** The value a write forwards is translated without the scope of the table. *)
Context (translate_value : Expr Payload → result Error (Expr Payload)).

Definition permission_denied (what : string) (table_name : str) : str := lit "permission denied: no " ++ lit what ++ lit " policy on " ++ table_name.

Definition abort_on (message : str) (violation : option (Expr Payload)) options : BodyStatement Payload :=
  Raise (lit "ABORT") (Some message) (write_guard_condition_expr violation options).

Definition generate_insert_trigger_sql (table : RlsTable Payload) options : result Error (RlsTrigger Payload) :=
  insert_policies ← filter_policies table [CommandInsert] options;
  '(columns, _, check) ← build_write_guard insert_policies GuardInsert table options;
  let written := List.filter (λ column, negb (is_generated column)) columns in
  let target_columns := map name written in
  values ← mapM (λ column, translate_value (forwarded_value column)) written;
  let guard := match insert_policies with
               | [] => [abort_on (permission_denied "INSERT" (table_name table)) None options]
               | _ =>
                   match check with
                   | DenyAll => [abort_on RLS_VIOLATION_ERROR None options]
                   | AllowAll => []
                   | Predicate predicate => [abort_on RLS_VIOLATION_ERROR (Some (policy_violation predicate)) options]
                   end
               end in
  Ok {| trigger_name := table_name table ++ lit "_insert_trigger"; trigger_table := table_name table; period := InsteadOf; event := EvInsert;
        condition := None;
        body := guard ++ refuse_computed_write_statements columns (table_name table) GuardInsert
                ++ [InsertValues (inner_table_name table options) target_columns values] |}.

Definition generate_insert_check_trigger_sql (table : RlsTable Payload) options : result Error (option (RlsTrigger Payload)) :=
  policies ← filter_policies table [CommandInsert] options;
  let check_trigger condition message :=
    backing_abort_trigger (inner_table_name table options ++ lit "_insert_check") (inner_table_name table options) EvInsert condition message in
  match policies with
  | [] => Ok (Some (check_trigger (write_guard_condition_expr None options) (permission_denied "INSERT" (table_name table))))
  | _ =>
      '(_, _, check) ← build_write_guard policies GuardInsert table options;
      Ok match check with
         | DenyAll => Some (check_trigger (write_guard_condition_expr None options) RLS_VIOLATION_ERROR)
         | AllowAll => None
         | Predicate predicate => Some (check_trigger (write_guard_condition_expr (Some (policy_violation predicate)) options) RLS_VIOLATION_ERROR)
         end
  end.

(** *** Updates *)

(** [chains] answers, for each trigger that maintains columns of the table before an
    insertion, the assignments of its function, and [substitute_new_with_old] reads
    [NEW] as [OLD]; both are [create_trigger.rs]. *)
Context (chains : RlsTable Payload → list (result Error (list (str * Expr Payload)))) (substitute_new_with_old : Expr Payload → Expr Payload).

Definition trigger_matches (chain : list (str * Expr Payload)) : option (Expr Payload) :=
  reduce_with BOr (map (λ '(col, raw_expr), EIsDistinctFrom (ECompoundIdentifier [Ident_new (lit "NEW"); Ident_new col]) (substitute_new_with_old raw_expr)) chain).

Fixpoint maintenance_loop (any_trigger_match : option (Expr Payload)) (chains : list (result Error (list (str * Expr Payload)))) : option (Expr Payload) :=
  match chains with
  | [] => any_trigger_match
  | Err _ :: _ => None
  | Ok chain :: chains =>
      maintenance_loop
        match trigger_matches chain with
        | Some cond => Some match any_trigger_match with None => cond | Some prev => EBinaryOp prev BAnd cond end
        | None => any_trigger_match
        end chains
  end.

Definition build_maintenance_insert_exemption (table : RlsTable Payload) : option (Expr Payload) := maintenance_loop None (chains table).

Definition generate_update_check_trigger_sql (table : RlsTable Payload) options : result Error (option (RlsTrigger Payload)) :=
  policies ← filter_policies table [CommandUpdate] options;
  let check_trigger violation :=
    backing_abort_trigger (inner_table_name table options ++ lit "_update_check") (inner_table_name table options) (EvUpdate [])
      (write_guard_condition_expr violation options) RLS_VIOLATION_ERROR in
  match policies with
  | [] => Ok (Some (check_trigger (build_maintenance_insert_exemption table)))
  | _ =>
      '(_, using', check) ← build_write_guard policies GuardUpdate table options;
      Ok match using', check with
         | None, _ => Some (check_trigger None) (* an update always has one *)
         | Some DenyAll, _ => Some (check_trigger None)
         | _, DenyAll => Some (check_trigger None)
         | Some AllowAll, AllowAll => None
         | Some AllowAll, Predicate check | Some (Predicate check), AllowAll => Some (check_trigger (Some (policy_violation check)))
         | Some (Predicate using'), Predicate check => Some (check_trigger (Some (EBinaryOp (policy_violation using') BOr (policy_violation check))))
         end
  end.

Definition is_deny_all (predicate : PolicyPredicate Payload) : bool := match predicate with DenyAll => true | _ => false end.

(** What the forwarded statement is allowed to reach: with no policy that grants, the
    exempt writer; [None] is every row. *)
Definition authorization_of (denies : bool) (usable : PolicyPredicate Payload) options : option (Expr Payload) :=
  if denies then (λ call, EIsTrue (ENested call)) <$> write_exemption_expr options
  else match usable with Predicate predicate => Some (policy_or_exemption_expr predicate options) | _ => None end.

(** The body of a trigger whose command nothing grants. *)
Definition denied_body (what : string) (table_name : str) options (forwarded : list (BodyStatement Payload)) : list (BodyStatement Payload) :=
  if strict_rls_write_deny options then abort_on (permission_denied what table_name) None options :: forwarded
  else
    let exemption := write_exemption_expr options in
    ignored_write_body exemption ++ (if is_some exemption then forwarded else []).

(** [None] where the source panics: a table without columns. *)
Definition generate_update_trigger_sql (table : RlsTable Payload) options : result Error (option (RlsTrigger Payload)) :=
  policies ← filter_policies table [CommandUpdate] options;
  '(assigned, using', check) ← build_write_guard policies GuardUpdate table options;
  let assignments := map (λ column, (name column, prefixed_column_expr (lit "NEW") (name column))) (List.filter (λ column, negb (is_generated column)) assigned) in
  let usable := default DenyAll using' in
  let using_denies := negb (is_some (head policies)) || is_deny_all usable in
  Ok (identity ← build_row_identity_clause (collect_column_names table) (primary_key table);
  let forward := UpdateRows (inner_table_name table options) assignments (generated_row_filter identity (authorization_of using_denies usable options)) in
  let forwarded := refuse_computed_write_statements assigned (table_name table) GuardUpdate ++ [forward] in
  let body :=
    if using_denies then denied_body "UPDATE" (table_name table) options forwarded
    else
      match check with
      | DenyAll => [abort_on RLS_VIOLATION_ERROR None options]
      | AllowAll => []
      | Predicate check =>
          let violation := match usable with
                           | Predicate using' => EBinaryOp (ENested using') BAnd (policy_violation check)
                           | _ => policy_violation check
                           end in
          [abort_on RLS_VIOLATION_ERROR (Some violation) options]
      end ++ forwarded in
  Some {| trigger_name := table_name table ++ lit "_update_trigger"; trigger_table := table_name table; period := InsteadOf; event := EvUpdate [];
          condition := None; body := body |}).

(** *** Deletions *)

Definition generate_delete_check_trigger_sql (table : RlsTable Payload) options : result Error (option (RlsTrigger Payload)) :=
  match write_exemption_function options with
  | None => Ok None
  | Some _ =>
      policies ← filter_policies table [CommandDelete] options;
      let check_trigger violation :=
        backing_abort_trigger (inner_table_name table options ++ lit "_delete_check") (inner_table_name table options) EvDelete
          (write_guard_condition_expr violation options) RLS_VIOLATION_ERROR in
      match policies with
      | [] => Ok (Some (check_trigger None))
      | _ =>
          usable ← combine_policy_predicates policies Using (Some (lit "OLD")) [] options table;
          Ok match usable with
             | DenyAll => Some (check_trigger None)
             | AllowAll => None
             | Predicate predicate => Some (check_trigger (Some (policy_violation predicate)))
             end
      end
  end.

Definition generate_delete_trigger_sql (table : RlsTable Payload) options : result Error (option (RlsTrigger Payload)) :=
  policies ← filter_policies table [CommandDelete] options;
  usable ← combine_policy_predicates policies Using (Some (lit "OLD")) [] options table;
  let using_denies := negb (is_some (head policies)) || is_deny_all usable in
  Ok (identity ← build_row_identity_clause (collect_column_names table) (primary_key table);
  let forward := DeleteRows (inner_table_name table options) (generated_row_filter identity (authorization_of using_denies usable options)) in
  let body := if using_denies then denied_body "DELETE" (table_name table) options [forward] else [forward] in
  Some {| trigger_name := table_name table ++ lit "_delete_trigger"; trigger_table := table_name table; period := InsteadOf; event := EvDelete;
          condition := None; body := body |}).

(** *** A table the role may only read *)

Definition generate_readonly_backing_guard_sql (table : RlsTable Payload) options : list (RlsTrigger Payload) :=
  match write_exemption_function options with
  | None => []
  | Some _ =>
      let condition := write_guard_condition_expr None options in
      let message := lit "permission denied: " ++ table_name table ++ lit " is read-only for this role" in
      map (λ '(verb, event),
             backing_abort_trigger (inner_table_name table options ++ lit "_" ++ lit verb ++ lit "_check") (inner_table_name table options) event condition message)
        [("insert"%string, EvInsert); ("update"%string, EvUpdate []); ("delete"%string, EvDelete)]
  end.

(** *** What watches the writes *)

Definition generated_column (table column : str) : Expr Payload := ECompoundIdentifier [quoted_ident table; quoted_ident column].

Definition row_identifier_expr (pk_columns : list str) (prefix : str) : Expr Payload :=
  let expressions := map (λ column, concat_expr (string_literal (column ++ lit "="))
                                      (simple_function_expr (lit "quote") [prefixed_column_expr prefix column])) pk_columns in
  match expressions with
  | [] => string_literal (lit "<no PK>")
  | first :: expressions => foldl (λ joined expression, concat_expr (concat_expr joined (string_literal (lit ", "))) expression) first expressions
  end.

Definition exists_in (table_name : str) (selection : Expr Payload) (negated : bool) : Expr Payload :=
  EExists (single_expr_query (integer_literal 1) [FromTable [Identifier (quoted_ident table_name)]] (Some selection)) negated.

Definition row_visibility_expr (table_name : str) (pk_columns : list str) (prefix : str) : Expr Payload :=
  let selection := default (EBinaryOp (integer_literal 1) BEq (integer_literal 1))
    (reduce_with BAnd (map (λ column, EBinaryOp (generated_column table_name column) BEq (prefixed_column_expr prefix column)) pk_columns)) in
  exists_in table_name selection false.

Definition audit_columns : list str := SqliteNames.words
  ["table_name"; "violation_type"; "row_identifier"; "policy_name"; "detected_at"; "severity"; "details"; "reported_at"].

Definition generate_monitoring_trigger_statement (table_name inner_table_name : str) (pk_columns : list str) (audit_table_name : str)
    (strict_mode : bool) (operation : string) : RlsTrigger Payload :=
  let is_insert := String.eqb operation "insert" in
  let details := lit "Row " ++ lit (if is_insert then "inserted into" else "updated in")
    ++ lit " backing table but not readable through the RLS view; PostgreSQL allows this for writes without RETURNING" in
  {| trigger_name := inner_table_name ++ lit "_rls_monitor_" ++ lit operation; trigger_table := inner_table_name; period := After;
     event := if is_insert then EvInsert else EvUpdate []; condition := None;
     body := [InsertWhere audit_table_name audit_columns
       [string_literal table_name; string_literal (lit "select_not_visible"); row_identifier_expr pk_columns (lit "NEW");
        string_literal (lit "SELECT policy"); simple_function_expr (lit "datetime") [string_literal (lit "now")];
        string_literal (if strict_mode then lit "error" else lit "warning"); string_literal details; EValue ValueNull]
       (EUnaryOp UNot (ENested (row_visibility_expr table_name pk_columns (lit "NEW"))))] |}.

Definition generate_validation_view_statement (table_name inner_table_name : str) (columns pk_columns : list str) : option (RlsStatement Payload) :=
  let match_columns := match pk_columns with [] => columns | _ => pk_columns end in
  selection ← reduce_with BAnd (map (λ column, EBinaryOp (generated_column inner_table_name column) BEq (generated_column table_name column)) match_columns);
  Some (RlsView (inner_table_name ++ lit "_violations") columns inner_table_name (Some (exists_in table_name selection true))).

Definition generate_rls_validation_statements (table : RlsTable Payload) options (audit_table_name : str) : option (list (RlsStatement Payload)) :=
  let inner := inner_table_name table options in
  let monitor operation := RlsTriggerStatement
    (generate_monitoring_trigger_statement (table_name table) inner (primary_key table) audit_table_name (strict_rls_validation options) operation) in
  view ← generate_validation_view_statement (table_name table) inner (collect_column_names table) (primary_key table);
  Some [monitor "insert"%string; monitor "update"%string; view].

(** *** All of them *)

Inductive RlsStatementMode := ReadWrite | ReadOnly.

Definition trigger_statements (triggers : list (option (RlsTrigger Payload))) : list (RlsStatement Payload) :=
  omap (fmap (M := option) RlsTriggerStatement) triggers.

(** With the statements, whether the warning [RlsDeniesEveryRow] is emitted; [None]
    where the source panics. *)
Definition generate_rls_statements_with_mode (table : RlsTable Payload) options (mode : RlsStatementMode)
    : result Error (option (list (RlsStatement Payload) * bool)) :=
  audit_table_name ← ok_or (rls_audit_table_name options) RlsAuditTableNameRequired;
  view ← generate_rls_view_statement table options;
  writes ← match mode with
           | ReadWrite =>
               insert ← generate_insert_trigger_sql table options;
               insert_check ← generate_insert_check_trigger_sql table options;
               update_check ← generate_update_check_trigger_sql table options;
               delete_check ← generate_delete_check_trigger_sql table options;
               update ← generate_update_trigger_sql table options;
               delete ← generate_delete_trigger_sql table options;
               Ok (update ← update; delete ← delete;
                   Some (trigger_statements [Some insert; insert_check; update_check; delete_check; Some update; Some delete]))
           | ReadOnly => Ok (Some (map RlsTriggerStatement (generate_readonly_backing_guard_sql table options)))
           end;
  readable ← rls_read_predicate table options;
  Ok (writes ← writes;
      if is_deny_all readable then Some (view :: writes, true)
      else validation ← generate_rls_validation_statements table options audit_table_name; Some (view :: writes ++ validation, false)).
End Policies.
End Triggers.

(** ** Policies that read each other *)

(** The relations the library's visitor finds in an expression, and the tables among the
    relation and the joins of a FROM item that is opaque here. *)
Class Relations (Payload : Type) := {
  relations_of : Expr Payload → list (ObjectName Payload);
  joined_tables : Payload → list (ObjectName Payload)
}.

Section Circular.
Context {Payload : Type} `{TypeDisplay Payload, Relations Payload, Unicode}.
Implicit Types (expr : Expr Payload) (options : RlsOptions) (policy : CreatePolicy Payload).

Definition factor_table (name : ObjectName Payload) : list str :=
  match last_ident name with Some ident => [to_lowercase (value ident)] | None => [] end.

(** The names in the order they are met; the source keeps the first of each. *)
Fixpoint collect_subquery_tables expr {struct expr} : list str :=
  match expr with
  | EExists subquery _ | ESubquery subquery => collect_query_tables subquery
  | EInSubquery inner subquery _ => collect_subquery_tables inner ++ collect_query_tables subquery
  | other => for_each_child_expr collect_subquery_tables other
  end
with collect_query_tables (q : Query Payload) {struct q} : list str :=
  match q with
  | SelectQuery _ _ _ _ from selection =>
      flat_map (λ item, match item with
                        | FromTable name => factor_table name
                        | FromDerived _ => []
                        | FromOther o => flat_map factor_table (joined_tables o)
                        end) from
      ++ match selection with Some sel => collect_subquery_tables sel | None => [] end
  | OtherQuery _ => []
  end.

Definition push_unique (out : list str) (name : str) : list str := if existsb (str_eqb name) out then out else out ++ [name].
Definition subquery_tables expr : list str := foldl push_unique [] (collect_subquery_tables expr).

Definition reads_itself expr (guarded : str) : bool :=
  existsb (λ relation, match last_ident relation with Some ident => eq_ignore_ascii_case (value ident) guarded | None => false end) (relations_of expr).

Definition self_reference policy (guarded : str) : Error :=
  forward_refusal (lit "The read policy " ++ policy_name policy ++ lit " on " ++ guarded ++ lit " reads " ++ guarded
    ++ lit " in its own USING predicate, which PostgreSQL cannot evaluate: reading the table applies the policy and the policy reads the table, so PostgreSQL answers `infinite recursion detected in policy for relation "
    ++ quoted guarded ++ lit "`. Rewrite the predicate over another table, or restrict the policy to INSERT, UPDATE or DELETE, where PostgreSQL does evaluate a self reference.").

Definition mutual_reference policy other_policy (guarded other_name : str) : Error :=
  forward_refusal (lit "The read policy " ++ policy_name policy ++ lit " on " ++ guarded ++ lit " and the read policy "
    ++ policy_name (Payload := Payload) other_policy ++ lit " on " ++ other_name
    ++ lit " read each other, so each view would be defined in terms of the other and SQLite would refuse both at query time. PostgreSQL answers `infinite recursion detected in policy for relation` for the same pair. Restructure one of the policies to read a table that is not guarded, or restrict it to INSERT, UPDATE or DELETE.").

(** The policies of the other table, none of which may read the guarded one back. *)
Definition refuse_back_reference (guarded other_name : str) policy (other_select : list (CreatePolicy Payload)) : result Error () :=
  try_fold (λ _ other_policy,
    match using_expression other_policy with
    | None => Ok ()
    | Some other_pred =>
        if existsb (λ r, eq_ignore_ascii_case r guarded) (subquery_tables other_pred) then Err (mutual_reference policy other_policy guarded other_name)
        else Ok ()
    end) () other_select.

Definition reject_self_referential_read_policy (rls_tables : list (RlsTable Payload)) (policies : list (CreatePolicy Payload)) (table : RlsTable Payload) options
    : result Error () :=
  let guarded := table_name table in
  try_fold (λ _ policy,
    match using_expression policy with
    | None => Ok ()
    | Some predicate =>
        if reads_itself predicate guarded then Err (self_reference policy guarded)
        else
          try_fold (λ _ other_name,
            if eq_ignore_ascii_case other_name guarded then Ok ()
            else
              match List.find (λ t, eq_ignore_ascii_case (table_name t) other_name) rls_tables with
              | None => Ok ()
              | Some other_table =>
                  other_select ← filter_policies other_table [CommandSelect] options;
                  refuse_back_reference guarded other_name policy other_select
              end) () (subquery_tables predicate)
    end) () policies.

(** As the parameter of the generator. *)
Definition circular_of (rls_tables : list (RlsTable Payload)) options (table : RlsTable Payload) (policies : list (CreatePolicy Payload)) : option Error :=
  match reject_self_referential_read_policy rls_tables policies table options with Ok _ => None | Err refusal => Some refusal end.
End Circular.

(** ** The session variables of a policy *)

Section Validation.
Context {Payload : Type} `{TypeDisplay Payload}.
(** The patterns in the opaque parts of a query. *)
Variable patterns_in : Payload → list SessionVariablePattern.
Implicit Types (expr : Expr Payload) (options : SessionOptions).

Definition option_patterns (o : option Payload) : list SessionVariablePattern := match o with Some p => patterns_in p | None => [] end.

(** In the order they are met; the source keeps the first of each. *)
Fixpoint collect_session_variable_patterns expr {struct expr} : list SessionVariablePattern :=
  match expr with
  | EIdentifier ident => if eq_ignore_ascii_case (value ident) (lit "current_user") then [CurrentUser] else []
  | EFunction name args =>
      match pattern_of_function name args with Some pattern => [pattern] | None => [] end
      ++ match args with
         | ListArguments args =>
             flat_map (λ arg, match arg with
                              | Unnamed (ArgExpr e) | Named _ (ArgExpr e) | ExprNamed _ (ArgExpr e) => collect_session_variable_patterns e
                              | _ => []
                              end) args
         | _ => []
         end
  | ESubquery query | EExists query _ => collect_patterns_from_query query
  | EInSubquery inner subquery _ => collect_session_variable_patterns inner ++ collect_patterns_from_query subquery
  | other => for_each_child_expr collect_session_variable_patterns other
  end
with collect_patterns_from_query (q : Query Payload) {struct q} : list SessionVariablePattern :=
  match q with
  | SelectQuery with_clause order_by limit_clause projection from selection =>
      option_patterns with_clause
      ++ flat_map (λ item, match item with FromTable _ => [] | FromDerived q => collect_patterns_from_query q | FromOther o => patterns_in o end) from
      ++ match selection with Some sel => collect_session_variable_patterns sel | None => [] end
      ++ flat_map (λ item, match item with UnnamedExpr e | ExprWithAlias e _ => collect_session_variable_patterns e | OtherItem o => [] end) projection
      ++ option_patterns order_by ++ option_patterns limit_clause
  | OtherQuery o => patterns_in o
  end.

Definition push_pattern_unique (patterns : list SessionVariablePattern) (pattern : SessionVariablePattern) : list SessionVariablePattern :=
  if existsb (λ p, bool_decide (p = pattern)) patterns then patterns else patterns ++ [pattern].

Definition validate_session_variables expr options (table_name policy_name : str) : result Error () :=
  try_fold (λ _ pattern,
    match find_session_variable options pattern with
    | Some _ => Ok ()
    | None => Err (SessionVariableMappingNotFound (pattern_to_string pattern ++ lit " in table '" ++ table_name ++ lit "', policy '" ++ policy_name ++ lit "'"))
    end) () (foldl push_pattern_unique [] (collect_session_variable_patterns expr)).

Definition validate_table_policies (table : RlsTable Payload) options : result Error () :=
  try_fold (λ _ policy,
    _ ← match using_expression policy with Some e => validate_session_variables e options (table_name table) (policy_name policy) | None => Ok () end;
    match check_expression policy with Some e => validate_session_variables e options (table_name table) (policy_name policy) | None => Ok () end)
    () (policies table).
End Validation.
