(* ===== verification/Enforcement.v ===== *)
(** * What the policies enforce

    The reference for [Rls]: PostgreSQL's rule for a set of policies.  A row is a
    function from column names to values; a predicate is decided by SQLite's evaluation
    of the expression that was emitted, and NULL grants nothing. *)

From S2P Require Import Prelude Text Errors Ast Exprs ExprWalk Names SqliteEval DataTypes MinorUnits SessionVariable Operands Rls.

Section Truth.
Context {Payload : Type} {runtime : Runtime}.
Implicit Types (env : str → SqlValue) (e : Expr Payload).

(** What a [WHERE], a [WHEN] or a policy makes of an answer. *)
Definition truth env e : option bool := v ← eval env e; is_true v.

Lemma truth_or env a b x y : truth env a = Some x → truth env b = Some y → truth env (EBinaryOp a BOr b) = Some (x || y).
Proof.
  unfold truth. cbn [eval]. destruct (eval env a) as [[|u| |]|]; try done; destruct (eval env b) as [[|w| |]|]; try done; cbn; intros [= <-] [= <-]; cbn; try done.
  - by destruct (w =? 0) eqn:E; cbn.
  - by destruct (u =? 0) eqn:E; cbn.
  - by destruct (u =? 0), (w =? 0).
Qed.

Lemma truth_and env a b x y : truth env a = Some x → truth env b = Some y → truth env (EBinaryOp a BAnd b) = Some (x && y).
Proof.
  unfold truth. cbn [eval]. destruct (eval env a) as [[|u| |]|]; try done; destruct (eval env b) as [[|w| |]|]; try done; cbn; intros [= <-] [= <-]; cbn; try done.
  - by destruct w.
  - by destruct u.
  - by destruct u, w.
Qed.

Lemma truth_nested env e : truth env (ENested e) = truth env e.
Proof. reflexivity. Qed.

Lemma truth_is_true env e : truth env (EIsTrue e) = truth env e.
Proof. unfold truth. cbn [eval]. destruct (eval env e) as [v|]; [|done]. cbn. by destruct (is_true v) as [[]|]. Qed.

Lemma truth_is_not_true env e : truth env (EIsNotTrue e) = negb <$> truth env e.
Proof. unfold truth. cbn [eval]. destruct (eval env e) as [v|]; [|done]. cbn. by destruct (is_true v) as [[]|]. Qed.

Lemma truth_violation env e : truth env (policy_violation e) = negb <$> truth env e.
Proof. unfold policy_violation. by rewrite truth_is_not_true, truth_nested. Qed.

Lemma true_literal_holds env e : is_true_literal e = true → truth env e = Some true.
Proof.
  induction e as [e IH] using Expr_child_ind. intros Hl. destruct e; try done.
  - match goal with v : Value _ |- _ => by destruct v as [| | |[]| | | | |] end.
  - rewrite truth_nested. by apply (Forall_inv IH).
Qed.

(** A chain of one operator. *)
Lemma truth_chain env op (f : bool → bool → bool) es bs r :
  (∀ a b x y, truth env a = Some x → truth env b = Some y → truth env (EBinaryOp a op b) = Some (f x y)) →
  Forall2 (λ e b, truth env e = Some b) es bs → reduce_with op es = Some r →
  ∃ b bs', bs = b :: bs' ∧ truth env r = Some (foldl f b bs').
Proof.
  intros Hf. destruct 1 as [|e b es bs He Hes]; [done|]. intros [= <-]. exists b, bs. split; [done|].
  revert e b He. induction Hes as [|e' b' es bs He' Hes IH]; intros e b He; [done|]. cbn. apply IH. by apply Hf.
Qed.

Lemma foldl_orb b bs : foldl orb b bs = existsb id (b :: bs).
Proof. revert b. induction bs as [|b' bs IH]; intros b; cbn; [by rewrite orb_false_r|]. rewrite IH. cbn. unfold id. by rewrite orb_assoc. Qed.

Lemma foldl_andb b bs : foldl andb b bs = forallb id (b :: bs).
Proof. revert b. induction bs as [|b' bs IH]; intros b; cbn; [by rewrite andb_true_r|]. rewrite IH. cbn. unfold id. by rewrite andb_assoc. Qed.

Lemma truth_any env es bs r : Forall2 (λ e b, truth env e = Some b) es bs → reduce_with BOr es = Some r → truth env r = Some (existsb id bs).
Proof.
  intros H Hr. destruct (truth_chain env BOr orb es bs r) as (b & bs' & -> & ->); try done; [intros; by apply truth_or|]. by rewrite foldl_orb.
Qed.

Lemma truth_all env es bs r : Forall2 (λ e b, truth env e = Some b) es bs → reduce_with BAnd es = Some r → truth env r = Some (forallb id bs).
Proof.
  intros H Hr. destruct (truth_chain env BAnd andb es bs r) as (b & bs' & -> & ->); try done; [intros; by apply truth_and|]. by rewrite foldl_andb.
Qed.

(** ** The rule *)

(** The predicate PostgreSQL reads a policy's clause in: the check of a policy that has
    none is its [USING]. *)
Definition qualifier {P} (policy : CreatePolicy P) (clause : PolicyClause) : option (Expr P) :=
  match clause, check_expression policy with
  | WithCheck, Some check => Some check
  | _, _ => using_expression policy
  end.

Lemma policy_clause_qualifier {P} (policy : CreatePolicy P) clause : policy_clause policy clause = qualifier policy clause.
Proof. unfold policy_clause, qualifier. by destruct clause, (check_expression policy). Qed.

Ltac exists_rest ps rs := eexists _, ps, rs; split; [done|].

Section Rule.
Context (env : str → SqlValue) (resolve : Expr Payload → result Error (Expr Payload)) (clause : PolicyClause)
  (verdict : CreatePolicy Payload → bool).
Implicit Types (policy : CreatePolicy Payload).

Definition predicated policy : bool := is_some (qualifier policy clause).
Definition is_permissive policy : bool := negb (is_restrictive policy).

(** PostgreSQL, where [verdict] is what the predicate of a policy says of the row: some
    permissive policy grants, and every restrictive one agrees; a policy without a
    predicate adds nothing to either side. *)
Definition postgres_rule (policies : list (CreatePolicy Payload)) : bool :=
  existsb (λ policy, is_permissive policy && (predicated policy && verdict policy)) policies
  && forallb (λ policy, is_permissive policy || negb (predicated policy) || verdict policy) policies.

(** There are permissive policies, and none has a predicate. *)
Definition unqualified (policies : list (CreatePolicy Payload)) : bool :=
  existsb is_permissive policies && negb (existsb (λ policy, is_permissive policy && predicated policy) policies).

(** What the code enforces: such policies, which grant nothing in PostgreSQL, grant
    everything. *)
Definition enforced_rule (policies : list (CreatePolicy Payload)) : bool :=
  (unqualified policies || existsb (λ policy, is_permissive policy && (predicated policy && verdict policy)) policies)
  && forallb (λ policy, is_permissive policy || negb (predicated policy) || verdict policy) policies.

(** The predicates all resolve, and each answers its verdict, NULL being a refusal. *)
Definition answers (policies : list (CreatePolicy Payload)) : Prop :=
  ∀ policy e, policy ∈ policies → qualifier policy clause = Some e → ∃ r, resolve e = Ok r ∧ truth env r = Some (verdict policy).

Definition lets_through (predicate : PolicyPredicate Payload) : option bool :=
  match predicate with DenyAll => Some false | AllowAll => Some true | Predicate e => truth env e end.

(** What the loop knows of the policies it has passed. *)
Record combining (seen : list (CreatePolicy Payload)) (σ : Combined) (ps rs : list bool) : Prop := {
  combining_has : has_permissive σ = existsb is_permissive seen;
  combining_permissive : Forall2 (λ e b, truth env e = Some b) (permissive σ) ps;
  combining_restrictive : Forall2 (λ e b, truth env e = Some b) (restrictive σ) rs;
  combining_any : permissive_always_true σ || existsb id ps = existsb (λ policy, is_permissive policy && (predicated policy && verdict policy)) seen;
  combining_all : forallb id rs = forallb (λ policy, is_permissive policy || negb (predicated policy) || verdict policy) seen;
  combining_some : permissive_always_true σ || is_some (head (permissive σ)) = existsb (λ policy, is_permissive policy && predicated policy) seen
}.

Lemma forall2_snoc (es : list (Expr Payload)) bs e b :
  Forall2 (λ e b, truth env e = Some b) es bs → truth env e = Some b → Forall2 (λ e b, truth env e = Some b) (es ++ [ENested e]) (bs ++ [b]).
Proof. intros. apply Forall2_app; [done|]. constructor; [done|constructor]. Qed.

Lemma existsb_id_snoc bs b : existsb id (bs ++ [b]) = existsb id bs || b.
Proof. rewrite existsb_app. cbn. by rewrite orb_false_r. Qed.

Lemma head_snoc {A} (l : list A) x : is_some (head (l ++ [x])) = true.
Proof. by destruct l. Qed.

Lemma combine_step_keeps seen σ ps rs policy :
  combining seen σ ps rs → (∀ e, qualifier policy clause = Some e → ∃ r, resolve e = Ok r ∧ truth env r = Some (verdict policy)) →
  ∃ σ' ps' rs', combine_step resolve clause σ policy = Ok σ' ∧ combining (seen ++ [policy]) σ' ps' rs'.
Proof.
  intros [Hh Hp Hr Hany Hall Hsome] Hd. unfold combine_step. rewrite policy_clause_qualifier.
  destruct (qualifier policy clause) as [e|] eqn:Ec.
  2: { eexists _, ps, rs. split; [done|]. split; cbn; rewrite ?existsb_app, ?forallb_app, <- ?Hany, <- ?Hall, <- ?Hsome, ?Hh; cbn; try done.
       all: unfold predicated in *; rewrite ?Ec; cbn; rewrite ?andb_false_r, ?orb_false_r, ?orb_true_r, ?andb_true_r; done. }
  destruct (Hd e eq_refl) as (r & Hres & Ht). rewrite Hres. cbn [mbind result_bind].
  assert (predicated policy = true) as Hpred by (unfold predicated; by rewrite Ec).
  assert (is_permissive policy = negb (is_restrictive policy)) as Hper by done.
  destruct (is_true_literal r) eqn:El; [rewrite (true_literal_holds env r El) in Ht; injection Ht as Hv; symmetry in Hv|];
    destruct (is_restrictive policy) eqn:Er; [exists_rest ps rs|exists_rest ps rs|exists_rest ps (rs ++ [verdict policy])|exists_rest (ps ++ [verdict policy]) rs];
    split; cbn; rewrite ?existsb_app, ?forallb_app, ?existsb_id_snoc, <- ?Hany, <- ?Hall, <- ?Hsome, ?Hh; cbn; rewrite ?Hper, ?Er, ?Hpred, ?Hv, ?head_snoc; cbn;
    rewrite ?orb_false_r, ?orb_true_r, ?andb_true_r, ?orb_assoc; try done; by apply forall2_snoc.
Qed.

Lemma combine_loop policies : answers policies →
  ∃ σ ps rs, try_fold (combine_step resolve clause) combined_init policies = Ok σ ∧ combining policies σ ps rs.
Proof.
  intros Hd. cut (∀ seen σ ps rs, combining seen σ ps rs → ∃ σ' ps' rs', try_fold (combine_step resolve clause) σ policies = Ok σ' ∧ combining (seen ++ policies) σ' ps' rs').
  { intros H. apply (H [] combined_init [] []). by split. }
  induction policies as [|policy policies IH]; intros seen σ ps rs Hc.
  - exists σ, ps, rs. by rewrite app_nil_r.
  - destruct (combine_step_keeps seen σ ps rs policy Hc) as (σ' & ps' & rs' & Hs & Hc'); [intros e; apply Hd; by left|].
    cbn [try_fold]. rewrite Hs. cbn [mbind result_bind]. replace (seen ++ policy :: policies) with ((seen ++ [policy]) ++ policies) by by rewrite <- app_assoc.
    by apply (IH ltac:(intros p e Hp; apply Hd; by right) (seen ++ [policy])) in Hc'.
Qed.

Lemma truth_conjuncts σ ps rs : Forall2 (λ e b, truth env e = Some b) (permissive σ) ps → Forall2 (λ e b, truth env e = Some b) (restrictive σ) rs →
  let granted := (negb (permissive_always_true σ || is_some (head (permissive σ))) || (permissive_always_true σ || existsb id ps)) && forallb id rs in
  match reduce_with BAnd (conjuncts σ) with None => granted = true | Some predicate => truth env predicate = Some granted end.
Proof.
  intros Hp Hr. cbv zeta. unfold conjuncts. destruct (permissive_always_true σ); cbn [orb andb app negb].
  { destruct (reduce_with BAnd (restrictive σ)) as [predicate|] eqn:E; [by eapply truth_all|].
    destruct (restrictive σ); [|done]. by apply Forall2_nil_inv_l in Hr as ->. }
  destruct (reduce_with BOr (permissive σ)) as [joined|] eqn:Ej.
  - assert (is_some (head (permissive σ)) = true) as -> by by destruct (permissive σ). pose proof (truth_any env _ _ _ Hp Ej) as Ht. cbn [app negb orb].
    assert (Hg : Forall2 (λ e b, truth env e = Some b) (match restrictive σ with [] => joined | _ => ENested joined end :: restrictive σ) (existsb id ps :: rs)).
    { constructor; [|done]. by destruct (restrictive σ). }
    destruct (reduce_with BAnd _) as [predicate|] eqn:E; [|done]. by rewrite (truth_all env _ _ _ Hg E).
  - assert (is_some (head (permissive σ)) = false) as -> by by destruct (permissive σ). cbn [app negb orb andb].
    destruct (reduce_with BAnd (restrictive σ)) as [predicate|] eqn:E; [by eapply truth_all|].
    destruct (restrictive σ); [|done]. by apply Forall2_nil_inv_l in Hr as ->.
Qed.

Lemma combined_lets_through policies : answers policies →
  ∃ predicate, combine_predicates resolve policies clause = Ok predicate ∧ lets_through predicate = Some (enforced_rule policies).
Proof.
  intros Hd. destruct (combine_loop policies Hd) as (σ & ps & rs & Hs & Hcomb). unfold combine_predicates. rewrite Hs. cbn [mbind result_bind]. eexists. split; [done|].
  destruct Hcomb as [Hh Hp Hr Hany Hall Hsome]. pose proof (truth_conjuncts σ ps rs Hp Hr) as Ht. cbv zeta in Ht. rewrite Hany, Hall, Hsome in Ht.
  unfold enforced_rule, unqualified. rewrite Hh. destruct (existsb is_permissive policies) eqn:Ehas; cbn [negb andb].
  - destruct (reduce_with BAnd _); cbn [lets_through]; [done|by rewrite Ht].
  - cbn [lets_through]. f_equal. symmetry. apply andb_false_iff. left. apply existsb_false in Ehas. cbn [orb]. apply existsb_false.
    eapply Forall_impl; [exact Ehas|]. cbn. by intros p ->.
Qed.

Lemma enforced_is_postgres policies : unqualified policies = false → enforced_rule policies = postgres_rule policies.
Proof. unfold enforced_rule. by intros ->. Qed.
End Rule.
End Truth.

(** Nothing is let through exactly where no policy is permissive. *)
Lemma combine_has {Payload} (resolve : Expr Payload → result Error (Expr Payload)) clause policies σ τ :
  try_fold (combine_step resolve clause) σ policies = Ok τ → has_permissive τ = has_permissive σ || existsb is_permissive policies.
Proof.
  revert σ. induction policies as [|policy policies IH]; intros σ Hf; [injection Hf as <-; by rewrite orb_false_r|]. cbn [try_fold existsb] in *.
  apply bind_Ok in Hf as (σ' & Hs & Hf). rewrite (IH _ Hf), orb_assoc. f_equal. unfold combine_step, is_permissive in *. destruct (policy_clause policy clause) as [e|].
  - apply bind_Ok in Hs as (r & _ & Hs). injection Hs as <-. by destruct (is_true_literal r), (is_restrictive policy).
  - by injection Hs as <-.
Qed.

Lemma combine_denies {Payload} (resolve : Expr Payload → result Error (Expr Payload)) clause policies predicate :
  combine_predicates resolve policies clause = Ok predicate → is_deny_all predicate = negb (existsb is_permissive policies).
Proof.
  intros Hc. apply bind_Ok in Hc as (τ & Hf & Hc). injection Hc as <-. rewrite (combine_has _ _ _ _ _ Hf). cbn [has_permissive combined_init orb].
  destruct (existsb _ policies); [cbn [negb]; by destruct (reduce_with BAnd _)|done].
Qed.

(** Without a permissive policy nothing is let through. *)
Lemma enforced_denies {Payload} clause verdict (policies : list (CreatePolicy Payload)) : existsb is_permissive policies = false → enforced_rule clause verdict policies = false.
Proof.
  intros Hn. unfold enforced_rule, unqualified. rewrite Hn. cbn [andb orb]. apply andb_false_iff. left. apply existsb_false. apply existsb_false in Hn.
  eapply Forall_impl; [exact Hn|]. cbn. by intros p ->.
Qed.

(** C26 (policies combine).  Where the predicate of each policy, once translated, answers
    true, false or NULL of the row, the predicate of a set of policies lets the row
    through exactly when [enforced_rule] says so: some permissive policy grants it and
    every restrictive one agrees, which is PostgreSQL's rule, except that where there are
    permissive policies and none has a predicate for the clause, the restrictive ones
    alone decide, where PostgreSQL lets nothing through. *)
Theorem policies_combine {Payload} {runtime : Runtime} (env : str → SqlValue) (resolve : Expr Payload → result Error (Expr Payload)) clause verdict policies :
  answers env resolve clause verdict policies →
  ∃ predicate, combine_predicates resolve policies clause = Ok predicate
    ∧ lets_through env predicate = Some (enforced_rule clause verdict policies)
    ∧ (unqualified clause policies = false → enforced_rule clause verdict policies = postgres_rule clause verdict policies)
    ∧ (unqualified clause policies = true → postgres_rule clause verdict policies = false
         ∧ enforced_rule clause verdict policies = forallb (λ policy, is_permissive policy || negb (predicated clause policy) || verdict policy) policies).
Proof.
  intros Ha. destruct (combined_lets_through env resolve clause verdict policies Ha) as (predicate & Hc & Hl). exists predicate. split_and!; [done..|apply enforced_is_postgres|].
  intros Hu. split; [|unfold enforced_rule; by rewrite Hu]. apply andb_true_iff in Hu as [_ Hn%negb_true_iff]. unfold postgres_rule. apply andb_false_iff. left.
  apply existsb_false. apply existsb_false in Hn. eapply Forall_impl; [exact Hn|]. cbn. intros p Hp. by rewrite andb_assoc, Hp.
Qed.

(** ** A guard judges the row as it will be stored *)

Definition Row := str → SqlValue.

(** The application's functions, with the rows a trigger names. *)
Definition trigger_runtime (host : str → list SqlValue → option SqlValue) (new old : option Row) : Runtime :=
  {| named_row n := if eq_ignore_ascii_case n (lit "NEW") then new else if eq_ignore_ascii_case n (lit "OLD") then old else None;
     host_function := host |}.

(** A row of the table, which a reference may name by the table. *)
Definition table_runtime `{Unicode} (host : str → list SqlValue → option SqlValue) (table_name : str) (row : Row) : Runtime :=
  {| named_row n := if str_eqb (to_lowercase n) (to_lowercase table_name) then Some row else None; host_function := host |}.

Section Guard.
Context {Payload : Type} `{PayloadVisit Payload} (host : str → list SqlValue → option SqlValue).
Implicit Types (e : Expr Payload).

Lemma eval_mut_head {runtime : Runtime} env g e : eval env (mut_head g e) = eval env e.
Proof. destruct e; try done. destruct name as [|[ident|call] []]; try done; by destruct args. Qed.

(** A reference to [NEW] that a substitution answers is replaced by an expression with
    the value of [stored]; one that none answers has that value already. *)
Definition reads_stored (substitutions : list (GuardSubstitution Payload)) env (new stored : Row) (old : option Row) e : Prop :=
  match e with
  | ECompoundIdentifier [p; c] =>
      eq_ignore_ascii_case (value p) (lit "NEW") = true →
      match List.find (λ '(name, _), eq_ignore_ascii_case name (value c)) substitutions with
      | Some (_, replacement) => eval (runtime := trigger_runtime host (Some new) old) env replacement = Some (stored (value c))
      | None => new (value c) = stored (value c)
      end
  | EIdentifier _ | ECompoundIdentifier _ => True
  | e => reads_children e = true
  end.

Lemma fold_reads_stored substitutions env new stored old e :
  Forall (reads_stored substitutions env new stored old) (visited e) →
  eval (runtime := trigger_runtime host (Some new) old) env (fold_guard e substitutions)
  = eval (runtime := trigger_runtime host (Some stored) old) env e.
Proof.
  unfold fold_guard. induction e as [e IH] using Expr_child_ind. intros [Hn Hc]%visited_children.
  assert (Forall (λ c, eval (runtime := trigger_runtime host (Some new) old) env (visit_mut (fold_reference substitutions) c)
    = eval (runtime := trigger_runtime host (Some stored) old) env c) (child_exprs e)) as Hall.
  { rewrite Forall_forall in *. auto. }
  rewrite visit_mut_eq. destruct (reads_children e) eqn:Es.
  - set (e' := map_with_queries _ _ e). assert (fold_reference substitutions (mut_head (fold_reference substitutions) e') = mut_head (fold_reference substitutions) e') as ->.
    { subst e'. by destruct e; try done; destruct args. }
    rewrite eval_mut_head. subst e'. by apply eval_map_node.
  - destruct e; try done; try (exfalso; cbn [reads_stored] in Hn; congruence). destruct idents as [|p [|c []]]; try done. cbn [map_with_queries mut_head fold_reference]. cbn [reads_stored] in Hn.
    destruct (eq_ignore_ascii_case (value p) (lit "NEW")) eqn:Ep.
    + specialize (Hn eq_refl). cbn [eval named_row trigger_runtime]. rewrite Ep. cbn [mbind option_bind].
      destruct (List.find (λ '(name, _), eq_ignore_ascii_case name (value c)) substitutions) as [[n replacement]|]; [done|]. cbn [eval named_row trigger_runtime]. rewrite Ep. cbn [mbind option_bind]. by rewrite Hn.
    + cbn [eval named_row trigger_runtime]. by rewrite Ep.
Qed.

(** With nothing to substitute, the folder keeps an expression's meaning. *)
Lemma fold_nothing {runtime : Runtime} env e :
  Forall (λ node, match node with EIdentifier _ | ECompoundIdentifier _ => True | node => reads_children node = true end) (visited e) →
  eval env (fold_guard e []) = eval env e.
Proof.
  unfold fold_guard. assert (Hid : ∀ node : Expr Payload, fold_reference [] node = node).
  { intros node. destruct node; try done. destruct idents as [|p [|c []]]; try done. cbn. by destruct (eq_ignore_ascii_case _ _). }
  induction e as [e IH] using Expr_child_ind. intros [Hn Hc]%visited_children. rewrite visit_mut_eq, Hid, eval_mut_head.
  destruct (reads_children e) eqn:Es; [|by destruct e; try done; exfalso; cbn in Hn; congruence].
  apply eval_map_node; [done..|]. rewrite Forall_forall in *. auto.
Qed.
End Guard.

(** ** A policy reads the row it is about *)

Section Transform.
Context {Payload : Type} `{Unicode} (transform_query : ColumnRefStrategy → Query Payload → Query Payload)
  (host : str → list SqlValue → option SqlValue).
Implicit Types (e : Expr Payload).

(** Every column the expression names is one of [names], bare or after the table's
    name, and it reads nothing else; no argument is named by an expression, and no
    opaque part holds an expression. *)
Definition own_columns `{PayloadVisit Payload} (table_name : str) (names : list str) e : Prop :=
  visited_head e = [] ∧
  match e with
  | EIdentifier ident => value ident ∈ names
  | ECompoundIdentifier [t; c] => to_lowercase (value t) = to_lowercase table_name ∧ value c ∈ names
  | ECompoundIdentifier _ => False
  | EFunction _ (ListArguments args) => Forall (λ arg, match arg with ExprNamed _ _ => False | _ => True end) args
  | e => reads_children e = true
  end.

(** Where the transformed expression finds the row: under the prefix, or, without one,
    as the bare columns and under the name of the backing table. *)
Definition finds_row (runtime : Runtime) (env : str → SqlValue) (prefix : option str) (inner_table_name : str) (row : Row) : Prop :=
  match prefix with
  | Some pfx => named_row pfx = Some row
  | None => env = row ∧ named_row inner_table_name = Some row
  end.

Lemma transformed_arguments f (args : list (FunctionArg Payload)) :
  Forall (λ arg, match arg with ExprNamed _ _ => False | _ => True end) args →
  map (transform_function_arg_with_rls f) args = map (map_function_arg f) args.
Proof. induction 1 as [|arg args Ha _ IH]; [done|]. cbn. rewrite IH. by destruct arg. Qed.

Lemma transform_generic_node `{PayloadVisit Payload} table_name names strategy e :
  own_columns table_name names e → reads_children e = true →
  transform_expr_generic transform_query strategy e = map_with_queries (transform_expr_generic transform_query strategy) id e.
Proof. intros [_ Ho]. destruct e; try done. destruct args; try done. intros _. cbn. by rewrite transformed_arguments. Qed.

Lemma existsb_str_eqb (s : str) l : existsb (str_eqb s) l = true ↔ s ∈ l.
Proof. rewrite existsb_exists. split; [intros (x & Hx & ->%str_eqb_eq); by apply list_elem_of_In|]. intros Hs. exists s. split; [by apply list_elem_of_In|apply str_eqb_refl]. Qed.

Lemma transform_reads_row `{PayloadVisit Payload} {runtime : Runtime} env e prefix table_name inner_table_name names all row :
  (∀ n, n ∈ names → n ∈ all) → @host_function runtime = host → finds_row runtime env prefix inner_table_name row →
  Forall (own_columns table_name names) (visited e) →
  eval env (transform_expr transform_query e prefix (Some (table_name, inner_table_name)) (map to_lowercase all))
  = eval (runtime := table_runtime host table_name row) row e.
Proof.
  intros Hsub Hh Hf. unfold transform_expr. set (strategy := Build_ColumnRefStrategy _ _ _ _).
  induction e as [e IH] using Expr_child_ind. intros [Hn Hc]%visited_children.
  destruct (reads_children e) eqn:Es.
  - rewrite (transform_generic_node table_name names) by done. apply eval_map_node; try done; [by rewrite Hh|]. rewrite Forall_forall in *. auto.
  - destruct Hn as [_ Hn]. destruct e; try done; try (by destruct args).
    + cbn [transform_expr_generic]. unfold transform_identifier. cbn [Rls.prefix Rls.lowercased_columns inner_scope_columns strategy existsb negb].
      destruct prefix as [pfx|]; cbn [finds_row] in *.
      * assert (existsb (str_eqb (to_lowercase (value ident))) (map to_lowercase all) = true) as ->
          by (apply existsb_str_eqb, list_elem_of_fmap; exists (value ident); auto). cbn [andb eval]. cbn [Ident_new value]. by rewrite Hf.
      * destruct Hf as [-> _]. done.
    + destruct idents as [|t [|c []]]; try done. destruct Hn as [Hn _]. cbn [transform_expr_generic]. unfold transform_compound. cbn [Rls.table_rename Rls.prefix strategy].
      rewrite (proj2 (str_eqb_eq _ _) Hn). transitivity (Some (row (value c))).
      * destruct prefix as [pfx|]; cbn [finds_row] in Hf; unfold default, id; cbn [eval Ident_new value]; [by rewrite Hf|by rewrite (proj2 Hf)].
      * cbn [eval named_row table_runtime]. by rewrite (proj2 (str_eqb_eq _ _) Hn).
Qed.

(** After it, a reference is [prefix.column], where there is a prefix. *)
Definition row_reference (prefix : option str) (names : list str) e : Prop :=
  match e with
  | ECompoundIdentifier [_; c] => value c ∈ names
  | EIdentifier _ => prefix = None
  | ECompoundIdentifier _ => False
  | e => reads_children e = true
  end.

Lemma transform_row_references `{PayloadVisit Payload} e prefix table_name inner_table_name names all :
  (∀ n, n ∈ names → n ∈ all) → Forall (own_columns table_name names) (visited e) →
  Forall (row_reference prefix names) (visited (transform_expr transform_query e prefix (Some (table_name, inner_table_name)) (map to_lowercase all))).
Proof.
  intros Hsub. unfold transform_expr. set (strategy := Build_ColumnRefStrategy _ _ _ _).
  induction e as [e IH] using Expr_child_ind. intros [Hn Hc]%visited_children.
  destruct (reads_children e) eqn:Es.
  - rewrite (transform_generic_node table_name names) by done. rewrite visited_eq, for_each_child_flat, child_exprs_map, flat_map_map, !Forall_app.
    destruct Hn as [Hh Hn]. split_and!.
    + replace (visited_head (map_with_queries _ _ e)) with (visited_head e) by (by destruct e; try done; destruct args). rewrite Hh. constructor.
    + apply List.Forall_forall. intros x (c & Hin & Hx)%in_flat_map. apply list_elem_of_In in Hin. rewrite Forall_forall in IH, Hc.
      pose proof (IH c Hin (Hc c Hin)) as Hf. rewrite List.Forall_forall in Hf. by apply Hf.
    + destruct e; try done. by destruct args.
    + constructor; [|constructor]. destruct e; try done. by destruct args.
  - destruct Hn as [_ Hn]. destruct e; try done; try (by destruct args).
    + cbn [transform_expr_generic]. unfold transform_identifier. cbn [Rls.prefix Rls.lowercased_columns inner_scope_columns strategy existsb negb].
      destruct prefix as [pfx|]; [|cbn; by repeat constructor].
      assert (existsb (str_eqb (to_lowercase (value ident))) (map to_lowercase all) = true) as -> by (apply existsb_str_eqb, list_elem_of_fmap; exists (value ident); auto).
      cbn. by repeat constructor.
    + destruct idents as [|t [|c []]]; try done. destruct Hn as [Hn Hin]. cbn [transform_expr_generic]. unfold transform_compound. cbn [Rls.table_rename Rls.prefix strategy].
      rewrite (proj2 (str_eqb_eq _ _) Hn). cbn. by repeat constructor.
Qed.
End Transform.

Section Stored.
Context {Payload : Type} `{TypeDisplay Payload, PayloadVisit Payload, Unicode}
  (transform_query : ColumnRefStrategy → Query Payload → Query Payload) (host : str → list SqlValue → option SqlValue).
Implicit Types (columns : list (TriggerColumn Payload)) (column : TriggerColumn Payload) (table : RlsTable Payload) (kind : GuardKind).

(** The row a write stores: a column the caller left out of an insertion takes the
    default the forwarding write carries, and SQLite computes the generated ones from the
    rest. *)
Definition stores kind table columns env (new stored : Row) (old : option Row) : Prop :=
  ∀ column, column ∈ columns →
    match generated column, kind, column_default column with
    | Some g, _, _ => eval (runtime := table_runtime host (table_name table) stored) stored g = Some (stored (name column))
    | None, GuardInsert, Some d =>
        ∃ v, eval (runtime := trigger_runtime host (Some new) old) env d = Some v ∧ stored (name column) = coalesce_values [new (name column); v]
    | None, _, _ => stored (name column) = new (name column)
    end.

Definition plain_names columns : list str := map name (List.filter (λ column, negb (is_generated column)) columns).

(** The columns in minor units that have a default: the write carries the default in
    minor units, and the guard, whose translation scales it, as it was declared. *)
Definition scaled_names table : list str :=
  map (λ c, value (rls_ident c)) (List.filter (λ c, is_some (MinorUnits.minor_unit_scale (rls_type c)) && is_some (raw_default c)) (Rls.columns table)).

Definition steady table (n : str) : bool := negb (existsb (str_eqb n) (scaled_names table)).
Definition steady_names table : list str := List.filter (steady table) (collect_column_names table).

(** The columns of a table PostgreSQL accepts: no two of one name, none generated with
    a default or from another generated one. *)
Record table_columns table options columns : Prop := {
  columns_read : trigger_columns table options = Ok columns;
  columns_distinct : NoDup (map (λ column, to_ascii_lowercase (name column)) columns);
  generated_without_default c : c ∈ Rls.columns table → generation_expr c ≠ None → raw_default c = None;
  generated_from_plain column g : column ∈ columns → generated column = Some g →
    Forall (own_columns (table_name table) (List.filter (steady table) (plain_names columns))) (visited g)
}.

Lemma trigger_column_of table options columns column : trigger_columns table options = Ok columns → column ∈ columns →
  ∃ c, c ∈ Rls.columns table ∧ trigger_column c options = Ok column.
Proof.
  unfold trigger_columns. generalize (Rls.columns table) as cs. intros cs. revert columns. induction cs as [|c cs IH]; intros columns Hm Hin.
  - injection Hm as <-. by apply elem_of_nil in Hin.
  - cbn in Hm. apply bind_Ok in Hm as (x & Hx & Hm). apply bind_Ok in Hm as (xs & Hxs & Hm). injection Hm as <-. apply elem_of_cons in Hin as [->|Hin].
    + exists c. split; [by left|done].
    + destruct (IH _ Hxs Hin) as (c' & Hc & Ht). exists c'. split; [by right|done].
Qed.

Lemma trigger_column_fields c options column : trigger_column c options = Ok column →
  name column = value (rls_ident c) ∧ generated column = generation_expr c
  ∧ declared_default c (rls_storage options) = Ok (column_default column)
  ∧ guard_default column = if is_some (MinorUnits.minor_unit_scale (rls_type c)) then raw_default c else column_default column.
Proof. unfold trigger_column. intros (d & Hd & Ht)%bind_Ok. by injection Ht as <-. Qed.

Lemma columns_named table options columns : trigger_columns table options = Ok columns → map name columns = collect_column_names table.
Proof.
  unfold trigger_columns, collect_column_names. generalize (Rls.columns table) as cs. intros cs. revert columns. induction cs as [|c cs IH]; intros columns Hm.
  - by injection Hm as <-.
  - cbn in Hm. apply bind_Ok in Hm as (x & Hx & Hm). apply bind_Ok in Hm as (xs & Hxs & Hm). injection Hm as <-. cbn. rewrite (IH _ Hxs).
    by destruct (trigger_column_fields _ _ _ Hx) as [-> _].
Qed.

(** Elsewhere the guard's default is the one the write carries. *)
Lemma steady_default table options columns column : trigger_columns table options = Ok columns → column ∈ columns → steady table (name column) = true →
  guard_default column = column_default column.
Proof.
  intros Hr Hin Hs. destruct (trigger_column_of _ _ _ _ Hr Hin) as (c & Hc & Ht). destruct (trigger_column_fields _ _ _ Ht) as (Hn & _ & Hd & ->).
  destruct (is_some (MinorUnits.minor_unit_scale (rls_type c))) eqn:Em; [|done]. unfold declared_default in Hd. destruct (raw_default c) as [d|] eqn:Ed; [|by injection Hd as <-].
  exfalso. apply negb_true_iff in Hs. assert (existsb (str_eqb (name column)) (scaled_names table) = true); [|congruence].
  apply existsb_str_eqb, list_elem_of_fmap. exists c. split; [done|]. apply list_elem_of_In, filter_In. split; [by apply list_elem_of_In|]. by rewrite Em, Ed.
Qed.

Lemma generated_undefaulted table options columns column : table_columns table options columns → column ∈ columns → generated column ≠ None → guard_default column = None.
Proof.
  intros Hok Hin Hg. destruct (trigger_column_of _ _ _ _ (columns_read _ _ _ Hok) Hin) as (c & Hc & Ht). destruct (trigger_column_fields _ _ _ Ht) as (_ & Hgen & Hd & ->).
  rewrite Hgen in Hg. pose proof (generated_without_default _ _ _ Hok c Hc Hg) as Hraw. unfold declared_default in Hd. rewrite Hraw in *. injection Hd as <-. by destruct (is_some _).
Qed.

Lemma find_appended {A} (p : A → bool) a b : List.find p (a ++ b) = match List.find p a with Some x => Some x | None => List.find p b end.
Proof. induction a as [|x a IH]; cbn; [done|]. by destruct (p x). Qed.

(** The substitution of a column is its own. *)
Lemma find_column (F : TriggerColumn Payload → option (Expr Payload)) columns column :
  NoDup (map (λ column, to_ascii_lowercase (name column)) columns) → column ∈ columns →
  List.find (λ '(n, _), eq_ignore_ascii_case n (name column)) (omap (λ c, (λ r, (name c, r)) <$> F c) columns) = (λ r, (name column, r)) <$> F column.
Proof.
  induction columns as [|c columns IH]; cbn [map]; intros Hnd Hin; [by apply elem_of_nil in Hin|]. apply NoDup_cons in Hnd as [Hc Hnd].
  assert (Hnone : ∀ c', c' ∈ columns → eq_ignore_ascii_case (name c') (name c) = false).
  { intros c' Hc'. apply str_eqb_neq. intros He. apply Hc. rewrite <- He. apply list_elem_of_fmap. by exists c'. }
  apply elem_of_cons in Hin as [->|Hin].
  - cbn. destruct (F c) as [r|]; cbn; [unfold eq_ignore_ascii_case; by rewrite str_eqb_refl|].
    clear - Hnone. induction columns as [|c' columns IH]; [done|]. cbn. destruct (F c') as [r|]; cbn; [rewrite Hnone by by left|]; apply IH; intros; apply Hnone; by right.
  - cbn. destruct (F c) as [r|]; cbn; [|by apply IH].
    assert (eq_ignore_ascii_case (name c) (name column) = false) as -> by (apply str_eqb_neq; intros He; apply (proj1 (str_eqb_neq _ _) (Hnone column Hin)); by symmetry).
    by apply IH.
Qed.

Definition default_substitution kind column : option (Expr Payload) :=
  match kind with GuardInsert => if is_some (guard_default column) then Some (guard_coalesce column) else None | GuardUpdate => None end.

Lemma guard_substitutions_split kind columns options table :
  let defaults := omap (λ c, (λ r, (name c, r)) <$> default_substitution kind c) columns in
  guard_substitutions transform_query columns kind options table
  = defaults ++ omap (λ c, (λ r, (name c, r)) <$>
      ((λ g, ENested (fold_guard (transform_expr transform_query g (Some (lit "NEW")) (Some (as_rename_tuple table options)) (lowercased table)) defaults)) <$> generated c)) columns.
Proof.
  intros defaults. unfold guard_substitutions.
  assert (match kind with
          | GuardInsert => map (λ column, (name column, guard_coalesce column)) (List.filter (λ column, is_some (guard_default column)) columns)
          | GuardUpdate => [] end = defaults) as ->.
  { subst defaults. destruct kind; cbn [default_substitution]; [|by induction columns]. induction columns as [|c columns IH]; [done|]. cbn.
    destruct (is_some (guard_default c)); cbn; by rewrite IH. }
  f_equal. clearbody defaults. induction columns as [|c columns IH]; [done|]. cbn. destruct (generated c); cbn; [f_equal|]; exact IH.
Qed.

Lemma eval_guard_coalesce env new old column d v :
  guard_default column = Some d → eval (runtime := trigger_runtime host (Some new) old) env d = Some v →
  eval (runtime := trigger_runtime host (Some new) old) env (guard_coalesce column) = Some (coalesce_values [new (name column); v]).
Proof.
  intros Hd Hv. unfold guard_coalesce. rewrite Hd. unfold coalesce, simple_function_expr. cbn [eval map unnamed_arg].
  unfold prefixed_column_expr. cbn [eval named_row trigger_runtime Ident_new value]. rewrite Hv.
  by rewrite value_quoted_ident.
Qed.

Lemma name_in_columns columns n : n ∈ map name columns → ∃ column, column ∈ columns ∧ name column = n.
Proof. intros (column & -> & Hin)%list_elem_of_fmap. by exists column. Qed.

Context (kind : GuardKind) (table : RlsTable Payload) (options : RlsOptions) (columns : list (TriggerColumn Payload)) (env : str → SqlValue)
  (new stored : Row) (old : option Row).
Hypothesis columns_ok : table_columns table options columns.
Hypothesis stores_ok : stores kind table columns env new stored old.

Lemma default_stored column r : column ∈ columns → steady table (name column) = true → default_substitution kind column = Some r →
  eval (runtime := trigger_runtime host (Some new) old) env r = Some (stored (name column)).
Proof.
  intros Hin Hst. unfold default_substitution. destruct kind; [|done]. destruct (guard_default column) as [d|] eqn:Ed; [|done]. intros [= <-].
  pose proof (stores_ok column Hin) as Hs. rewrite <- (steady_default _ _ _ column (columns_read _ _ _ columns_ok) Hin Hst), Ed in Hs.
  destruct (generated column) eqn:Eg; [by rewrite (generated_undefaulted _ _ _ column columns_ok Hin) in Ed; rewrite ?Eg|].
  destruct Hs as (v & Hv & ->). by apply (eval_guard_coalesce env new old column d v).
Qed.

Lemma plain_stored column : column ∈ columns → steady table (name column) = true → generated column = None → default_substitution kind column = None →
  new (name column) = stored (name column).
Proof.
  intros Hin Hst Hg Hd. pose proof (stores_ok column Hin) as Hs. rewrite Hg in Hs. unfold default_substitution in Hd.
  rewrite <- (steady_default _ _ _ column (columns_read _ _ _ columns_ok) Hin Hst) in Hs. destruct kind; [|done]. by destruct (guard_default column).
Qed.

Lemma plain_name_column n : n ∈ List.filter (steady table) (plain_names columns) →
  ∃ column, column ∈ columns ∧ name column = n ∧ generated column = None ∧ steady table (name column) = true.
Proof.
  intros [Hin Hst]%list_elem_of_In%filter_In. apply list_elem_of_In, list_elem_of_fmap in Hin as (column & -> & Hin).
  apply list_elem_of_In, filter_In in Hin as [Hin Hg]. exists column. split_and!; [by apply list_elem_of_In|done| |done]. unfold is_generated in Hg. by destruct (generated column).
Qed.

Lemma steady_name_column n : n ∈ steady_names table → ∃ column, column ∈ columns ∧ name column = n ∧ steady table (name column) = true.
Proof.
  intros [Hin Hst]%list_elem_of_In%filter_In. rewrite <- (columns_named _ _ _ (columns_read _ _ _ columns_ok)) in Hin.
  apply list_elem_of_In, name_in_columns in Hin as (column & Hc & <-). by exists column.
Qed.

Lemma steady_are_columns n : n ∈ steady_names table → n ∈ collect_column_names table.
Proof. intros [Hin _]%list_elem_of_In%filter_In. by apply list_elem_of_In. Qed.

Let defaults := omap (λ c, (λ r, (name c, r)) <$> default_substitution kind c) columns.

Lemma computed_stored column g : column ∈ columns → generated column = Some g →
  eval (runtime := trigger_runtime host (Some new) old) env
    (ENested (fold_guard (transform_expr transform_query g (Some (lit "NEW")) (Some (as_rename_tuple table options)) (lowercased table)) defaults))
  = Some (stored (name column)).
Proof.
  intros Hin Hg. pose proof (generated_from_plain _ _ _ columns_ok column g Hin Hg) as Ho.
  assert (Hsub : ∀ n, n ∈ List.filter (steady table) (plain_names columns) → n ∈ collect_column_names table).
  { intros n (c & Hc & <- & _)%plain_name_column. rewrite <- (columns_named _ _ _ (columns_read _ _ _ columns_ok)). apply list_elem_of_fmap. by exists c. }
  cbn [eval]. rewrite (fold_reads_stored host defaults env new stored old).
  - unfold as_rename_tuple, lowercased. rewrite (transform_reads_row transform_query host env g (Some (lit "NEW")) (table_name table) _ (List.filter (steady table) (plain_names columns)) (collect_column_names table) stored) by done.
    pose proof (stores_ok column Hin) as Hs. by rewrite Hg in Hs.
  - eapply Forall_impl; [apply (transform_row_references transform_query g _ _ _ (List.filter (steady table) (plain_names columns)) (collect_column_names table) Hsub Ho)|].
    intros node Hnode. destruct node; try done. destruct idents as [|p [|c []]]; try done. revert Hnode. cbn [row_reference reads_stored].
    intros (column' & Hc & Hn & Hg' & Hst)%plain_name_column _. rewrite <- Hn. subst defaults. rewrite find_column by (try done; apply columns_ok).
    destruct (default_substitution kind column') as [r|] eqn:Ed; cbn [fmap option_fmap option_map]; [by apply default_stored|by apply plain_stored].
Qed.

Lemma substitutions_read_stored e :
  Forall (own_columns (table_name table) (steady_names table)) (visited e) →
  Forall (reads_stored host (defaults ++ omap (λ c, (λ r, (name c, r)) <$>
      ((λ g, ENested (fold_guard (transform_expr transform_query g (Some (lit "NEW")) (Some (as_rename_tuple table options)) (lowercased table)) defaults)) <$> generated c)) columns)
    env new stored old)
    (visited (transform_expr transform_query e (Some (lit "NEW")) (Some (as_rename_tuple table options)) (lowercased table))).
Proof.
  intros Ho. eapply Forall_impl; [apply (transform_row_references transform_query e _ _ _ (steady_names table) (collect_column_names table) steady_are_columns Ho)|].
  intros node Hnode. destruct node; try done. destruct idents as [|p [|c []]]; try done. revert Hnode. cbn [row_reference reads_stored].
  intros (column & Hc & <- & Hst)%steady_name_column _. rewrite find_appended.
  unfold defaults. rewrite !find_column by (try done; apply columns_ok). destruct (default_substitution kind column) as [r|] eqn:Ed; cbn [fmap option_fmap option_map]; [by apply default_stored|].
  destruct (generated column) as [g|] eqn:Eg; cbn [fmap option_fmap option_map]; [by apply computed_stored|by apply plain_stored].
Qed.

(** C27 (a guard judges the stored row).  Take a condition over the columns of the row, of
    which none in minor units has a default.  Before translation, what the condition of a
    write trigger answers of the row the trigger is handed, where a column left out is
    NULL and a generated one not yet computed, is what the policy's own expression
    answers of the row as stored: with the defaults the forwarding write carries, and the
    generated columns computed from the rest. *)
Theorem guard_judges_stored_row e :
  Forall (own_columns (table_name table) (steady_names table)) (visited e) →
  eval (runtime := trigger_runtime host (Some new) old) env
    (fold_guard (transform_expr transform_query e (Some (lit "NEW")) (Some (as_rename_tuple table options)) (lowercased table))
       (guard_substitutions transform_query columns kind options table))
  = eval (runtime := table_runtime host (table_name table) stored) stored e.
Proof.
  intros Ho. rewrite guard_substitutions_split, (fold_reads_stored host _ env new stored old) by by apply substitutions_read_stored.
  unfold as_rename_tuple, lowercased.
  by rewrite (transform_reads_row transform_query host env e (Some (lit "NEW")) (table_name table) _ (steady_names table) (collect_column_names table) stored) by (done || apply steady_are_columns).
Qed.
End Stored.

(** ** A table

    [notes (id INTEGER PRIMARY KEY, owner TEXT, title TEXT DEFAULT 'untitled',
    twice INTEGER GENERATED ALWAYS AS (id + id))], whose owner is the [current_user], up to
    the hundredth. *)

Section Demo.
#[local] Existing Instances Operands.demo_display Operands.demo_visit Operands.demo_expr_display Operands.demo_lowerings.
#[local] Instance demo_unicode : Unicode := ascii_only.

Definition demo_column (name : string) (type : DataType ()) (default generated : option (Expr ())) : RlsColumn () :=
  {| rls_ident := Ident_new (lit name); rls_type := type; raw_default := default; generation_expr := generated |}.
Definition demo_id : Expr () := EIdentifier (Ident_new (lit "id")).
Definition demo_owned : Expr () :=
  EBinaryOp (EIdentifier (Ident_new (lit "owner"))) BEq (EFunction [Identifier (Ident_new (lit "current_user"))] NoArguments).
Definition demo_early : Expr () := EBinaryOp demo_id BLt (integer_literal 100).

Definition demo_policy (name : string) (type : CreatePolicyType) (predicate : Expr ()) : CreatePolicy () :=
  {| policy_name := lit name; policy_type := type; command := CommandAll; roles := []; using_expression := Some predicate; check_expression := None |}.
Definition demo_policies : list (CreatePolicy ()) := [demo_policy "mine" Permissive demo_owned; demo_policy "early" Restrictive demo_early].

Definition demo_table : RlsTable () := {|
  table_name := lit "notes";
  columns := [demo_column "id" (DataInteger None) None None; demo_column "owner" DataText None None;
              demo_column "title" DataText (Some (string_literal (lit "untitled"))) None;
              demo_column "twice" (DataInteger None) None (Some (EBinaryOp demo_id BPlus demo_id))];
  primary_key := [lit "id"]; policies := demo_policies |}.

Definition demo_rls_options : RlsOptions := {|
  rls_operands := {| session_options := {| session_variables := [current_user (lit "app_user")]; user_defined_functions := [] |};
                     uuid_function_name := lit "uuid"; uuid_v7_function_name := None; allows_subqueries := true |};
  rls_storage := {| uuid_representation := None; array_representation := None; uuid_text_to_blob_function_name := None |};
  rls_table_suffix := lit "_rls"; session_user_role := None; rls_audit_table_name := None; write_exemption_function := None;
  strict_rls_validation := false; strict_rls_write_deny := false |}.

Definition demo_columns : list (TriggerColumn ()) := match trigger_columns demo_table demo_rls_options with Ok columns => columns | Err _ => [] end.

Definition demo_host (name : str) (args : list SqlValue) : option SqlValue :=
  if str_eqb name (lit "app_user") then Some (SqlText (lit "ann")) else None.

Definition demo_row (id : Z) (owner : string) (title : SqlValue) : Row :=
  bind_columns [(lit "id", SqlInt id); (lit "owner", SqlText (lit owner)); (lit "title", title); (lit "twice", SqlInt (id + id))] (λ _, SqlNull).

Lemma demo_table_columns : table_columns demo_table demo_rls_options demo_columns.
Proof.
  split.
  - vm_compute; reflexivity.
  - apply (bool_decide_unpack _). vm_compute. exact I.
  - intros c Hin. repeat (apply elem_of_cons in Hin as [->|Hin]; [done|]). by apply elem_of_nil in Hin.
  - intros column g Hin. change demo_columns with (ltac:(let c := eval vm_compute in demo_columns in exact c)) in Hin.
    repeat (apply elem_of_cons in Hin as [->|Hin]; [try done|]); [|by apply elem_of_nil in Hin].
    intros [= <-]. vm_compute. repeat constructor.
Qed.

(** A translator that knows the session: [current_user] is the application's
    [app_user]. *)
Definition demo_session (e : Expr ()) : Expr () :=
  match e with
  | EFunction [Identifier ident] NoArguments => if str_eqb (value ident) (lit "current_user") then simple_function_expr (lit "app_user") [] else e
  | _ => e
  end.
Definition demo_resolve (e : Expr ()) : result Error (Expr ()) := Ok (visit_mut demo_session e).

(** Each of the two policies of the row it is about. *)
Definition demo_verdict (row : Row) (policy : CreatePolicy ()) : bool :=
  if str_eqb (policy_name policy) (lit "mine") then bool_decide (row (lit "owner") = SqlText (lit "ann"))
  else match row (lit "id") with SqlInt id => id <? 100 | _ => false end.

Lemma policies_combine_witness :
  let row := demo_row 7 "ann" SqlNull in
  ∃ predicate, combine_predicates demo_resolve demo_policies Using = Ok predicate
    ∧ lets_through (runtime := table_runtime demo_host (lit "notes") row) row predicate = Some (enforced_rule Using (demo_verdict row) demo_policies)
    ∧ (unqualified Using demo_policies = false → enforced_rule Using (demo_verdict row) demo_policies = postgres_rule Using (demo_verdict row) demo_policies)
    ∧ (unqualified Using demo_policies = true → postgres_rule Using (demo_verdict row) demo_policies = false
         ∧ enforced_rule Using (demo_verdict row) demo_policies
           = forallb (λ policy, is_permissive policy || negb (predicated Using policy) || demo_verdict row policy) demo_policies).
Proof.
  cbv zeta. apply (policies_combine (runtime := table_runtime demo_host (lit "notes") (demo_row 7 "ann" SqlNull))).
  intros policy e Hin He. eexists. split; [reflexivity|]. apply elem_of_cons in Hin as [->|Hin]; [|apply elem_of_cons in Hin as [->|Hin]; [|by apply elem_of_nil in Hin]];
    injection He as <-; vm_compute; reflexivity.
Defined.

(** [FOR ALL WITH CHECK (...)] without USING: the view shows every row. *)
Example unqualified_policy_grants :
  combine_predicates demo_resolve
    [{| policy_name := lit "mine"; policy_type := Permissive; command := CommandAll; roles := []; using_expression := None; check_expression := Some demo_owned |}] Using
  = Ok AllowAll.
Proof. reflexivity. Qed.

(** The caller left the title out. *)
Lemma guard_judges_stored_row_witness :
  let new := demo_row 7 "ann" SqlNull in
  let stored := demo_row 7 "ann" (SqlText (lit "untitled")) in
  let titled : Expr () := EBinaryOp (EIdentifier (Ident_new (lit "title"))) BEq (string_literal (lit "untitled")) in
  eval (runtime := trigger_runtime demo_host (Some new) None) (λ _, SqlNull)
    (fold_guard (transform_expr (λ _ q, q) titled (Some (lit "NEW")) (Some (as_rename_tuple demo_table demo_rls_options)) (lowercased demo_table))
       (guard_substitutions (λ _ q, q) demo_columns GuardInsert demo_rls_options demo_table))
  = eval (runtime := table_runtime demo_host (table_name demo_table) stored) stored titled.
Proof.
  cbv zeta. apply guard_judges_stored_row; [exact demo_table_columns| |].
  - intros column Hin. change demo_columns with (ltac:(let c := eval vm_compute in demo_columns in exact c)) in Hin.
    repeat (apply elem_of_cons in Hin as [->|Hin]; [vm_compute; try reflexivity; by eexists|]). by apply elem_of_nil in Hin.
  - vm_compute. repeat constructor.
Defined.
End Demo.
