(* ===== verification/Backing.v ===== *)
(** * The backing table under its triggers

    A machine that runs what [Rls] generates over the rows of the backing table, and
    what the policies let a client do through it.

    The rows of the backing table in order; a statement of the client against the view
    runs the body of the [INSTEAD OF] trigger once per row, with [NEW] and [OLD].  A
    write of the body to the backing table fires the guards first.  [complete] is what
    SQLite computes the generated columns of a row by. *)

From S2P Require Import Prelude Text Errors Ast Exprs ExprWalk Names SqliteEval DataTypes SessionVariable Operands Rls Enforcement.


Inductive Outcome := Ran (rows : list Row) | Aborted (message : str) | Ignored (rows : list Row).

Definition no_columns (_ : str) : SqlValue := SqlNull.

Section Machine.
Context {Payload : Type} (host : str → list SqlValue → option SqlValue) (inner : str) (complete : Row → Row).
Implicit Types (triggers : list (RlsTrigger Payload)) (rows : list Row) (new old : option Row).

Definition condition_holds {runtime : Runtime} (condition : option (Expr Payload)) : option bool :=
  match condition with None => Some true | Some e => truth no_columns e end.

(** The message a guard aborts with; the guards have no other body. *)
Definition guard_message (guard : RlsTrigger Payload) : option str :=
  match body guard with
  | [Raise action (Some message) None] => if str_eqb action (lit "ABORT") then Some message else None
  | _ => None
  end.

Fixpoint run_guards {runtime : Runtime} triggers : option (option str) :=
  match triggers with
  | [] => Some None
  | guard :: guards => fires ← condition_holds (condition guard); if fires : bool then Some <$> guard_message guard else run_guards guards
  end.

Definition assign (assignments : list (str * SqlValue)) (row : Row) : Row := bind_columns assignments row.

Record Guards := { on_insert : list (RlsTrigger Payload); on_update : list (RlsTrigger Payload); on_delete : list (RlsTrigger Payload) }.

Definition evaluate_all {runtime : Runtime} (env : Row) (values : list (Expr Payload)) : option (list SqlValue) := mapM (eval env) values.

Fixpoint update_rows (guards : Guards) new old (assignments : list (str * Expr Payload)) (selection : Expr Payload) rows : option (str + list Row) :=
  match rows with
  | [] => Some (inr [])
  | row :: rows =>
      selected ← truth (runtime := trigger_runtime host new old) row selection;
      if selected : bool then
        values ← evaluate_all (runtime := trigger_runtime host new old) row (map snd assignments);
        let row' := complete (assign (zip (map fst assignments) values) row) in
        refused ← run_guards (runtime := trigger_runtime host (Some row') (Some row)) (on_update guards);
        match refused with
        | Some message => Some (inl message)
        | None => rest ← update_rows guards new old assignments selection rows; Some (match rest with inl m => inl m | inr rest => inr (row' :: rest) end)
        end
      else rest ← update_rows guards new old assignments selection rows; Some (match rest with inl m => inl m | inr rest => inr (row :: rest) end)
  end.

Fixpoint delete_rows (guards : Guards) new old (selection : Expr Payload) rows : option (str + list Row) :=
  match rows with
  | [] => Some (inr [])
  | row :: rows =>
      selected ← truth (runtime := trigger_runtime host new old) row selection;
      if selected : bool then
        refused ← run_guards (runtime := trigger_runtime host None (Some row)) (on_delete guards);
        match refused with
        | Some message => Some (inl message)
        | None => delete_rows guards new old selection rows
        end
      else rest ← delete_rows guards new old selection rows; Some (match rest with inl m => inl m | inr rest => inr (row :: rest) end)
  end.

Definition outcome_of (answer : str + list Row) : Outcome := match answer with inl message => Aborted message | inr rows => Ran rows end.

Definition run_statement (guards : Guards) new old rows (statement : BodyStatement Payload) : option Outcome :=
  match statement with
  | Raise action message selection =>
      raised ← condition_holds (runtime := trigger_runtime host new old) selection;
      Some (if raised : bool then if str_eqb action (lit "ABORT") then Aborted (default [] message) else Ignored rows else Ran rows)
  | SelectNull => Some (Ran rows)
  | InsertValues table target_columns values =>
      if negb (str_eqb table inner) then None
      else
        values ← evaluate_all (runtime := trigger_runtime host new old) no_columns values;
        let row := complete (assign (zip target_columns values) no_columns) in
        refused ← run_guards (runtime := trigger_runtime host (Some row) None) (on_insert guards);
        Some match refused with Some message => Aborted message | None => Ran (rows ++ [row]) end
  | UpdateRows table assignments selection =>
      if negb (str_eqb table inner) then None else outcome_of <$> update_rows guards new old assignments selection rows
  | DeleteRows table selection =>
      if negb (str_eqb table inner) then None else outcome_of <$> delete_rows guards new old selection rows
  | InsertWhere _ _ _ _ => None
  end.

Fixpoint run_body (guards : Guards) new old rows (body : list (BodyStatement Payload)) : option Outcome :=
  match body with
  | [] => Some (Ran rows)
  | statement :: body =>
      outcome ← run_statement guards new old rows statement;
      match outcome with Ran rows => run_body guards new old rows body | stopped => Some stopped end
  end.

(** The rows a view over the backing table shows. *)
Fixpoint view_rows `{Unicode} (selection : option (Expr Payload)) rows : option (list Row) :=
  match rows with
  | [] => Some []
  | row :: rows =>
      keep ← match selection with None => Some true | Some e => truth (runtime := table_runtime host inner row) row e end;
      rest ← view_rows selection rows; Some (if keep : bool then row :: rest else rest)
  end.

(** *** Conditions under the exemption *)

(** The application exempts its own writer by the function the options name. *)
Definition exemption (options : RlsOptions) (exempt : bool) : Prop :=
  match write_exemption_expr options with
  | None => exempt = false
  | Some call => ∀ new old env, truth (Payload := Payload) (runtime := trigger_runtime host new old) env call = Some exempt
  end.

Lemma guard_condition_holds new old options exempt (violation : option (Expr Payload)) v :
  exemption options exempt →
  match violation with None => v = true | Some e => truth (runtime := trigger_runtime host new old) no_columns e = Some v end →
  condition_holds (runtime := trigger_runtime host new old) (write_guard_condition_expr violation options) = Some (negb exempt && v).
Proof.
  unfold exemption, write_guard_condition_expr. destruct (write_exemption_expr options) as [call|]; cbn [fmap option_fmap option_map].
  - intros He Hv. assert (Hn : truth (runtime := trigger_runtime host new old) no_columns (EIsNotTrue (ENested call)) = Some (negb exempt)).
    { by rewrite truth_is_not_true, truth_nested, He. }
    destruct violation as [e|]; cbn [condition_holds]; [by apply truth_and|]. by rewrite Hv, andb_true_r.
  - intros -> Hv. destruct violation; cbn [condition_holds negb andb]; [done|by rewrite Hv].
Qed.

Lemma run_raise (guards : Guards) new old rows message options exempt violation v rest :
  exemption options exempt →
  match violation with None => v = true | Some e => truth (runtime := trigger_runtime host new old) no_columns e = Some v end →
  run_body guards new old rows (abort_on message violation options :: rest)
  = if negb exempt && v then Some (Aborted message) else run_body guards new old rows rest.
Proof.
  intros He Hv. unfold abort_on. cbn [run_body run_statement]. rewrite (guard_condition_holds new old options exempt violation v He Hv). cbn [mbind option_bind].
  by destruct (negb exempt && v).
Qed.

(** What the statements that refuse a value for a generated column look at: a value
    supplied, or, in an update, one that is not the old one. *)
Definition supplies (kind : GuardKind) (new old : Row) (column : TriggerColumn Payload) : option bool :=
  match kind with
  | GuardInsert => Some (negb (bool_decide (new (name column) = SqlNull)))
  | GuardUpdate => negb <$> sql_same (new (name column)) (old (name column))
  end.

Definition supplied (kind : GuardKind) (columns : list (TriggerColumn Payload)) (new old : Row) : bool :=
  existsb (λ column, is_generated column && default false (supplies kind new old column)) columns.

Definition comparable (kind : GuardKind) (columns : list (TriggerColumn Payload)) (new old : Row) : Prop :=
  Forall (λ column, is_generated column = true → is_Some (supplies kind new old column)) columns.

Lemma run_computed (guards : Guards) (new : Row) (old_row : option Row) (old : Row) rows kind columns table_name rest :
  match kind with GuardInsert => True | GuardUpdate => old_row = Some old end →
  comparable kind columns new old →
  ∃ message, run_body guards (Some new) old_row rows (refuse_computed_write_statements columns table_name kind ++ rest)
    = if supplied kind columns new old then Some (Aborted message) else run_body guards (Some new) old_row rows rest.
Proof.
  intros Hold. unfold refuse_computed_write_statements, supplied. induction 1 as [|column columns Hc _ IH]; [by exists []|]. cbn [List.filter existsb].
  destruct (is_generated column); [|exact IH]. destruct (Hc eq_refl) as [b Hb]. destruct IH as [message IH]. rewrite Hb. cbn [map app run_body run_statement condition_holds default andb].
  assert (Ht : truth (Payload := Payload) (runtime := trigger_runtime host (Some new) old_row) no_columns
    match kind with
    | GuardInsert => EIsNotNull (prefixed_column_expr (lit "NEW") (name column))
    | GuardUpdate => EIsDistinctFrom (prefixed_column_expr (lit "NEW") (name column)) (prefixed_column_expr (lit "OLD") (name column))
    end = Some b).
  { unfold truth, prefixed_column_expr. pose proof (value_quoted_ident (name column)) as Hn.
    destruct kind; cbn [supplies] in Hb.
    - cbn [eval named_row trigger_runtime Ident_new value]. rewrite Hn. injection Hb as <-. change (eq_ignore_ascii_case (lit "NEW") (lit "NEW")) with true. cbn. by destruct (bool_decide _).
    - subst old_row. cbn [eval named_row trigger_runtime Ident_new value]. rewrite Hn. change (eq_ignore_ascii_case (lit "NEW") (lit "NEW")) with true.
      change (eq_ignore_ascii_case (lit "OLD") (lit "NEW")) with false. change (eq_ignore_ascii_case (lit "OLD") (lit "OLD")) with true. cbn.
      destruct (sql_same _ _) as [c|]; [|done]. injection Hb as <-. by destruct c. }
  rewrite Ht. cbn [mbind option_bind]. destruct b; cbn [orb]; [by eexists|by exists message].
Qed.
End Machine.

(** ** Policies over a row *)

Section Granted.
Context {Payload : Type} `{TypeDisplay Payload, PayloadVisit Payload, ExprDisplay Payload, Lowerings Payload, Unicode}
  (transform_query : ColumnRefStrategy → Query Payload → Query Payload) (translate translate_value : Expr Payload → result Error (Expr Payload))
  (host : str → list SqlValue → option SqlValue) (table : RlsTable Payload) (options : RlsOptions) (columns : list (TriggerColumn Payload)).
Implicit Types (ps : list (CreatePolicy Payload)) (clause : PolicyClause) (row new stored : Row) (old : option Row) (verdict : CreatePolicy Payload → bool).

(** What the predicates of the policies say where the generated statements evaluate them,
    whatever the translator made of them: of the old row in a trigger, ... *)
Definition old_answers (new : option Row) row verdict ps : Prop :=
  ∀ env, answers (runtime := trigger_runtime host new (Some row)) env (resolve_predicate transform_query translate (Some (lit "OLD")) [] options table) Using verdict ps.

(** ... of the new row as the trigger is handed it, its columns replaced by their
    defaults and computed expressions, ... *)
Definition new_answers kind new old verdict ps : Prop :=
  answers (runtime := trigger_runtime host (Some new) old) no_columns
    (resolve_predicate transform_query translate (Some (lit "NEW")) (guard_substitutions transform_query columns kind options table) options table) WithCheck verdict ps.

(** ... and of a row of the backing table in the view. *)
Definition view_answers row verdict ps : Prop :=
  answers (runtime := table_runtime host (inner_table_name table options) row) row (resolve_predicate transform_query translate None [] options table) Using verdict ps.

Lemma lets_answer {runtime : Runtime} env resolve clause verdict ps predicate :
  answers env resolve clause verdict ps → combine_predicates resolve ps clause = Ok predicate → lets_through env predicate = Some (enforced_rule clause verdict ps).
Proof. intros Ha Hc. destruct (combined_lets_through env resolve clause verdict ps Ha) as (p & Hp & Hl). rewrite Hc in Hp. by injection Hp as <-. Qed.

(** *** Guards *)

Context (complete : Row → Row) (exempt : bool).
Hypothesis exempted : exemption (Payload := Payload) host options exempt.

Let run_body := run_body (Payload := Payload) host (inner_table_name table options) complete.

(** What a trigger's body opens with to enforce a predicate. *)
Definition enforced (message : str) (predicate : PolicyPredicate Payload) : list (BodyStatement Payload) :=
  match predicate with
  | DenyAll => [abort_on message None options]
  | AllowAll => []
  | Predicate predicate => [abort_on message (Some (policy_violation predicate)) options]
  end.

Lemma run_enforced guards (new old : option Row) rows message predicate granted rest :
  lets_through (runtime := trigger_runtime host new old) no_columns predicate = Some granted →
  run_body guards new old rows (enforced message predicate ++ rest)
  = if negb exempt && negb granted then Some (Aborted message) else run_body guards new old rows rest.
Proof.
  destruct predicate as [| |e]; cbn [lets_through enforced app]; [intros [= <-]|intros [= <-]; by rewrite andb_false_r|intros Ht].
  - by apply (run_raise host _ complete guards new old rows message options exempt None true rest).
  - apply (run_raise host _ complete guards new old rows message options exempt (Some (policy_violation e)) (negb granted) rest); [done|]. by rewrite truth_violation, Ht.
Qed.

(** A guard of the backing table. *)
Lemma run_check (new old : option Row) trigger_name table_name event violation message v :
  match violation with None => v = true | Some e => truth (runtime := trigger_runtime host new old) no_columns e = Some v end →
  run_guards (runtime := trigger_runtime host new old) [backing_abort_trigger trigger_name table_name event (write_guard_condition_expr (Payload := Payload) violation options) message]
  = Some (if negb exempt && v then Some message else None).
Proof.
  intros Hv. unfold run_guards. cbn [Rls.condition backing_abort_trigger]. rewrite (guard_condition_holds host new old options exempt violation v exempted Hv).
  cbn. by destruct (negb exempt && v).
Qed.

Definition option_list {A} (o : option A) : list A := match o with Some a => [a] | None => [] end.

(** *** Writes nothing grants *)

(** The client sees the rows unchanged. *)
Definition leaves (outcome : Outcome) rows : Prop :=
  match outcome with Ran rows' | Ignored rows' => rows' = rows | Aborted _ => True end.

Lemma exemption_holds call (new old : option Row) env : write_exemption_expr options = Some call →
  truth (Payload := Payload) (runtime := trigger_runtime host new old) env call = Some exempt.
Proof. intros E. pose proof exempted as He. unfold exemption in He. rewrite E in He. apply He. Qed.

Lemma run_denied guards (new old : option Row) rows what name forwarded :
  if exempt then run_body guards new old rows (denied_body what name options forwarded) = run_body guards new old rows forwarded
  else ∃ outcome, run_body guards new old rows (denied_body what name options forwarded) = Some outcome ∧ leaves outcome rows.
Proof.
  unfold denied_body. destruct (strict_rls_write_deny options).
  - unfold run_body. rewrite (run_raise host _ complete guards new old rows _ options exempt None true) by done. destruct exempt; [done|by eexists].
  - destruct (write_exemption_expr options) as [call|] eqn:E; cbn [ignored_write_body is_some app].
    + unfold run_body. cbn [Backing.run_body run_statement condition_holds]. rewrite truth_is_not_true, truth_nested, (exemption_holds call) by done. cbn. destruct exempt; [done|by eexists].
    + pose proof exempted as He. unfold exemption in He. rewrite E in He. rewrite He. by exists (Ran rows).
Qed.

(** *** Rows a statement selects *)

(** The rows the trigger's statement reaches: those with the key of the row the client
    named, where the policies or the exemption let it. *)
Lemma selection_truth (new old : option Row) row (identity : Expr Payload) picked (usable : PolicyPredicate Payload) granted denies :
  truth (runtime := trigger_runtime host new old) row identity = Some picked →
  (if denies : bool then granted = false ∧ is_some (write_exemption_expr (Payload := Payload) options) = true
   else is_deny_all usable = false ∧ lets_through (runtime := trigger_runtime host new old) row usable = Some granted) →
  truth (runtime := trigger_runtime host new old) row (generated_row_filter identity (authorization_of denies usable options)) = Some (picked && (exempt || granted)).
Proof.
  intros Hi Ha. unfold authorization_of. destruct denies.
  - destruct Ha as [-> Hc]. destruct (write_exemption_expr options) as [call|] eqn:E; [|done]. cbn [fmap option_fmap option_map generated_row_filter]. rewrite orb_false_r.
    apply truth_and; [done|]. by rewrite truth_nested, truth_is_true, truth_nested, (exemption_holds call).
  - destruct Ha as [Hd Ha]. destruct usable as [| |e]; [done| |]; cbn [lets_through generated_row_filter] in *.
    + injection Ha as <-. by rewrite orb_true_r, andb_true_r.
    + apply truth_and; [done|]. rewrite truth_nested. unfold policy_or_exemption_expr. destruct (write_exemption_expr options) as [call|] eqn:E.
      * apply truth_or; [|done]. by rewrite truth_is_true, truth_nested, (exemption_holds call).
      * pose proof exempted as He. unfold exemption in He. rewrite E in He. by rewrite He.
Qed.

Lemma delete_selected (guards : Guards) (new old : option Row) rows (selection : Expr Payload) (selected : Row → bool) :
  Forall (λ row, truth (runtime := trigger_runtime host new old) row selection = Some (selected row)
    ∧ (selected row = true → run_guards (runtime := trigger_runtime host None (Some row)) (on_delete guards) = Some None)) rows →
  delete_rows (Payload := Payload) host guards new old selection rows = Some (inr (List.filter (λ row, negb (selected row)) rows)).
Proof.
  induction 1 as [|row rows [Ht Hg] _ IH]; [done|]. cbn [delete_rows]. rewrite Ht. cbn [mbind option_bind List.filter].
  destruct (selected row); cbn [negb]; [rewrite Hg by done; cbn; by rewrite IH|]. rewrite IH. done.
Qed.

(** Every row selected is refused, or none is. *)
Lemma update_selected (guards : Guards) (new old : option Row) rows (assignments : list (str * Expr Payload)) (selection : Expr Payload) (selected : Row → bool) values (updated : Row → Row) refused :
  Forall (λ row, truth (runtime := trigger_runtime host new old) row selection = Some (selected row)
    ∧ (selected row = true →
        evaluate_all (runtime := trigger_runtime host new old) row (map snd assignments) = Some values
        ∧ updated row = complete (assign (zip (map fst assignments) values) row)
        ∧ run_guards (runtime := trigger_runtime host (Some (updated row)) (Some row)) (on_update guards) = Some refused)) rows →
  update_rows (Payload := Payload) host complete guards new old assignments selection rows
  = Some match refused with
         | Some message => if existsb selected rows then inl message else inr rows
         | None => inr (map (λ row, if selected row then updated row else row) rows)
         end.
Proof.
  induction 1 as [|row rows [Ht Hg] _ IH]; [by destruct refused|]. cbn [update_rows map existsb]. rewrite Ht. cbn [mbind option_bind].
  destruct (selected row); cbn [orb].
  - destruct (Hg eq_refl) as (Hv & Hu & Hr). rewrite Hv. cbn [mbind option_bind]. rewrite <- Hu, Hr. cbn [mbind option_bind].
    destruct refused; [done|]. by rewrite IH.
  - rewrite IH. cbn [mbind option_bind]. destruct refused as [message|]; [|done]. by destruct (existsb selected rows).
Qed.

(** *** The values a write carries *)

Definition written : list (TriggerColumn Payload) := List.filter (λ column, negb (is_generated column)) columns.

Hypothesis columns_read : trigger_columns table options = Ok columns.

(** The row an insertion stores: what the translated values evaluate to, column by
    column, and what SQLite computes of them. *)
Definition forwarded new (old : option Row) (values : list SqlValue) : Prop :=
  ∃ exprs, mapM (λ column, translate_value (forwarded_value column)) written = Ok exprs
    ∧ evaluate_all (runtime := trigger_runtime host (Some new) old) no_columns exprs = Some values.

Definition inserted (values : list SqlValue) : Row := complete (assign (zip (map name written) values) no_columns).

(** *** Insertions *)

Lemma insert_guard_columns ps cols using' check :
  build_write_guard transform_query translate ps GuardInsert table options = Ok (cols, using', check) →
  cols = columns ∧ combine_policy_predicates transform_query translate ps WithCheck (Some (lit "NEW")) (guard_substitutions transform_query columns GuardInsert options table) options table = Ok check.
Proof.
  unfold build_write_guard. rewrite columns_read. intros Hb. cbn [mbind result_bind] in Hb.
  apply bind_Ok in Hb as ([] & _ & Hb). apply bind_Ok in Hb as ([] & _ & Hb). apply bind_Ok in Hb as (c & Hc & Hb). by injection Hb as <- _ <-.
Qed.

Lemma insert_check_runs ps check stored old verdict :
  filter_policies table [CommandInsert] options = Ok ps →
  generate_insert_check_trigger_sql transform_query translate table options = Ok check →
  new_answers GuardInsert stored old verdict ps →
  ∃ message, run_guards (runtime := trigger_runtime host (Some stored) old) (option_list check)
    = Some (if negb exempt && negb (enforced_rule WithCheck verdict ps) then Some message else None).
Proof.
  intros Hp Hg Ha. unfold generate_insert_check_trigger_sql in Hg. rewrite Hp in Hg. cbn [mbind result_bind] in Hg. destruct ps as [|p ps].
  { injection Hg as <-. eexists. cbn [option_list]. by rewrite (run_check _ _ _ _ _ None _ true). }
  apply bind_Ok in Hg as ([[cols using'] chk] & Hb & Hg). destruct (insert_guard_columns _ _ _ _ Hb) as [_ Hc].
  pose proof (lets_answer _ _ _ _ _ _ Ha Hc) as Hl. injection Hg as <-. destruct chk as [| |e]; cbn [lets_through] in Hl; cbn [option_list].
  - injection Hl as <-. eexists. by rewrite (run_check _ _ _ _ _ None _ true).
  - injection Hl as <-. exists []. by rewrite andb_false_r.
  - eexists. rewrite (run_check _ _ _ _ _ (Some (policy_violation e)) _ (negb (enforced_rule WithCheck verdict (p :: ps)))); [done|]. by rewrite truth_violation, Hl.
Qed.

Lemma insert_values_run guards new old rows values check_message refused stored vs :
  evaluate_all (runtime := trigger_runtime host (Some new) old) no_columns values = Some vs →
  stored = complete (assign (zip (map name written) vs) no_columns) →
  run_guards (runtime := trigger_runtime host (Some stored) None) (on_insert guards) = Some (if refused : bool then Some check_message else None) →
  run_body guards (Some new) old rows [InsertValues (inner_table_name table options) (map name written) values]
  = Some (if refused then Aborted check_message else Ran (rows ++ [stored])).
Proof.
  intros Hv -> Hg. unfold run_body. cbn [Backing.run_body run_statement]. rewrite str_eqb_refl. cbn [negb]. rewrite Hv. cbn [mbind option_bind]. rewrite Hg. cbn.
  by destruct refused.
Qed.

Lemma comparable_insert new : comparable GuardInsert columns new new.
Proof. apply Forall_true. by eexists. Qed.

(** C1 (an insertion stores what is granted).  An insertion through the view of a table
    with policies appends one row, made of what the forwarded values evaluate to and the
    columns SQLite computes of them.  It does so exactly when no value was supplied for a
    generated column and either the writer is exempt or the policies of INSERT let the
    row through twice: as the view's trigger is handed it and, at the backing table, as
    it is stored.  Otherwise it aborts.  What the policies let through is [enforced_rule]
    of what the translated predicates answer: PostgreSQL's rule, but for a table whose
    permissive policies all lack a predicate for the clause. *)
Theorem insertion_enforced ps trigger check new values rows verdict verdict' :
  filter_policies table [CommandInsert] options = Ok ps →
  generate_insert_trigger_sql transform_query translate translate_value table options = Ok trigger →
  generate_insert_check_trigger_sql transform_query translate table options = Ok check →
  forwarded new None values →
  new_answers GuardInsert new None verdict ps → new_answers GuardInsert (inserted values) None verdict' ps →
  ∃ message,
    run_body {| on_insert := option_list check; on_update := []; on_delete := [] |} (Some new) None rows (body trigger)
    = Some (if (exempt || (enforced_rule WithCheck verdict ps && enforced_rule WithCheck verdict' ps)) && negb (supplied GuardInsert columns new new)
            then Ran (rows ++ [inserted values]) else Aborted message).
Proof.
  intros Hp Ht Hc (exprs & Hx & Hv) Ha Ha'. unfold generate_insert_trigger_sql in Ht. rewrite Hp in Ht. cbn [mbind result_bind] in Ht.
  apply bind_Ok in Ht as ([[cols using'] chk] & Hb & Ht). destruct (insert_guard_columns _ _ _ _ Hb) as [-> Hcomb]. fold written in Ht. rewrite Hx in Ht. injection Ht as <-. cbn [body].
  pose proof (lets_answer _ _ _ _ _ _ Ha Hcomb) as Hl. destruct (insert_check_runs ps check (inserted values) None verdict' Hp Hc Ha') as [check_message Hg].
  set (guards := Build_Guards _ _ _). destruct (run_computed host (inner_table_name table options) complete guards new None new rows GuardInsert columns (table_name table)
    [InsertValues (inner_table_name table options) (map name written) exprs] I (comparable_insert new)) as [computed_message Hr].
  change (Backing.run_body host (inner_table_name table options) complete) with run_body in Hr.
  rewrite (insert_values_run guards new None rows exprs check_message _ (inserted values) values Hv eq_refl Hg) in Hr.
  assert (Hguard : ∃ message, ∀ rest, run_body guards (Some new) None rows
    (match ps with [] => [abort_on (permission_denied "INSERT" (table_name table)) None options] | _ => enforced RLS_VIOLATION_ERROR chk end ++ rest)
    = if negb exempt && negb (enforced_rule WithCheck verdict ps) then Some (Aborted message) else run_body guards (Some new) None rows rest).
  { destruct ps; [exists (permission_denied "INSERT" (table_name table)); intros; by apply (run_enforced _ _ _ _ _ DenyAll false)|].
    eexists. intros. by apply run_enforced. }
  destruct Hguard as [guard_message Hguard].
  exists (if negb exempt && negb (enforced_rule WithCheck verdict ps) then guard_message else if supplied GuardInsert columns new new then computed_message else check_message).
  etransitivity; [exact (Hguard _)|].
  destruct (negb exempt && negb (enforced_rule WithCheck verdict ps)) eqn:E1; [by destruct exempt, (enforced_rule WithCheck verdict ps)|]. etransitivity; [exact Hr|].
  destruct (supplied _ _ _ _), exempt, (enforced_rule WithCheck verdict ps), (enforced_rule WithCheck verdict' ps); try done.
Qed.

(** *** Deletions *)

(** The key of the row the client named picks it out. *)
Definition keyed (new : option Row) row (identity : Expr Payload) (picks : Row → bool) rows : Prop :=
  Forall (λ row', truth (runtime := trigger_runtime host new (Some row)) row' identity = Some (picks row') ∧ (picks row' = true → row' = row)) rows.

(** With nothing that grants, the policies let nothing through. *)
Lemma denied_grants_nothing ps usable prefix substitutions verdict :
  combine_policy_predicates transform_query translate ps Using prefix substitutions options table = Ok usable →
  negb (is_some (head ps)) || is_deny_all usable = true → enforced_rule Using verdict ps = false.
Proof.
  intros Hc Hd. apply enforced_denies. unfold combine_policy_predicates in Hc. rewrite (combine_denies _ _ _ _ Hc) in Hd. destruct ps; [done|]. by destruct (existsb _ _).
Qed.

Lemma delete_check_runs ps check row verdict :
  filter_policies table [CommandDelete] options = Ok ps →
  generate_delete_check_trigger_sql transform_query translate table options = Ok check → old_answers None row verdict ps →
  exempt || enforced_rule Using verdict ps = true →
  run_guards (runtime := trigger_runtime host None (Some row)) (option_list check) = Some None.
Proof.
  intros Hp Hg Ha Hok. unfold generate_delete_check_trigger_sql in Hg. destruct (write_exemption_function options); [|by injection Hg as <-].
  rewrite Hp in Hg. cbn [mbind result_bind] in Hg. destruct ps as [|p ps].
  { injection Hg as <-. cbn [option_list]. rewrite (run_check _ _ _ _ _ None _ true) by done. by destruct exempt. }
  apply bind_Ok in Hg as (usable & Hc & Hg). pose proof (lets_answer _ _ _ _ _ _ (Ha no_columns) Hc) as Hl. injection Hg as <-.
  destruct usable as [| |e]; cbn [lets_through] in Hl; cbn [option_list]; [|done|].
  - injection Hl as Hl. rewrite (run_check _ _ _ _ _ None _ true) by done. rewrite <- Hl in Hok. by destruct exempt.
  - rewrite (run_check _ _ _ _ _ (Some (policy_violation e)) _ (negb (enforced_rule Using verdict (p :: ps)))) by by rewrite truth_violation, Hl.
    by destruct exempt, (enforced_rule Using verdict (p :: ps)).
Qed.

(** C28 (a deletion removes what is granted).  A deletion through the view of a table with
    policies removes the row the client named, by its key, when the writer is exempt or
    the policies of DELETE let it reach that row, and otherwise leaves every row as it
    is, where the denial may also be reported.  What they let it reach is
    [enforced_rule] of what the translated predicates answer: PostgreSQL's rule, but for
    a table whose permissive policies all lack a USING, which let every row be removed. *)
Theorem deletion_enforced ps trigger check identity picks row rows verdict :
  filter_policies table [CommandDelete] options = Ok ps →
  generate_delete_trigger_sql transform_query translate table options = Ok (Some trigger) →
  generate_delete_check_trigger_sql transform_query translate table options = Ok check →
  build_row_identity_clause (collect_column_names table) (primary_key table) = Some identity →
  keyed None row identity picks rows → old_answers None row verdict ps →
  ∃ outcome, run_body {| on_insert := []; on_update := []; on_delete := option_list check |} None (Some row) rows (body trigger) = Some outcome ∧
    if exempt || enforced_rule Using verdict ps then outcome = Ran (List.filter (λ row, negb (picks row)) rows) else leaves outcome rows.
Proof.
  intros Hp Ht Hc Hi Hk Ha. unfold generate_delete_trigger_sql in Ht. rewrite Hp in Ht. cbn [mbind result_bind] in Ht.
  apply bind_Ok in Ht as (usable & Hu & Ht). rewrite Hi in Ht. injection Ht as <-. cbn [body].
  set (denies := negb (is_some (head ps)) || is_deny_all usable). set (guards := Build_Guards _ _ _). set (reached := enforced_rule Using verdict ps) in *.
  pose proof (delete_check_runs ps check row verdict Hp Hc Ha) as Hg. fold reached in Hg.
  assert (Hforward : (denies = true → is_some (write_exemption_expr (Payload := Payload) options) = true) →
    run_body guards None (Some row) rows [DeleteRows (inner_table_name table options) (generated_row_filter identity (authorization_of denies usable options))]
    = Some (Ran (List.filter (λ row', negb (picks row' && (exempt || reached))) rows))).
  { intros Hcall. unfold run_body. cbn [Backing.run_body run_statement]. rewrite str_eqb_refl. cbn [negb].
    rewrite (delete_selected guards None (Some row) rows _ (λ row', picks row' && (exempt || reached))); [done|].
    eapply Forall_impl; [exact Hk|]. intros row' [Hrow Hsame]. split.
    - apply selection_truth; [done|]. destruct denies eqn:Ed; [split; [|by apply Hcall]; by apply (denied_grants_nothing _ usable _ _ _ Hu)|].
      unfold denies in Ed. bools. split; [done|]. by apply (lets_answer _ _ _ _ _ _ (Ha row') Hu).
    - intros [Hpick Hok]%andb_true_iff. rewrite (Hsame Hpick). by apply Hg. }
  destruct denies eqn:Ed.
  - assert (reached = false) as Hn by (by apply (denied_grants_nothing _ usable _ _ _ Hu)). rewrite Hn in *. rewrite orb_false_r.
    pose proof (run_denied guards None (Some row) rows "DELETE" (table_name table) [DeleteRows (inner_table_name table options) (generated_row_filter identity (authorization_of true usable options))]) as Hd.
    destruct exempt eqn:Ex; [|exact Hd]. rewrite Hd. eexists. split; [apply Hforward|f_equal; apply List.filter_ext; intros r; by rewrite andb_true_r].
    intros _. unfold exemption in exempted. destruct (write_exemption_expr options); [done|congruence].
  - rewrite Hforward by done. eexists. split; [done|]. destruct (exempt || reached).
    + f_equal. apply List.filter_ext. intros r. by rewrite andb_true_r.
    + cbn [leaves]. rewrite (List.filter_ext _ (λ _, true)); [|intros r; by rewrite andb_false_r]. clear. by induction rows as [|r rows IH]; cbn; [|rewrite IH].
Qed.

(** *** Updates *)

Context (chains : RlsTable Payload → list (result Error (list (str * Expr Payload)))) (substitute_new_with_old : Expr Payload → Expr Payload).

(** The two predicates of an update. *)
Lemma update_guard_predicates ps using' check cols :
  build_write_guard transform_query translate ps GuardUpdate table options = Ok (cols, using', check) →
  ∃ usable, using' = Some usable ∧ cols = columns
    ∧ combine_policy_predicates transform_query translate ps Using (Some (lit "OLD")) [] options table = Ok usable
    ∧ combine_policy_predicates transform_query translate ps WithCheck (Some (lit "NEW")) (guard_substitutions transform_query columns GuardUpdate options table) options table = Ok check.
Proof.
  unfold build_write_guard. rewrite columns_read. intros Hb. cbn [mbind result_bind] in Hb.
  apply bind_Ok in Hb as ([] & _ & Hb). apply bind_Ok in Hb as (ou & Hou & Hb). apply bind_Ok in Hb as (c & Hcc & Hb). injection Hb as <- <- <-.
  destruct (combine_policy_predicates transform_query translate ps Using (Some (lit "OLD")) [] options table) as [u|] eqn:Hcu; [|done]. injection Hou as <-. by exists u.
Qed.

(** Without a policy, the guard exempts the maintenance of the columns; its condition
    then answers. *)
Definition maintenance_answers ps stored row : Prop :=
  ps = [] → match build_maintenance_insert_exemption chains substitute_new_with_old table with
            | None => True
            | Some e => is_Some (truth (runtime := trigger_runtime host (Some stored) (Some row)) no_columns e)
            end.

Lemma update_check_runs ps check stored row reachable storable :
  filter_policies table [CommandUpdate] options = Ok ps → (ps = [] → exempt = true) → maintenance_answers ps stored row →
  generate_update_check_trigger_sql transform_query translate chains substitute_new_with_old table options = Ok check →
  old_answers (Some stored) row reachable ps → new_answers GuardUpdate stored (Some row) storable ps →
  ∃ message, run_guards (runtime := trigger_runtime host (Some stored) (Some row)) (option_list check)
    = Some (if negb exempt && negb (enforced_rule Using reachable ps && enforced_rule WithCheck storable ps) then Some message else None).
Proof.
  intros Hp Hnone Hm Hg Hu Hc. unfold generate_update_check_trigger_sql in Hg. rewrite Hp in Hg. cbn [mbind result_bind] in Hg. destruct ps as [|p ps].
  { injection Hg as <-. exists []. rewrite (Hnone eq_refl). cbn [negb andb option_list]. specialize (Hm eq_refl).
    destruct (build_maintenance_insert_exemption _ _ _) as [e|]; [destruct Hm as [m Hm]; rewrite (run_check _ _ _ _ _ (Some e) _ m Hm)|rewrite (run_check _ _ _ _ _ None _ true eq_refl)]; by rewrite (Hnone eq_refl). }
  apply bind_Ok in Hg as ([[cols using'] chk] & Hb & Hg). destruct (update_guard_predicates _ _ _ _ Hb) as (u & -> & _ & Hcu & Hcc).
  pose proof (lets_answer _ _ _ _ _ _ (Hu no_columns) Hcu) as Hlu. pose proof (lets_answer _ _ _ _ _ _ Hc Hcc) as Hlc. clear Hcu Hcc Hb Hnone Hm.
  injection Hg as <-. exists RLS_VIOLATION_ERROR.
  destruct u as [| |u], chk as [| |c]; cbn [lets_through] in Hlu, Hlc; cbn [option_list]; try injection Hlu as <-; try injection Hlc as <-; rewrite ?andb_false_r, ?andb_true_r, ?orb_true_r; cbn [negb];
    try (rewrite (run_check _ _ _ _ _ None _ true eq_refl); by rewrite andb_true_r).
  - done.
  - rewrite (run_check _ _ _ _ _ (Some (policy_violation c)) _ (negb (enforced_rule WithCheck storable (p :: ps)))) by by rewrite truth_violation, Hlc. done.
  - rewrite (run_check _ _ _ _ _ (Some (policy_violation u)) _ (negb (enforced_rule Using reachable (p :: ps)))) by by rewrite truth_violation, Hlu. done.
  - rewrite (run_check _ _ _ _ _ (Some (EBinaryOp (policy_violation u) BOr (policy_violation c))) _ (negb (enforced_rule Using reachable (p :: ps)) || negb (enforced_rule WithCheck storable (p :: ps)))).
    + by rewrite negb_andb.
    + by apply truth_or; rewrite truth_violation, ?Hlu, ?Hlc.
Qed.

(** What the view's trigger refuses before it writes: a row the policies let the client
    reach that would become one they do not let it store. *)
Definition update_refusal (usable check : PolicyPredicate Payload) : list (BodyStatement Payload) :=
  match check with
  | DenyAll => [abort_on RLS_VIOLATION_ERROR None options]
  | AllowAll => []
  | Predicate check =>
      [abort_on RLS_VIOLATION_ERROR
         (Some match usable with Predicate using' => EBinaryOp (ENested using') BAnd (policy_violation check) | _ => policy_violation check end) options]
  end.

Lemma run_update_refusal guards (new old : option Row) rows usable check reached kept rest :
  is_deny_all usable = false → is_deny_all check = false →
  lets_through (runtime := trigger_runtime host new old) no_columns usable = Some reached →
  lets_through (runtime := trigger_runtime host new old) no_columns check = Some kept →
  run_body guards new old rows (update_refusal usable check ++ rest)
  = if negb exempt && (reached && negb kept) then Some (Aborted RLS_VIOLATION_ERROR) else run_body guards new old rows rest.
Proof.
  intros Hdu Hdc Hu Hc. destruct check as [| |c]; [done| |]; cbn [lets_through update_refusal app] in *.
  - injection Hc as <-. by rewrite !andb_false_r.
  - apply (run_raise host _ complete guards new old rows RLS_VIOLATION_ERROR options exempt (Some _) (reached && negb kept) rest); [done|].
    destruct usable as [| |u]; [done| |]; cbn [lets_through] in Hu.
    + injection Hu as <-. by rewrite truth_violation, Hc.
    + apply truth_and; [by rewrite truth_nested|]. by rewrite truth_violation, Hc.
Qed.

(** The row an update stores in place of another. *)
Definition replaced new row : Row := complete (assign (zip (map name written) (map (λ column, new (name column)) written)) row).

Lemma assignments_evaluate new (old : option Row) env :
  evaluate_all (runtime := trigger_runtime host (Some new) old) env
    (map snd (map (λ column : TriggerColumn Payload, (name column, prefixed_column_expr (Payload := Payload) (lit "NEW") (name column))) written))
  = Some (map (λ column, new (name column)) written).
Proof.
  unfold evaluate_all. clear. induction written as [|column cs IH]; [done|]. cbn [map snd mapM]. rewrite IH. unfold prefixed_column_expr.
  cbn [eval named_row trigger_runtime Ident_new value]. by rewrite value_quoted_ident.
Qed.

(** What the statement that reaches the rows makes of them. *)
Definition replacement new row rows picks (reached : bool) (refused : option str) : Outcome :=
  match refused with
  | Some message => if existsb (λ row', picks row' && reached) rows then Aborted message else Ran rows
  | None => Ran (map (λ row', if picks row' && reached then replaced new row else row') rows)
  end.

Lemma run_replacement guards new row rows identity picks usable denies granted refused :
  keyed (Some new) row identity picks rows →
  (if denies : bool then granted = false ∧ is_some (write_exemption_expr (Payload := Payload) options) = true
   else is_deny_all usable = false ∧ ∀ env, lets_through (runtime := trigger_runtime host (Some new) (Some row)) env usable = Some granted) →
  (exempt || granted = true → run_guards (runtime := trigger_runtime host (Some (replaced new row)) (Some row)) (on_update guards) = Some refused) →
  run_body guards (Some new) (Some row) rows
    [UpdateRows (inner_table_name table options) (map (λ column, (name column, prefixed_column_expr (lit "NEW") (name column))) written)
       (generated_row_filter identity (authorization_of denies usable options))]
  = Some (replacement new row rows picks (exempt || granted) refused).
Proof.
  intros Hk Ha Hg. unfold run_body. cbn [Backing.run_body run_statement]. rewrite str_eqb_refl. cbn [negb].
  rewrite (update_selected guards (Some new) (Some row) rows _ _ (λ row', picks row' && (exempt || granted)) (map (λ column, new (name column)) written) (λ _, replaced new row) refused).
  { unfold replacement. destruct refused as [message|]; [|done]. by destruct (existsb _ rows). }
  eapply Forall_impl; [exact Hk|]. intros row' [Hrow Hsame]. split.
  - apply selection_truth; [done|]. destruct denies; [done|]. destruct Ha as [? Ha]. split; [done|]. apply Ha.
  - intros [Hpick Hok]%andb_true_iff. rewrite (Hsame Hpick). split_and!; [apply assignments_evaluate| |by apply Hg]. unfold replaced. by rewrite map_map.
Qed.

(** What the trigger forwards. *)
Definition forwarded_update identity (denies : bool) (usable : PolicyPredicate Payload) : list (BodyStatement Payload) :=
  refuse_computed_write_statements columns (table_name table) GuardUpdate ++
  [UpdateRows (inner_table_name table options) (map (λ column, (name column, prefixed_column_expr (lit "NEW") (name column))) written)
     (generated_row_filter identity (authorization_of denies usable options))].

Lemma run_forward guards new row rows identity picks usable denies granted refused :
  keyed (Some new) row identity picks rows → comparable GuardUpdate columns new row →
  (if denies : bool then granted = false ∧ is_some (write_exemption_expr (Payload := Payload) options) = true
   else is_deny_all usable = false ∧ ∀ env, lets_through (runtime := trigger_runtime host (Some new) (Some row)) env usable = Some granted) →
  (exempt || granted = true → run_guards (runtime := trigger_runtime host (Some (replaced new row)) (Some row)) (on_update guards) = Some refused) →
  ∃ message, run_body guards (Some new) (Some row) rows (forwarded_update identity denies usable)
  = Some (if supplied GuardUpdate columns new row then Aborted message else replacement new row rows picks (exempt || granted) refused).
Proof.
  intros Hk Hcomp Ha Hg. destruct (run_computed host (inner_table_name table options) complete guards new (Some row) row rows GuardUpdate columns (table_name table)
    [UpdateRows (inner_table_name table options) (map (λ column, (name column, prefixed_column_expr (lit "NEW") (name column))) written)
       (generated_row_filter identity (authorization_of denies usable options))] eq_refl Hcomp) as [message Hr].
  exists message. etransitivity; [exact Hr|]. destruct (supplied _ _ _ _); [done|]. by apply run_replacement.
Qed.

Lemma unreached_leaves (aborts : bool) message new row rows picks refused :
  leaves (if aborts then Aborted message else replacement new row rows picks false refused) rows.
Proof.
  destruct aborts; [done|]. unfold replacement. destruct refused; [by destruct (existsb _ _)|]. cbn [leaves]. etransitivity; [|apply map_id]. apply map_ext. intros r. by rewrite andb_false_r.
Qed.

Lemma reached_replacement new row rows picks refused :
  replacement new row rows picks true refused
  = match refused with
    | Some message => if existsb picks rows then Aborted message else Ran (map (λ row', if picks row' then replaced new row else row') rows)
    | None => Ran (map (λ row', if picks row' then replaced new row else row') rows)
    end.
Proof.
  unfold replacement. assert (He : existsb (λ row', picks row' && true) rows = existsb picks rows) by (induction rows as [|r rows IH]; [done|]; cbn; by rewrite IH, andb_true_r).
  rewrite He. destruct refused.
  - destruct (existsb picks rows) eqn:E; [done|]. f_equal. clear He. induction rows as [|r rows IH]; [done|]. cbn in *. apply orb_false_iff in E as [-> E]. by rewrite <- IH.
  - f_equal. apply map_ext. intros r. by rewrite andb_true_r.
Qed.

(** With no policy that grants, the forwarding is denied, but for an exempt writer. *)
Lemma run_denied_update guards new row rows identity picks usable :
  keyed (Some new) row identity picks rows → comparable GuardUpdate columns new row →
  (exempt = true → run_guards (runtime := trigger_runtime host (Some (replaced new row)) (Some row)) (on_update guards) = Some None) →
  ∃ message outcome, run_body guards (Some new) (Some row) rows (denied_body "UPDATE" (table_name table) options (forwarded_update identity true usable)) = Some outcome ∧
    if exempt then outcome = if supplied GuardUpdate columns new row then Aborted message else replacement new row rows picks true None else leaves outcome rows.
Proof.
  intros Hk Hcomp Hg. pose proof (run_denied guards (Some new) (Some row) rows "UPDATE" (table_name table) (forwarded_update identity true usable)) as Hd.
  assert (Hrun : exempt = true → ∃ message, run_body guards (Some new) (Some row) rows (forwarded_update identity true usable)
    = Some (if supplied GuardUpdate columns new row then Aborted message else replacement new row rows picks true None)).
  { intros Ex. pose proof (run_forward guards new row rows identity picks usable true false None Hk Hcomp) as Hr.
    rewrite Ex in Hr. apply Hr; [|intros; by apply Hg]. split; [done|]. pose proof exempted as Hx. rewrite Ex in Hx. unfold exemption in Hx.
    by destruct (write_exemption_expr options). }
  destruct exempt; [|by exists []; apply Hd]. destruct (Hrun eq_refl) as [message Hr]. exists message. eexists. split; [by rewrite Hd|done].
Qed.

(** The statements the policies let run, with their refusal before them. *)
Lemma run_permitted guards new row rows identity picks usable check reached kept refused :
  keyed (Some new) row identity picks rows → comparable GuardUpdate columns new row → is_deny_all usable = false → is_deny_all check = false →
  (∀ env, lets_through (runtime := trigger_runtime host (Some new) (Some row)) env usable = Some reached) →
  lets_through (runtime := trigger_runtime host (Some new) (Some row)) no_columns check = Some kept →
  run_guards (runtime := trigger_runtime host (Some (replaced new row)) (Some row)) (on_update guards) = Some refused →
  ∃ message, run_body guards (Some new) (Some row) rows
    (update_refusal usable check ++ forwarded_update identity false usable)
  = Some (if (negb exempt && (reached && negb kept)) || supplied GuardUpdate columns new row then Aborted message
          else replacement new row rows picks (exempt || reached) refused).
Proof.
  intros Hk Hcomp Hdu Hdc Hlu Hlc Hg. destruct (run_forward guards new row rows identity picks usable false reached refused Hk Hcomp (conj Hdu Hlu) (λ _, Hg)) as [message Hr].
  exists (if negb exempt && (reached && negb kept) then RLS_VIOLATION_ERROR else message).
  etransitivity; [by apply (run_update_refusal guards _ _ rows usable check _ _ _ Hdu Hdc (Hlu _) Hlc)|].
  destruct (negb exempt && (reached && negb kept)); [done|exact Hr].
Qed.

(** C2 (an update is judged three times).  An update through the view of a table with
    policies leaves the rows as they are where the policies of UPDATE do not let the
    writer reach the old row and the writer is not exempt.  Otherwise it replaces the row
    the client named, by its key, with the new values and the columns SQLite computes of
    them, and keeps every other, exactly when no generated column is given another value
    and either the writer is exempt or the policies let the new row be stored and, at the
    backing table, let the old row be reached and the row as stored be kept; else it
    aborts.  What they let through is [enforced_rule] of what the translated predicates
    answer: PostgreSQL's rule, but for a table whose permissive policies all lack a
    predicate for the clause. *)
Theorem update_enforced ps trigger check identity picks new row rows reachable storable reachable' storable' :
  filter_policies table [CommandUpdate] options = Ok ps →
  generate_update_trigger_sql transform_query translate table options = Ok (Some trigger) →
  generate_update_check_trigger_sql transform_query translate chains substitute_new_with_old table options = Ok check →
  build_row_identity_clause (collect_column_names table) (primary_key table) = Some identity →
  keyed (Some new) row identity picks rows → comparable GuardUpdate columns new row → maintenance_answers ps (replaced new row) row →
  old_answers (Some new) row reachable ps → new_answers GuardUpdate new (Some row) storable ps →
  old_answers (Some (replaced new row)) row reachable' ps → new_answers GuardUpdate (replaced new row) (Some row) storable' ps →
  let guarded := enforced_rule Using reachable' ps && enforced_rule WithCheck storable' ps in
  ∃ message outcome,
    run_body {| on_insert := []; on_update := option_list check; on_delete := [] |} (Some new) (Some row) rows (body trigger) = Some outcome ∧
    if exempt || enforced_rule Using reachable ps then
      outcome = if negb (supplied GuardUpdate columns new row) && (exempt || (enforced_rule WithCheck storable ps && (guarded || negb (existsb picks rows))))
                then Ran (map (λ row', if picks row' then replaced new row else row') rows) else Aborted message
    else leaves outcome rows.
Proof.
  intros Hp Ht Hc Hi Hk Hcomp Hm Hu Hw Hu' Hw'. cbv zeta. unfold generate_update_trigger_sql in Ht. rewrite Hp in Ht. cbn [mbind result_bind] in Ht.
  apply bind_Ok in Ht as ([[cols using'] chk] & Hb & Ht). destruct (update_guard_predicates _ _ _ _ Hb) as (u & -> & -> & Hcu & Hcc). rewrite Hi in Ht. injection Ht as <-. cbn [body].
  assert (Hlu : ∀ env, lets_through (runtime := trigger_runtime host (Some new) (Some row)) env u = Some (enforced_rule Using reachable ps)) by (intros env; by apply (lets_answer _ _ _ _ _ _ (Hu env) Hcu)).
  pose proof (lets_answer _ _ _ _ _ _ Hw Hcc) as Hlc. unfold default, id. set (guards := Build_Guards _ _ _). set (denies := negb (is_some (head ps)) || is_deny_all u) in *.
  assert (Hguard : (ps = [] → exempt = true) → ∃ message, run_guards (runtime := trigger_runtime host (Some (replaced new row)) (Some row)) (on_update guards)
    = Some (if negb exempt && negb (enforced_rule Using reachable' ps && enforced_rule WithCheck storable' ps) then Some message else None)) by (intros; by eapply update_check_runs).
  destruct denies eqn:Ed.
  - rewrite (denied_grants_nothing _ _ _ _ reachable Hcu Ed), orb_false_r.
    destruct (run_denied_update guards new row rows identity picks u Hk Hcomp) as (message & outcome & Hr & Ho).
    { intros Ex. destruct (Hguard (λ _, Ex)) as [? Hg]. by rewrite Ex in Hg. }
    exists message, outcome. split; [exact Hr|]. revert Ho. rewrite reached_replacement. destruct exempt; [|done]. intros ->. cbn [orb]. rewrite andb_true_r. by destruct (supplied _ _ _ _).
  - pose proof Ed as [Hps Hdu]%orb_false_iff. destruct Hguard as [guard_message Hg]; [by intros ->|].
    assert (Hdc : is_deny_all chk = false) by (pose proof (combine_denies _ _ _ _ Hcu) as E1; pose proof (combine_denies _ _ _ _ Hcc) as E2; congruence).
    destruct (run_permitted guards new row rows identity picks u chk _ _ _ Hk Hcomp Hdu Hdc Hlu Hlc Hg) as [message Hr].
    exists (if negb exempt && (enforced_rule Using reachable ps && negb (enforced_rule WithCheck storable ps)) || supplied GuardUpdate columns new row then message else guard_message).
    eexists. split; [exact Hr|]. destruct (exempt || enforced_rule Using reachable ps) eqn:Er; [|by apply unreached_leaves].
    rewrite reached_replacement. destruct (supplied _ _ _ _); [by rewrite orb_true_r|]. rewrite orb_false_r. cbn [negb andb].
    destruct exempt; [done|]. cbn [orb] in Er. rewrite Er. cbn [negb andb orb].
    destruct (enforced_rule WithCheck storable ps), (enforced_rule Using reachable' ps && enforced_rule WithCheck storable' ps), (existsb picks rows); done.
Qed.

(** *** Reads *)

Context (circular : RlsTable Payload → list (CreatePolicy Payload) → option Error).

(** C3 (the view shows what is granted).  The view of a table with policies shows, in
    their order, exactly the rows of the backing table that the policies of SELECT let
    through: [enforced_rule] of what the translated predicates answer of each row, which
    is PostgreSQL's rule, but for a table whose permissive policies all lack a USING,
    which shows every row its restrictive policies do not hide. *)
Theorem view_shows_granted ps name projection relation selection (rows : list Row) (verdict : Row → CreatePolicy Payload → bool) :
  filter_policies table [CommandSelect] options = Ok ps →
  generate_rls_view_statement transform_query translate circular table options = Ok (RlsView name projection relation selection) →
  Forall (λ row, view_answers row (verdict row) ps) rows →
  relation = inner_table_name table options ∧ projection = collect_column_names table ∧
  view_rows host relation selection rows = Some (List.filter (λ row, enforced_rule Using (verdict row) ps) rows).
Proof.
  intros Hp Hg Hj. unfold generate_rls_view_statement in Hg. apply bind_Ok in Hg as (predicate & Hr & Hg). injection Hg as <- <- <- <-. split_and!; [done..|].
  unfold rls_read_predicate in Hr. rewrite Hp in Hr. cbn [mbind result_bind] in Hr. destruct (circular table ps); [done|].
  induction Hj as [|row rows Hrow _ IH]; [done|]. cbn [view_rows List.filter]. rewrite IH. pose proof (lets_answer _ _ _ _ _ _ Hrow Hr) as Hl.
  destruct predicate as [| |e]; cbn [lets_through] in Hl; [injection Hl as <-; done|injection Hl as <-; done|]. rewrite Hl. cbn. by destruct (enforced_rule _ _ ps).
Qed.
End Granted.

(** ** The table of [Enforcement] *)

Section Demo.
#[local] Existing Instances Operands.demo_display Operands.demo_visit Operands.demo_expr_display Operands.demo_lowerings Enforcement.demo_unicode.

Definition demo_query (_ : ColumnRefStrategy) (q : Query ()) : Query () := q.

(** What SQLite computes: [twice] of the identifier. *)
Definition demo_complete (row : Row) : Row := bind_columns [(lit "twice", match row (lit "id") with SqlInt z => SqlInt (z + z) | _ => SqlNull end)] row.

Definition demo_given : Row := bind_columns [(lit "id", SqlInt 7); (lit "owner", SqlText (lit "ann"))] (λ _, SqlNull).

Lemma demo_columns_are : demo_columns = ltac:(let c := eval vm_compute in demo_columns in exact c).
Proof. vm_compute. reflexivity. Qed.

Lemma demo_columns_read : trigger_columns demo_table demo_rls_options = Ok demo_columns.
Proof. vm_compute. reflexivity. Qed.

Lemma demo_unexempt : exemption (Payload := ()) demo_host demo_rls_options false.
Proof. reflexivity. Qed.

(** Each of the two policies, resolved and evaluated. *)
Ltac each_policy Hin He :=
  eexists; split; [reflexivity|];
  repeat (apply elem_of_cons in Hin as [->|Hin]; [injection He as <-; vm_compute; reflexivity|]); by apply elem_of_nil in Hin.

(** Two rows, of which the client names the first. *)
Definition demo_stored : Row := demo_row 7 "ann" (SqlText (lit "untitled")).
Definition demo_other : Row := demo_row 8 "bob" SqlNull.
Definition demo_picks (row : Row) : bool := bool_decide (row (lit "id") = SqlInt 7).
Definition demo_renamed : Row := demo_row 7 "ann" (SqlText (lit "titled")).
Definition demo_values : list SqlValue := [SqlInt 7; SqlText (lit "ann"); SqlText (lit "untitled")].

Lemma insertion_enforced_witness :
  ∃ trigger check, generate_insert_trigger_sql demo_query demo_resolve demo_resolve demo_table demo_rls_options = Ok trigger
    ∧ generate_insert_check_trigger_sql demo_query demo_resolve demo_table demo_rls_options = Ok check
    ∧ let stored := inserted demo_columns demo_complete demo_values in
      ∃ message, run_body demo_host (inner_table_name demo_table demo_rls_options) demo_complete
          {| on_insert := option_list check; on_update := []; on_delete := [] |} (Some demo_given) None [] (body trigger)
        = Some (if (false || (enforced_rule WithCheck (demo_verdict demo_given) demo_policies && enforced_rule WithCheck (demo_verdict stored) demo_policies))
                   && negb (supplied GuardInsert demo_columns demo_given demo_given) then Ran ([] ++ [stored]) else Aborted message).
Proof.
  eexists _, _. split; [vm_compute; reflexivity|]. split; [vm_compute; reflexivity|]. cbv zeta.
  eapply (insertion_enforced demo_query demo_resolve demo_resolve demo_host demo_table demo_rls_options demo_columns demo_complete false demo_unexempt demo_columns_read);
    [vm_compute; reflexivity|vm_compute; reflexivity|vm_compute; reflexivity|eexists; split; [vm_compute; reflexivity..]|intros policy e Hin He; each_policy Hin He..].
Defined.

Definition demo_identity : Expr () := default (EValue ValueNull) (build_row_identity_clause (collect_column_names demo_table) (primary_key demo_table)).

Lemma demo_keyed new : keyed demo_host new demo_stored demo_identity demo_picks [demo_stored; demo_other].
Proof. constructor; [split; [vm_compute; reflexivity|done]|]. constructor; [split; [vm_compute; reflexivity|by vm_compute]|constructor]. Qed.

Lemma deletion_enforced_witness :
  ∃ trigger check, generate_delete_trigger_sql demo_query demo_resolve demo_table demo_rls_options = Ok (Some trigger)
    ∧ generate_delete_check_trigger_sql demo_query demo_resolve demo_table demo_rls_options = Ok check
    ∧ ∃ outcome, run_body demo_host (inner_table_name demo_table demo_rls_options) demo_complete
          {| on_insert := []; on_update := []; on_delete := option_list check |} None (Some demo_stored) [demo_stored; demo_other] (body trigger) = Some outcome
        ∧ if false || enforced_rule Using (demo_verdict demo_stored) demo_policies then outcome = Ran (List.filter (λ row, negb (demo_picks row)) [demo_stored; demo_other])
          else leaves outcome [demo_stored; demo_other].
Proof.
  eexists _, _. split; [vm_compute; reflexivity|]. split; [vm_compute; reflexivity|].
  eapply (deletion_enforced demo_query demo_resolve demo_host demo_table demo_rls_options demo_complete false demo_unexempt);
    [vm_compute; reflexivity|vm_compute; reflexivity|vm_compute; reflexivity|vm_compute; reflexivity|apply demo_keyed|intros env policy e Hin He; each_policy Hin He].
Defined.

Lemma update_enforced_witness :
  ∃ trigger check, generate_update_trigger_sql demo_query demo_resolve demo_table demo_rls_options = Ok (Some trigger)
    ∧ generate_update_check_trigger_sql demo_query demo_resolve (λ _, []) id demo_table demo_rls_options = Ok check
    ∧ let stored := replaced demo_columns demo_complete demo_renamed demo_stored in
      let guarded := enforced_rule Using (demo_verdict demo_stored) demo_policies && enforced_rule WithCheck (demo_verdict stored) demo_policies in
      ∃ message outcome, run_body demo_host (inner_table_name demo_table demo_rls_options) demo_complete
          {| on_insert := []; on_update := option_list check; on_delete := [] |} (Some demo_renamed) (Some demo_stored) [demo_stored; demo_other] (body trigger) = Some outcome
        ∧ if false || enforced_rule Using (demo_verdict demo_stored) demo_policies then
            outcome = if negb (supplied GuardUpdate demo_columns demo_renamed demo_stored)
                         && (false || (enforced_rule WithCheck (demo_verdict demo_renamed) demo_policies && (guarded || negb (existsb demo_picks [demo_stored; demo_other]))))
                      then Ran (map (λ row, if demo_picks row then stored else row) [demo_stored; demo_other]) else Aborted message
          else leaves outcome [demo_stored; demo_other].
Proof.
  eexists _, _. split; [vm_compute; reflexivity|]. split; [vm_compute; reflexivity|]. cbv zeta.
  eapply (update_enforced demo_query demo_resolve demo_host demo_table demo_rls_options demo_columns demo_complete false demo_unexempt demo_columns_read (λ _, []) id);
    [vm_compute; reflexivity|vm_compute; reflexivity|vm_compute; reflexivity|vm_compute; reflexivity|apply demo_keyed| |done
    |intros env policy e Hin He; each_policy Hin He|intros policy e Hin He; each_policy Hin He|intros env policy e Hin He; each_policy Hin He|intros policy e Hin He; each_policy Hin He].
  apply Forall_forall. intros column Hin. rewrite demo_columns_are in Hin.
  repeat (apply elem_of_cons in Hin as [->|Hin]; [intros He; first [done|vm_compute; by eexists]|]). by apply elem_of_nil in Hin.
Defined.

Lemma view_shows_granted_witness :
  ∃ name projection relation selection,
    generate_rls_view_statement demo_query demo_resolve (λ _ _, None) demo_table demo_rls_options = Ok (RlsView name projection relation selection)
    ∧ relation = inner_table_name demo_table demo_rls_options ∧ projection = collect_column_names demo_table
    ∧ view_rows demo_host relation selection [demo_stored; demo_other]
      = Some (List.filter (λ row, enforced_rule Using (demo_verdict row) demo_policies) [demo_stored; demo_other]).
Proof.
  eexists _, _, _, _. split; [vm_compute; reflexivity|].
  eapply (view_shows_granted demo_query demo_resolve demo_host demo_table demo_rls_options (λ _ _, None)); [vm_compute; reflexivity|vm_compute; reflexivity|].
  constructor; [|constructor; [|constructor]]; intros policy e Hin He; each_policy Hin He.
Defined.
End Demo.
