(* ===== verification/Effects.v ===== *)
(** * What statements do to connection-local objects

    [src/src/history/effects.rs].  The catalogue of [TEMP] objects is a list of
    objects, alive or dropped, and three maps from folded names to positions in
    it.  The recursive searches are over a bounded fuel, the number of objects (or
    of trigger firings) still to be visited, which the lemmas show is enough. *)

From S2P Require Import Prelude Text Ast.

Module Effects.

(** An [ObjectId] is the position of the object. *)
Abbreviation ObjectId := nat (only parsing).

Record Events := { insert : bool; update : bool; delete : bool }.

#[global] Instance Events_eq_dec : EqDecision Events.
Proof. solve_decision. Defined.

Definition NONE : Events := {| insert := false; update := false; delete := false |}.
Definition INSERT : Events := {| insert := true; update := false; delete := false |}.
Definition UPDATE : Events := {| insert := false; update := true; delete := false |}.
Definition DELETE : Events := {| insert := false; update := false; delete := true |}.
Definition UPSERT : Events := {| insert := true; update := true; delete := false |}.

Definition overlaps (self other : Events) : bool :=
  (insert self && insert other) || (update self && update other) || (delete self && delete other).

(** The loop of [Events::of_trigger]. *)
Definition cover (covered : Events) (event : TriggerEvent) : Events :=
  match event with
  | EvInsert => {| insert := true; update := update covered; delete := delete covered |}
  | EvUpdate _ => {| insert := insert covered; update := true; delete := delete covered |}
  | EvDelete => {| insert := insert covered; update := update covered; delete := true |}
  | EvTruncate => covered
  end.
Definition of_trigger (events : list TriggerEvent) : Events := foldl cover NONE events.

Record Effects := { touches : list ObjectId; reads : list ObjectId; persistent_write : bool }.

Definition effects_default : Effects := {| touches := []; reads := []; persistent_write := false |}.

(** A push that keeps the vector without duplicates. *)
Definition push_new (id : ObjectId) (ids : list ObjectId) : list ObjectId :=
  if decide (id ∈ ids) then ids else ids ++ [id].
Definition touch (self : Effects) (id : ObjectId) : Effects :=
  {| touches := push_new id (touches self); reads := reads self; persistent_write := persistent_write self |}.
Definition read (self : Effects) (id : ObjectId) : Effects :=
  {| touches := touches self; reads := push_new id (reads self); persistent_write := persistent_write self |}.
Definition set_persistent (self : Effects) : Effects :=
  {| touches := touches self; reads := reads self; persistent_write := true |}.

(** The relation a trigger is attached to. *)
Inductive Owner := OwnerConnection (id : ObjectId) | OwnerFile (table : str).

#[global] Instance Owner_eq_dec : EqDecision Owner.
Proof. solve_decision. Defined.

Section Catalog.
Context {Payload : Type}.
(** [relation_names], the library's visitor over a statement and over a query. *)
Variable relation_names : Statement Payload → list str.
Variable query_relation_names : Payload → list str.
Implicit Types (name : ObjectName Payload) (statement : Statement Payload).

Inductive Shape :=
| ShapeTable
| ShapeView (bases : list str)
| ShapeTrigger (owner : Owner) (events : Events) (body : list (Statement Payload))
| ShapeIndex (owner : ObjectId).

Record Object := { shape : Shape; alive : bool }.

Record Catalog := {
  objects : list Object;
  relations : gmap str ObjectId;
  triggers : gmap str ObjectId;
  indexes : gmap str ObjectId
}.

Definition catalog_default : Catalog :=
  {| objects := []; relations := ∅; triggers := ∅; indexes := ∅ |}.

Definition with_objects (c : Catalog) (os : list Object) : Catalog :=
  {| objects := os; relations := relations c; triggers := triggers c; indexes := indexes c |}.
Definition with_relations (c : Catalog) (m : gmap str ObjectId) : Catalog :=
  {| objects := objects c; relations := m; triggers := triggers c; indexes := indexes c |}.
Definition with_triggers (c : Catalog) (m : gmap str ObjectId) : Catalog :=
  {| objects := objects c; relations := relations c; triggers := m; indexes := indexes c |}.
Definition with_indexes (c : Catalog) (m : gmap str ObjectId) : Catalog :=
  {| objects := objects c; relations := relations c; triggers := triggers c; indexes := m |}.

(** ** Names *)

(** [split]: the schema qualifier and the folded name, from the last two
    identifier parts. *)
Definition split_name name : option (option str * str) :=
  match reverse (omap as_ident name) with
  | [] => None
  | last :: rest => Some (value <$> head rest, to_ascii_lowercase (value last))
  end.

Definition is_temp_schema (schema : str) : bool := eq_ignore_ascii_case schema (lit "temp").

Definition is_temporary (flagged : bool) name : bool :=
  flagged || match split_name name ≫= fst with
             | Some schema => is_temp_schema schema
             | None => false
             end.

(** [Catalog::relation]. *)
Definition relation (self : Catalog) name : option ObjectId :=
  '(schema, key) ← split_name name;
  if match schema with Some schema => negb (is_temp_schema schema) | None => false end then None
  else relations self !! (key : str).

(** ** Rows *)

Inductive RowWrite := WriteTable (name : ObjectName Payload) (events : Events) | Untracked.

Fixpoint row_write statement : option RowWrite :=
  match statement with
  | SInsert table on _ =>
      let events := match on with Some (OnConflict (DoUpdate _)) => UPSERT | _ => INSERT end in
      Some match table with
           | TableName name => WriteTable name events
           | TableFunction _ | TableQuery _ => Untracked
           end
  | SUpdate table _ =>
      Some match table with TFTable name _ => WriteTable name UPDATE | TFOther _ => Untracked end
  | SDelete from _ =>
      Some match from with TFTable name _ :: _ => WriteTable name DELETE | _ => Untracked end
  | SMerge _ => Some Untracked
  | SQuery body _ =>
      match body with
      | SetInsert statement | SetUpdate statement | SetDelete statement => row_write statement
      | SetMerge _ => Some Untracked
      | SetOther _ => None
      end
  | _ => None
  end.

(** ** Creating and dropping *)

Definition create (self : Catalog) (s : Shape) : Catalog * ObjectId :=
  (with_objects self (objects self ++ [{| shape := s; alive := true |}]), length (objects self)).

(** What [retire] of [id] drops with it: the live triggers and indexes attached to [id]. *)
Definition is_attached (id : ObjectId) (object : Object) : bool :=
  alive object && match shape object with
                  | ShapeTrigger (OwnerConnection owner) _ _ | ShapeIndex owner => bool_decide (owner = id)
                  | _ => false
                  end.

Fixpoint positions (p : Object → bool) (os : list Object) (index : nat) : list ObjectId :=
  match os with
  | [] => []
  | o :: os => if p o then index :: positions p os (S index) else positions p os (S index)
  end.

Definition attached (self : Catalog) (id : ObjectId) : list ObjectId :=
  positions (is_attached id) (objects self) 0.

Definition is_alive (self : Catalog) (id : ObjectId) : bool :=
  match objects self !! id with Some object => alive object | None => false end.

Definition kill (self : Catalog) (id : ObjectId) : Catalog :=
  with_objects self (alter (λ o, {| shape := shape o; alive := false |}) id (objects self)).

(** [retain(|_, value| *value != dependent)] on both maps. *)
Definition forget (self : Catalog) (dependent : ObjectId) : Catalog :=
  {| objects := objects self; relations := relations self;
     triggers := filter (λ kv, kv.2 ≠ dependent) (triggers self);
     indexes := filter (λ kv, kv.2 ≠ dependent) (indexes self) |}.

Fixpoint retire (fuel : nat) (self : Catalog) (id : ObjectId) (effects : Effects) : Catalog * Effects :=
  match fuel with
  | O => (self, effects)
  | S fuel =>
      if negb (is_alive self id) then (self, effects)
      else
        let self := kill self id in
        let effects := touch effects id in
        foldl (λ '(self, effects) dependent, retire fuel (forget self dependent) dependent effects)
          (self, effects) (attached self id)
  end.

(** Dropping an object drops what is attached to it, and nothing is attached to
    that: triggers are attached to relations, and indexes to tables.  Each live
    object is dropped once, so their number is fuel enough. *)
Definition retire_all (self : Catalog) (id : ObjectId) (effects : Effects) : Catalog * Effects :=
  retire (S (length (objects self))) self id effects.

(** ** Reading and writing *)

(** The relations a read of [names] reads.  The reads already recorded are not
    entered again, so the number of objects is fuel enough. *)
Fixpoint read_names (fuel : nat) (self : Catalog) (names : list str) (effects : Effects) : Effects :=
  match fuel with
  | O => effects
  | S fuel =>
      foldl (λ effects word,
        match relations self !! (word : str) with
        | None => effects
        | Some id =>
            if decide (id ∈ reads effects) then effects
            else
              let effects := read effects id in
              match shape <$> objects self !! id with
              | Some (ShapeView bases) => read_names fuel self bases effects
              | _ => effects
              end
        end) effects names
  end.

Definition reads_of (self : Catalog) (names : list str) (effects : Effects) : Effects :=
  read_names (S (length (objects self))) self names effects.

(** What [Catalog::write] records of the written relation itself. *)
Definition record_target (self : Catalog) name (effects : Effects) : Effects :=
  match relation self name with
  | Some id =>
      match shape <$> objects self !! id with
      | Some ShapeTable => touch effects id
      | Some (ShapeView _) => read effects id
      | _ => effects
      end
  | None => set_persistent effects
  end.

(** The owner whose triggers a write to [name] fires. *)
Definition written_owner (self : Catalog) name : option Owner :=
  match relation self name with
  | Some id => Some (OwnerConnection id)
  | None => '(_, table) ← split_name name; Some (OwnerFile table)
  end.

(** Whether [object] is a trigger that a write of [events] to [owner] fires. *)
Definition fires (owner : Owner) (events : Events) (object : Object) : bool :=
  match shape object with
  | ShapeTrigger on covered _ => alive object && bool_decide (on = owner) && overlaps covered events
  | _ => false
  end.
Definition body_of (object : Object) : list (Statement Payload) :=
  match shape object with ShapeTrigger _ _ body => body | _ => [] end.

(** [Catalog::write].  A trigger fires once per kind of event, of which there are
    four, so four times the number of objects bounds the depth. *)
Definition Fired := list (ObjectId * Events).

Fixpoint write (fuel : nat) (self : Catalog) name (events : Events) (effects : Effects) (fired : Fired)
    : Effects * Fired :=
  match fuel with
  | O => (effects, fired)
  | S fuel =>
      let effects := record_target self name effects in
      match written_owner self name with
      | None => (effects, fired)
      | Some owner =>
          foldl (λ '(effects, fired) '(trigger, object),
            if negb (fires owner events object) then (effects, fired)
            else if decide ((trigger, events) ∈ fired) then (effects, fired)
            else
              foldl (λ '(effects, fired) statement,
                let effects := reads_of self (relation_names statement) effects in
                match row_write statement with
                | Some (WriteTable name events) => write fuel self name events effects fired
                | Some Untracked => (set_persistent effects, fired)
                | None => (effects, fired)
                end) (read effects trigger, fired ++ [(trigger, events)]) (body_of object))
            (effects, fired) (imap pair (objects self))
      end
  end.

Definition write_rows (self : Catalog) name (events : Events) (effects : Effects) : Effects :=
  fst (write (S (4 * length (objects self))) self name events effects []).

(** ** Statements *)

Definition create_relation (self : Catalog) name (if_not_exists : bool) (s : Shape) (effects : Effects)
    : Catalog * Effects :=
  match split_name name with
  | None => (self, effects)
  | Some (_, key) =>
      if if_not_exists && is_some (relations self !! (key : str)) then (self, effects)
      else
        let '(self, id) := create self s in
        (with_relations self (<[key := id]> (relations self)), touch effects id)
  end.

(** One name of [Catalog::drop]. *)
Definition drop_name (object_type : ObjectType Payload) (state : Catalog * Effects) name : Catalog * Effects :=
  let '(self, effects) := state in
  match split_name name with
  | None => (self, effects)
  | Some (schema, key) =>
      if match schema with Some schema => negb (is_temp_schema schema) | None => false end
      then (self, effects)
      else
        match object_type with
        | Table | View =>
            match relations self !! (key : str) with
            | Some id => retire_all (with_relations self (base.delete key (relations self))) id effects
            | None => (self, effects)
            end
        | Index =>
            match indexes self !! (key : str) with
            | Some id => retire_all (with_indexes self (base.delete key (indexes self))) id effects
            | None => (self, effects)
            end
        | _ => (self, effects)
        end
  end.

Definition drop (self : Catalog) (object_type : ObjectType Payload) (names : list (ObjectName Payload))
    (effects : Effects) : Catalog * Effects :=
  foldl (drop_name object_type) (self, effects) names.

(** One operation of [Catalog::alter]. *)
Definition alter_operation (altered : ObjectName Payload) (id : ObjectId) (self : Catalog)
    (operation : AlterTableOperation Payload) : Catalog :=
  match operation with
  | RenameTo new_name =>
      match split_name altered, split_name new_name with
      | Some (_, from), Some (_, to) =>
          with_relations self (<[to := id]> (base.delete from (relations self)))
      | _, _ => self
      end
  | _ => self
  end.

Definition alter_table (self : Catalog) (alter : AlterTable Payload) (effects : Effects) : Catalog * Effects :=
  match relation self (at_name alter) with
  | None => (self, effects)
  | Some id =>
      (foldl (alter_operation (at_name alter) id) self (at_operations alter), touch effects id)
  end.

Definition create_trigger (self : Catalog) (create' : CreateTrigger Payload)
    (statements : option (list (Statement Payload))) (effects : Effects) : Catalog * Effects :=
  match split_name (tg_name create') with
  | None => (self, effects)
  | Some (_, key) =>
      match (match relation self (tg_table_name create') with
             | Some id => Some (OwnerConnection id, read effects id)
             | None => '(_, table) ← split_name (tg_table_name create'); Some (OwnerFile table, effects)
             end) with
      | None => (self, effects)
      | Some (owner, effects) =>
          let body := default [] statements in
          let '(self, effects) :=
            if tg_or_replace create' then
              match triggers self !! (key : str) with
              | Some previous => retire_all (with_triggers self (base.delete key (triggers self))) previous effects
              | None => (self, effects)
              end
            else (self, effects) in
          let '(self, id) := create self (ShapeTrigger owner (of_trigger (tg_events create')) body) in
          (with_triggers self (<[key := id]> (triggers self)), touch effects id)
      end
  end.

Definition apply_statement (state : Catalog * Effects) statement : Catalog * Effects :=
  let '(self, effects) := state in
  match statement with
  | SCreateTable create' =>
      if is_temporary (ct_temporary create') (ct_name create') then
        let effects := match ct_query create' with
                       | Some query => reads_of self (query_relation_names query) effects
                       | None => effects
                       end in
        create_relation self (ct_name create') (ct_if_not_exists create') ShapeTable effects
      else (self, effects)
  | SCreateVirtualTable name if_not_exists _ _ =>
      if is_temporary false name then create_relation self name if_not_exists ShapeTable effects
      else (self, effects)
  | SCreateView create' =>
      if is_temporary (cv_temporary create') (cv_name create') then
        let '(self, effects) :=
          if cv_or_replace create' then
            match split_name (cv_name create') with
            | Some (_, key) =>
                match relations self !! (key : str) with
                | Some previous =>
                    retire_all (with_relations self (base.delete key (relations self))) previous effects
                | None => (self, effects)
                end
            | None => (self, effects)
            end
          else (self, effects) in
        create_relation self (cv_name create') false (ShapeView (query_relation_names (cv_query create'))) effects
      else (self, effects)
  | SCreateTrigger create' statements =>
      if tg_temporary create' || is_some (relation self (tg_table_name create'))
      then create_trigger self create' statements effects
      else (self, effects)
  | SCreateIndex create' =>
      match relation self (ci_table_name create'), ci_name create' ≫= split_name with
      | Some owner, Some (_, key) =>
          let '(self, id) := create self (ShapeIndex owner) in
          (with_indexes self (<[key := id]> (indexes self)), touch (read effects owner) id)
      | _, _ => (self, effects)
      end
  | SDrop object_type names _ => drop self object_type names effects
  | SDropTrigger trigger_name _ _ =>
      match split_name trigger_name with
      | None => (self, effects)
      | Some (_, key) =>
          match triggers self !! (key : str) with
          | Some id => retire_all (with_triggers self (base.delete key (triggers self))) id effects
          | None => (self, effects)
          end
      end
  | SAlterTable alter => alter_table self alter effects
  | SInsert _ _ _ | SUpdate _ _ | SDelete _ _ | SQuery _ _ | SMerge _ =>
      match row_write statement with
      | None => (self, effects)
      | Some row =>
          let effects := reads_of self (relation_names statement) effects in
          match row with
          | WriteTable name events => (self, write_rows self name events effects)
          | Untracked => (self, set_persistent effects)
          end
      end
  | _ => (self, effects)
  end.

(** [Catalog::apply]. *)
Definition apply (self : Catalog) (unit_statements : list (Statement Payload)) : Catalog * Effects :=
  foldl apply_statement (self, effects_default) unit_statements.

(** [Catalog::alive] and [Catalog::len]. *)
Definition alive_ids (self : Catalog) : list ObjectId := positions alive (objects self) 0.
Definition catalog_len (self : Catalog) : nat := length (objects self).
End Catalog.

(** ** Well-formed catalogues *)

Section Invariant.
Context {Payload : Type}.
Variable relation_names : Statement Payload → list str.
Variable query_relation_names : Payload → list str.
Abbreviation Object := (@Object Payload).
Abbreviation Catalog := (@Catalog Payload).
Implicit Types (c : Catalog) (o : Object) (id : ObjectId) (e : Effects).

Definition is_relation (s : @Shape Payload) : bool :=
  match s with ShapeTable | ShapeView _ => true | _ => false end.
Definition is_trigger (s : @Shape Payload) : bool := match s with ShapeTrigger _ _ _ => true | _ => false end.
Definition is_index (s : @Shape Payload) : bool := match s with ShapeIndex _ => true | _ => false end.

Definition owner_of (s : @Shape Payload) : option ObjectId :=
  match s with
  | ShapeTrigger (OwnerConnection owner) _ _ | ShapeIndex owner => Some owner
  | _ => None
  end.

(** The object [id] is live and has a shape satisfying [p]. *)
Definition live (c : Catalog) (p : @Shape Payload → bool) (id : ObjectId) : Prop :=
  ∃ o, objects c !! id = Some o ∧ alive o = true ∧ p (shape o) = true.

(** Every name names a live object of its kind, an object has at most one name,
    and whatever is attached to a relation of the connection is dropped with it. *)
Record wf (c : Catalog) : Prop := {
  wf_relations : ∀ k id, relations c !! k = Some id → live c is_relation id;
  wf_triggers : ∀ k id, triggers c !! k = Some id → live c is_trigger id;
  wf_indexes : ∀ k id, indexes c !! k = Some id → live c is_index id;
  wf_one_name : ∀ k k' id, relations c !! k = Some id → relations c !! k' = Some id → k = k';
  wf_one_trigger : ∀ k k' id, triggers c !! k = Some id → triggers c !! k' = Some id → k = k';
  wf_one_index : ∀ k k' id, indexes c !! k = Some id → indexes c !! k' = Some id → k = k';
  wf_owner_relation : ∀ i o w, objects c !! i = Some o → owner_of (shape o) = Some w →
    ∃ ow, objects c !! w = Some ow ∧ is_relation (shape ow) = true;
  wf_attached : ∀ i o w, objects c !! i = Some o → alive o = true → owner_of (shape o) = Some w →
    live c is_relation w
}.

(** The recorded effects name objects of the catalogue. *)
Definition known (c : Catalog) (e : Effects) : Prop :=
  Forall (λ id, id < length (objects c))%nat (touches e) ∧ Forall (λ id, id < length (objects c))%nat (reads e).

Lemma push_new_elem id ids x : x ∈ push_new id ids ↔ x = id ∨ x ∈ ids.
Proof.
  unfold push_new. destruct (decide (id ∈ ids)).
  - split; [auto|]. by intros [->|].
  - rewrite elem_of_app, list_elem_of_singleton. tauto.
Qed.

Lemma push_new_NoDup id ids : NoDup ids → NoDup (push_new id ids).
Proof.
  intros Hn. unfold push_new. destruct (decide (id ∈ ids)); [done|].
  apply NoDup_app. split_and!; [done| |apply NoDup_singleton].
  intros x Hx ->%list_elem_of_singleton. done.
Qed.

Lemma Forall_push_new (P : ObjectId → Prop) id ids : P id → Forall P ids → Forall P (push_new id ids).
Proof. rewrite !Forall_forall. intros Hid Hids x [->|Hx]%push_new_elem; auto. Qed.

Lemma known_touch c e id : (id < length (objects c))%nat → known c e → known c (touch e id).
Proof. intros Hid [Ht Hr]. split; cbn; [by apply Forall_push_new | done]. Qed.
Lemma known_read c e id : (id < length (objects c))%nat → known c e → known c (read e id).
Proof. intros Hid [Ht Hr]. split; cbn; [done | by apply Forall_push_new]. Qed.

Lemma live_lt c p id : live c p id → (id < length (objects c))%nat.
Proof. intros (o & Ho & _). by eapply lookup_lt_Some. Qed.

(** ** Dropping *)

Lemma positions_elem (p : Object → bool) os n id :
  id ∈ positions p os n ↔ ∃ i o, os !! i = Some o ∧ p o = true ∧ id = (n + i)%nat.
Proof.
  revert n. induction os as [|o os IH]; intros n; cbn [positions].
  - rewrite elem_of_nil. split; [done|]. by intros (i & o & Ho & _).
  - assert (Hrest : id ∈ positions p os (S n) ↔ ∃ i o', os !! i = Some o' ∧ p o' = true ∧ id = (n + S i)%nat).
    { rewrite IH. split; intros (i & o' & ? & ? & ->); exists i, o'; split_and!; auto; lia. }
    destruct (p o) eqn:Ep; rewrite ?elem_of_cons, Hrest; split.
    + intros [->|(i & o' & Ho & Hp & ->)]; [exists O, o; split_and!; auto; lia|]. by exists (S i), o'.
    + intros ([|i] & o' & Ho & Hp & ->); [left; lia|right; by exists i, o'].
    + intros (i & o' & Ho & Hp & ->). by exists (S i), o'.
    + intros ([|i] & o' & Ho & Hp & ->); [injection Ho as <-; congruence|by exists i, o'].
Qed.

Lemma attached_elem c id d :
  d ∈ attached c id ↔ ∃ o, objects c !! d = Some o ∧ alive o = true ∧ owner_of (shape o) = Some id.
Proof.
  unfold attached. rewrite positions_elem.
  assert (Ha : ∀ o, is_attached id o = true ↔ alive o = true ∧ owner_of (shape o) = Some id).
  { intros o. unfold is_attached. rewrite andb_true_iff.
    destruct (shape o) as [| |[w|t] ev b|w]; cbn; rewrite ?bool_decide_eq_true; naive_solver. }
  split.
  - intros (i & o & Ho & [? ?]%Ha & ->). by exists o.
  - intros (o & Ho & Hp). exists d, o. split_and!; [done| |done]. by apply Ha.
Qed.

Definition dead (o : Object) : Object := {| shape := shape o; alive := false |}.

Lemma kill_lookup c id i :
  objects (kill c id) !! i = if decide (i = id) then dead <$> objects c !! i else objects c !! i.
Proof.
  unfold kill, with_objects. cbn. destruct (decide (i = id)) as [->|Hne].
  - apply list_lookup_alter_eq.
  - by apply list_lookup_alter_ne.
Qed.

Lemma kill_length c id : length (objects (kill c id)) = length (objects c).
Proof. unfold kill, with_objects. cbn. apply length_alter. Qed.

(** The shapes of owners, which dropping does not change. *)
Definition owners_are_relations (c : Catalog) : Prop :=
  ∀ i o w, objects c !! i = Some o → owner_of (shape o) = Some w →
    ∃ ow, objects c !! w = Some ow ∧ is_relation (shape ow) = true.

Lemma owners_kill c id : owners_are_relations c → owners_are_relations (kill c id).
Proof.
  intros Hc i o w. rewrite kill_lookup. intros Ho Hw.
  assert (∃ o', objects c !! i = Some o' ∧ shape o = shape o') as (o' & Ho' & Hs).
  { case_decide; [|by exists o]. apply fmap_Some in Ho as (o' & Ho' & ->). by exists o'. }
  rewrite Hs in Hw. destruct (Hc _ _ _ Ho' Hw) as (ow & How & Hr). rewrite kill_lookup, How.
  destruct (decide (w = id)); [exists (dead ow)|exists ow]; done.
Qed.

(** What is attached to a relation of the connection has nothing attached to it. *)
Lemma nothing_attached c id :
  owners_are_relations c → (∀ o, objects c !! id = Some o → is_relation (shape o) = false) → attached c id = [].
Proof.
  intros Hc Hid. destruct (attached c id) as [|d ds] eqn:E; [done|].
  assert (Hd : d ∈ attached c id) by (rewrite E; apply list_elem_of_here).
  apply attached_elem in Hd as (o & Ho & _ & Hw). destruct (Hc _ _ _ Ho Hw) as (ow & How & Hr).
  rewrite (Hid _ How) in Hr. done.
Qed.

(** What a call of [retire] on a list of triggers and indexes leaves. *)
Record dropped (c c' : Catalog) (ds : list ObjectId) : Prop := {
  dropped_objects : ∀ i, objects c' !! i = if decide (i ∈ ds) then dead <$> objects c !! i else objects c !! i;
  dropped_relations : relations c' = relations c;
  dropped_triggers : ∀ k v, triggers c' !! k = Some v → triggers c !! k = Some v ∧ v ∉ ds;
  dropped_indexes : ∀ k v, indexes c' !! k = Some v → indexes c !! k = Some v ∧ v ∉ ds
}.

Lemma retire_dependents n ds c e :
  owners_are_relations c →
  (∀ d o, d ∈ ds → objects c !! d = Some o → is_relation (shape o) = false) →
  (∀ d, d ∈ ds → ∃ o, objects c !! d = Some o) → known c e →
  let '(c', e') := foldl (λ '(c, e) d, retire (S n) (forget c d) d e) (c, e) ds in
  dropped c c' ds ∧ known c' e' ∧ length (objects c') = length (objects c).
Proof.
  revert c e. induction ds as [|d ds IH]; intros c e Hown Hshape Hex He; cbn [foldl].
  { split_and!; [|done..]. split; intros; try done; rewrite ?decide_False by (by intros ?%elem_of_nil); try done;
      split; try done; by intros ?%elem_of_nil. }
  set (c1 := if is_alive (forget c d) d then kill (forget c d) d else forget c d).
  assert (Hstep : ∃ e1, retire (S n) (forget c d) d e = (c1, e1) ∧ known c1 e1).
  { cbn [retire]. unfold c1. destruct (is_alive (forget c d) d) eqn:Ea; cbn [negb].
    - assert (attached (kill (forget c d) d) d = []) as Hatt.
      { apply nothing_attached; [by apply owners_kill|]. intros o Ho. rewrite kill_lookup, decide_True in Ho by done.
        apply fmap_Some in Ho as (o' & Ho' & ->). apply (Hshape d o'); [apply list_elem_of_here|exact Ho']. }
      rewrite Hatt. cbn [foldl]. eexists. split; [done|]. apply known_touch.
      + rewrite kill_length. destruct (Hex d ltac:(apply list_elem_of_here)) as [o Ho]. by eapply lookup_lt_Some.
      + unfold known in *. by rewrite kill_length.
    - eexists. split; [done|]. exact He. }
  destruct Hstep as (e1 & -> & He1).
  assert (Hc1 : ∀ i, objects c1 !! i = if decide (i = d) then dead <$> objects c !! i else objects c !! i).
  { intros i. unfold c1. destruct (is_alive (forget c d) d) eqn:Ea; [by rewrite kill_lookup|].
    destruct (decide (i = d)) as [->|]; [|done]. unfold is_alive in Ea. cbn in *.
    destruct (objects c !! d) as [[s a]|]; [|done]. cbn in *. by subst a. }
  assert (Hlen1 : length (objects c1) = length (objects c)).
  { unfold c1. destruct (is_alive _ _); [by rewrite kill_length|done]. }
  assert (Hmaps1 : relations c1 = relations c ∧ triggers c1 = triggers (forget c d) ∧ indexes c1 = indexes (forget c d))
    by (unfold c1; by destruct (is_alive _ _)).
  destruct Hmaps1 as (Hr1 & Ht1 & Hi1).
  assert (Hown1 : owners_are_relations c1).
  { unfold c1. destruct (is_alive _ _); [|exact Hown]. by apply owners_kill. }
  specialize (IH c1 e1 Hown1).
  destruct (foldl _ (c1, e1) ds) as [c' e'].
  destruct IH as (Hdr & Hk & Hl).
  - intros d' o Hd' Ho. rewrite Hc1 in Ho. destruct (decide (d' = d)) as [->|].
    + destruct (objects c !! d) as [o'|] eqn:E; [|done]. injection Ho as <-.
      apply (Hshape d o'); [apply list_elem_of_here|done].
    + apply (Hshape d' o); [by apply list_elem_of_further|done].
  - intros d' Hd'. destruct (Hex d') as [o Ho]; [by apply list_elem_of_further|]. rewrite Hc1, Ho. destruct (decide (d' = d)); eauto.
  - exact He1.
  - split_and!; [|exact Hk|congruence]. destruct Hdr as [Ho Hr Ht Hi]. split.
    + intros i. rewrite Ho, Hc1. clear -i. assert (Hin : i ∈ d :: ds ↔ i = d ∨ i ∈ ds) by apply elem_of_cons.
      destruct (objects c !! i) as [[s a]|]; repeat case_decide; try reflexivity; tauto.
    + congruence.
    + intros k v Hv. apply Ht in Hv as [Hv Hn]. rewrite Ht1 in Hv. cbn in Hv.
      apply map_lookup_filter_Some in Hv as [Hv Hne]. split; [done|]. by intros [?|?]%elem_of_cons.
    + intros k v Hv. apply Hi in Hv as [Hv Hn]. rewrite Hi1 in Hv. cbn in Hv.
      apply map_lookup_filter_Some in Hv as [Hv Hne]. split; [done|]. by intros [?|?]%elem_of_cons.
Qed.

(** No name refers to [id]. *)
Definition unnamed (c : Catalog) (id : ObjectId) : Prop :=
  (∀ k, relations c !! k ≠ Some id) ∧ (∀ k, triggers c !! k ≠ Some id) ∧ (∀ k, indexes c !! k ≠ Some id).

Lemma retire_all_spec c id e :
  owners_are_relations c → (id < length (objects c))%nat → known c e →
  let '(c', e') := retire_all c id e in
  known c' e' ∧ length (objects c') = length (objects c)
  ∧ (is_alive c id = false ∧ c' = c
     ∨ (∀ i, objects c' !! i = if decide (i ∈ id :: attached c id) then dead <$> objects c !! i else objects c !! i)
       ∧ relations c' = relations c
       ∧ (∀ k v, triggers c' !! k = Some v → triggers c !! k = Some v ∧ v ∉ attached c id)
       ∧ (∀ k v, indexes c' !! k = Some v → indexes c !! k = Some v ∧ v ∉ attached c id)).
Proof.
  intros Hown Hid He. unfold retire_all. destruct (length (objects c)) as [|n] eqn:En; [lia|].
  cbn [retire]. destruct (is_alive c id) eqn:Ea; cbn [negb]; [|split_and!; auto].
  assert (Hatt : ∀ d, d ∈ attached (kill c id) id ↔ d ∈ attached c id).
  { intros d. rewrite !attached_elem. setoid_rewrite kill_lookup. destruct (decide (d = id)) as [->|]; [|done].
    split; [|intros (o & Ho & Ha & Hw)].
    - intros (o & Ho & Ha & Hw). apply fmap_Some in Ho as (o' & _ & ->). done.
    - destruct (Hown _ _ _ Ho Hw) as (ow & How & Hr). assert (ow = o) as -> by congruence.
      by destruct (shape o) as [| |[?|?]|]. }
  set (ds := attached (kill c id) id) in *.
  pose proof (retire_dependents n ds (kill c id) (touch e id)) as Hdep.
  destruct (foldl _ (kill c id, touch e id) ds) as [c' e'].
  destruct Hdep as (Hdr & Hk & Hl).
  - by apply owners_kill.
  - intros d o Hd Ho. rewrite Hatt, attached_elem in Hd. destruct Hd as (o' & Ho' & _ & Hw).
    rewrite kill_lookup, Ho' in Ho. assert (Hs : shape o = shape o') by (case_decide; by injection Ho as <-).
    rewrite Hs. by destruct (shape o') as [| |[?|?]|].
  - intros d Hd. rewrite Hatt, attached_elem in Hd. destruct Hd as (o' & Ho' & _).
    rewrite kill_lookup, Ho'. case_decide; eauto.
  - apply known_touch; [rewrite kill_length; lia|]. unfold known in *. by rewrite kill_length.
  - rewrite kill_length in Hl. split_and!; [done|lia|]. right. destruct Hdr as [Ho Hr Ht Hi].
    split_and!.
    + intros i. rewrite Ho, kill_lookup.
      assert (Hin : i ∈ id :: attached c id ↔ i = id ∨ i ∈ ds) by (by rewrite elem_of_cons, Hatt).
      destruct (objects c !! i) as [[s a]|]; repeat case_decide; try reflexivity; tauto.
    + exact Hr.
    + intros k v Hv. apply Ht in Hv as [Hv Hn]. by rewrite Hatt in Hn.
    + intros k v Hv. apply Hi in Hv as [Hv Hn]. by rewrite Hatt in Hn.
Qed.

Lemma live_after c c' (ds : list ObjectId) p id :
  (∀ i, objects c' !! i = if decide (i ∈ ds) then dead <$> objects c !! i else objects c !! i) →
  id ∉ ds → live c p id → live c' p id.
Proof. intros Ho Hn (o & Hl & Ha & Hp). exists o. by rewrite Ho, decide_False. Qed.

Lemma wf_retire_all c id e :
  wf c → unnamed c id → (id < length (objects c))%nat → known c e →
  let '(c', e') := retire_all c id e in
  wf c' ∧ known c' e' ∧ length (objects c') = length (objects c).
Proof.
  intros Hc (Hur & Hut & Hui) Hid He.
  pose proof (retire_all_spec c id e (wf_owner_relation c Hc) Hid He) as Hspec.
  destruct (retire_all c id e) as [c' e']. destruct Hspec as (Hk & Hl & Hcase). split_and!; [|done|done].
  destruct Hcase as [[_ ->]|(Ho & Hr & Ht & Hi)]; [done|].
  assert (Hback : ∀ i o, objects c' !! i = Some o → ∃ o', objects c !! i = Some o' ∧ shape o = shape o'
    ∧ (alive o = true → alive o' = true ∧ i ∉ id :: attached c id)).
  { intros i o. rewrite Ho. case_decide; intros H'.
    - apply fmap_Some in H' as (o' & Ho' & ->). by exists o'.
    - exists o. auto. }
  split.
  - intros k i Hk'. rewrite Hr in Hk'. pose proof (wf_relations c Hc _ _ Hk') as Hlive.
    apply (live_after _ _ _ _ _ Ho); [|exact Hlive]. rewrite elem_of_cons. intros [->|Hatt]; [by eapply Hur|].
    apply attached_elem in Hatt as (o & Hoo & _ & Hw). destruct Hlive as (o' & Ho' & _ & Hp).
    assert (o' = o) as -> by congruence. by destruct (shape o) as [| |[?|?]|].
  - intros k i Hk'. apply Ht in Hk' as [Hk' Hn]. apply (live_after _ _ _ _ _ Ho); [|by eapply wf_triggers].
    rewrite elem_of_cons. intros [->|?]; [by eapply Hut|done].
  - intros k i Hk'. apply Hi in Hk' as [Hk' Hn]. apply (live_after _ _ _ _ _ Ho); [|by eapply wf_indexes].
    rewrite elem_of_cons. intros [->|?]; [by eapply Hui|done].
  - rewrite Hr. apply (wf_one_name c Hc).
  - intros k k' i [H1 _]%Ht [H2 _]%Ht. by eapply (wf_one_trigger c Hc).
  - intros k k' i [H1 _]%Hi [H2 _]%Hi. by eapply (wf_one_index c Hc).
  - intros i o w H1 Hw. apply Hback in H1 as (o' & Ho' & Hs & _). rewrite Hs in Hw.
    destruct (wf_owner_relation c Hc _ _ _ Ho' Hw) as (ow & How & Hrel). rewrite Ho, How.
    case_decide; [exists (dead ow)|exists ow]; done.
  - intros i o w H1 Ha Hw. apply Hback in H1 as (o' & Ho' & Hs & Hal). rewrite Hs in Hw.
    destruct (Hal Ha) as [Ha' Hni]. pose proof (wf_attached c Hc _ _ _ Ho' Ha' Hw) as Hlive.
    apply (live_after _ _ _ _ _ Ho); [|exact Hlive]. rewrite elem_of_cons. intros [->|Hatt].
    + apply Hni. apply list_elem_of_further. apply attached_elem. eauto.
    + apply attached_elem in Hatt as (ox & Hox & _ & Hwx). destruct Hlive as (oy & Hoy & _ & Hp).
      assert (oy = ox) as -> by congruence. by destruct (shape ox) as [| |[?|?]|].
Qed.

(** ** Naming and creating *)

Lemma wf_unname_relation c k : wf c → wf (with_relations c (base.delete k (relations c))).
Proof.
  intros [R T I OR OT OI OW A]. split; cbn; try done.
  - intros k' id [_ Hk]%lookup_delete_Some. by eapply R.
  - intros k1 k2 id [_ H1]%lookup_delete_Some [_ H2]%lookup_delete_Some. by eapply OR.
Qed.
Lemma wf_unname_trigger c k : wf c → wf (with_triggers c (base.delete k (triggers c))).
Proof.
  intros [R T I OR OT OI OW A]. split; cbn; try done.
  - intros k' id [_ Hk]%lookup_delete_Some. by eapply T.
  - intros k1 k2 id [_ H1]%lookup_delete_Some [_ H2]%lookup_delete_Some. by eapply OT.
Qed.
Lemma wf_unname_index c k : wf c → wf (with_indexes c (base.delete k (indexes c))).
Proof.
  intros [R T I OR OT OI OW A]. split; cbn; try done.
  - intros k' id [_ Hk]%lookup_delete_Some. by eapply I.
  - intros k1 k2 id [_ H1]%lookup_delete_Some [_ H2]%lookup_delete_Some. by eapply OI.
Qed.

Lemma live_disjoint c p q id : live c p id → live c q id → (∀ s, p s = true → q s = true → False) → False.
Proof. intros (o & Ho & _ & Hp) (o' & Ho' & _ & Hq) Hpq. rewrite Ho in Ho'. injection Ho' as <-. eauto. Qed.

Lemma relation_trigger s : is_relation s = true → is_trigger s = true → False.
Proof. by destruct s. Qed.
Lemma relation_index s : is_relation s = true → is_index s = true → False.
Proof. by destruct s. Qed.
Lemma trigger_index s : is_trigger s = true → is_index s = true → False.
Proof. by destruct s. Qed.

Lemma unnamed_relation c k id :
  wf c → relations c !! k = Some id → unnamed (with_relations c (base.delete k (relations c))) id.
Proof.
  intros Hc Hk. pose proof (wf_relations c Hc _ _ Hk) as Hl. split_and!; cbn; intros k' Hk'.
  - apply lookup_delete_Some in Hk' as [Hne Hk']. apply Hne. by eapply (wf_one_name c Hc).
  - eapply live_disjoint; [exact Hl | by eapply wf_triggers | apply relation_trigger].
  - eapply live_disjoint; [exact Hl | by eapply wf_indexes | apply relation_index].
Qed.
Lemma unnamed_trigger c k id :
  wf c → triggers c !! k = Some id → unnamed (with_triggers c (base.delete k (triggers c))) id.
Proof.
  intros Hc Hk. pose proof (wf_triggers c Hc _ _ Hk) as Hl. split_and!; cbn; intros k' Hk'.
  - eapply live_disjoint; [by eapply wf_relations | exact Hl | apply relation_trigger].
  - apply lookup_delete_Some in Hk' as [Hne Hk']. apply Hne. by eapply (wf_one_trigger c Hc).
  - eapply live_disjoint; [exact Hl | by eapply wf_indexes | apply trigger_index].
Qed.
Lemma unnamed_index c k id :
  wf c → indexes c !! k = Some id → unnamed (with_indexes c (base.delete k (indexes c))) id.
Proof.
  intros Hc Hk. pose proof (wf_indexes c Hc _ _ Hk) as Hl. split_and!; cbn; intros k' Hk'.
  - eapply live_disjoint; [by eapply wf_relations | exact Hl | apply relation_index].
  - eapply live_disjoint; [by eapply wf_triggers | exact Hl | apply trigger_index].
  - apply lookup_delete_Some in Hk' as [Hne Hk']. apply Hne. by eapply (wf_one_index c Hc).
Qed.

Lemma wf_name_relation c k id :
  wf c → live c is_relation id → (∀ k', relations c !! k' ≠ Some id) →
  wf (with_relations c (<[k := id]> (relations c))).
Proof.
  intros [R T I OR OT OI OW A] Hl Hu. split; cbn; try done.
  - intros k' i [[_ <-]|[_ Hk]]%lookup_insert_Some; [exact Hl | by eapply R].
  - intros k1 k2 i [[<- <-]|[_ H1]]%lookup_insert_Some [[<- Hi]|[_ H2]]%lookup_insert_Some; try done.
    + by apply Hu in H2.
    + subst i. by apply Hu in H1.
    + by eapply OR.
Qed.
Lemma wf_name_trigger c k id :
  wf c → live c is_trigger id → (∀ k', triggers c !! k' ≠ Some id) →
  wf (with_triggers c (<[k := id]> (triggers c))).
Proof.
  intros [R T I OR OT OI OW A] Hl Hu. split; cbn; try done.
  - intros k' i [[_ <-]|[_ Hk]]%lookup_insert_Some; [exact Hl | by eapply T].
  - intros k1 k2 i [[<- <-]|[_ H1]]%lookup_insert_Some [[<- Hi]|[_ H2]]%lookup_insert_Some; try done.
    + by apply Hu in H2.
    + subst i. by apply Hu in H1.
    + by eapply OT.
Qed.
Lemma wf_name_index c k id :
  wf c → live c is_index id → (∀ k', indexes c !! k' ≠ Some id) →
  wf (with_indexes c (<[k := id]> (indexes c))).
Proof.
  intros [R T I OR OT OI OW A] Hl Hu. split; cbn; try done.
  - intros k' i [[_ <-]|[_ Hk]]%lookup_insert_Some; [exact Hl | by eapply I].
  - intros k1 k2 i [[<- <-]|[_ H1]]%lookup_insert_Some [[<- Hi]|[_ H2]]%lookup_insert_Some; try done.
    + by apply Hu in H2.
    + subst i. by apply Hu in H1.
    + by eapply OI.
Qed.

Lemma live_create c s p id : live c p id → live (create c s).1 p id.
Proof.
  intros (o & Ho & Ha & Hp). exists o. split_and!; [|done..]. cbn. by apply lookup_app_l_Some.
Qed.

Lemma live_created c s p : p s = true → live (create c s).1 p (create c s).2.
Proof.
  intros Hp. exists {| shape := s; alive := true |}. split_and!; [|done..]. cbn.
  rewrite lookup_app_r, Nat.sub_diag by lia. done.
Qed.

Lemma wf_create c s :
  wf c → (∀ w, owner_of s = Some w → live c is_relation w) → wf (create c s).1.
Proof.
  intros [R T I OR OT OI OW A] Hs.
  assert (Hnew : ∀ i o, objects (create c s).1 !! i = Some o →
    objects c !! i = Some o ∨ o = {| shape := s; alive := true |}).
  { intros i o. cbn. intros [Hi|[_ Hi]]%lookup_app_Some; [by left|]. right.
    apply list_lookup_singleton_Some in Hi as [_ <-]. done. }
  split; try done.
  - intros k id Hk. by eapply live_create, R.
  - intros k id Hk. by eapply live_create, T.
  - intros k id Hk. by eapply live_create, I.
  - intros i o w Hi Hw. assert (Hl : live c is_relation w ∨ ∃ ow, objects c !! w = Some ow ∧ is_relation (shape ow) = true).
    { destruct (Hnew _ _ Hi) as [Hi' | ->]; [right; by eapply OW | left; by apply Hs]. }
    assert (∃ ow, objects c !! w = Some ow ∧ is_relation (shape ow) = true) as (ow & How & Hr)
      by (destruct Hl as [(ow & ? & _ & ?)|?]; eauto).
    exists ow. split; [|done]. cbn. by apply lookup_app_l_Some.
  - intros i o w Hi Ha Hw. apply live_create.
    destruct (Hnew _ _ Hi) as [Hi' | ->]; [by eapply A | by apply Hs].
Qed.

(** No name refers to an object before it is created. *)
Lemma fresh_unnamed c : wf c → unnamed c (length (objects c)).
Proof.
  intros Hc. split_and!; intros k Hk;
    [apply (wf_relations c Hc) in Hk | apply (wf_triggers c Hc) in Hk | apply (wf_indexes c Hc) in Hk];
    apply live_lt in Hk; lia.
Qed.

Lemma known_grow c c' e : (length (objects c) <= length (objects c'))%nat → known c e → known c' e.
Proof. intros Hl [Ht Hr]. split; (eapply Forall_impl; [eassumption|]; cbn; lia). Qed.
(** ** Reading *)

(** Every name is of an object of the catalogue. *)
Definition bounded (c : Catalog) : Prop := ∀ k id, relations c !! k = Some id → (id < length (objects c))%nat.

Lemma wf_bounded c : wf c → bounded c.
Proof. intros Hc k id Hk. by eapply live_lt, wf_relations. Qed.

Lemma known_read_names n c names e : bounded c → known c e → known c (read_names n c names e).
Proof.
  intros Hc. revert names e. induction n as [|n IH]; intros names e He; [done|]. cbn [read_names].
  apply foldl_inv; [done|]. intros e' word _ He'.
  destruct (relations c !! word) as [id|] eqn:Ek; [|done]. destruct (decide (id ∈ reads e')); [done|].
  assert (known c (read e' id)) by (apply known_read; [by eapply Hc | done]).
  destruct (shape <$> objects c !! id) as [[| | |]|]; auto.
Qed.

Lemma known_reads_of c names e : bounded c → known c e → known c (reads_of c names e).
Proof. apply known_read_names. Qed.

Lemma known_set_persistent c e : known c e → known c (set_persistent e).
Proof. done. Qed.

Lemma relation_bounded c name id : bounded c → relation c name = Some id → (id < length (objects c))%nat.
Proof.
  unfold relation. intros Hc Hr. apply bind_Some in Hr as ([schema key] & _ & Hr).
  destruct schema as [s|]; [destruct (negb (is_temp_schema s))|]; try done; by eapply Hc.
Qed.

Lemma known_record_target c name e : bounded c → known c e → known c (record_target c name e).
Proof.
  intros Hc He. unfold record_target. destruct (relation c name) as [id|] eqn:Er; [|done].
  pose proof (relation_bounded _ _ _ Hc Er).
  destruct (shape <$> objects c !! id) as [[| | |]|]; auto using known_touch, known_read.
Qed.

Lemma known_write n c name ev e fired :
  bounded c → known c e → known c (write relation_names n c name ev e fired).1.
Proof.
  intros Hc. revert name ev e fired. induction n as [|n IH]; intros name ev e fired He; [done|]. cbn [write].
  assert (known c (record_target c name e)) as He1 by (by apply known_record_target).
  destruct (written_owner c name) as [owner|]; [|done].
  apply (foldl_inv (λ s, known c s.1)); [done|]. intros [e2 fired2] [trigger object] Hin He2. cbn in He2.
  assert (trigger < length (objects c))%nat.
  { apply elem_of_lookup_imap in Hin as (i & o & [= -> ->] & Ho). by eapply lookup_lt_Some. }
  destruct (negb _); [done|]. destruct (decide _); [done|]. apply (foldl_inv (λ s, known c s.1)); [by apply known_read|].
  intros [e3 fired3] statement _ He3. cbn in He3.
  assert (known c (reads_of c (relation_names statement) e3)) by (by apply known_reads_of).
  destruct (row_write statement) as [[name' ev'|]|]; auto.
Qed.

(** ** Every statement keeps the catalogue well formed *)

(** What one step promises of the catalogue and the effects before and after it. *)
Definition good (state : Catalog * Effects) (n : nat) : Prop :=
  wf state.1 ∧ known state.1 state.2 ∧ (n <= length (objects state.1))%nat.

(** PostgreSQL renames at most once per [ALTER TABLE]. *)
Definition is_rename (operation : AlterTableOperation Payload) : bool :=
  match operation with RenameTo _ => true | _ => false end.
Definition single_rename (statement : Statement Payload) : bool :=
  match statement with
  | SAlterTable alter => (length (List.filter is_rename (at_operations alter)) <=? 1)%nat
  | _ => true
  end.

Lemma good_retire c id e n :
  wf c → unnamed c id → (id < length (objects c))%nat → known c e → (n <= length (objects c))%nat →
  good (retire_all c id e) n.
Proof.
  intros Hc Hu Hid He Hn. pose proof (wf_retire_all c id e Hc Hu Hid He) as H.
  destruct (retire_all c id e) as [c' e']. destruct H as (? & ? & Hl). split_and!; cbn; [done..|lia].
Qed.

Lemma good_retire_relation c k id e n :
  good (c, e) n → relations c !! k = Some id →
  good (retire_all (with_relations c (base.delete k (relations c))) id e) n.
Proof.
  intros (Hc & He & Hn) Hk. apply good_retire; cbn; [by apply wf_unname_relation|by apply unnamed_relation| |done|done].
  by eapply wf_bounded.
Qed.
Lemma good_retire_trigger c k id e n :
  good (c, e) n → triggers c !! k = Some id →
  good (retire_all (with_triggers c (base.delete k (triggers c))) id e) n.
Proof.
  intros (Hc & He & Hn) Hk. apply good_retire; cbn; [by apply wf_unname_trigger|by apply unnamed_trigger| |done|done].
  by eapply live_lt, wf_triggers.
Qed.
Lemma good_retire_index c k id e n :
  good (c, e) n → indexes c !! k = Some id →
  good (retire_all (with_indexes c (base.delete k (indexes c))) id e) n.
Proof.
  intros (Hc & He & Hn) Hk. apply good_retire; cbn; [by apply wf_unname_index|by apply unnamed_index| |done|done].
  by eapply live_lt, wf_indexes.
Qed.

Lemma create_length c s : length (objects (create c s).1) = S (length (objects c)).
Proof. cbn. rewrite length_app. cbn. lia. Qed.

Lemma known_created c s e :
  known c e → known (create c s).1 (touch e (create c s).2).
Proof.
  intros He. apply known_touch; [rewrite create_length; cbn; lia|]. eapply known_grow; [|done].
  rewrite create_length. lia.
Qed.

Lemma good_create_relation c name b s e n :
  is_relation s = true → good (c, e) n → good (create_relation c name b s e) n.
Proof.
  intros Hs (Hc & He & Hn). unfold create_relation. destruct (split_name name) as [[schema key]|]; [|done].
  destruct (b && _); [done|]. pose proof (known_created c s e He) as Hk.
  pose proof (create_length c s) as Hl. cbn in Hn.
  assert (Hw : wf (create c s).1) by (apply wf_create; [done|]; by destruct s).
  pose proof (live_created c s is_relation Hs) as Hlive.
  destruct (fresh_unnamed c Hc) as (Hu & _ & _).
  destruct (create c s) as [c1 id] eqn:E. injection E as <- <-. cbn -[create] in *.
  split_and!; cbn; [|exact Hk|lia]. apply (wf_name_relation _ key _ Hw Hlive Hu).
Qed.

Lemma good_create_attached c s e owner n key :
  good (c, e) n → owner_of s = None ∨ owner_of s = Some owner ∧ live c is_relation owner →
  is_trigger s = true →
  good (let '(c, id) := create c s in (with_triggers c (<[key := id]> (triggers c)), touch e id)) n.
Proof.
  intros (Hc & He & Hn) Ho Hs. pose proof (known_created c s e He) as Hk.
  pose proof (create_length c s) as Hl. cbn in Hn.
  assert (Hw : wf (create c s).1) by (apply wf_create; [done|]; naive_solver).
  pose proof (live_created c s is_trigger Hs) as Hlive. destruct (fresh_unnamed c Hc) as (_ & Hu & _).
  destruct (create c s) as [c1 id] eqn:E. injection E as <- <-. cbn in *.
  split_and!; cbn; [|exact Hk|lia]. apply (wf_name_trigger _ key _ Hw Hlive Hu).
Qed.

Lemma good_create_index c e owner n key :
  good (c, e) n → live c is_relation owner →
  good (let '(c, id) := create c (ShapeIndex owner) in
        (with_indexes c (<[key := id]> (indexes c)), touch (read e owner) id)) n.
Proof.
  intros (Hc & He & Hn) Ho.
  pose proof (known_created c (ShapeIndex owner) _ (known_read _ _ _ (live_lt _ _ _ Ho) He)) as Hk.
  pose proof (create_length c (ShapeIndex owner)) as Hl. cbn in Hn.
  assert (Hw : wf (create c (ShapeIndex owner)).1) by (apply wf_create; [done|]; naive_solver).
  pose proof (live_created c (ShapeIndex owner) is_index eq_refl) as Hlive. destruct (fresh_unnamed c Hc) as (_ & _ & Hu).
  destruct (create c (ShapeIndex owner)) as [c1 id] eqn:E. injection E as <- <-. cbn in *.
  split_and!; cbn; [|exact Hk|lia]. apply (wf_name_index _ key _ Hw Hlive Hu).
Qed.

Lemma relation_named c name id : relation c name = Some id → ∃ k, relations c !! k = Some id ∧
  ∃ schema, split_name name = Some (schema, k).
Proof.
  unfold relation. intros Hr. apply bind_Some in Hr as ([schema key] & Hs & Hr).
  exists key. split; [|by exists schema].
  destruct schema as [s|]; [destruct (negb (is_temp_schema s))|]; done.
Qed.

Lemma relation_live c name id : wf c → relation c name = Some id → live c is_relation id.
Proof. intros Hc (k & Hk & _)%relation_named. by eapply wf_relations. Qed.

Lemma wf_rename c from to id :
  wf c → relations c !! from = Some id →
  wf (with_relations c (<[to := id]> (base.delete from (relations c)))).
Proof.
  intros Hc Hk. pose proof (wf_unname_relation c from Hc) as Hw.
  destruct (unnamed_relation c from id Hc Hk) as (Hu & _ & _).
  apply (wf_name_relation _ to id Hw); [|exact Hu]. by apply (wf_relations c Hc from).
Qed.

Lemma alter_no_rename c name id ops :
  List.filter is_rename ops = [] → foldl (alter_operation name id) c ops = c.
Proof. induction ops as [|[] ops IH]; cbn; intros H; try done; by apply IH. Qed.

Lemma wf_alter c name id ops :
  wf c → relation c name = Some id → (length (List.filter is_rename ops) <= 1)%nat →
  let c' := foldl (alter_operation name id) c ops in wf c' ∧ objects c' = objects c.
Proof.
  cbn zeta. intros Hc Hr. induction ops as [|op ops IH]; [done|]. cbn [foldl List.filter].
  destruct op as [new_name| | | | | | |]; try exact IH. cbn [is_rename length]. intros Hl.
  rewrite alter_no_rename by (destruct (List.filter is_rename ops); [done|cbn in Hl; lia]).
  cbn [alter_operation]. apply relation_named in Hr as (from & Hk & schema & ->).
  destruct (split_name new_name) as [[? to]|]; [|done]. split; [by apply wf_rename|done].
Qed.

Lemma good_alter c alter e n :
  good (c, e) n → single_rename (SAlterTable alter) = true → good (alter_table c alter e) n.
Proof.
  intros Hg Hs. unfold alter_table. destruct (relation c (at_name alter)) as [id|] eqn:Er; [|done].
  destruct Hg as (Hc & He & Hn). apply Nat.leb_le in Hs.
  destruct (wf_alter c _ _ _ Hc Er Hs) as [Hw Ho]. split_and!; cbn; [done| |by rewrite Ho].
  apply known_touch; unfold known; rewrite Ho; [|done]. by eapply live_lt, relation_live.
Qed.

Lemma good_create_trigger c create' statements e n :
  good (c, e) n → good (create_trigger c create' statements e) n.
Proof.
  intros Hg. unfold create_trigger. destruct (split_name (tg_name create')) as [[sc key]|]; [|done]. clear sc.
  set (ow := match relation c _ with Some id => Some (OwnerConnection id, read e id) | None => _ end).
  assert (Ho : ∀ e1 owner, ow = Some (owner, e1) → good (c, e1) n ∧
    ∀ w, owner = OwnerConnection w → live c is_relation w).
  { unfold ow. destruct (relation c (tg_table_name create')) as [id|] eqn:Er.
    - intros e1 owner [= <- <-]. destruct Hg as (Hc & He & Hn). pose proof (relation_live _ _ _ Hc Er) as Hl.
      split; [|by intros w [= <-]]. split_and!; cbn; [done| |done]. apply known_read; [by eapply live_lt|done].
    - destruct (split_name (tg_table_name create')) as [[? table]|]; [|done]. by intros e1 owner [= <- <-]. }
  destruct ow as [[owner e1]|]; [|done]. specialize (Ho _ _ eq_refl) as [Hg1 Hlive].
  set (body := default [] statements).
  set (st := if tg_or_replace create' then _ else (c, e1)).
  assert (good st n ∧ ∀ w, owner = OwnerConnection w → live st.1 is_relation w) as [Hgs Hls].
  { unfold st. destruct (tg_or_replace create'); [|done].
    destruct (triggers c !! key) as [previous|] eqn:Ek; [|done].
    set (c2 := with_triggers c (base.delete key (triggers c))).
    split; [by apply good_retire_trigger|]. intros w Hw. specialize (Hlive w Hw).
    destruct Hg1 as (Hc & He & _). cbn in Hc, He.
    assert (Hp : live c is_trigger previous) by by eapply wf_triggers.
    pose proof (retire_all_spec c2 previous e1 (wf_owner_relation c Hc) (live_lt _ _ _ Hp) He) as Hspec.
    destruct (retire_all c2 previous e1) as [c3 e3]. destruct Hspec as (_ & _ & [[_ ->]|(Ho & _)]); [done|].
    apply (live_after _ _ _ _ _ Ho); [|done].
    rewrite (nothing_attached c2); [|exact (wf_owner_relation c Hc)|].
    - intros ->%list_elem_of_singleton. by eapply (live_disjoint c _ _ previous Hlive Hp), relation_trigger.
    - destruct Hp as (op & Hop & _ & Ht). intros o' Ho'. assert (o' = op) as -> by (unfold c2 in Ho'; cbn in Ho'; congruence).
      by destruct (shape op). }
  destruct st as [c2 e2]. cbn in Hls.
  apply (good_create_attached c2 _ e2 match owner with OwnerConnection w => w | _ => O end); [done| |done].
  destruct owner as [w|t]; [right|by left]. split; [done|]. by apply Hls.
Qed.

Lemma good_drop c ot names e n : good (c, e) n → good (drop c ot names e) n.
Proof.
  intros Hg. unfold drop. apply (foldl_inv (λ st, good st n)); [done|]. clear. intros [c e] name _ Hg.
  unfold drop_name. destruct (split_name name) as [[schema key]|]; [|done].
  destruct (match schema with Some s => _ | None => false end); [done|].
  destruct ot; try done.
  - destruct (relations c !! key) eqn:E; [by apply good_retire_relation|done].
  - destruct (relations c !! key) eqn:E; [by apply good_retire_relation|done].
  - destruct (indexes c !! key) eqn:E; [by apply good_retire_index|done].
Qed.

Lemma good_reads_of c names e n : good (c, e) n → good (c, reads_of c names e) n.
Proof. intros (Hc & He & Hn). split_and!; cbn; [done| |done]. apply known_reads_of; [by apply wf_bounded|done]. Qed.

Lemma good_rows c statement e n :
  good (c, e) n →
  good match row_write statement with
       | None => (c, e)
       | Some row =>
           let effects := reads_of c (relation_names statement) e in
           match row with
           | WriteTable name events => (c, write_rows relation_names c name events effects)
           | Untracked => (c, set_persistent effects)
           end
       end n.
Proof.
  intros Hg. destruct (row_write statement) as [row|]; [|done].
  pose proof (good_reads_of c (relation_names statement) e n Hg) as (Hc & He & Hn). cbn zeta.
  destruct row; split_and!; cbn; try done. apply known_write; [by apply wf_bounded|done].
Qed.

Lemma good_statement c e statement n :
  good (c, e) n → single_rename statement = true →
  good (apply_statement relation_names query_relation_names (c, e) statement) n.
Proof.
  intros Hg Hs. destruct statement; try done; try (apply good_rows; done).
  - cbn [apply_statement]. destruct (is_temporary _ _); [|done]. apply good_create_relation; [done|].
    destruct (ct_query create0); [by apply good_reads_of|done].
  - cbn [apply_statement]. destruct (is_temporary _ _); [|done]. by apply good_create_relation.
  - cbn [apply_statement]. destruct (is_temporary _ _); [|done].
    set (st := if cv_or_replace create0 then _ else (c, e)).
    assert (good st n) as Hst.
    { unfold st. destruct (cv_or_replace create0); [|done]. destruct (split_name _) as [[? key]|]; [|done].
      destruct (relations c !! key) eqn:Ek; [by apply good_retire_relation|done]. }
    destruct st as [c1 e1]. by apply good_create_relation.
  - cbn [apply_statement]. destruct (relation c _) as [owner|] eqn:Er; [|done].
    destruct (ci_name create0 ≫= split_name) as [[? key]|]; [|done].
    apply (good_create_index c e owner n key Hg). destruct Hg as (Hc & _). by eapply relation_live.
  - cbn [apply_statement]. destruct (_ || _); [|done]. by apply good_create_trigger.
  - by apply good_drop.
  - cbn [apply_statement]. destruct (split_name trigger_name) as [[? key]|]; [|done].
    destruct (triggers c !! key) eqn:Ek; [by apply good_retire_trigger|done].
  - by apply good_alter.
Qed.

Lemma good_apply c unit_statements :
  wf c → forallb single_rename unit_statements = true →
  good (apply relation_names query_relation_names c unit_statements) (length (objects c)).
Proof.
  intros Hc Hs. unfold apply. apply (foldl_inv (λ st, good st (length (objects c)))).
  - split_and!; cbn; [done| split; apply Forall_nil |lia]; done.
  - intros [c1 e1] s Hin Hg. apply good_statement; [done|].
    rewrite forallb_forall in Hs. apply Hs. by apply list_elem_of_In.
Qed.

Lemma wf_default : wf (@catalog_default Payload).
Proof. split; cbn; try (intros *; by rewrite lookup_empty); by intros []. Qed.

(** ** The reads of a name *)

(** What reading the names reads: the relation of each, and for a view whatever
    reading its bases reads. *)
Inductive Reads (c : Catalog) : list str → ObjectId → Prop :=
| Reads_name names word id : word ∈ names → relations c !! word = Some id → Reads c names id
| Reads_view names word id o bases id' :
    word ∈ names → relations c !! word = Some id → objects c !! id = Some o → shape o = ShapeView bases →
    Reads c bases id' → Reads c names id'.

(** The bases of every view among the reads but not in [old] are read too. *)
Definition closed (c : Catalog) (old ids : list ObjectId) : Prop :=
  ∀ id o bases word id', id ∈ ids → id ∉ old → objects c !! id = Some o → shape o = ShapeView bases →
    word ∈ bases → relations c !! word = Some id' → id' ∈ ids.

(** The recorded reads are duplicate-free objects of the catalogue. *)
Definition readable (c : Catalog) (e : Effects) : Prop :=
  NoDup (reads e) ∧ Forall (λ id, id < length (objects c))%nat (reads e).

Record read_spec (c : Catalog) (names : list str) (e e' : Effects) : Prop := {
  rs_readable : readable c e';
  rs_mono : ∀ id, id ∈ reads e → id ∈ reads e';
  rs_roots : ∀ word id, word ∈ names → relations c !! word = Some id → id ∈ reads e';
  rs_closed : closed c (reads e) (reads e');
  rs_sound : ∀ id, id ∈ reads e' → id ∈ reads e ∨ Reads c names id;
  rs_rest : touches e' = touches e ∧ persistent_write e' = persistent_write e
}.

Lemma readable_length c e : readable c e → (length (reads e) <= length (objects c))%nat.
Proof. intros [Hn Hb]. by apply NoDup_bounded_length. Qed.

Lemma reads_mono_length c e e' :
  readable c e → (∀ id, id ∈ reads e → id ∈ reads e') → (length (reads e) <= length (reads e'))%nat.
Proof. intros [Hn _] Hs. by apply submseteq_length, NoDup_submseteq. Qed.

Lemma read_new c e id :
  readable c e → (id < length (objects c))%nat → id ∉ reads e →
  readable c (read e id) ∧ reads (read e id) = reads e ++ [id].
Proof.
  intros [Hn Hb] Hid Hni. assert (Hr : reads (read e id) = reads e ++ [id]).
  { cbn. unfold push_new. by rewrite decide_False. }
  split; [|done]. split; cbn; [by apply push_new_NoDup | by apply Forall_push_new].
Qed.

Lemma read_spec_refl c e : readable c e → read_spec c [] e e.
Proof.
  intros H. split; auto; [by intros word id ?%elem_of_nil|]. intros id o bases word id' H1 H2. done.
Qed.

Lemma Reads_mono c ns ns' id : (∀ w, w ∈ ns → w ∈ ns') → Reads c ns id → Reads c ns' id.
Proof. intros Hi Hr. destruct Hr; [eapply Reads_name|eapply Reads_view]; eauto. Qed.

(** Reading one name after others. *)
Lemma read_spec_step c names word e e1 e2 :
  read_spec c names e e1 → read_spec c [word] e1 e2 → read_spec c (names ++ [word]) e e2.
Proof.
  intros [R1 M1 T1 C1 S1 [E1 P1]] [R2 M2 T2 C2 S2 [E2 P2]]. split; auto; [| | |split; congruence].
  - intros w id [Hw|Hw]%elem_of_app Hk; eauto.
  - intros id o bases w id' Hin Hn Ho Hs Hw Hk. destruct (decide (id ∈ reads e1)) as [H1|H1]; [|by eapply C2].
    apply M2. by eapply C1.
  - intros id [[Hi|Hi]%S1|Hi]%S2; [by left|right; eapply Reads_mono, Hi..].
    + intros w Hw. apply elem_of_app. by left.
    + intros w Hw. apply elem_of_app. by right.
Qed.

(** The recursion of [reads] reaches its end within the fuel, and computes
    exactly the closure. *)
Lemma read_names_spec n c names e :
  bounded c → readable c e → (length (objects c) - length (reads e) < n)%nat →
  read_spec c names e (read_names n c names e).
Proof.
  intros Hc. revert names e. induction n as [|n IH]; intros names e He Hn; [lia|]. cbn [read_names].
  set (step := fun (effects : Effects) (word : str) => _).
  assert (Hstep : ∀ e1 word, readable c e1 → (length (reads e) <= length (reads e1))%nat →
    read_spec c [word] e1 (step e1 word)).
  { intros e1 word H1 Hl. unfold step.
    assert (Hw : ∀ w (P : Prop), w ∈ [word] → (w = word → P) → P) by (intros w P ->%list_elem_of_singleton; auto).
    destruct (relations c !! word) as [id|] eqn:Ek.
    2:{ split; auto; [|by intros ? ? ? ? ? ? ?]. intros w id H Hk. apply (Hw w _ H). intros ->. congruence. }
    destruct (decide (id ∈ reads e1)) as [Hin|Hin].
    { split; auto; [|by intros ? ? ? ? ? ? ?]. intros w id' H Hk. apply (Hw w _ H). intros ->. congruence. }
    destruct (read_new c e1 id H1 (Hc _ _ Ek) Hin) as [H2 Hr].
    assert (Hroot : Reads c [word] id) by (eapply Reads_name; [apply list_elem_of_here|done]).
    assert (Hplain : (∀ o bases, objects c !! id = Some o → shape o ≠ ShapeView bases) →
      read_spec c [word] e1 (read e1 id)).
    { intros Hno. split; rewrite ?Hr; auto.
      - intros x Hx. apply elem_of_app. by left.
      - intros w id' H Hk. apply (Hw w _ H). intros ->. apply elem_of_app. right. apply list_elem_of_singleton. congruence.
      - intros x o bases w id' [Hx| ->%list_elem_of_singleton]%elem_of_app Hnx Ho Hs; [done|]. by destruct (Hno o bases).
      - intros x [Hx| ->%list_elem_of_singleton]%elem_of_app; auto. }
    destruct (objects c !! id) as [o|] eqn:Eo; cbn; [|by apply Hplain].
    destruct (shape o) as [|bases| |] eqn:Es; try (apply Hplain; congruence).
    destruct (IH bases (read e1 id)) as [R2 M2 T2 C2 S2 [E2 P2]]; [done|rewrite Hr, length_app; cbn; pose proof (readable_length _ _ H2) as Hb; rewrite Hr, length_app in Hb; cbn in Hb; lia|].
    rewrite Hr in M2, S2, C2. split; auto.
    - intros x Hx. apply M2, elem_of_app. by left.
    - intros w id' H Hk. apply (Hw w _ H). intros ->. apply M2, elem_of_app. right. apply list_elem_of_singleton. congruence.
    - intros x o' bases' w id' Hx Hnx Ho' Hs' Hw' Hk'. destruct (decide (x = id)) as [->|Hne].
      + assert (o' = o) as -> by congruence. rewrite Es in Hs'. injection Hs' as <-. by eapply T2.
      + eapply C2; eauto. rewrite elem_of_app, list_elem_of_singleton. tauto.
    - intros x [[Hx| ->%list_elem_of_singleton]%elem_of_app|Hx]%S2; auto. right. eapply Reads_view; eauto. apply list_elem_of_here. }
  clearbody step. clear IH.
  assert (Hgen : ∀ l seen e1, read_spec c seen e e1 → read_spec c (seen ++ l) e (foldl step e1 l)).
  { induction l as [|word l IHl]; intros seen e1 Hd; cbn [foldl]; [by rewrite app_nil_r|].
    rewrite cons_middle, app_assoc. apply IHl. eapply read_spec_step; [exact Hd|]. apply Hstep; [apply Hd|].
    apply (reads_mono_length c); [done|apply Hd]. }
  apply (Hgen names [] e). by apply read_spec_refl.
Qed.

Lemma reads_of_spec c names e : bounded c → readable c e → read_spec c names e (reads_of c names e).
Proof. intros Hc He. apply read_names_spec; [done..|]. lia. Qed.

Lemma closed_reads c old ids names id :
  closed c old ids → (∀ id, id ∈ old → id ∈ ids) →
  (∀ id o bases word id', id ∈ old → objects c !! id = Some o → shape o = ShapeView bases →
    word ∈ bases → relations c !! word = Some id' → id' ∈ old) →
  (∀ word id, word ∈ names → relations c !! word = Some id → id ∈ ids) →
  Reads c names id → id ∈ ids.
Proof.
  intros Hcl Hsub Hold Hroots Hr. induction Hr as [names word id Hw Hk|names word id o bases id' Hw Hk Ho Hs Hr IH].
  - by eapply Hroots.
  - apply IH. intros w i Hw' Hk'. destruct (decide (id ∈ old)) as [Hi|Hi].
    + apply Hsub. by eapply Hold.
    + eapply (Hcl id o bases); eauto.
Qed.

(** ** The triggers a write fires *)

Implicit Types (statement st : Statement Payload) (name : ObjectName Payload) (ev : Events).

(** The kinds of row event a statement raises. *)
Definition kinds : list Events := [INSERT; UPDATE; DELETE; UPSERT].

Lemma row_write_kinds statement name ev : row_write statement = Some (WriteTable name ev) → ev ∈ kinds.
Proof.
  clear relation_names query_relation_names. revert statement name ev. fix IH 1. intros statement name ev Hr.
  destruct statement; try done; cbn in Hr.
  - destruct table; try done. injection Hr as <- <-. unfold kinds.
    destruct on as [[[]|]|]; rewrite !elem_of_cons; tauto.
  - destruct relation0; try done. injection Hr as <- <-. unfold kinds. rewrite !elem_of_cons; tauto.
  - destruct from as [|[] ?]; try done. injection Hr as <- <-. unfold kinds. rewrite !elem_of_cons; tauto.
  - destruct body as [s|s|s|s|s]; try done; exact (IH s name ev Hr).
Qed.

(** A write of [ev] to [name] fires the trigger [t]. *)
Definition fires_on (c : Catalog) (name : ObjectName Payload) (ev : Events) (t : ObjectId) : Prop :=
  ∃ owner o, written_owner c name = Some owner ∧ objects c !! t = Some o ∧ fires owner ev o = true.

Definition body_at (c : Catalog) (t : ObjectId) : list (Statement Payload) :=
  match objects c !! t with Some o => body_of o | None => [] end.

(** The writes a write performs through the triggers it fires. *)
Inductive Writes (c : Catalog) (name : ObjectName Payload) (ev : Events) : ObjectName Payload → Events → Prop :=
| Writes_self : Writes c name ev name ev
| Writes_trigger name1 ev1 t statement name2 ev2 :
    Writes c name ev name1 ev1 → fires_on c name1 ev1 t → statement ∈ body_at c t →
    row_write statement = Some (WriteTable name2 ev2) → Writes c name ev name2 ev2.

(** The write reaches a table stored in the file: a name the connection does not
    own, or something the analysis cannot name. *)
Definition WritesFile (c : Catalog) (name : ObjectName Payload) (ev : Events) : Prop :=
  ∃ name' ev', Writes c name ev name' ev' ∧
    (relation c name' = None ∨
     ∃ t statement, fires_on c name' ev' t ∧ statement ∈ body_at c t ∧ row_write statement = Some Untracked).

Lemma Writes_after c name ev t statement name1 ev1 name2 ev2 :
  fires_on c name ev t → statement ∈ body_at c t → row_write statement = Some (WriteTable name1 ev1) →
  Writes c name1 ev1 name2 ev2 → Writes c name ev name2 ev2.
Proof.
  intros Hf Hs Hr. induction 1 as [|name3 ev3 t' st' name4 ev4 _ IH Hf' Hs' Hr'].
  - eapply Writes_trigger; [apply Writes_self|done..].
  - by eapply Writes_trigger.
Qed.

(** Nothing but such a write sets the flag, whatever the fuel. *)
Lemma read_names_persistent n c names e : persistent_write (read_names n c names e) = persistent_write e.
Proof.
  revert names e. induction n as [|n IH]; intros names e; [done|]. cbn [read_names].
  apply (foldl_inv (λ e', persistent_write e' = persistent_write e)); [done|]. intros e' word _ He'.
  destruct (relations c !! word) as [id|]; [|done]. destruct (decide _); [done|].
  destruct (shape <$> objects c !! id) as [[| | |]|]; rewrite ?IH; done.
Qed.

Lemma reads_of_persistent c names e : persistent_write (reads_of c names e) = persistent_write e.
Proof. apply read_names_persistent. Qed.

Lemma record_target_persistent c name e :
  persistent_write (record_target c name e) = true ↔ persistent_write e = true ∨ relation c name = None.
Proof.
  unfold record_target. destruct (relation c name) as [id|]; cbn; [|tauto].
  destruct (shape <$> objects c !! id) as [[| | |]|]; cbn; naive_solver.
Qed.

Lemma write_sound n c name ev e fired :
  persistent_write (write relation_names n c name ev e fired).1 = true →
  persistent_write e = true ∨ WritesFile c name ev.
Proof.
  revert name ev e fired. induction n as [|n IH]; intros name ev e fired; [by left|]. cbn [write].
  set (P := λ s : Effects * Fired, persistent_write s.1 = true → persistent_write e = true ∨ WritesFile c name ev).
  assert (Hself : persistent_write (record_target c name e) = true → persistent_write e = true ∨ WritesFile c name ev).
  { intros [?|Hn]%record_target_persistent; [by left|right]. exists name, ev. split; [apply Writes_self|by left]. }
  destruct (written_owner c name) as [owner|] eqn:Eo; [|done].
  apply (foldl_inv P); [exact Hself|]. intros [e1 fired1] [t o] Hin HP. unfold P in HP; cbn in HP.
  destruct (fires owner ev o) eqn:Ef; [|done]. cbn [negb]. destruct (decide _); [done|].
  assert (Ho : objects c !! t = Some o) by (apply elem_of_lookup_imap in Hin as (i & x & [= -> ->] & Hx); done).
  assert (Hf : fires_on c name ev t) by by exists owner, o.
  apply (foldl_inv P); [exact HP|]. clear HP. intros [e2 fired2] st Hst HP. unfold P in HP |- *; cbn in HP.
  assert (Hbody : st ∈ body_at c t) by (unfold body_at; by rewrite Ho).
  destruct (row_write st) as [[name' ev'|]|] eqn:Er; cbn zeta; cbn [fst].
  - intros [Hp|(n2 & ev2 & Hw & Hstored)]%IH; [by apply HP; rewrite reads_of_persistent in Hp|].
    right. exists n2, ev2. split; [by eapply Writes_after|done].
  - intros _. right. exists name, ev. split; [apply Writes_self|right; eauto].
  - intros Hp. apply HP. by rewrite reads_of_persistent in Hp.
Qed.

(** The flag and the firings of a state, and the order in which they grow. *)
Abbreviation State := (Effects * Fired)%type.

Definition grows (s s' : State) : Prop :=
  (persistent_write s.1 = true → persistent_write s'.1 = true) ∧ ∀ p, p ∈ s.2 → p ∈ s'.2.

(** The state accounts for a write, and for what a statement of a trigger body writes. *)
Definition handled (c : Catalog) name ev (s : State) : Prop :=
  (relation c name = None → persistent_write s.1 = true) ∧ ∀ t, fires_on c name ev t → (t, ev) ∈ s.2.
Definition settled (c : Catalog) statement (s : State) : Prop :=
  match row_write statement with
  | Some (WriteTable name ev) => handled c name ev s
  | Some Untracked => persistent_write s.1 = true
  | None => True
  end.

(** The firings are different pairs of an object and a kind of event. *)
Definition firing_ok (c : Catalog) (fired : Fired) : Prop :=
  NoDup fired ∧ ∀ p, p ∈ fired → (p.1 < length (objects c))%nat ∧ p.2 ∈ kinds.

(** What every part of [write] does to the state: it grows, and the bodies of
    the newly fired triggers are accounted for. *)
Record advances (c : Catalog) (s s' : State) : Prop := {
  adv_ok : firing_ok c s.2 → firing_ok c s'.2;
  adv_grows : grows s s';
  adv_settled : ∀ p, p ∈ s'.2 → p ∉ s.2 → ∀ st, st ∈ body_at c p.1 → settled c st s'
}.

Lemma grows_refl s : grows s s.
Proof. by split. Qed.
Lemma grows_trans s1 s2 s3 : grows s1 s2 → grows s2 s3 → grows s1 s3.
Proof. intros [H1 H2] [H3 H4]. split; auto. Qed.

Lemma handled_grows c name ev s s' : grows s s' → handled c name ev s → handled c name ev s'.
Proof. intros [Hp Hf] [H1 H2]. split; auto. Qed.
Lemma settled_grows c st s s' : grows s s' → settled c st s → settled c st s'.
Proof.
  intros Hg. unfold settled. destruct (row_write st) as [[name ev|]|]; [by apply handled_grows|apply Hg|done].
Qed.

Lemma advances_refl c s : advances c s s.
Proof. by split. Qed.

Lemma advances_trans c s1 s2 s3 : advances c s1 s2 → advances c s2 s3 → advances c s1 s3.
Proof.
  intros [O1 G1 S1] [O2 G2 S2]. split; [auto|by eapply grows_trans|]. intros p Hp Hn st Hst.
  destruct (decide (p ∈ s2.2)) as [H2|H2]; [|by eapply S2]. eapply settled_grows; [exact G2|]. by eapply S1.
Qed.

(** A step that fires nothing. *)
Lemma advances_same c s s' :
  s'.2 = s.2 → (persistent_write s.1 = true → persistent_write s'.1 = true) → advances c s s'.
Proof. intros H2 Hp. split; [by rewrite H2|split; [done|by rewrite H2]|]. rewrite H2. by intros p ? ?. Qed.

Lemma firing_length c fired : firing_ok c fired → (length fired <= 4 * length (objects c))%nat.
Proof.
  intros [Hn Hb].
  transitivity (length (list_prod (seq 0 (length (objects c))) kinds)).
  2:{ rewrite length_prod, length_seq. cbn. lia. }
  apply submseteq_length, NoDup_submseteq; [done|]. intros [t ev] Hp. apply list_elem_of_In, in_prod_iff.
  destruct (Hb _ Hp) as [Ht Hk]. cbn in *. split; [apply in_seq; lia|]. apply list_elem_of_In in Hk. exact Hk.
Qed.

Lemma grows_length s s' c : firing_ok c s.2 → grows s s' → (length s.2 <= length s'.2)%nat.
Proof. intros [Hn _] [_ Hg]. by apply submseteq_length, NoDup_submseteq. Qed.

Lemma fire_ok c e fired t ev :
  firing_ok c fired → (t < length (objects c))%nat → ev ∈ kinds → (t, ev) ∉ fired →
  firing_ok c (read e t, fired ++ [(t, ev)]).2.
Proof.
  intros [Hd Hall] Ht Hk Hn. split; cbn.
  - apply NoDup_app. split_and!; [done| |apply NoDup_singleton]. intros p Hp ->%list_elem_of_singleton. done.
  - intros p [Hp| ->%list_elem_of_singleton]%elem_of_app; [by apply Hall|done].
Qed.

(** The firing of one trigger, given that the writes of its body are accounted for. *)
Lemma advances_fire c (s : State) t ev s' :
  (t < length (objects c))%nat → ev ∈ kinds → (t, ev) ∉ s.2 →
  advances c (read s.1 t, s.2 ++ [(t, ev)]) s' → (∀ st, st ∈ body_at c t → settled c st s') →
  advances c s s' ∧ (t, ev) ∈ s'.2.
Proof.
  intros Ht Hk Hn [O [G1 G2] S] Hb. assert (Hin : (t, ev) ∈ s'.2).
  { apply G2. cbn. apply elem_of_app. right. apply list_elem_of_here. }
  split; [|done]. split.
  - intros Hok. by apply O, (fire_ok c s.1).
  - split; [exact G1|]. intros p Hp. apply G2. cbn. apply elem_of_app. by left.
  - intros p Hp Hnp st Hst. destruct (decide (p = (t, ev))) as [->|Hne]; [by apply Hb|].
    apply (S p Hp); [|done]. cbn. rewrite elem_of_app, list_elem_of_singleton. tauto.
Qed.

Lemma written_owner_None c name : written_owner c name = None → relation c name = None.
Proof. unfold written_owner. by destruct (relation c name). Qed.

(** With fuel for the firings that remain, [write] accounts for the whole write. *)
Definition accounts (n : nat) (c : Catalog) : Prop := ∀ name ev (s : State),
  firing_ok c s.2 → ev ∈ kinds → (4 * length (objects c) - length s.2 < n)%nat →
  let s' := write relation_names n c name ev s.1 s.2 in advances c s s' ∧ handled c name ev s'.

(** One trigger, fired with fuel for what its body fires. *)
Lemma write_body n c e1 fired1 t ev :
  accounts n c → firing_ok c fired1 → (t < length (objects c))%nat → ev ∈ kinds → (t, ev) ∉ fired1 →
  (4 * length (objects c) - length fired1 < S n)%nat →
  let s' := foldl (λ '(effects, fired) statement,
    let effects := reads_of c (relation_names statement) effects in
    match row_write statement with
    | Some (WriteTable name events) => write relation_names n c name events effects fired
    | Some Untracked => (set_persistent effects, fired)
    | None => (effects, fired)
    end) (read e1 t, fired1 ++ [(t, ev)]) (body_at c t) in
  advances c (e1, fired1) s' ∧ (t, ev) ∈ s'.2.
Proof.
  intros IH Hok1 Ht Hk Hf Hn. cbn zeta. pose proof (fire_ok c e1 fired1 t ev Hok1 Ht Hk Hf) as Hokf.
  match goal with |- context [foldl ?f ?s ?l] => set (step := f); set (s1 := s);
    destruct (foldl_steps (advances c) (settled c) step l s1) as [Hb Hbs] end.
  - apply advances_refl.
  - apply advances_trans.
  - intros st s2 s3 Hs. apply settled_grows, Hs.
  - intros [e2 fired2] st _ Hadv2. unfold step, settled.
    destruct (row_write st) as [[name' ev'|]|] eqn:Er.
    + assert (Hok2 : firing_ok c fired2) by exact (adv_ok _ _ _ Hadv2 Hokf).
      pose proof (grows_length s1 (e2, fired2) c Hokf (adv_grows _ _ _ Hadv2)) as Hg.
      cbn in Hg. rewrite length_app in Hg. cbn in Hg.
      destruct (IH name' ev' (reads_of c (relation_names st) e2, fired2)) as [H1 H2];
        [exact Hok2|by eapply row_write_kinds| |].
      { cbn [snd] in *. pose proof (firing_length c fired2 Hok2). lia. }
      split; [|exact H2]. eapply advances_trans; [|exact H1].
      apply advances_same; [done|]. cbn [fst]. by rewrite reads_of_persistent.
    + split; [by apply advances_same|done].
    + split; [|done]. apply advances_same; [done|]. cbn [fst]. by rewrite reads_of_persistent.
  - by apply (advances_fire c (e1, fired1) t ev).
Qed.

Lemma write_spec n c : accounts n c.
Proof.
  induction n as [|n IH]; intros name ev [e fired] Hok Hk Hn; [lia|].
  cbn [write fst snd]. cbn [snd] in Hok, Hn. pose proof (proj2 (record_target_persistent c name e)) as Hrt.
  assert (H0 : advances c (e, fired) (record_target c name e, fired)) by (apply advances_same; cbn; auto).
  destruct (written_owner c name) as [owner|] eqn:Eo.
  2:{ pose proof (written_owner_None _ _ Eo). split; [done|]. split; cbn; [auto|].
      intros t (owner & o & Ho & _). congruence. }
  set (Q := fun (x : ObjectId * Object) (s : State) => fires owner ev x.2 = true → (x.1, ev) ∈ s.2).
  match goal with |- context [foldl ?f ?s ?l] => set (step := f);
    destruct (foldl_steps (advances c) Q step l s) as [Ha Hq] end.
  - apply advances_refl.
  - apply advances_trans.
  - intros [t o] s1 s2 [_ [_ Hg] _] Hq Hf. by apply Hg, Hq.
  - intros [e1 fired1] [t o] Hin Hadv. unfold step, Q. cbn [fst snd].
    assert (Ho : objects c !! t = Some o) by (apply elem_of_lookup_imap in Hin as (i & x & [= -> ->] & Hx); done).
    destruct (fires owner ev o) eqn:Ef; cbn [negb]; [|split; [apply advances_refl|done]].
    case_decide as Hf; [split; [apply advances_refl|done]|].
    assert (Hok1 : firing_ok c fired1) by exact (adv_ok _ _ _ Hadv Hok).
    pose proof (grows_length (record_target c name e, fired) (e1, fired1) c Hok (adv_grows _ _ _ Hadv)) as Hl. cbn in Hl.
    replace (body_of o) with (body_at c t) by (unfold body_at; by rewrite Ho).
    destruct (write_body n c e1 fired1 t ev) as [H1 H2]; [done|done|by eapply lookup_lt_Some|done|done|lia|].
    split; [exact H1|]. intros _. exact H2.
  - split; [by eapply advances_trans|]. split.
    + intros Hr. apply (adv_grows _ _ _ Ha). cbn. auto.
    + intros t (owner' & o & Ho & Hl & Hf). assert (owner' = owner) as -> by congruence.
      apply (Hq (t, o)); [|exact Hf]. apply elem_of_lookup_imap. eauto.
Qed.

Lemma writes_handled c name ev name' ev' s :
  advances c ((effects_default, []) : State) s → handled c name ev s → Writes c name ev name' ev' →
  handled c name' ev' s.
Proof.
  intros Ha Hh. induction 1 as [|name1 ev1 t st name2 ev2 _ IH Hf Hst Hr]; [done|].
  assert (Hs : settled c st s).
  { apply (adv_settled _ _ _ Ha (t, ev1)); [by apply IH| |done]. cbn. by intros ?%elem_of_nil. }
  unfold settled in Hs. by rewrite Hr in Hs.
Qed.

Lemma write_rows_complete c name ev e :
  ev ∈ kinds → WritesFile c name ev → persistent_write (write_rows relation_names c name ev e) = true.
Proof.
  intros Hk (name' & ev' & Hw & Hstored). unfold write_rows.
  assert (Hok : firing_ok c []) by (split; [apply NoDup_nil_2|by intros p ?%elem_of_nil]).
  destruct (write_spec (S (4 * length (objects c))) c name ev (e, []) Hok Hk) as [Ha Hh]; [cbn; lia|].
  cbn [fst snd] in *. set (s := write _ _ _ _ _ _ _) in *.
  assert (Hin : ∀ p : ObjectId * Events, p ∉ ([] : Fired)) by by intros p ?%elem_of_nil.
  assert (Ha' : advances c (effects_default, []) s).
  { split; [by apply Ha|split; [done|by intros p ?%Hin]|]. intros p Hp _. apply (adv_settled _ _ _ Ha p Hp (Hin p)). }
  destruct (writes_handled c name ev name' ev' s Ha' Hh Hw) as [H1 H2].
  destruct Hstored as [Hnone|(t & st & Hf & Hst & Hr)]; [by apply H1|].
  pose proof (adv_settled _ _ _ Ha (t, ev') (H2 t Hf) (Hin _) st Hst) as Hs.
  unfold settled in Hs. by rewrite Hr in Hs.
Qed.

(** ** Properties *)

(** C34 (catalogue invariant). From a well-formed catalogue, the statements of any
    unit leave a well-formed one: every name is of a live object of its kind, no
    object has two names, and no live trigger or index outlives the relation of the
    connection it is attached to.  The effects name only objects of the catalogue,
    and objects are never removed, so the positions later code indexes with stay
    within bounds. *)
Theorem catalog_invariant c unit_statements :
  wf c → forallb single_rename unit_statements = true →
  let '(c', effects) := apply relation_names query_relation_names c unit_statements in
  wf c' ∧ known c' effects ∧ (length (objects c) <= catalog_len c')%nat.
Proof.
  intros Hc Hs. pose proof (good_apply c unit_statements Hc Hs) as Hg.
  destruct (apply _ _ c unit_statements) as [c' e']. exact Hg.
Qed.

(** Reads are the closure through views.  Recording the reads of names ends
    with exactly the objects recorded before, the relation of each name, and
    whatever reading the bases of a read view reads, however the views refer to
    each other; nothing is recorded twice and the other effects stay. *)
Lemma reads_closure c names e id :
  wf c → readable c e → closed c [] (reads e) →
  let e' := reads_of c names e in
  (id ∈ reads e' ↔ id ∈ reads e ∨ Reads c names id)
  ∧ NoDup (reads e') ∧ closed c [] (reads e')
  ∧ touches e' = touches e ∧ persistent_write e' = persistent_write e.
Proof.
  intros Hc He Hcl. cbn zeta.
  destruct (reads_of_spec c names e (wf_bounded c Hc) He) as [[Hn _] Hm Hroot Hclo Hsound [Ht Hp]].
  assert (Hnil : ∀ x : ObjectId, x ∉ ([] : list ObjectId)) by by intros x ?%elem_of_nil.
  split_and!; [|done| |done|done].
  - split; [apply Hsound|]. intros [Hid|Hr]; [by apply Hm|].
    apply (closed_reads c (reads e) _ names id Hclo Hm); [|exact Hroot|exact Hr].
    intros i o bases word id' Hi. by apply Hcl.
  - intros i o bases word id' Hi _ Ho Hs Hw Hk. destruct (decide (i ∈ reads e)) as [H|H].
    + apply Hm. by eapply Hcl.
    + by eapply Hclo.
Qed.

(** C8 (which writes reach the file). A row write is marked as writing the
    database file exactly when, through any chain of triggers it fires, it reaches
    a table the connection does not own or something the analysis cannot name;
    triggers that fire each other in a cycle do not prevent the answer. *)
Theorem write_persistent_exact c name ev e :
  ev ∈ kinds →
  persistent_write (write_rows relation_names c name ev e) = true
  ↔ persistent_write e = true ∨ WritesFile c name ev.
Proof.
  intros Hk. split; [apply write_sound|]. intros [Hp|Hw]; [|by apply write_rows_complete].
  unfold write_rows. destruct (write_spec (S (4 * length (objects c))) c name ev (e, [])) as [[_ [Hg _] _] _].
  - split; [apply NoDup_nil_2|]. by intros p ?%elem_of_nil.
  - done.
  - cbn. lia.
  - by apply Hg.
Qed.
End Invariant.

(** ** Witnesses *)

(** A unit of a temporary table, a view of it, and a trigger of it that writes a
    table of the file and the temporary table again. *)
Definition demo_name (s : String.string) : ObjectName (list str) := [Identifier (Ident_new (lit s))].
Definition demo_insert (s : String.string) : Statement (list str) := SInsert (TableName (demo_name s)) None [].
Definition demo_table : CreateTable (list str) :=
  {| ct_name := demo_name "A"; ct_temporary := true; ct_if_not_exists := false; ct_query := None;
     ct_columns := []; ct_constraints := []; ct_rest := [] |}.
Definition demo_view : CreateView (list str) :=
  {| cv_name := demo_name "v"; cv_temporary := true; cv_or_replace := true; cv_query := [lit "a"]; cv_rest := [] |}.
Definition demo_trigger : CreateTrigger (list str) :=
  {| tg_name := demo_name "tr"; tg_table_name := demo_name "a"; tg_temporary := false; tg_or_replace := false;
     tg_events := [EvInsert]; tg_rest := [] |}.
Definition demo_unit : list (Statement (list str)) :=
  [SCreateTable demo_table; SCreateView demo_view;
   SCreateTrigger demo_trigger (Some [demo_insert "a"; demo_insert "f"])].
Definition demo_names (statement : Statement (list str)) : list str :=
  match statement with SInsert (TableName name) _ _ => omap (λ p, to_ascii_lowercase ∘ value <$> as_ident p) name | _ => [] end.
Definition demo_apply := apply demo_names (λ q : list str, q).

Lemma catalog_invariant_witness :
  forallb single_rename demo_unit = true
  ∧ let '(c', effects) := demo_apply catalog_default demo_unit in
    wf c' ∧ known c' effects ∧ (0 <= catalog_len c')%nat.
Proof. split; [reflexivity|]. apply (catalog_invariant _ _ catalog_default demo_unit); [apply wf_default|reflexivity]. Defined.

Definition demo_catalog := fst (demo_apply catalog_default demo_unit).

Example demo_effects : snd (demo_apply catalog_default demo_unit)
  = {| touches := [0; 1; 2]%nat; reads := [0%nat]; persistent_write := false |}.
Proof. vm_compute. reflexivity. Qed.

Lemma demo_wf : wf demo_catalog.
Proof.
  pose proof (good_apply demo_names (λ q : list str, q) catalog_default demo_unit wf_default eq_refl) as (H & _).
  exact H.
Qed.

Lemma readable_default {Payload} (c : @Catalog Payload) : readable c effects_default.
Proof. split; [apply NoDup_nil_2|apply Forall_nil_2]. Qed.

(** Reading the view reads the view and its table. *)
Lemma reads_closure_witness :
  reads (reads_of demo_catalog [lit "v"] effects_default) = [1; 0]%nat
  ∧ (0%nat ∈ reads (reads_of demo_catalog [lit "v"] effects_default)
     ↔ 0%nat ∈ reads effects_default ∨ Reads demo_catalog [lit "v"] 0).
Proof.
  split; [vm_compute; reflexivity|].
  apply (reads_closure demo_catalog [lit "v"] effects_default 0 demo_wf (readable_default _)).
  by intros i o bases word id' ?%elem_of_nil.
Defined.

(** Inserting into the temporary table writes the file, through the trigger. *)
Lemma write_persistent_exact_witness :
  persistent_write (write_rows demo_names demo_catalog (demo_name "a") INSERT effects_default) = true
  ∧ (persistent_write (write_rows demo_names demo_catalog (demo_name "a") INSERT effects_default) = true
     ↔ persistent_write effects_default = true ∨ WritesFile demo_catalog (demo_name "a") INSERT).
Proof.
  split; [vm_compute; reflexivity|]. refine (write_persistent_exact demo_names demo_catalog _ _ _ _).
  apply list_elem_of_here.
Defined.

Example demo_delete :
  persistent_write (write_rows demo_names demo_catalog (demo_name "a") DELETE effects_default) = false.
Proof. vm_compute. reflexivity. Qed.
End Effects.
