(* ===== verification/Placement.v ===== *)
(** * Where each object lives

    [src/src/history/placement.rs], with [Placement] of [src/src/manifest.rs] and
    [AttachedTables] of [src/src/options.rs].  The catalogue of the source schema,
    the printing of statements and the visitor that lists the relations a node
    names are parameters.  The statements the code changes in place are returned. *)

From S2P Require Import Prelude Text Errors Ast Exprs Names.

Module Placement.

Inductive Placement := Main | Attached | Temp.

#[global] Instance Placement_eq_dec : EqDecision Placement.
Proof. solve_decision. Defined.

(** A [Files] is its byte. *)
Definition Files := Z.
Definition MAIN : Files := 1.
Definition ATTACHED : Files := 2.
Definition CONNECTION : Files := 4.
Definition files_default : Files := 0.
Definition union (a b : Files) : Files := Z.lor a b.
Definition contains (self other : Files) : bool := Z.land self other =? other.
Definition contains_placement (self : Files) (placement : Placement) : bool :=
  match placement with
  | Main => contains self MAIN
  | Attached => contains self ATTACHED
  | Temp => contains self CONNECTION
  end.

(** [AttachedTables]. *)
Record AttachedTables := { attached_schema_name : str; attached_tables : list str }.
Definition lists (self : AttachedTables) (table : str) : bool :=
  existsb (λ listed, eq_ignore_ascii_case listed table) (attached_tables self).

(** What the placement asks of the rest of the crate and of its libraries. *)
Class Nodes (Payload Schema Tbl : Type) := {
  relation_names : Statement Payload → list str;
  query_relation_names : Payload → list str;
  trigger_relation_names : CreateTrigger Payload → option (list (Statement Payload)) → list str;
  statement_to_string : Statement Payload → str;
  schema_tables : Schema → list Tbl;
  table_name : Tbl → str;
  temporary : Tbl → bool
}.

(** A view of the batch: its name and what its query names. *)
Abbreviation ViewReads := (str * list str)%type (only parsing).

Abbreviation Homes := (gmap str Placement) (only parsing).

Record Placed := {
  placed_homes : Homes;
  attached_configured : bool;
  placed_unit_files : list Files;
  placed_logical_storage : Homes;
  placed_trigger_homes : Homes;
  attached_schema : str
}.

Definition key (name : str) : str := to_ascii_lowercase name.
Definition unusable (reason : str) : Error := UnusableAttachedTables reason.

Section Placement.
Context {Payload Schema Tbl : Type} `{Library Payload Schema Tbl} `{!Nodes Payload Schema Tbl}.
Implicit Types (name : ObjectName Payload) (statement : Statement Payload).

Definition key_of name : str := key (last_ident_value_or_display name).
Definition home (homes : Homes) (name : str) : Placement := default Main (homes !! key name).
Definition home_of (homes : Homes) name : Placement := default Main (homes !! key_of name).

(** [resolve_trigger_table_name], with the configured suffix. *)
Definition resolve_trigger_table_name (suffix base_name : str) (table : Tbl) (schema : Schema)
    : result Error str :=
  secured ← has_row_level_security schema table;
  mret (if (secured : bool) then base_name ++ suffix else base_name).

Definition reads_placed (reads : list str) (homes : Homes) : bool :=
  existsb (λ word, match homes !! (word : str) with
                   | Some placement => negb (bool_decide (placement = Main))
                   | None => false
                   end) reads.

(** [name] written in [schema]. *)
Definition qualified name (schema : str) : ObjectName Payload :=
  Identifier (quoted_ident schema) :: match last name with Some part => [part] | None => [] end.

Definition qualify_if_attached name (placement : Placement) (schema : str) : ObjectName Payload :=
  if bool_decide (placement = Attached) then qualified name schema else name.

(** The same for the names that a [temp] home qualifies too. *)
Definition qualify_placed name (placement : Placement) (schema : str) : ObjectName Payload :=
  match placement with
  | Attached => qualified name schema
  | Temp => qualified name (lit "temp")
  | Main => name
  end.

(** ** What a statement writes *)

Definition factor (f : TableFactor Payload) : option (ObjectName Payload) :=
  match f with TFTable name _ => Some name | TFOther _ => None end.

Fixpoint primary_write_target statement : option (ObjectName Payload) :=
  match statement with
  | SInsert table _ _ => match table with TableName name => Some name | _ => None end
  | SUpdate relation _ => factor relation
  | SDelete from _ => match from with f :: _ => factor f | [] => None end
  | SQuery body _ =>
      match body with
      | SetInsert statement | SetUpdate statement | SetDelete statement | SetMerge statement =>
          primary_write_target statement
      | SetOther _ => None
      end
  | _ => None
  end.

Definition is_transaction_control statement : bool :=
  match statement with
  | StartTransaction | Commit _ | Rollback _ _ | Savepoint _ | ReleaseSavepoint _ => true
  | _ => false
  end.

Definition is_droppable (object_type : ObjectType Payload) : bool :=
  match object_type with Table | View | Index => true | _ => false end.

Definition statement_placement statement (homes logical_storage trigger_homes : Homes) : Placement :=
  match statement with
  | SCreateTrigger trigger statements =>
      let reads := trigger_relation_names trigger statements in
      let table := home_of homes (tg_table_name trigger) in
      if bool_decide (table = Main) && negb (tg_temporary trigger) && negb (reads_placed reads homes)
      then Main else Temp
  | SCreateTable create => home_of homes (ct_name create)
  | SCreateVirtualTable name _ _ _ => home_of homes name
  | SCreateIndex index => home_of homes (ci_table_name index)
  | SAlterTable alter => home_of homes (at_name alter)
  | SCreateView view => home_of homes (cv_name view)
  | SDropTrigger trigger_name _ _ => default Main (trigger_homes !! key_of trigger_name)
  | SDrop (Table | View | Index) names _ =>
      match names with name :: _ => home_of homes name | [] => Main end
  | other =>
      match primary_write_target other with
      | Some name => default (home_of homes name) (logical_storage !! key_of name)
      | None => Main
      end
  end.

Definition is_connection_local statement (homes logical_storage trigger_homes : Homes) : bool :=
  bool_decide (statement_placement statement homes logical_storage trigger_homes = Temp).

(** ** Foreign keys *)

Definition column_parents (column : ColumnDef Payload) : list (ObjectName Payload) :=
  omap (λ option, match option with ForeignKeyOption parent _ => Some parent | OtherOption _ => None end)
    (options column).

(** The [parents] iterator of [reject_foreign_keys_across]. *)
Definition parents (create : CreateTable Payload) : list (ObjectName Payload) :=
  concat (map column_parents (ct_columns create))
  ++ omap (λ constraint, match constraint with ForeignKeyConstraint parent _ => Some parent | OtherConstraint _ => None end)
       (ct_constraints create).

Definition foreign_key_refusal (child parent : ObjectName Payload) (child_attached : bool) (schema : str) : Error :=
  let '(inside, outside) := if child_attached then (child, parent) else (parent, child) in
  unusable (lit "`" ++ name_to_string child ++ lit "` references `" ++ name_to_string parent
    ++ lit "` with a foreign key, and `" ++ name_to_string inside ++ lit "` lives in the attached schema `"
    ++ schema ++ lit "` while `" ++ name_to_string outside
    ++ lit "` lives in `main`. SQLite looks a parent up in the child's own database, so the key would go unenforced. List both tables or neither").

Definition reject_foreign_keys_across (create : CreateTable Payload) (schema : str) (homes : Homes)
    : result Error unit :=
  let attached name := bool_decide (homes !! key_of name = Some Attached) in
  let child_attached := attached (ct_name create) in
  match List.find (λ parent, negb (Bool.eqb (attached parent) child_attached)) (parents create) with
  | Some parent => Err (foreign_key_refusal (ct_name create) parent child_attached schema)
  | None => Ok tt
  end.

(** The check of the columns an [ALTER TABLE] adds. *)
Definition added_parents (alter : AlterTable Payload) : list (ObjectName Payload) :=
  concat (map (λ operation, match operation with AddColumn column => column_parents column | _ => [] end)
            (at_operations alter)).

Definition reject_added_foreign_keys (alter : AlterTable Payload) (placement : Placement) (homes : Homes)
    : result Error unit :=
  match List.find (λ parent, negb (Bool.eqb (bool_decide (home_of homes parent = Attached))
                                            (bool_decide (placement = Attached)))) (added_parents alter) with
  | Some parent =>
      Err (unusable (lit "the foreign key from `" ++ name_to_string (at_name alter) ++ lit "` to `"
        ++ name_to_string parent ++ lit "` crosses database boundaries"))
  | None => Ok tt
  end.

(** ** Placing a statement *)

Definition place_trigger (trigger : CreateTrigger Payload) (placement : Placement) (schema : str) (homes : Homes)
    : CreateTrigger Payload :=
  if bool_decide (placement = Temp) then
    {| tg_name := tg_name trigger;
       tg_table_name := match home_of homes (tg_table_name trigger) with
                        | Main => qualified (tg_table_name trigger) (lit "main")
                        | Attached => qualified (tg_table_name trigger) schema
                        | Temp => tg_table_name trigger
                        end;
       tg_temporary := true; tg_or_replace := tg_or_replace trigger; tg_events := tg_events trigger;
       tg_rest := tg_rest trigger |}
  else trigger.

(** [entry(key).or_insert(placement)]. *)
Definition entry_or_insert (homes : Homes) (k : str) (placement : Placement) : Homes :=
  match homes !! k with Some _ => homes | None => <[k := placement]> homes end.

Definition place_table (create : CreateTable Payload) (placement : Placement) (schema : str) : CreateTable Payload :=
  {| ct_name := qualify_if_attached (ct_name create) placement schema;
     ct_temporary := ct_temporary create || bool_decide (placement = Temp);
     ct_if_not_exists := ct_if_not_exists create; ct_query := ct_query create; ct_columns := ct_columns create;
     ct_constraints := ct_constraints create; ct_rest := ct_rest create |}.

Definition place_index (index : CreateIndex Payload) (placement : Placement) (schema : str) : CreateIndex Payload :=
  {| ci_name := (λ name, qualify_placed name placement schema) <$> ci_name index;
     ci_table_name := ci_table_name index; ci_concurrently := ci_concurrently index; ci_rest := ci_rest index |}.

Definition place_view (view : CreateView Payload) (placement : Placement) : CreateView Payload :=
  {| cv_name := cv_name view; cv_temporary := cv_temporary view || bool_decide (placement = Temp);
     cv_or_replace := cv_or_replace view; cv_query := cv_query view; cv_rest := cv_rest view |}.

Definition place_alter (alter : AlterTable Payload) (placement : Placement) (schema : str) : AlterTable Payload :=
  {| at_name := qualify_if_attached (at_name alter) placement schema; at_operations := at_operations alter;
     at_rest := at_rest alter |}.

(** [place_statement]: the home, the placed statement and the homes of triggers. *)
Definition place_statement statement (schema : str) (homes logical_storage trigger_homes : Homes)
    : result Error (Placement * Statement Payload * Homes) :=
  let placement := statement_placement statement homes logical_storage trigger_homes in
  match statement with
  | SCreateTrigger trigger statements =>
      let placed := place_trigger trigger placement schema homes in
      mret (placement, SCreateTrigger placed statements,
            entry_or_insert trigger_homes (key_of (tg_name placed)) placement)
  | SCreateTable create =>
      _ ← reject_foreign_keys_across create schema homes;
      mret (placement, SCreateTable (place_table create placement schema), trigger_homes)
  | SCreateVirtualTable name if_not_exists module_name rest =>
      mret (placement, SCreateVirtualTable (qualify_placed name placement schema) if_not_exists module_name rest,
            trigger_homes)
  | SCreateIndex index => mret (placement, SCreateIndex (place_index index placement schema), trigger_homes)
  | SAlterTable alter =>
      _ ← reject_added_foreign_keys alter placement homes;
      mret (placement, SAlterTable (place_alter alter placement schema), trigger_homes)
  | SCreateView view => mret (placement, SCreateView (place_view view placement), trigger_homes)
  | SDrop object_type names rest =>
      mret (placement,
            (if is_droppable object_type
             then SDrop object_type (map (λ name, qualify_if_attached name placement schema) names) rest
             else statement), trigger_homes)
  | _ => mret (placement, statement, trigger_homes)
  end.

(** ** The files of a unit *)

(** The loop of [unit_files] over the emitted statements. *)
Fixpoint place_unit (emitted : list (Statement Payload)) (schema : str) (homes logical_storage trigger_homes : Homes)
    (touches_main touches_attached : bool)
    : result Error (bool * bool * list (Statement Payload) * Homes) :=
  match emitted with
  | [] => mret (touches_main, touches_attached, [], trigger_homes)
  | statement :: emitted =>
      '(placement, statement, trigger_homes) ← place_statement statement schema homes logical_storage trigger_homes;
      '(touches_main, touches_attached, emitted, trigger_homes) ←
        place_unit emitted schema homes logical_storage trigger_homes
          (touches_main || bool_decide (placement = Main)) (touches_attached || bool_decide (placement = Attached));
      mret (touches_main, touches_attached, (statement : Statement Payload) :: emitted, trigger_homes)
  end.

Definition unit_files (source : Statement Payload) (emitted : list (Statement Payload)) (schema : str)
    (homes logical_storage trigger_homes : Homes) : result Error (Files * list (Statement Payload) * Homes) :=
  if is_transaction_control source then mret (union MAIN ATTACHED, emitted, trigger_homes)
  else
    '(touches_main, touches_attached, emitted, trigger_homes) ←
      place_unit emitted schema homes logical_storage trigger_homes false false;
    let files := files_default in
    let files := if (touches_attached : bool) then files else union files MAIN in
    let files := if (touches_main : bool) then files else union files ATTACHED in
    mret (files, emitted, trigger_homes).

(** ** The attached storage *)

(** The source table whose storage an input creates or extends. *)
Definition subject_table (input : Statement Payload) : option str :=
  match input with
  | SCreateTable create => Some (last_ident_value_or_display (ct_name create))
  | SCreateIndex index => Some (last_ident_value_or_display (ci_table_name index))
  | SAlterTable alter => Some (last_ident_value_or_display (at_name alter))
  | _ => None
  end.

Definition renames_of (input : Statement Payload) : list (ObjectName Payload * ObjectName Payload) :=
  match input with
  | SAlterTable alter =>
      omap (λ operation, match operation with RenameTo to => Some (at_name alter, to) | _ => None end)
        (at_operations alter)
  | SRenameTable renames => renames
  | _ => []
  end.

Definition reject_rename (input : Statement Payload) (attached : AttachedTables) : result Error unit :=
  let named '(from, to) := (last_ident_value_or_display from, last_ident_value_or_display to) in
  match List.find (λ '(from, to), lists attached from || lists attached to) (map named (renames_of input)) with
  | Some (from, to) =>
      Err (unusable (lit "`" ++ from ++ lit "` is renamed to `" ++ to
        ++ lit "`, and the list for the attached schema `" ++ attached_schema_name attached
        ++ lit "` names the table by one of the two. Create the table under its final name"))
  | None => Ok tt
  end.

(** One name of the list. *)
Definition listed_storage (attached : AttachedTables) (suffix : str) (schema : Schema) (listed : str)
    : result Error str :=
  let name := attached_schema_name attached in
  table ← ok_or (List.find (λ table, eq_ignore_ascii_case (table_name table) listed) (schema_tables schema))
    (unusable (lit "`" ++ listed ++ lit "` is listed for the attached schema `" ++ name
       ++ lit "`, but the input declares no table by that name"));
  if temporary table then
    Err (unusable (lit "`" ++ listed ++ lit "` is temporary and cannot store its rows in attached schema `"
      ++ name ++ lit "`"))
  else
    physical ← resolve_trigger_table_name suffix (table_name table) table schema;
    mret (key physical).

(** One statement emitted for a listed table. *)
Definition emitted_storage (input : Statement Payload) (attached : AttachedTables) (subject : str)
    (storage : gset str) (statement : Statement Payload) : result Error (gset str) :=
  match statement with
  | SCreateTable create => Ok ({[key_of (ct_name create)]} ∪ storage)
  | SCreateVirtualTable name _ _ _ => Ok ({[key_of name]} ∪ storage)
  | SCreateIndex _ | SCreateView _ | SCreateTrigger _ _ | SAlterTable _ | SDrop _ _ _ | SDropTrigger _ _ _
  | SInsert _ _ _ | SUpdate _ _ | SDelete _ _ => Ok storage
  | other =>
      Err (unusable (lit "`" ++ statement_to_string input ++ lit "` on the listed table `" ++ subject
        ++ lit "` translates to `" ++ statement_to_string other
        ++ lit "`, which names the table in a way the attached schema `" ++ attached_schema_name attached
        ++ lit "` cannot qualify"))
  end.

(** A loop that stops at the first error. *)
Fixpoint try_fold {A B} (f : B → A → result Error B) (l : list A) (b : B) : result Error B :=
  match l with [] => Ok b | x :: l => b' ← f b x; try_fold f l b' end.

Definition attached_storage (inputs : list (Statement Payload)) (translated : list (list (Statement Payload)))
    (attached : AttachedTables) (suffix : str) (schema : Schema) : result Error (gset str) :=
  let name := attached_schema_name attached in
  if negb (is_nonempty name) || eq_ignore_ascii_case name (lit "main") || eq_ignore_ascii_case name (lit "temp") then
    Err (unusable (lit "`" ++ name ++ lit "` cannot name an attached database, since SQLite reserves `main` and `temp` and an attached database needs a name"))
  else
    storage ← try_fold (λ storage listed,
      stored ← listed_storage attached suffix schema listed; mret ({[stored : str]} ∪ storage)) (attached_tables attached) ∅;
    try_fold (λ storage '(input, emitted),
      _ ← reject_rename input attached;
      match subject_table input with
      | Some subject =>
          if lists attached subject then try_fold (emitted_storage input attached subject) emitted storage
          else mret storage
      | None => mret storage
      end) (zip inputs translated) storage.

(** ** The homes *)

(** One emitted statement of the first loop of [homes]. *)
Definition home_statement (temporary : bool) (storage : gset str) (state : Homes * list ViewReads) statement
    : Homes * list ViewReads :=
  let '(homes, views) := state in
  let stored name :=
    let k := key_of name in
    let placement := if temporary then Temp else if decide (k ∈ storage) then Attached else Main in
    (<[k := placement]> homes, views) in
  match statement with
  | SCreateTable create =>
      if ct_temporary create then (<[key_of (ct_name create) := Temp]> homes, views) else stored (ct_name create)
  | SCreateVirtualTable name _ _ _ => stored name
  | SCreateView view =>
      (<[key_of (cv_name view) := if cv_temporary view then Temp else Main]> homes,
       views ++ [(key_of (cv_name view), query_relation_names (cv_query view))])
  | _ => (homes, views)
  end.

Definition is_temporary_subject (schema : Schema) (input : Statement Payload) : bool :=
  match subject_table input with
  | Some subject =>
      existsb (λ table, eq_ignore_ascii_case (table_name table) subject && temporary table) (schema_tables schema)
  | None => false
  end.

Definition home_index (homes : Homes) statement : Homes :=
  match statement with
  | SCreateIndex index =>
      match ci_name index with
      | Some name => <[key_of name := default Main (homes !! key_of (ci_table_name index))]> homes
      | None => homes
      end
  | _ => homes
  end.

(** One pass over the views. *)
Definition view_step (state : Homes * bool) (view : ViewReads) : Homes * bool :=
  let '(homes, grew) := state in
  if negb (bool_decide (homes !! view.1 = Some Temp)) && reads_placed view.2 homes
  then (<[view.1 := Temp]> homes, true) else (homes, grew).
Definition view_pass (views : list ViewReads) (homes : Homes) : Homes * bool := foldl view_step (homes, false) views.

(** The loop over the views; [None] is a loop that is still growing. *)
Fixpoint close_views (fuel : nat) (views : list ViewReads) (homes : Homes) : option Homes :=
  match fuel with
  | O => None
  | S fuel => let '(homes, grew) := view_pass views homes in
              if (grew : bool) then close_views fuel views homes else Some homes
  end.

(** The homes before the loop over the views, and the views. *)
Definition created (inputs : list (Statement Payload)) (translated : list (list (Statement Payload)))
    (schema : Schema) (storage : gset str) : Homes * list ViewReads :=
  let '(homes, views) := foldl (λ state '(input, emitted),
      foldl (home_statement (is_temporary_subject schema input) storage) state emitted)
    (∅, []) (zip inputs translated) in
  (foldl home_index homes (concat translated), views).

(** Each growing pass moves another view to [temp], so one pass more than the
    views is enough. *)
Definition homes (inputs : list (Statement Payload)) (translated : list (list (Statement Payload)))
    (schema : Schema) (storage : gset str) : option Homes :=
  let '(homes, views) := created inputs translated schema storage in
  close_views (S (length views)) views homes.

(** ** The placement of a batch *)

(** The home of one table of the catalogue. *)
Definition place_stored (suffix : str) (schema : Schema) (storage : gset str)
    (state : Homes * Homes) (table : Tbl) : result Error (Homes * Homes) :=
  let '(homes, logical_storage) := state in
  physical ← resolve_trigger_table_name suffix (table_name table) table schema;
  let physical_key := key physical in
  let placement := default (if temporary table then Temp
                            else if decide (physical_key ∈ storage) then Attached else Main)
                     (homes !! physical_key) in
  mret (<[physical_key := placement]> homes, <[key (table_name table) := placement]> logical_storage).

Fixpoint place_units (units : list (Statement Payload * list (Statement Payload))) (schema : str)
    (homes logical_storage trigger_homes : Homes) : result Error (list Files * list (list (Statement Payload)) * Homes) :=
  match units with
  | [] => mret ([], [], trigger_homes)
  | (source, emitted) :: units =>
      '(files, emitted, trigger_homes) ← unit_files source emitted schema homes logical_storage trigger_homes;
      '(rest_files, rest, trigger_homes) ← place_units units schema homes logical_storage trigger_homes;
      mret ((files : Files) :: rest_files, (emitted : list (Statement Payload)) :: rest, trigger_homes)
  end.

(** [place]; [None] stands for the loop of [homes] not ending, which it does. *)
Definition place (sources : list (Statement Payload)) (emitted : list (list (Statement Payload))) (schema : Schema)
    (suffix : str) (attached : option AttachedTables)
    : option (result Error (Placed * list (list (Statement Payload)))) :=
  let stored := match attached with
                | Some attached => attached_storage sources emitted attached suffix schema
                | None => Ok ∅
                end in
  match stored with
  | Err error => Some (Err error)
  | Ok storage =>
      homes ← homes sources emitted schema storage;
      Some (
        '(homes, logical_storage) ← try_fold (place_stored suffix schema storage) (schema_tables schema) (homes, ∅);
        let attached_schema := match attached with Some attached => attached_schema_name attached | None => [] end in
        '(files, emitted', trigger_homes) ← place_units (zip sources emitted) attached_schema homes logical_storage ∅;
        mret ({| placed_homes := homes; attached_configured := is_some attached; placed_unit_files := files;
                 placed_logical_storage := logical_storage; placed_trigger_homes := trigger_homes;
                 attached_schema := attached_schema |}, emitted' ++ drop (length sources) emitted))
  end.

(** [Placed::home], [place_rebound] and [is_connection_local]. *)
Definition placed_home (self : Placed) (name : str) : Placement := home (placed_homes self) name.
Definition place_rebound (self : Placed) statement : result Error (Placement * Statement Payload * Placed) :=
  '(placement, statement, trigger_homes) ←
    place_statement statement (attached_schema self) (placed_homes self) (placed_logical_storage self)
      (placed_trigger_homes self);
  mret (placement, statement,
        {| placed_homes := placed_homes self; attached_configured := attached_configured self;
           placed_unit_files := placed_unit_files self; placed_logical_storage := placed_logical_storage self;
           placed_trigger_homes := trigger_homes; attached_schema := attached_schema self |}).
Definition placed_is_connection_local (self : Placed) statement : bool :=
  is_connection_local statement (placed_homes self) (placed_logical_storage self) (placed_trigger_homes self).
End Placement.

Section Facts.
Context {Payload Schema Tbl : Type} `{Library Payload Schema Tbl} `{!Nodes Payload Schema Tbl}.
Implicit Types (name : ObjectName Payload) (statement : Statement Payload) (h : Homes) (views : list ViewReads).

(** ** The loop over the views *)

(** The view reads, directly or through other views, an object homed outside
    [main] in the homes [h0]. *)
Inductive Escapes views (h0 : Homes) : str → Prop :=
| Escapes_read vname reads r placement :
    (vname, reads) ∈ views → r ∈ reads → h0 !! r = Some placement → placement ≠ Main → Escapes views h0 vname
| Escapes_view vname reads r :
    (vname, reads) ∈ views → r ∈ reads → Escapes views h0 r → Escapes views h0 vname.

Lemma reads_placed_true reads h :
  reads_placed reads h = true ↔ ∃ r placement, r ∈ reads ∧ h !! r = Some placement ∧ placement ≠ Main.
Proof.
  unfold reads_placed. rewrite existsb_exists. split.
  - intros (r & Hr & Hp). destruct (h !! r) as [p|] eqn:E; [|done]. apply list_elem_of_In in Hr.
    exists r, p. split_and!; [done..|]. by apply negb_true_iff, bool_decide_eq_false in Hp.
  - intros (r & p & Hr & Hp & Hne). exists r. rewrite Hp. split; [by apply list_elem_of_In|].
    by apply negb_true_iff, bool_decide_eq_false.
Qed.

(** What the loop keeps: a home is as before or moved to [temp] for a reason. *)
Definition moved views (h0 h : Homes) : Prop := ∀ k, h !! k = h0 !! k ∨ h !! k = Some Temp ∧ Escapes views h0 k.

Lemma moved_step views h0 h grew view :
  view ∈ views → moved views h0 h → moved views h0 (view_step (h, grew) view).1.
Proof.
  destruct view as [vname reads]. intros Hv Hm. cbn. destruct (negb _ && _) eqn:E; [|done]. cbn.
  apply andb_true_iff in E as [_ Hp]. apply reads_placed_true in Hp as (r & p & Hr & Hp & Hne).
  assert (Escapes views h0 vname).
  { destruct (Hm r) as [Hs|[_ He]]; [|by eapply Escapes_view]. rewrite Hs in Hp. by eapply Escapes_read. }
  intros k. destruct (decide (k = vname)) as [->|Hk]; [right; by rewrite lookup_insert_eq|].
  rewrite lookup_insert_ne by done. apply Hm.
Qed.

Definition settled_views views h : Prop :=
  ∀ vname reads, (vname, reads) ∈ views → h !! vname = Some Temp ∨ reads_placed reads h = false.

Definition waiting (h : Homes) (view : ViewReads) : bool := negb (bool_decide (h !! view.1 = Some Temp)).
Definition remaining views h : nat := length (List.filter (waiting h) views).

Lemma remaining_insert views h k : (remaining views (<[k := Temp]> h) <= remaining views h)%nat.
Proof.
  unfold remaining. induction views as [|[n r] views IH]; [done|]. cbn.
  destruct (waiting h (n, r)) eqn:E1, (waiting (<[k := Temp]> h) (n, r)) eqn:E2; cbn; try lia.
  exfalso. unfold waiting in *. cbn in *. apply negb_true_iff, bool_decide_eq_false in E2.
  apply negb_false_iff, bool_decide_eq_true in E1. apply E2. destruct (decide (k = n)) as [->|]; [by rewrite lookup_insert_eq|].
  by rewrite lookup_insert_ne.
Qed.

Lemma remaining_moves views h vname reads :
  (vname, reads) ∈ views → h !! vname ≠ Some Temp → (remaining views (<[vname := Temp]> h) < remaining views h)%nat.
Proof.
  intros Hin Hn. unfold remaining. induction views as [|[n r] views IH]; [by apply elem_of_nil in Hin|].
  pose proof (remaining_insert views h vname) as Hle. unfold remaining in Hle. cbn.
  apply elem_of_cons in Hin as [[= <- <-]|Hin].
  - assert (waiting (<[vname := Temp]> h) (vname, reads) = false) as -> by (unfold waiting; cbn; by rewrite lookup_insert_eq).
    assert (waiting h (vname, reads) = true) as -> by (unfold waiting; cbn; by rewrite bool_decide_eq_false_2).
    cbn. lia.
  - specialize (IH Hin). destruct (waiting h (n, r)) eqn:E1, (waiting (<[vname := Temp]> h) (n, r)) eqn:E2; cbn; try lia.
    exfalso. unfold waiting in *. cbn in *. apply negb_true_iff, bool_decide_eq_false in E2.
    apply negb_false_iff, bool_decide_eq_true in E1. apply E2. destruct (decide (vname = n)) as [->|]; [by rewrite lookup_insert_eq|].
    by rewrite lookup_insert_ne.
Qed.

(** A pass over some of the views either changes nothing, and then those are
    settled, or moves one. *)
Lemma view_pass_spec views l h :
  (∀ v, v ∈ l → v ∈ views) →
  let '(h', grew) := view_pass l h in
  (∀ h0, moved views h0 h → moved views h0 h')
  ∧ (if grew then (remaining views h' < remaining views h)%nat else h' = h ∧ settled_views l h).
Proof.
  unfold view_pass.
  assert (Hgen : ∀ l h g, (∀ v, v ∈ l → v ∈ views) →
    let '(h', grew) := foldl view_step (h, g) l in
    (∀ h0, moved views h0 h → moved views h0 h')
    ∧ (remaining views h' <= remaining views h)%nat
    ∧ (g = true → grew = true)
    ∧ (grew = true → g = true ∨ (remaining views h' < remaining views h)%nat)
    ∧ (grew = false → h' = h ∧ settled_views l h)).
  { clear l h. induction l as [|[vname reads] l IH]; intros h g Hl; cbn [foldl].
    { split_and!; auto. intros _. split; [done|]. by intros ? ? ?%elem_of_nil. }
    assert (Hv : (vname, reads) ∈ views) by (apply Hl, list_elem_of_here).
    assert (Hl' : ∀ v, v ∈ l → v ∈ views) by (intros v ?; apply Hl; by apply list_elem_of_further).
    pose proof (λ h0, moved_step views h0 h g (vname, reads) Hv) as Hm.
    unfold view_step in *. cbn [fst snd] in *.
    destruct (negb (bool_decide (h !! vname = Some Temp)) && reads_placed reads h) eqn:E.
    - specialize (IH (<[vname := Temp]> h) true Hl'). destruct (foldl _ _ l) as [h' grew].
      destruct IH as (IH1 & IH2 & IH3 & IH4 & IH5). bools.
      match goal with Hb : bool_decide _ = false |- _ => apply bool_decide_eq_false in Hb end.
      assert (remaining views (<[vname := Temp]> h) < remaining views h)%nat by by eapply remaining_moves.
      split_and!; [intros h0 ?; by apply IH1, Hm|lia|auto|intros _; right; lia|].
      intros ->. by specialize (IH3 eq_refl).
    - specialize (IH h g Hl'). destruct (foldl _ _ l) as [h' grew]. destruct IH as (IH1 & IH2 & IH3 & IH4 & IH5).
      split_and!; [done..|]. intros Hg. destruct (IH5 Hg) as [-> Hs]. split; [done|].
      intros n r [[= -> ->]|Hin]%elem_of_cons; [|by apply Hs].
      apply andb_false_iff in E as [E|E]; [left|by right]. by apply negb_false_iff, bool_decide_eq_true in E. }
  intros Hl. specialize (Hgen l h false Hl). destruct (foldl _ _ l) as [h' grew].
  destruct Hgen as (H1 & _ & _ & H4 & H5). split; [done|]. destruct grew; [|by apply H5]. by destruct H4.
Qed.

Lemma close_views_spec fuel views h0 h :
  (remaining views h < fuel)%nat → moved views h0 h →
  ∃ h', close_views fuel views h = Some h' ∧ moved views h0 h' ∧ settled_views views h'.
Proof.
  revert h. induction fuel as [|fuel IH]; intros h Hf Hm; [lia|]. cbn.
  pose proof (view_pass_spec views views h (λ v Hv, Hv)) as Hp. destruct (view_pass views h) as [h' grew].
  destruct Hp as [Hm' Hg]. destruct grew.
  - apply IH; [lia|auto].
  - destruct Hg as [-> Hs]. exists h. auto.
Qed.

Lemma settled_escapes views h0 h k :
  moved views h0 h → settled_views views h → Escapes views h0 k → h !! k = Some Temp.
Proof.
  intros Hm Hs. induction 1 as [n reads r p Hv Hr Hp Hne|n reads r Hv Hr _ IH].
  - destruct (Hs n reads Hv) as [?|Hf]; [done|]. exfalso.
    enough (reads_placed reads h = true) by congruence. apply reads_placed_true. destruct (Hm r) as [E|[E _]].
    + exists r, p. by rewrite E.
    + by exists r, Temp.
  - destruct (Hs n reads Hv) as [?|Hf]; [done|]. exfalso.
    enough (reads_placed reads h = true) by congruence. apply reads_placed_true. by exists r, Temp.
Qed.

Lemma homes_spec inputs translated schema storage :
  let '(h0, views) := created inputs translated schema storage in
  ∃ h, homes inputs translated schema storage = Some h ∧ moved views h0 h ∧ settled_views views h.
Proof.
  unfold homes. destruct (created inputs translated schema storage) as [h0 views].
  apply close_views_spec.
  - unfold remaining. pose proof (filter_length_le (waiting h0) views). lia.
  - intros k. by left.
Qed.

(** ** What the batch creates *)

(** The key of the table or view a statement creates. *)
Definition creates statement : option str :=
  match statement with
  | SCreateTable create => Some (key_of (ct_name create))
  | SCreateVirtualTable name _ _ _ => Some (key_of name)
  | SCreateView view => Some (key_of (cv_name view))
  | _ => None
  end.
Definition batch_creates (inputs : list (Statement Payload)) (translated : list (list (Statement Payload))) (k : str) : Prop :=
  ∃ input out statement, (input, out) ∈ zip inputs translated ∧ statement ∈ out ∧ creates statement = Some k.

(** What the first loop of [homes] only adds to. *)
Definition extends (s s' : Homes * list ViewReads) : Prop :=
  (∀ k, is_Some (s.1 !! k) → is_Some (s'.1 !! k)) ∧ ∀ v, v ∈ s.2 → v ∈ s'.2.

Lemma is_Some_insert h k k' placement : is_Some (h !! k) → is_Some (<[k' := placement]> h !! k).
Proof.
  intros [p Hp]. destruct (decide (k' = k)) as [->|]; [rewrite lookup_insert_eq|rewrite lookup_insert_ne by done]; eauto.
Qed.

Definition recorded statement (s : Homes * list ViewReads) : Prop :=
  (∀ k, creates statement = Some k → is_Some (s.1 !! k))
  ∧ ∀ view, statement = SCreateView view → (key_of (cv_name view), query_relation_names (cv_query view)) ∈ s.2.

Lemma extends_refl s : extends s s.
Proof. by split. Qed.
Lemma extends_trans s1 s2 s3 : extends s1 s2 → extends s2 s3 → extends s1 s3.
Proof. intros [H1 H2] [H3 H4]. split; auto. Qed.
Lemma recorded_extends statement s s' : extends s s' → recorded statement s → recorded statement s'.
Proof. intros [H1 H2] [H3 H4]. split; eauto. Qed.

Lemma home_statement_extends temp storage s statement :
  extends s (home_statement temp storage s statement) ∧ recorded statement (home_statement temp storage s statement).
Proof.
  destruct s as [h views]. destruct statement; cbn; try (by repeat split).
  all: try destruct (ct_temporary _).
  all: repeat split; cbn; try done; try (intros k' ?; by apply is_Some_insert);
    try (intros k' [= <-]; rewrite lookup_insert_eq; by eexists).
  - intros v Hv. apply elem_of_app. by left.
  - intros view [= <-]. apply elem_of_app. right. apply list_elem_of_here.
Qed.

Lemma created_records inputs translated schema storage input out statement :
  (input, out) ∈ zip inputs translated → statement ∈ out → recorded statement (created inputs translated schema storage).
Proof.
  intros Hin Hs. unfold created. set (f := fun state '(input, emitted) => _).
  assert (Hf : recorded statement (foldl f (∅, []) (zip inputs translated))).
  { apply (foldl_steps extends (λ x s, ∀ st, st ∈ x.2 → recorded st s) f) with (x := (input, out));
      [apply extends_refl|apply extends_trans| | |done|done].
    - intros x s1 s2 He Hq st Hst. eapply recorded_extends; [exact He|by apply Hq].
    - intros s' [input' out'] _ _. unfold f. cbn [snd].
      apply (foldl_steps extends recorded (home_statement (is_temporary_subject schema input') storage));
        [apply extends_refl|apply extends_trans|intros; by eapply recorded_extends|].
      intros s1 st _ _. apply home_statement_extends. }
  destruct (foldl f (∅, []) (zip inputs translated)) as [h views]. eapply recorded_extends; [|exact Hf].
  split; [|done]. cbn. intros k Hk.
  apply (foldl_inv (λ h : Homes, is_Some (h !! k))); [done|]. intros h' [] _ Hh; cbn; try done.
  destruct (ci_name _); [by apply is_Some_insert|done].
Qed.

Lemma place_stored_keeps (suffix : str) (schema : Schema) (storage : gset str) (tables : list Tbl) (s s' : Homes * Homes) (k : str) (placement : Placement) :
  try_fold (place_stored suffix schema storage) tables s = Ok s' → s.1 !! k = Some placement → s'.1 !! k = Some placement.
Proof.
  revert s. induction tables as [|table tables IH]; intros s; cbn [try_fold]; [by intros [= <-]|].
  intros Hr Hk. inv_ok. apply (IH _ Hr). destruct s as [h logical]. cbn in Ha, Hk. inv_ok. cbn.
  match goal with |- <[?k' := _]> _ !! _ = _ => destruct (decide (k' = k)) as [->|] end.
  - rewrite lookup_insert_eq, Hk. done.
  - by rewrite lookup_insert_ne.
Qed.

(** ** Names and qualification *)

Definition ends_in_ident name : Prop := ∃ ident, last name = Some (Identifier ident).

Lemma key_of_qualified name schema : ends_in_ident name → key_of (qualified name schema) = key_of name.
Proof.
  intros [ident Hl]. unfold key_of, last_ident_value_or_display, last_ident, qualified. rewrite Hl. cbn. done.
Qed.

Lemma qualified_again name schema schema' : ends_in_ident name → qualified (qualified name schema) schema' = qualified name schema'.
Proof. intros [ident Hl]. unfold qualified. by rewrite Hl. Qed.

Lemma key_of_qualify_if_attached name placement schema :
  ends_in_ident name → key_of (qualify_if_attached name placement schema) = key_of name.
Proof. intros Hn. unfold qualify_if_attached. case_bool_decide; [by apply key_of_qualified|done]. Qed.
Lemma qualify_if_attached_again name placement schema :
  ends_in_ident name →
  qualify_if_attached (qualify_if_attached name placement schema) placement schema = qualify_if_attached name placement schema.
Proof. intros Hn. unfold qualify_if_attached. case_bool_decide; [by apply qualified_again|done]. Qed.
Lemma qualify_placed_again name placement schema :
  ends_in_ident name → qualify_placed (qualify_placed name placement schema) placement schema = qualify_placed name placement schema.
Proof. intros Hn. destruct placement; cbn; [done|by apply qualified_again..]. Qed.

(** The names a placement may qualify end in an identifier, as a parsed name does. *)
Definition named statement : Prop :=
  match statement with
  | SCreateTrigger trigger _ => ends_in_ident (tg_table_name trigger)
  | SCreateTable create => ends_in_ident (ct_name create)
  | SCreateVirtualTable name _ _ _ => ends_in_ident name
  | SCreateIndex index => ∀ name, ci_name index = Some name → ends_in_ident name
  | SAlterTable alter => ends_in_ident (at_name alter)
  | SDrop _ names _ => Forall ends_in_ident names
  | _ => True
  end.

Lemma bool_decide_same (P Q : Prop) `{Decision P, Decision Q} : bool_decide P = bool_decide Q → (P ↔ Q).
Proof. intros Hb. by rewrite <- (bool_decide_eq_true P), <- (bool_decide_eq_true Q), Hb. Qed.

Lemma reject_create_Ok (create : CreateTable Payload) schema h :
  reject_foreign_keys_across create schema h = Ok tt ↔
  ∀ parent, parent ∈ parents create →
    (h !! key_of parent = Some Attached ↔ h !! key_of (ct_name create) = Some Attached).
Proof.
  unfold reject_foreign_keys_across. destruct (List.find _ _) as [parent|] eqn:E.
  - apply find_some in E as [Hin Hb]. split; [done|]. intros Hall. apply list_elem_of_In in Hin.
    specialize (Hall _ Hin). exfalso. apply negb_true_iff, eqb_false_iff in Hb. apply Hb.
    by apply bool_decide_ext.
  - split; [|done]. intros _ parent Hin. apply list_elem_of_In in Hin. pose proof (find_none _ _ E _ Hin) as Hb.
    cbn in Hb. by apply negb_false_iff, eqb_prop, bool_decide_same in Hb.
Qed.

Lemma reject_added_Ok (alter : AlterTable Payload) placement h :
  reject_added_foreign_keys alter placement h = Ok tt ↔
  ∀ parent, parent ∈ added_parents alter → (home_of h parent = Attached ↔ placement = Attached).
Proof.
  unfold reject_added_foreign_keys. destruct (List.find _ _) as [parent|] eqn:E.
  - apply find_some in E as [Hin Hb]. split; [done|]. intros Hall. apply list_elem_of_In in Hin.
    specialize (Hall _ Hin). exfalso. apply negb_true_iff, eqb_false_iff in Hb. apply Hb. by apply bool_decide_ext.
  - split; [|done]. intros _ parent Hin. apply list_elem_of_In in Hin. pose proof (find_none _ _ E _ Hin) as Hb.
    cbn in Hb. by apply negb_false_iff, eqb_prop, bool_decide_same in Hb.
Qed.

(** ** Placing a placed statement *)

Lemma key_of_qualify_placed name placement schema :
  ends_in_ident name → key_of (qualify_placed name placement schema) = key_of name.
Proof. intros Hn. destruct placement; cbn; [done|by apply key_of_qualified..]. Qed.

Section Again.
Variables (schema : str) (h logical th th' : Homes) (placement : Placement) (statement' : Statement Payload).

Lemma place_table_again create :
  ends_in_ident (ct_name create) →
  place_statement (SCreateTable create) schema h logical th = Ok (placement, statement', th') →
  place_statement statement' schema h logical th' = Ok (placement, statement', th').
Proof.
  intros Hn Hp. cbn in Hp. apply bind_Ok in Hp as ([] & Hr & Hp). injection Hp as <- <- <-.
  set (p := home_of h (ct_name create)). cbn [place_statement statement_placement].
  assert (Hk : key_of (ct_name (place_table create p schema)) = key_of (ct_name create)) by by apply key_of_qualify_if_attached.
  assert (reject_foreign_keys_across (place_table create p schema) schema h = Ok tt) as ->.
  { apply (proj2 (reject_create_Ok _ _ _)). rewrite Hk. exact (proj1 (reject_create_Ok _ _ _) Hr). }
  unfold home_of. rewrite Hk. fold (home_of h (ct_name create)). fold p. cbn [mbind result_bind].
  unfold place_table. cbn. rewrite qualify_if_attached_again, <- orb_assoc, orb_diag by done. done.
Qed.

Lemma place_alter_again alter :
  ends_in_ident (at_name alter) →
  place_statement (SAlterTable alter) schema h logical th = Ok (placement, statement', th') →
  place_statement statement' schema h logical th' = Ok (placement, statement', th').
Proof.
  intros Hn Hp. cbn in Hp. apply bind_Ok in Hp as ([] & Hr & Hp). injection Hp as <- <- <-.
  set (p := home_of h (at_name alter)) in *. cbn [place_statement statement_placement].
  assert (Hk : key_of (at_name (place_alter alter p schema)) = key_of (at_name alter)) by by apply key_of_qualify_if_attached.
  unfold home_of. rewrite Hk. fold (home_of h (at_name alter)). fold p.
  assert (reject_added_foreign_keys (place_alter alter p schema) p h = Ok tt) as ->.
  { apply (proj2 (reject_added_Ok _ _ _)). exact (proj1 (reject_added_Ok _ _ _) Hr). }
  cbn [mbind result_bind]. unfold place_alter. cbn. by rewrite qualify_if_attached_again.
Qed.

Lemma place_drop_again object_type names rest :
  Forall ends_in_ident names →
  place_statement (SDrop object_type names rest) schema h logical th = Ok (placement, statement', th') →
  place_statement statement' schema h logical th' = Ok (placement, statement', th').
Proof.
  intros Hn Hp. cbn [place_statement] in Hp. injection Hp as Hpl <- <-.
  destruct (is_droppable object_type) eqn:Ed; [|by rewrite <- Hpl; destruct object_type].
  set (names' := map _ names).
  assert (statement_placement (SDrop object_type names' rest) h logical th = placement) as Hsp.
  { rewrite <- Hpl. unfold names'. destruct object_type; try done; destruct names as [|name names]; try done; cbn;
      apply Forall_cons in Hn as [Hn _]; unfold home_of; by rewrite key_of_qualify_if_attached. }
  cbn [place_statement]. rewrite Hsp, Ed. do 3 f_equal. f_equal. unfold names'. rewrite map_map, Hpl.
  apply map_ext_in. intros name Hin. rewrite Forall_forall in Hn. apply qualify_if_attached_again, Hn. by apply list_elem_of_In.
Qed.

Lemma place_trigger_again trigger statements :
  ends_in_ident (tg_table_name trigger) →
  place_statement (SCreateTrigger trigger statements) schema h logical th = Ok (placement, statement', th') →
  place_statement statement' schema h logical th' = Ok (placement, statement', th').
Proof.
  intros Hn Hp. cbn [place_statement] in Hp. injection Hp as Hpl <- <-. rewrite Hpl.
  assert (Hk : key_of (tg_table_name (place_trigger trigger placement schema h)) = key_of (tg_table_name trigger)).
  { clear Hpl. unfold place_trigger. case_bool_decide; [|done]. cbn. destruct (home_of h _); [by apply key_of_qualified..|done]. }
  assert (Hagain : place_trigger (place_trigger trigger placement schema h) placement schema h = place_trigger trigger placement schema h).
  { clear Hpl. unfold place_trigger at 1. case_bool_decide as Ht; [|done]. unfold home_of. rewrite Hk. fold (home_of h (tg_table_name trigger)).
    unfold place_trigger. rewrite bool_decide_eq_true_2 by done. cbn.
    destruct (home_of h (tg_table_name trigger)); [by rewrite qualified_again..|done]. }
  set (placed := place_trigger trigger placement schema h) in *.
  assert (Hname : tg_name placed = tg_name trigger) by (clear; unfold placed, place_trigger; by case_bool_decide).
  set (th1 := entry_or_insert th (key_of (tg_name placed)) placement).
  assert (Hsp : statement_placement (SCreateTrigger placed statements) h logical th1 = placement).
  { destruct (decide (placement = Temp)) as [Ht'|Hm].
    - assert (tg_temporary placed = true) as Ht by (unfold placed, place_trigger; by rewrite bool_decide_eq_true_2).
      cbn. by rewrite Ht, andb_false_r.
    - assert (placed = trigger) as -> by (unfold placed, place_trigger; by rewrite bool_decide_eq_false_2). exact Hpl. }
  cbn [place_statement]. rewrite Hsp, Hagain.
  assert (entry_or_insert th1 (key_of (tg_name placed)) placement = th1) as ->; [|done].
  unfold th1, entry_or_insert. destruct (th !! key_of (tg_name placed)) eqn:E; [by rewrite E|by rewrite lookup_insert_eq].
Qed.
End Again.

(** ** Every statement of a unit, placed in order *)

Fixpoint place_each (emitted : list (Statement Payload)) (schema : str) (homes logical trigger_homes : Homes)
    : result Error (list Placement * list (Statement Payload) * Homes) :=
  match emitted with
  | [] => mret ([], [], trigger_homes)
  | statement :: emitted =>
      '(placement, statement, trigger_homes) ← place_statement statement schema homes logical trigger_homes;
      '(placements, emitted, trigger_homes) ← place_each emitted schema homes logical trigger_homes;
      mret ((placement : Placement) :: placements, (statement : Statement Payload) :: emitted, trigger_homes)
  end.

Definition homed_in (placement : Placement) (placements : list Placement) : bool :=
  existsb (λ p, bool_decide (p = placement)) placements.

Lemma place_unit_each emitted schema h logical th main attached :
  place_unit emitted schema h logical th main attached
  = ('(placements, emitted, th) ← place_each emitted schema h logical th;
     mret (main || homed_in Main placements, attached || homed_in Attached placements, emitted, th)).
Proof.
  revert th main attached. induction emitted as [|statement emitted IH]; intros th main attached; cbn.
  { by rewrite !orb_false_r. }
  destruct (place_statement statement schema h logical th) as [[[p statement'] th']|e]; [|done]. cbn.
  rewrite IH. destruct (place_each emitted schema h logical th') as [[[ps emitted'] th'']|e]; [|done]. cbn.
  by rewrite !orb_assoc.
Qed.

Lemma homed_in_elem placement placements : homed_in placement placements = true ↔ placement ∈ placements.
Proof.
  unfold homed_in. rewrite existsb_exists. split.
  - intros (p & Hp & ->%bool_decide_eq_true). by apply list_elem_of_In.
  - intros Hp. exists placement. split; [by apply list_elem_of_In|]. by apply bool_decide_eq_true.
Qed.

(** ** Properties *)

(** Which views are temporary.  The loop over the views ends, and moves to
    [temp] exactly the views that read, directly or through other views, something
    the batch homes outside [main]; every other home stays. *)
Lemma homes_closure inputs translated schema storage :
  let '(h0, views) := created inputs translated schema storage in
  ∃ h, homes inputs translated schema storage = Some h ∧
    ∀ k, (Escapes views h0 k → h !! k = Some Temp) ∧ (¬ Escapes views h0 k → h !! k = h0 !! k).
Proof.
  pose proof (homes_spec inputs translated schema storage) as Hs.
  destruct (created inputs translated schema storage) as [h0 views]. destruct Hs as (h & Hh & Hm & Hset).
  exists h. split; [done|]. intros k. split; [by apply settled_escapes|].
  intros Hn. by destruct (Hm k) as [?|[_ ?]].
Qed.

(** C9 (a permanent view reads [main] only). Whatever a view that is left permanent
    names and that is homed in the attached file or in [temp] is not created by the
    batch: no permanent view names an object of another database that the batch
    creates. *)
Theorem permanent_view_names_main sources emitted schema suffix attached placed emitted' input out view r :
  place sources emitted schema suffix attached = Some (Ok (placed, emitted')) →
  (input, out) ∈ zip sources emitted → SCreateView view ∈ out →
  home_of (placed_homes placed) (cv_name view) = Main →
  r ∈ query_relation_names (cv_query view) → batch_creates sources emitted r →
  placed_homes placed !! r = Some Main.
Proof.
  unfold place. intros Hp Hin Hview Hmain Hr (input' & out' & st & Hin' & Hst & Hcr).
  destruct (match attached with Some a => _ | None => Ok ∅ end) as [storage|e]; [|done].
  pose proof (homes_spec sources emitted schema storage) as Hs.
  pose proof (created_records sources emitted schema storage _ _ _ Hin Hview) as [Hk Hv].
  pose proof (created_records sources emitted schema storage _ _ _ Hin' Hst) as [Hk' _].
  destruct (created sources emitted schema storage) as [h0 views]. destruct Hs as (h & Hh & Hm & Hset).
  rewrite Hh in Hp. cbn in Hp. injection Hp as Hp. inv_ok.
  destruct a as [h' logical]. inv_ok. destruct a as [[files placed'] th]. cbn in Hp. injection Hp as <- _. cbn in Hmain |- *.
  assert (Hkeep : ∀ k p, h !! k = Some p → h' !! k = Some p) by (intros k p Hkp; by eapply (place_stored_keeps _ _ _ _ (h, ∅) (h', logical))).
  assert (Hsome : ∀ k, is_Some (h0 !! k) → is_Some (h !! k)) by (intros k Hi; destruct (Hm k) as [->|[-> _]]; [done|by eexists]).
  destruct (Hsome _ (Hk _ eq_refl)) as [pv Hpv]. destruct (Hsome _ (Hk' _ Hcr)) as [pr Hpr].
  unfold home_of in Hmain. rewrite (Hkeep _ _ Hpv) in Hmain. cbn in Hmain. subst pv.
  rewrite (Hkeep _ _ Hpr). f_equal. destruct (decide (pr = Main)) as [|Hne]; [done|]. exfalso.
  destruct (Hset _ _ (Hv view eq_refl)) as [Ht|Hf]; [congruence|].
  enough (reads_placed (query_relation_names (cv_query view)) h = true) by congruence.
  apply reads_placed_true. by exists r, pr.
Qed.

(** Placing twice.  A placed statement is placed where it was, and left as it
    is: qualifying a name or marking an object [TEMP] does not change its home, so
    the forms that rebinding places a second time agree with the emitted ones. *)
Lemma place_statement_idempotent statement schema h logical th placement statement' th' :
  named statement → place_statement statement schema h logical th = Ok (placement, statement', th') →
  place_statement statement' schema h logical th' = Ok (placement, statement', th').
Proof.
  intros Hn Hp. destruct statement; cbn [place_statement statement_placement] in Hp;
    try (injection Hp as <- <- <-; reflexivity); cbn [named] in Hn.
  - by eapply place_table_again.
  - injection Hp as <- <- <-. cbn [place_statement statement_placement]. unfold home_of.
    rewrite key_of_qualify_placed, qualify_placed_again by done. done.
  - injection Hp as <- <- <-. cbn. f_equal. f_equal. f_equal. f_equal. unfold place_view. cbn. by rewrite <- orb_assoc, orb_diag.
  - injection Hp as <- <- <-. cbn. f_equal. f_equal. f_equal. f_equal. unfold place_index. cbn.
    destruct (ci_name create) as [n|] eqn:E; cbn; [|done]. by rewrite qualify_placed_again by eauto.
  - by eapply place_trigger_again.
  - by eapply place_drop_again.
  - by eapply place_alter_again.
Qed.

(** The selections that run a unit.  The statements of a unit are placed in
    order, and the unit is run in full for a fresh main file exactly when none of
    them is homed in the attached file, and for a fresh attached file exactly when
    none of them is homed in the main file; a refusal is the refusal of one of the
    statements. *)
Lemma unit_files_spec source emitted schema h logical th :
  is_transaction_control source = false →
  match unit_files source emitted schema h logical th with
  | Ok (files, emitted', th') =>
      ∃ placements, place_each emitted schema h logical th = Ok (placements, emitted', th')
        ∧ (contains files MAIN = true ↔ Attached ∉ placements)
        ∧ (contains files ATTACHED = true ↔ Main ∉ placements)
        ∧ contains files CONNECTION = false
  | Err error => place_each emitted schema h logical th = Err error
  end.
Proof.
  intros Hs. unfold unit_files. rewrite Hs, place_unit_each.
  destruct (place_each emitted schema h logical th) as [[[ps emitted'] th']|e]; [|done]. cbn.
  exists ps. split; [done|]. rewrite <- !homed_in_elem.
  destruct (homed_in Attached ps), (homed_in Main ps); cbn; split_and!; try done; split; try done; congruence.
Qed.

(** Foreign keys stay in one file.  A created table is accepted exactly when it
    and all the tables its columns and constraints reference are in the attached
    file, or none of them is; and the columns an [ALTER TABLE] adds likewise. *)
Lemma foreign_keys_stay_in_file schema h logical th :
  (∀ create, is_ok (place_statement (SCreateTable create) schema h logical th) = true ↔
    ∀ parent, parent ∈ parents create → (h !! key_of parent = Some Attached ↔ h !! key_of (ct_name create) = Some Attached))
  ∧ (∀ alter, is_ok (place_statement (SAlterTable alter) schema h logical th) = true ↔
    ∀ parent, parent ∈ added_parents alter → (h !! key_of parent = Some Attached ↔ h !! key_of (at_name alter) = Some Attached)).
Proof.
  split.
  - intros create. rewrite <- (reject_create_Ok create schema h). cbn [place_statement].
    by destruct (reject_foreign_keys_across create schema h) as [[]|e].
  - intros alter. set (p := home_of h (at_name alter)).
    assert (Hh : ∀ k, default Main (h !! k) = Attached ↔ h !! k = Some Attached).
    { intros k. destruct (h !! k) as [[]|]; cbn; split; congruence. }
    transitivity (reject_added_foreign_keys alter p h = Ok tt).
    + cbn [place_statement statement_placement]. fold p. by destruct (reject_added_foreign_keys alter p h) as [[]|e].
    + rewrite (reject_added_Ok alter p h). unfold p, home_of. by setoid_rewrite Hh.
Qed.
End Facts.

(** ** Witnesses *)

Section Demo.
#[local] Instance demo_library : Library (list str) (list (str * bool)) (str * bool) := {|
  name_to_string := λ name, join (lit ".") (map (λ p, default [] (value <$> as_ident p)) name);
  ident_to_string := value;
  identifiers_match := λ a _ b _, str_eqb a b;
  resolve_schema_ident := λ _ _, true;
  resolve_table_object_name := λ _ _, Ok None;
  has_row_level_security := λ _ _, Ok false
|}.
#[local] Instance demo_nodes : Nodes (list str) (list (str * bool)) (str * bool) := {|
  relation_names := λ _, [];
  query_relation_names := λ query, query;
  trigger_relation_names := λ _ _, [];
  statement_to_string := λ _, [];
  schema_tables := λ schema, schema;
  table_name := fst;
  temporary := snd
|}.

Definition demo_name (s : String.string) : ObjectName (list str) := [Identifier (Ident_new (lit s))].
Definition demo_table (s : String.string) : CreateTable (list str) :=
  {| ct_name := demo_name s; ct_temporary := false; ct_if_not_exists := false; ct_query := None;
     ct_columns := []; ct_constraints := []; ct_rest := [] |}.
Definition demo_view (s base : String.string) : CreateView (list str) :=
  {| cv_name := demo_name s; cv_temporary := false; cv_or_replace := false; cv_query := [lit base]; cv_rest := [] |}.
Definition demo_trigger : CreateTrigger (list str) :=
  {| tg_name := demo_name "tr"; tg_table_name := demo_name "t"; tg_temporary := false; tg_or_replace := false;
     tg_events := [EvInsert]; tg_rest := [] |}.
Definition demo_attached : AttachedTables := {| attached_schema_name := lit "part"; attached_tables := [lit "t"] |}.
Definition demo_batch : list (Statement (list str)) :=
  [SCreateTable (demo_table "t"); SCreateTable (demo_table "m"); SCreateView (demo_view "v" "m")].
Definition demo_schema : list (str * bool) := [(lit "t", false); (lit "m", false)].

(** The batch places [t] in the attached file and leaves the view of [m] permanent. *)
Lemma permanent_view_names_main_witness :
  ∃ placed emitted,
    place demo_batch (map (λ s, [s]) demo_batch) demo_schema [] (Some demo_attached) = Some (Ok (placed, emitted))
    ∧ placed_home placed (lit "t") = Attached ∧ placed_homes placed !! lit "m" = Some Main.
Proof.
  destruct (place demo_batch (map (λ s, [s]) demo_batch) demo_schema [] (Some demo_attached)) as [[[placed emitted]|e]|] eqn:E;
    [|vm_compute in E; discriminate E..].
  exists placed, emitted. split; [reflexivity|]. split.
  - vm_compute in E. injection E as <- _. vm_compute. reflexivity.
  - apply (permanent_view_names_main demo_batch (map (λ s, [s]) demo_batch) demo_schema [] (Some demo_attached) placed emitted
      (SCreateView (demo_view "v" "m")) [SCreateView (demo_view "v" "m")] (demo_view "v" "m")).
    + exact E.
    + apply list_elem_of_further, list_elem_of_further, list_elem_of_here.
    + apply list_elem_of_here.
    + vm_compute in E. injection E as <- _. vm_compute. reflexivity.
    + apply list_elem_of_here.
    + exists (SCreateTable (demo_table "m")), [SCreateTable (demo_table "m")], (SCreateTable (demo_table "m")). split_and!.
      * apply list_elem_of_further, list_elem_of_here.
      * apply list_elem_of_here.
      * reflexivity.
Defined.

(** A trigger of an attached table is made temporary and its table qualified, once. *)
Definition demo_homes : Homes := {[lit "t" := Attached]}.
Definition demo_placed_trigger := place_statement (SCreateTrigger demo_trigger None) (lit "part") demo_homes ∅ ∅.

Lemma place_statement_idempotent_witness :
  ∃ statement th, demo_placed_trigger = Ok (Temp, statement, th)
    ∧ place_statement statement (lit "part") demo_homes ∅ th = Ok (Temp, statement, th).
Proof.
  destruct demo_placed_trigger as [[[p statement] th]|e] eqn:E; [|vm_compute in E; discriminate E].
  assert (p = Temp) as -> by (vm_compute in E; injection E; intros; congruence).
  exists statement, th. split; [reflexivity|].
  apply (place_statement_idempotent (SCreateTrigger demo_trigger None) (lit "part") demo_homes ∅ ∅ Temp statement th).
  - exists (Ident_new (lit "t")). reflexivity.
  - exact E.
Defined.

(** A unit that writes the attached file is not run for a fresh main file. *)
Lemma unit_files_spec_witness :
  is_transaction_control (SCreateTable (demo_table "t")) = false
  ∧ ∃ placements, place_each [SCreateTable (demo_table "t")] (lit "part") demo_homes ∅ ∅
      = Ok (placements, [SCreateTable (place_table (demo_table "t") Attached (lit "part"))], ∅).
Proof.
  split; [reflexivity|].
  pose proof (unit_files_spec (SCreateTable (demo_table "t")) [SCreateTable (demo_table "t")] (lit "part") demo_homes ∅ ∅ eq_refl) as Hu.
  destruct (unit_files _ _ _ _ _ _) as [[[files out] th]|e] eqn:E in Hu; [|vm_compute in E; discriminate E].
  destruct Hu as (placements & Hp & _). exists placements. rewrite Hp. vm_compute in E. injection E as <- <- <-. reflexivity.
Defined.

(** A view of an attached table that only the starting schema declares is left
    permanent, though it names an object of the other file: the homes of such
    tables are recorded after the loop over the views. *)
Example view_of_declared_table_stays_permanent :
  match place [SCreateView (demo_view "v" "t")] [[SCreateView (demo_view "v" "t")]] demo_schema [] (Some demo_attached) with
  | Some (Ok (placed, emitted)) =>
      (placed_home placed (lit "t"), placed_home placed (lit "v"), emitted)
      = (Attached, Main, [[SCreateView (demo_view "v" "t")]])
  | _ => False
  end.
Proof. vm_compute. reflexivity. Qed.
End Demo.
End Placement.
