(* ===== verification/Replay.v ===== *)
(** * The connection program and the fresh-file forms

    [src/src/history/mod.rs], with the classification of schema statements of
    [src/src/pg2sqlite.rs].  The translator, the rebinding of names, the parser and
    the schema ingestor are parameters; the statements' effects, their outline and
    their placement are the modelled ones. *)

From S2P Require Import Prelude Text Errors Ast Exprs Names Transactions Effects Placement.
Import Effects Placement.

Module Replay.

(** ** Retention

    The code indexes vectors by object; [None] is an index out of bounds, or a
    loop that has not ended. *)

Fixpoint any_needed (needed : list bool) (ids : list ObjectId) : option bool :=
  match ids with
  | [] => Some false
  | id :: ids => b ← needed !! id; if (b : bool) then Some true else any_needed needed ids
  end.

Fixpoint need (needed : list bool) (ids : list ObjectId) : option (list bool) :=
  match ids with
  | [] => Some needed
  | id :: ids => if decide (id < length needed)%nat then need (<[id := true]> needed) ids else None
  end.

(** The loop variables [needed], [retained] and [changed]. *)
Record Search := { needed : list bool; retained : list bool; changed : bool }.

Definition retention_step (effects : list Effects) (σ : Search) (index : nat) : option Search :=
  effect ← effects !! index;
  kept ← retained σ !! index;
  if (kept : bool) then Some σ
  else
    any ← any_needed (needed σ) (touches effect);
    if negb any then Some σ
    else
      needed ← need (needed σ) (touches effect ++ reads effect);
      Some {| needed := needed; retained := <[index := true]> (retained σ); changed := true |}.

Fixpoint retention_pass (effects : list Effects) (σ : Search) (indices : list nat) : option Search :=
  match indices with
  | [] => Some σ
  | index :: indices => σ' ← retention_step effects σ index; retention_pass effects σ' indices
  end.

(** The effects from the last to the first. *)
Definition backwards (effects : list Effects) : list nat := reverse (seq 0 (length effects)).

Fixpoint retention_loop (fuel : nat) (effects : list Effects) (needed retained : list bool) : option (list bool) :=
  match fuel with
  | O => None
  | S fuel =>
      σ ← retention_pass effects {| needed := needed; retained := retained; changed := false |} (backwards effects);
      if changed σ then retention_loop fuel effects (Replay.needed σ) (Replay.retained σ) else Some (Replay.retained σ)
  end.

(** Each pass that changes something retains another unit, so one pass more than
    the units is enough. *)
Definition retention (len : nat) (alive : list ObjectId) (effects : list Effects) : option (list bool) :=
  needed ← need (replicate len false) alive;
  retention_loop (S (length effects)) effects needed (replicate (length effects) false).

(** *** What is kept *)

Section Retention.
Variables (len : nat) (alive : list ObjectId) (effects : list Effects).

(** The units the live objects need: a unit that changes a live object, or an
    object that a kept unit changes or reads. *)
Inductive Kept : nat → Prop :=
| Kept_alive index effect id :
    effects !! index = Some effect → id ∈ touches effect → id ∈ alive → Kept index
| Kept_needed index effect id index' effect' :
    effects !! index = Some effect → id ∈ touches effect →
    Kept index' → effects !! index' = Some effect' → id ∈ touches effect' ++ reads effect' → Kept index.

(** Every object named is one of the [len] objects. *)
Definition in_bounds (ids : list ObjectId) : Prop := Forall (λ id, id < len)%nat ids.
Hypothesis alive_bounds : in_bounds alive.
Hypothesis effects_bounds : ∀ index effect, effects !! index = Some effect →
  in_bounds (touches effect) ∧ in_bounds (reads effect).

Lemma need_spec needed ids :
  length needed = len → in_bounds ids →
  ∃ needed', need needed ids = Some needed' ∧ length needed' = len
    ∧ ∀ id, needed' !! id = Some true ↔ needed !! id = Some true ∨ id ∈ ids.
Proof.
  intros Hl Hb. revert needed Hl. induction ids as [|id ids IH]; intros needed Hl; cbn.
  { exists needed. split_and!; [done..|]. intros id. rewrite elem_of_nil. tauto. }
  apply Forall_cons in Hb as [Hid Hb]. rewrite decide_True by lia.
  destruct (IH Hb (<[id := true]> needed)) as (needed' & -> & Hl' & Hn); [by rewrite length_insert|].
  exists needed'. split_and!; [done..|]. intros x. rewrite Hn, elem_of_cons.
  destruct (decide (x = id)) as [->|Hne].
  - rewrite list_lookup_insert_eq by lia. tauto.
  - rewrite list_lookup_insert_ne by done. tauto.
Qed.

Lemma any_needed_spec needed ids :
  length needed = len → in_bounds ids →
  ∃ b, any_needed needed ids = Some b ∧ (b = true ↔ ∃ id, id ∈ ids ∧ needed !! id = Some true).
Proof.
  intros Hl. induction ids as [|id ids IH]; intros Hb; cbn.
  { exists false. split; [done|]. split; [done|]. by intros (id & ?%elem_of_nil & _). }
  apply Forall_cons in Hb as [Hid Hb]. destruct (lookup_lt_is_Some_2 needed id) as [b Hbn]; [lia|].
  rewrite Hbn. cbn. destruct b.
  - exists true. split; [done|]. split; [|done]. intros _. exists id. split; [apply list_elem_of_here|done].
  - destruct (IH Hb) as (b & -> & Hs). exists b. split; [done|]. rewrite Hs. split.
    + intros (x & Hx & Hn). exists x. split; [by apply list_elem_of_further|done].
    + intros (x & [->|Hx]%elem_of_cons & Hn); [congruence|eauto].
Qed.

(** Needed because it lives or because a kept unit uses it. *)
Definition Needed (id : ObjectId) : Prop :=
  id ∈ alive ∨ ∃ index effect, Kept index ∧ effects !! index = Some effect ∧ id ∈ touches effect ++ reads effect.

Record sound (σ : Search) : Prop := {
  s_needed_length : length (needed σ) = len;
  s_retained_length : length (retained σ) = length effects;
  s_kept : ∀ index, retained σ !! index = Some true → Kept index;
  s_needed : ∀ id, needed σ !! id = Some true → Needed id;
  s_alive : ∀ id, id ∈ alive → needed σ !! id = Some true;
  s_used : ∀ index effect id, retained σ !! index = Some true → effects !! index = Some effect →
    id ∈ touches effect ++ reads effect → needed σ !! id = Some true
}.

(** The unit is retained, or changes nothing needed. *)
Definition quiet (σ : Search) (index : nat) : Prop :=
  retained σ !! index = Some true ∨
  ∀ effect id, effects !! index = Some effect → id ∈ touches effect → needed σ !! id ≠ Some true.

Definition falses (l : list bool) : nat := length (List.filter negb l).
#[local] Arguments falses l : simpl never.

Lemma falses_insert l index : l !! index = Some false → falses l = S (falses (<[index := true]> l)).
Proof.
  revert index. induction l as [|b l IH]; intros [|index]; cbn; try done.
  - by intros [= ->].
  - intros Hi. unfold falses in *. cbn. specialize (IH _ Hi). destruct b; cbn; [exact IH|by rewrite IH].
Qed.

Lemma retention_step_spec σ index :
  sound σ → (index < length effects)%nat →
  ∃ σ', retention_step effects σ index = Some σ' ∧ sound σ' ∧
    ((σ' = σ ∧ quiet σ index) ∨ (changed σ' = true ∧ falses (retained σ') < falses (retained σ))%nat).
Proof.
  intros Hs Hi. unfold retention_step.
  destruct (lookup_lt_is_Some_2 effects index Hi) as [effect He]. rewrite He. cbn.
  destruct (lookup_lt_is_Some_2 (retained σ) index) as [kept Hk]; [by rewrite (s_retained_length σ Hs)|].
  rewrite Hk. cbn. destruct kept; [exists σ; split_and!; [done..|left; split; [done|by left]]|].
  destruct (effects_bounds _ _ He) as [Ht Hr].
  destruct (any_needed_spec (needed σ) (touches effect) (s_needed_length σ Hs) Ht) as (b & -> & Hb). cbn.
  destruct b; cbn.
  2:{ exists σ. split_and!; [done..|]. left. split; [done|]. right. intros effect' id He' Hid Hn.
      assert (effect' = effect) as -> by congruence.
      enough (false = true) by done. apply Hb. eauto. }
  destruct (need_spec (needed σ) (touches effect ++ reads effect) (s_needed_length σ Hs)) as (needed' & -> & Hl & Hn);
    [by apply Forall_app|]. cbn. eexists. split; [done|].
  destruct (proj1 Hb eq_refl) as (id & Hid & Hidn). pose proof (s_needed σ Hs _ Hidn) as Hneed.
  assert (HK : Kept index).
  { destruct Hneed as [Ha|(i' & e' & Hk' & He' & Hid')]; [by eapply Kept_alive|by eapply Kept_needed]. }
  split; [|right; cbn; split; [done|]; rewrite (falses_insert _ _ Hk); apply Nat.lt_succ_diag_r].
  assert (Hret : ∀ i, <[index := true]> (retained σ) !! i = Some true ↔ i = index ∨ retained σ !! i = Some true).
  { intros i. destruct (decide (i = index)) as [->|Hne].
    - rewrite list_lookup_insert_eq by (rewrite (s_retained_length σ Hs); lia). tauto.
    - rewrite list_lookup_insert_ne by done. tauto. }
  split; cbn.
  - done.
  - rewrite length_insert. apply (s_retained_length σ Hs).
  - intros i [->|Hi']%Hret; [done|by apply (s_kept σ Hs)].
  - intros x [Hx|Hx]%Hn; [by apply (s_needed σ Hs)|]. right. by exists index, effect.
  - intros x Hx. apply Hn. left. by apply (s_alive σ Hs).
  - intros i e x [->|Hi']%Hret Hie Hx; apply Hn; [right; by assert (e = effect) as <- by congruence|].
    left. by eapply (s_used σ Hs).
Qed.

Lemma retention_pass_spec σ indices :
  sound σ → Forall (λ index, index < length effects)%nat indices →
  ∃ σ', retention_pass effects σ indices = Some σ' ∧ sound σ'
    ∧ (falses (retained σ') <= falses (retained σ))%nat
    ∧ (changed σ = true → changed σ' = true)
    ∧ (changed σ' = true → changed σ = true ∨ (falses (retained σ') < falses (retained σ))%nat)
    ∧ (changed σ' = false → σ' = σ ∧ ∀ index, index ∈ indices → quiet σ index).
Proof.
  revert σ. induction indices as [|index indices IH]; intros σ Hs Hb; cbn.
  { exists σ. split_and!; auto. intros _. split; [done|]. by intros index ?%elem_of_nil. }
  apply Forall_cons in Hb as [Hi Hb]. destruct (retention_step_spec σ index Hs Hi) as (σ1 & -> & Hs1 & Hcase). cbn.
  destruct (IH σ1 Hs1 Hb) as (σ2 & -> & Hs2 & Hle & Hmono & Hch & Hq). exists σ2.
  destruct Hcase as [[-> Hqi]|[Hc1 Hlt]].
  - split_and!; [done..|]. intros Hf. destruct (Hq Hf) as [-> Hqs]. split; [done|].
    intros i [->|Hin]%elem_of_cons; auto.
  - split_and!; [done|done|lia|auto|intros _; right; lia|]. intros Hf. rewrite Hmono in Hf by done. done.
Qed.

Lemma retention_loop_spec fuel needed retained changed :
  sound {| needed := needed; retained := retained; changed := changed |} → (falses retained < fuel)%nat →
  ∃ needed' retained', retention_loop fuel effects needed retained = Some retained'
    ∧ sound {| needed := needed'; retained := retained'; changed := false |}
    ∧ ∀ index, (index < length effects)%nat →
        quiet {| needed := needed'; retained := retained'; changed := false |} index.
Proof.
  revert needed retained changed. induction fuel as [|fuel IH]; intros needed retained changed Hs Hf; [lia|].
  cbn [retention_loop]. set (σ := {| needed := needed; retained := retained; changed := false |}).
  assert (Hsσ : sound σ) by (destruct Hs; by split).
  destruct (retention_pass_spec σ (backwards effects) Hsσ) as (σ' & -> & Hs' & _ & _ & Hch & Hq).
  { apply Forall_forall. intros i Hi. unfold backwards in Hi. rewrite elem_of_reverse, elem_of_seq in Hi. lia. }
  cbn. destruct (Replay.changed σ') eqn:Ec.
  - apply (IH _ _ (Replay.changed σ')); [by destruct σ'|]. destruct (Hch eq_refl) as [?|Hlt]; [done|]. cbn in Hlt. lia.
  - destruct (Hq eq_refl) as [-> Hqs]. exists needed, retained. split_and!; [done..|].
    intros index Hi. apply Hqs. unfold backwards. rewrite elem_of_reverse, elem_of_seq. lia.
Qed.

Lemma quiet_complete σ index :
  sound σ → (∀ index, (index < length effects)%nat → quiet σ index) → Kept index → retained σ !! index = Some true.
Proof.
  intros Hs Hq. assert (Hlt : ∀ i e, effects !! i = Some e → quiet σ i) by (intros i e He; by eapply Hq, lookup_lt_Some).
  induction 1 as [index effect id He Hid Ha|index effect id index' effect' He Hid _ IH He' Hid'].
  - destruct (Hlt _ _ He) as [?|Hno]; [done|]. exfalso. apply (Hno effect id He Hid). by apply (s_alive σ Hs).
  - destruct (Hlt _ _ He) as [?|Hno]; [done|]. exfalso. apply (Hno effect id He Hid). by eapply (s_used σ Hs).
Qed.

Lemma retention_spec :
  ∃ retained, retention len alive effects = Some retained ∧ length retained = length effects
    ∧ ∀ index, retained !! index = Some true ↔ Kept index.
Proof.
  unfold retention. destruct (need_spec (replicate len false) alive (length_replicate _ _) alive_bounds) as (needed & -> & Hl & Hn).
  cbn [mbind option_bind].
  destruct (retention_loop_spec (S (length effects)) needed (replicate (length effects) false) false) as (needed' & retained & -> & Hs & Hq).
  - assert (Hno : ∀ n i, replicate n false !! i ≠ Some true) by (intros n i Hi; by apply lookup_replicate in Hi as [? _]).
    split; cbn; [done|by rewrite length_replicate| | | |].
    + by intros index ?%Hno.
    + intros id [?%Hno|Ha]%Hn; [done|by left].
    + intros id Ha. apply Hn. by right.
    + by intros index effect id ?%Hno.
  - unfold falses. pose proof (filter_length_le negb (replicate (length effects) false)) as Hle.
    rewrite length_replicate in Hle. lia.
  - exists retained. split_and!; [done|apply (s_retained_length _ Hs)|]. intros index. split.
    + apply (s_kept _ Hs).
    + apply (quiet_complete _ _ Hs Hq).
Qed.
End Retention.

(** ** Failing computations over the placement

    The code changes the placement in place, so its changes outlive a failure. *)

Definition M (A : Type) : Type := Placed → Placed * result ConnectionError A.
#[global] Instance M_ret : MRet M := λ A a placed, (placed, Ok a).
#[global] Instance M_bind : MBind M := λ A B f m placed,
  match m placed with
  | (placed, Ok a) => f a placed
  | (placed, Err error) => (placed, Err error)
  end.
Definition lift {A} (r : result ConnectionError A) : M A := λ placed, (placed, r).
Definition get : M Placed := λ placed, (placed, Ok placed).
Definition put (placed : Placed) : M () := λ _, (placed, Ok ()).
Definition fail {A} (error : ConnectionError) : M A := λ placed, (placed, Err error).

(** ** Which statements change the schema *)

Section Classification.
Context {Payload : Type}.
Implicit Types (statement : Statement Payload).

(** [Pg2Sqlite::schema_statement_is_ignored] and [schema_ends_epoch]. *)
Definition schema_statement_is_ignored statement : bool :=
  match statement with
  | SCreateTrigger _ _ | SDropTrigger _ _ _ => true
  | SDrop object_type _ _ => negb match object_type with Table | View | Index => true | _ => false end
  | _ => false
  end.

Definition schema_ends_epoch statement : bool :=
  match statement with
  | SAlterTable alter =>
      existsb (λ operation, match operation with RenameTo _ => true | _ => false end) (at_operations alter)
  | SDrop (Table | View) _ _ | SRenameTable _ => true
  | _ => false
  end.
End Classification.

(** What the replay asks of the rest of the crate and of its libraries. *)
Class Replayer (Payload Schema Tbl Vw Ingestor Context Body : Type) := {
  schema_views : Schema → list Vw;
  view_name : Vw → str;
  view_is_temporary : Vw → bool;
  into_ingestor : Schema → Ingestor;
  ingest : Ingestor → Statement Payload → result str Ingestor;
  snapshot : Ingestor → Schema;
  parse_sql : str → result str (list (Statement Payload));
  rebind : Statement Payload → nat → Schema → Schema → Files → Homes → result ConnectionError (option (Statement Payload));
  rebind_trigger_body : CreateTrigger Payload → nat → Schema → Schema → Files → Homes → result ConnectionError (option Body);
  with_rebound_body : Context → Body → Context;
  translate : Statement Payload → Schema → Context → result Error (list (Statement Payload));
  error_to_string : Error → str
}.

Definition refusal (detail : str) : ConnectionError :=
  Errors.Translation (TranslationRefusal_new PostgreSqlToSqlite UnrepresentableSemantics detail).

(** The double-quoted [name]. *)
Definition quoted (name : str) : str := [34] ++ double_quotes name ++ [34].

(** [begin] and [commit]. *)
Definition begin_statement {Payload} : Statement Payload := StartTransaction.
Definition commit_statement {Payload} : Statement Payload := Commit false.

Record Unit {Payload Schema : Type} := {
  source : Statement Payload;
  binding : Schema;
  emitted : list (Statement Payload);
  disposition : Blocks.Disposition
}.
Arguments Unit : clear implicits.

Section Program.
Context {Payload Schema Tbl Vw Ingestor Context Body : Type}
  `{Library Payload Schema Tbl} `{!Nodes Payload Schema Tbl} `{!Replayer Payload Schema Tbl Vw Ingestor Context Body}.
Implicit Types (unit : Unit Payload Schema) (statement : Statement Payload) (placed : Placed).

(** ** The replayed schema *)

Record ReplaySchema := { ingestor : Ingestor; homes : Files }.

Definition apply_schema (self : ReplaySchema) statement : result ConnectionError ReplaySchema :=
  if schema_statement_is_ignored statement then Ok self
  else match ingest (ingestor self) statement with
       | Ok ingestor => Ok {| ingestor := ingestor; homes := homes self |}
       | Err error =>
           Err (refusal (lit "replaying `" ++ statement_to_string statement
             ++ lit "` on a new connection fails against the final schema: " ++ error))
       end.

Definition drop_of (name : str) (temporary : bool) (replay_homes : Files) (homes : Homes) (kind : str) : option str :=
  let placement := if temporary then Temp else home homes name in
  let schema := if temporary then lit "pg_temp." else [] in
  if contains_placement replay_homes placement
  then Some (lit "DROP " ++ kind ++ lit " IF EXISTS " ++ schema ++ quoted name ++ lit " CASCADE")
  else None.

Fixpoint apply_all (schema : ReplaySchema) (statements : list (Statement Payload)) : result ConnectionError ReplaySchema :=
  match statements with
  | [] => Ok schema
  | statement :: statements => schema ← apply_schema schema statement; apply_all schema statements
  end.

Fixpoint apply_drops (schema : ReplaySchema) (drops : list str) : result ConnectionError ReplaySchema :=
  match drops with
  | [] => Ok schema
  | drop :: drops =>
      statements ← map_err (λ error, refusal (drop ++ lit " does not parse: " ++ error)) (parse_sql drop);
      schema ← apply_all schema statements;
      apply_drops schema drops
  end.

(** [ReplaySchema::new]. *)
Definition replay_schema_new (final_schema : Schema) (replay_homes : Files) (homes : Homes) : result ConnectionError ReplaySchema :=
  let drops :=
    omap (λ view, drop_of (view_name view) (view_is_temporary view) replay_homes homes (lit "VIEW")) (schema_views final_schema)
    ++ omap (λ table, drop_of (table_name table) (temporary table) replay_homes homes (lit "TABLE")) (schema_tables final_schema) in
  apply_drops {| ingestor := into_ingestor final_schema; homes := replay_homes |} drops.

Definition replays (self : ReplaySchema) statement (owned : bool) (batch_homes : Homes) : bool :=
  let recreated name := contains_placement (homes self) (home_of batch_homes name) in
  match statement with
  | SCreateTable create => recreated (ct_name create)
  | SCreateView view => recreated (cv_name view)
  | SCreateIndex index => recreated (ci_table_name index)
  | SAlterTable alter => recreated (at_name alter)
  | SCreateTrigger trigger _ => recreated (tg_table_name trigger)
  | SDropTrigger _ table_name _ => match table_name with Some name => recreated name | None => owned end
  | SCreatePolicy table_name _ | SAlterPolicy table_name _ | SDropPolicy table_name _ => recreated table_name
  | SDrop (Table | View | Index) names _ => match names with name :: _ => recreated name | [] => owned end
  | SCreateFunction _ | SAlterFunction _ | SDropFunction _ | SCreateRole _ | SAlterRole _ | SDrop Role _ _ => false
  | _ => owned
  end.

(** ** One unit *)

Fixpoint place_all (index : nat) (statements : list (Statement Payload)) : M (list (Statement Payload)) :=
  match statements with
  | [] => mret []
  | statement :: statements =>
      placed ← get;
      match place_rebound placed statement with
      | Ok (_, statement, placed) =>
          _ ← put placed;
          statements ← place_all index statements;
          mret (statement :: statements)
      | Err (UnusableAttachedTables reason) => fail (refusal reason)
      | Err error =>
          fail (refusal (lit "statement " ++ dec (Z.of_nat index) ++ lit " cannot be placed: " ++ error_to_string error))
      end
  end.

Definition replay_unit unit (id : nat) (final_schema : Schema) (context : Context) (owned : bool) (schema : ReplaySchema)
    : M (ReplaySchema * option (list (Statement Payload))) :=
  placed ← get;
  let replay_homes := homes schema in
  let replays := replays schema (source unit) owned (placed_homes placed) in
  rebound ← lift (rebind (source unit) id (binding unit) final_schema replay_homes (placed_homes placed));
  body ← lift (match source unit with
               | SCreateTrigger create _ =>
                   rebind_trigger_body create id (binding unit) final_schema replay_homes (placed_homes placed)
               | _ => Ok None
               end);
  let rebound := match rebound, body with
                 | None, Some _ => Some (source unit)
                 | rebound, _ => rebound
                 end in
  match rebound with
  | None =>
      schema ← lift (if (replays : bool) then apply_schema schema (source unit) else Ok schema);
      mret (schema, None)
  | Some statement =>
      let before := schema_ends_epoch statement in
      schema ← lift (if replays && negb before then apply_schema schema statement else Ok schema);
      let context := match body with Some body => with_rebound_body context body | None => context end in
      match translate statement (snapshot (ingestor schema)) context with
      | Err (Refused refused) => fail (Errors.Translation refused)
      | Err error =>
          fail (refusal (lit "statement " ++ dec (Z.of_nat id) ++ lit " cannot be replayed: " ++ error_to_string error))
      | Ok statements =>
          statements ← place_all id statements;
          schema ← lift (if replays && before then apply_schema schema statement else Ok schema);
          mret (schema, Some statements)
      end
  end.

(** The statements of a unit that a program keeps: its connection-local ones. *)
Definition local_statements unit (rebound : option (list (Statement Payload))) placed : list (Statement Payload) :=
  List.filter (placed_is_connection_local placed) (default (emitted unit) rebound).

(** ** The connection program *)

(** What a transaction boundary pushes before a unit. *)
Definition boundary (transaction opened : option History.TransactionId) : list (Statement Payload) :=
  if decide (transaction = opened) then []
  else (if is_some opened then [commit_statement] else []) ++ (if is_some transaction then [begin_statement] else []).

(** The loop of [replay] from the unit at [index]. *)
Fixpoint replay_from (units : list (Unit Payload Schema)) (index : nat) (retained : list bool) (outline : History.Outline)
    (final_schema : Schema) (context : Context) (schema : ReplaySchema) (opened : option History.TransactionId)
    : M (list (Statement Payload)) :=
  match units with
  | [] => mret (if is_some opened then [commit_statement] else [])
  | unit :: units =>
      if negb (default false (retained !! index))
      then replay_from units (S index) retained outline final_schema context schema opened
      else
        let transaction := History.transaction outline index in
        '(schema, rebound) ← replay_unit unit index final_schema context true schema;
        placed ← get;
        program ← replay_from units (S index) retained outline final_schema context schema transaction;
        mret (boundary transaction opened ++ local_statements unit rebound placed ++ program)
  end.

Definition replay (units : list (Unit Payload Schema)) (retained : list bool) (outline : History.Outline)
    (final_schema : Schema) (context : Context) : M (list (Statement Payload)) :=
  placed ← get;
  schema ← lift (replay_schema_new final_schema CONNECTION (placed_homes placed));
  replay_from units 0 retained outline final_schema context schema None.

(** [Catalog::apply] on each committed unit, in order. *)
Fixpoint effects_from (outline : History.Outline) (catalog : Catalog) (units : list (Unit Payload Schema)) (index : nat)
    : Catalog * list Effects :=
  match units with
  | [] => (catalog, [])
  | unit :: units =>
      let '(catalog, effects) :=
        match History.outcome outline index with
        | History.Committed => apply relation_names query_relation_names catalog (emitted unit)
        | History.Undone | History.Control => (catalog, effects_default)
        end in
      let '(catalog, rest) := effects_from outline catalog units (S index) in
      (catalog, effects :: rest)
  end.

Definition outline_of (units : list (Unit Payload Schema)) : History.Outline :=
  History.Outline_new (map source units) (map disposition units).

(** The first retained unit that writes the file. *)
Fixpoint repeated_write (retained : list bool) (effects : list Effects) (index : nat) : option nat :=
  match retained, effects with
  | kept :: retained, effect :: effects =>
      if kept && persistent_write effect then Some index else repeated_write retained effects (S index)
  | _, _ => None
  end.

Definition repeated_write_refusal (index : nat) : ConnectionError :=
  refusal (lit "statement " ++ dec (Z.of_nat index) ++ lit " of the batch writes rows a surviving TEMP object needs, and it also writes a table stored in the database file. Replaying it on a new connection would write that table a second time. Keep TEMP history free of writes to stored tables.").

(** [None] is an index out of bounds or a search without an end. *)
Definition connection_program (units : list (Unit Payload Schema)) (final_schema : Schema) (context : Context)
    : option (M (list (Statement Payload))) :=
  let outline := outline_of units in
  let '(catalog, effects) := effects_from outline catalog_default units 0 in
  retained ← retention (catalog_len catalog) (alive_ids catalog) effects;
  Some (if negb (existsb id retained) then mret []
        else match repeated_write retained effects 0 with
             | Some index => fail (repeated_write_refusal index)
             | None => replay units retained outline final_schema context
             end).

(** ** The forms of a fresh file *)

Abbreviation Form := (option (list (Statement Payload))) (only parsing).

Fixpoint replay_fresh_from (units : list (Unit Payload Schema)) (index : nat) (final_schema : Schema) (context : Context)
    (file : Files) (schema : ReplaySchema) : M (list Form) :=
  match units with
  | [] => mret []
  | unit :: units =>
      placed ← get;
      let owned := contains (default files_default (placed_unit_files placed !! index)) file in
      if negb owned && negb (replays schema (source unit) false (placed_homes placed))
         && negb (existsb (placed_is_connection_local placed) (emitted unit))
      then
        forms ← replay_fresh_from units (S index) final_schema context file schema;
        mret (None :: forms)
      else
        '(schema, rebound) ← replay_unit unit index final_schema context owned schema;
        placed ← get;
        forms ← replay_fresh_from units (S index) final_schema context file schema;
        mret ((if owned then rebound else Some (local_statements unit rebound placed)) :: forms)
  end.

Definition replay_fresh (units : list (Unit Payload Schema)) (final_schema : Schema) (context : Context) (file : Files)
    : M (list Form) :=
  placed ← get;
  schema ← lift (replay_schema_new final_schema (union file CONNECTION) (placed_homes placed));
  replay_fresh_from units 0 final_schema context file schema.

(** [fresh_forms]: both selections over the same placement. *)
Definition fresh_forms (units : list (Unit Payload Schema)) (final_schema : Schema) (context : Context) placed
    : Placed * (result InitializationError (list Form) * result InitializationError (list Form)) :=
  let '(placed, main) := replay_fresh units final_schema context MAIN placed in
  let '(placed, attached) :=
    if attached_configured placed
    then let '(placed, attached) := replay_fresh units final_schema context ATTACHED placed in
         (placed, map_err Unavailable attached)
    else (placed, Err NoAttachedDatabase) in
  (placed, (map_err Unavailable main, attached)).
End Program.

(** ** The connection program *)

Section ProgramFacts.
Context {Payload Schema Tbl Vw Ingestor Context Body : Type}
  `{Library Payload Schema Tbl} `{!Nodes Payload Schema Tbl} `{!Replayer Payload Schema Tbl Vw Ingestor Context Body}.
Implicit Types (unit : Unit Payload Schema) (statement : Statement Payload) (placed : Placed).

(** The emitted statements rename at most once per [ALTER TABLE]. *)
Definition single_renames (units : list (Unit Payload Schema)) : Prop :=
  Forall (λ unit, forallb single_rename (emitted unit) = true) units.

Lemma alive_in_bounds (c : Catalog) : in_bounds (catalog_len c) (@alive_ids Payload c).
Proof.
  apply Forall_forall. intros id Hid. unfold alive_ids in Hid. apply positions_elem in Hid as (i & o & Ho & _ & ->).
  unfold catalog_len. pose proof (lookup_lt_Some _ _ _ Ho). lia.
Qed.

Lemma effects_from_spec outline (catalog : Catalog) (units : list (Unit Payload Schema)) index :
  wf catalog → single_renames units →
  let '(catalog', effects) := effects_from outline catalog units index in
  wf catalog' ∧ (length (objects catalog) <= length (objects catalog'))%nat ∧ length effects = length units
  ∧ Forall (known catalog') effects.
Proof.
  intros Hc Hu. revert catalog index Hc. induction Hu as [|unit units Hs Hu IH]; intros catalog index Hc; [done|].
  cbn [effects_from].
  assert (∃ catalog1 effects, (match History.outcome outline index with
      | History.Committed => apply relation_names query_relation_names catalog (emitted unit)
      | _ => (catalog, effects_default) end) = (catalog1, effects)
      ∧ wf catalog1 ∧ known catalog1 effects ∧ (length (objects catalog) <= length (objects catalog1))%nat)
    as (catalog1 & effects & -> & Hc1 & Hk1 & Hl1).
  { assert (Hd : known catalog effects_default) by (split; apply Forall_nil_2).
    destruct (History.outcome outline index); [|by exists catalog, effects_default..].
    pose proof (good_apply relation_names query_relation_names catalog (emitted unit) Hc Hs) as (Hw & Hk & Hl).
    destruct (apply _ _ catalog (emitted unit)) as [c1 e1]. by exists c1, e1. }
  specialize (IH catalog1 (S index) Hc1). destruct (effects_from outline catalog1 units (S index)) as [catalog2 rest].
  destruct IH as (Hc2 & Hl2 & Hlen & Hk2). split_and!; [done|lia|by cbn; rewrite Hlen|].
  apply Forall_cons. split; [|done]. by eapply known_grow.
Qed.

Lemma repeated_write_spec retained (effects : list Effects) index :
  length retained = length effects →
  match repeated_write retained effects index with
  | Some i => ∃ j effect, i = (index + j)%nat ∧ retained !! j = Some true ∧ effects !! j = Some effect
      ∧ persistent_write effect = true
      ∧ ∀ k effect', (k < j)%nat → retained !! k = Some true → effects !! k = Some effect' → persistent_write effect' = false
  | None => ∀ k effect', retained !! k = Some true → effects !! k = Some effect' → persistent_write effect' = false
  end.
Proof.
  revert effects index. induction retained as [|kept retained IH]; intros [|effect effects] index Hl; try done.
  cbn in Hl. injection Hl as Hl. cbn [repeated_write]. destruct (kept && persistent_write effect) eqn:E.
  - apply andb_true_iff in E as [-> Hp]. exists O, effect. split_and!; [lia|done..|]. intros k e' Hk. lia.
  - assert (Hhere : kept = true → persistent_write effect = false) by (intros ->; by destruct (persistent_write effect)).
    specialize (IH effects (S index) Hl). destruct (repeated_write retained effects (S index)) as [i|].
    + destruct IH as (j & e & -> & Hr & He & Hp & Hall). exists (S j), e. split_and!; [lia|done..|].
      intros [|k] e' Hk; cbn; [intros [= ->] [= <-]; auto|]. apply Hall. lia.
    + intros [|k] e'; cbn; [intros [= ->] [= <-]; auto|]. apply IH.
Qed.

(** C19 (which units a connection replays). The search for the units to replay ends
    without leaving the bounds of its vectors, and keeps exactly the units that
    change an object that outlives the batch, or an object that a kept unit changes
    or reads. *)
Theorem retention_least len alive (effects : list Effects) :
  in_bounds len alive →
  (∀ index effect, effects !! index = Some effect → in_bounds len (touches effect) ∧ in_bounds len (reads effect)) →
  ∃ retained, retention len alive effects = Some retained ∧ length retained = length effects
    ∧ ∀ index, retained !! index = Some true ↔ Kept alive effects index.
Proof. apply retention_spec. Qed.

(** C5 (no write is repeated). The connection program is always answered.  It is
    refused when a kept unit writes the database file, naming the first one;
    otherwise it is empty when no unit is kept, and else the replay of exactly the
    kept units, none of which writes the file. *)
Theorem connection_program_safe units final_schema (context : Context) :
  single_renames units →
  let '(catalog, effects) := effects_from (outline_of units) catalog_default units 0 in
  let kept := Kept (alive_ids catalog) effects in
  let writes index := ∃ effect, effects !! index = Some effect ∧ persistent_write effect = true in
  ∃ program, connection_program units final_schema context = Some program ∧
    ((∃ index, kept index ∧ writes index ∧ (∀ k, (k < index)%nat → kept k → ¬ writes k)
       ∧ program = fail (repeated_write_refusal index))
     ∨ (∀ index, kept index → ¬ writes index)
       ∧ ((∀ index, ¬ kept index) ∧ program = mret []
          ∨ ∃ retained, (∀ index, retained !! index = Some true ↔ kept index)
             ∧ program = replay units retained (outline_of units) final_schema context)).
Proof.
  intros Hu. unfold connection_program.
  pose proof (effects_from_spec (outline_of units) catalog_default units 0 wf_default Hu) as Hs.
  destruct (effects_from (outline_of units) catalog_default units 0) as [catalog effects].
  destruct Hs as (Hc & _ & Hlen & Hk). rewrite Forall_forall in Hk.
  destruct (retention_spec (catalog_len catalog) (alive_ids catalog) effects) as (retained & -> & Hl & Hr).
  { apply alive_in_bounds. }
  { intros index effect He. apply (Hk effect). by eapply list_elem_of_lookup_2. }
  cbn. eexists. split; [done|].
  assert (Hw : ∀ k, (∀ effect, effects !! k = Some effect → persistent_write effect = false) →
    ¬ ∃ effect, effects !! k = Some effect ∧ persistent_write effect = true).
  { intros k Hf (e & He & Hp). rewrite (Hf _ He) in Hp. done. }
  destruct (existsb id retained) eqn:Ee; cbn.
  - pose proof (repeated_write_spec retained effects 0 Hl) as Hrep.
    destruct (repeated_write retained effects 0) as [i|].
    + left. destruct Hrep as (j & e & -> & Hrj & Hej & Hp & Hall). exists j. split_and!; [by apply Hr|by exists e| |done].
      intros k Hkj Hkept. apply Hw. intros e'. apply (Hall k); [done|by apply Hr].
    + right. split; [|right; by exists retained]. intros index Hkept. apply Hw. intros e'. apply Hrep. by apply Hr.
  - right. assert (Hnone : ∀ index, ¬ Kept (alive_ids catalog) effects index).
    { intros index Hkept%Hr. enough (existsb id retained = true) by congruence. apply existsb_exists.
      exists true. split; [|done]. apply list_elem_of_In. by eapply list_elem_of_lookup_2. }
    split; [intros index Hkept; by destruct (Hnone index)|]. left. by split.
Qed.

(** ** Brackets *)

Abbreviation Chunk := (option History.TransactionId * list (Statement Payload))%type.

(** The statements a transaction committed together, between its markers. *)
Definition opening (transaction : option History.TransactionId) : list (Statement Payload) :=
  if is_some transaction then [begin_statement] else [].
Definition closing (transaction : option History.TransactionId) : list (Statement Payload) :=
  if is_some transaction then [commit_statement] else [].
Definition bracket (chunk : Chunk) : list (Statement Payload) := opening chunk.1 ++ chunk.2 ++ closing chunk.1.

(** Neighbouring chunks of one transaction as one chunk. *)
Fixpoint merge (chunks : list Chunk) : list Chunk :=
  match chunks with
  | [] => []
  | (transaction, statements) :: chunks =>
      match merge chunks with
      | (transaction', statements') :: groups =>
          if decide (transaction' = transaction) then (transaction, statements ++ statements') :: groups
          else (transaction, statements) :: (transaction', statements') :: groups
      | [] => [(transaction, statements)]
      end
  end.

(** What the loop of [replay] pushes for the chunks that remain. *)
Fixpoint render (opened : option History.TransactionId) (chunks : list Chunk) : list (Statement Payload) :=
  match chunks with
  | [] => closing opened
  | (transaction, statements) :: chunks => boundary transaction opened ++ statements ++ render transaction chunks
  end.

Lemma boundary_opened transaction opened :
  boundary transaction opened = if decide (transaction = opened) then [] else closing opened ++ opening transaction.
Proof. reflexivity. Qed.

Lemma render_merge opened chunks :
  render opened chunks = match merge chunks with
    | [] => closing opened
    | (transaction, statements) :: groups =>
        (if decide (transaction = opened) then statements ++ closing opened
         else closing opened ++ bracket (transaction, statements)) ++ concat (map bracket groups)
    end.
Proof.
  revert opened. induction chunks as [|[t ss] chunks IH]; intros opened; [done|]. cbn [render merge].
  rewrite IH, boundary_opened. unfold bracket. cbn [fst snd].
  destruct (merge chunks) as [|[t' ss'] groups]; cbn [fst snd].
  - destruct (decide (t = opened)) as [->|]; cbn [map concat]; by rewrite ?app_nil_r, <- ?app_assoc.
  - destruct (decide (t' = t)) as [->|Hne]; destruct (decide (t = opened)) as [->|Hne'];
      cbn [map concat fst snd app]; rewrite ?decide_True, ?decide_False by done; cbn [fst snd app]; by rewrite <- ?app_assoc.
Qed.

Lemma render_brackets chunks : render None chunks = concat (map bracket (merge chunks)).
Proof.
  rewrite render_merge. destruct (merge chunks) as [|[t ss] groups]; [done|]. cbn [map concat].
  destruct (decide (t = None)) as [->|]; [|done]. unfold bracket. cbn. by rewrite app_nil_r.
Qed.

(** The transactions of the retained units. *)
Fixpoint kept_transactions (outline : History.Outline) (retained : list bool) (units : list (Unit Payload Schema)) (index : nat)
    : list (option History.TransactionId) :=
  match units with
  | [] => []
  | _ :: units =>
      if negb (default false (retained !! index)) then kept_transactions outline retained units (S index)
      else History.transaction outline index :: kept_transactions outline retained units (S index)
  end.

Lemma local_not_control unit rebound placed :
  Forall (λ statement, is_transaction_control statement = false) (local_statements unit rebound placed).
Proof.
  apply Forall_forall. intros statement Hin. unfold local_statements in Hin. apply list_elem_of_In, filter_In in Hin as [_ Hl].
  unfold placed_is_connection_local, is_connection_local in Hl. apply bool_decide_eq_true in Hl. by destruct statement.
Qed.

Lemma run_bind {A B} (m : M A) (f : A → M B) placed :
  (m ≫= f) placed = match m placed with (placed, Ok a) => f a placed | (placed, Err error) => (placed, Err error) end.
Proof. reflexivity. Qed.

Lemma replay_from_chunks units index retained outline final_schema (context : Context) schema opened placed placed' program :
  replay_from units index retained outline final_schema context schema opened placed = (placed', Ok program) →
  ∃ chunks, map fst chunks = kept_transactions outline retained units index
    ∧ Forall (λ chunk : Chunk, Forall (λ statement, is_transaction_control statement = false) chunk.2) chunks
    ∧ program = render opened chunks.
Proof.
  revert index schema opened placed program. induction units as [|unit units IH]; intros index schema opened placed program; cbn [replay_from].
  { intros [= <- <-]. exists []. split_and!; [done|apply Forall_nil_2|done]. }
  cbn [kept_transactions]. destruct (negb (default false (retained !! index))); [apply IH|].
  rewrite run_bind. destruct (replay_unit unit index final_schema context true schema placed) as [placed1 [[schema1 rebound]|e]]; [|done].
  rewrite run_bind. cbn [get]. rewrite run_bind. destruct (replay_from units (S index) retained outline final_schema context schema1 _ placed1) as [placed2 [rest|e]] eqn:E; [|done].
  intros [= <- <-]. apply IH in E as (chunks & Hf & Hc & ->).
  exists ((History.transaction outline index, local_statements unit rebound placed1) :: chunks).
  split_and!; [by cbn; rewrite Hf|apply Forall_cons; split; [apply local_not_control|done]|done].
Qed.

(** Replayed transactions.  A replay is, one after the other, the statements of
    each run of retained units that one source transaction committed together,
    between one [BEGIN] and one [COMMIT], and outside any for units of no
    transaction; no unit contributes a transaction control statement of its own. *)
Lemma replay_brackets units retained outline final_schema (context : Context) placed placed' program :
  replay units retained outline final_schema context placed = (placed', Ok program) →
  ∃ chunks, map fst chunks = kept_transactions outline retained units 0
    ∧ Forall (λ chunk : Chunk, Forall (λ statement, is_transaction_control statement = false) chunk.2) chunks
    ∧ program = concat (map bracket (merge chunks)).
Proof.
  unfold replay. rewrite run_bind. cbn [get]. rewrite run_bind. unfold lift at 1.
  destruct (replay_schema_new final_schema CONNECTION (placed_homes placed)) as [schema|e]; [|done].
  intros (chunks & Hf & Hc & ->)%replay_from_chunks. exists chunks. split_and!; [done..|]. apply render_brackets.
Qed.

(** ** Fresh files *)

(** The placements agree on everything but the homes of triggers. *)
Definition agree placed placed' : Prop :=
  placed_homes placed' = placed_homes placed ∧ placed_logical_storage placed' = placed_logical_storage placed
  ∧ placed_unit_files placed' = placed_unit_files placed.

Lemma agree_refl placed : agree placed placed.
Proof. done. Qed.
Lemma agree_trans p1 p2 p3 : agree p1 p2 → agree p2 p3 → agree p1 p3.
Proof. unfold agree. intros (? & ? & ?) (? & ? & ?). split_and!; congruence. Qed.

(** A computation that keeps all but the homes of triggers. *)
Definition steady {A} (m : M A) : Prop := ∀ placed, agree placed (m placed).1.

Lemma steady_bind {A B} (m : M A) (f : A → M B) : steady m → (∀ a, steady (f a)) → steady (m ≫= f).
Proof.
  intros Hm Hf placed. rewrite run_bind. specialize (Hm placed). destruct (m placed) as [placed1 [a|e]]; [|done].
  eapply agree_trans; [exact Hm|apply Hf].
Qed.
Lemma steady_ret {A} (a : A) : steady (mret a).
Proof. intros placed. apply agree_refl. Qed.
Lemma steady_lift {A} (r : result ConnectionError A) : steady (lift r).
Proof. intros placed. apply agree_refl. Qed.
Lemma steady_get : steady get.
Proof. intros placed. apply agree_refl. Qed.
Lemma steady_fail {A} e : steady (@fail A e).
Proof. intros placed. apply agree_refl. Qed.

Lemma steady_place_all index statements : steady (place_all index statements).
Proof.
  induction statements as [|statement statements IH]; intros placed; [apply agree_refl|].
  cbn [place_all]. rewrite run_bind. cbn [get].
  destruct (place_rebound placed statement) as [[[p st] placed1]|e] eqn:E.
  - assert (H1 : agree placed placed1).
    { unfold place_rebound in E. apply bind_Ok in E as ([[p' st'] th] & _ & E). by injection E as _ _ <-. }
    rewrite run_bind. cbn [put]. eapply agree_trans; [exact H1|]. apply steady_bind; [done|]. intros ss. apply steady_ret.
  - destruct e; apply agree_refl.
Qed.

Ltac steady :=
  repeat first
    [ apply steady_lift | apply steady_get | apply steady_ret | apply steady_fail | apply steady_place_all
    | apply steady_bind; [|intros ?]
    | match goal with |- steady (match ?x with _ => _ end) => destruct x end ].

Lemma steady_replay_unit unit id final_schema (context : Context) owned schema :
  steady (replay_unit unit id final_schema context owned schema).
Proof. unfold replay_unit. cbv zeta. steady. Qed.

(** The form is of connection-local statements, under the homes the placement
    gives the objects. *)
Definition local_under placed (statements : list (Statement Payload)) : Prop :=
  Forall (λ statement, ∃ trigger_homes,
    is_connection_local statement (placed_homes placed) (placed_logical_storage placed) trigger_homes = true) statements.

Lemma local_statements_under unit rebound placed placed' :
  agree placed placed' → local_under placed (local_statements unit rebound placed').
Proof.
  intros (Hh & Hl & _). apply Forall_forall. intros statement Hin. unfold local_statements in Hin.
  apply list_elem_of_In, filter_In in Hin as [_ Hp]. exists (placed_trigger_homes placed'). rewrite <- Hh, <- Hl. exact Hp.
Qed.

(** The unit runs in full for [file]. *)
Definition owned_by placed (file : Files) (index : nat) : bool :=
  contains (default files_default (placed_unit_files placed !! index)) file.

Lemma replay_fresh_from_spec units index final_schema (context : Context) file schema placed placed' forms :
  replay_fresh_from units index final_schema context file schema placed = (placed', Ok forms) →
  agree placed placed' ∧ length forms = length units
  ∧ ∀ i, (i < length units)%nat → owned_by placed file (index + i) = false →
      forms !! i = Some None ∨ ∃ statements, forms !! i = Some (Some statements) ∧ local_under placed statements.
Proof.
  revert index schema placed forms. induction units as [|unit units IH]; intros index schema placed forms; cbn [replay_fresh_from].
  { intros [= <- <-]. split_and!; [apply agree_refl|done|]. intros i Hi. cbn in Hi. lia. }
  rewrite run_bind. cbn [get]. cbv zeta. fold (owned_by placed file index).
  assert (Hrest : ∀ schema1 placed1 form forms',
    agree placed placed1 →
    (owned_by placed file index = false → form = None ∨ ∃ ss, form = Some ss ∧ local_under placed ss) →
    (replay_fresh_from units (S index) final_schema context file schema1 ≫= λ forms, mret (form :: forms)) placed1
      = (placed', Ok forms') →
    agree placed placed' ∧ length forms' = length (unit :: units)
    ∧ ∀ i, (i < length (unit :: units))%nat → owned_by placed file (index + i) = false →
        forms' !! i = Some None ∨ ∃ statements, forms' !! i = Some (Some statements) ∧ local_under placed statements).
  { intros schema1 placed1 form forms' H1 Hform. rewrite run_bind.
    destruct (replay_fresh_from units (S index) _ _ _ _ placed1) as [placed2 [rest|e]] eqn:E; [|done].
    intros [= <- <-]. apply IH in E as (H2 & Hl & Hall). split_and!; [by eapply agree_trans|by cbn; rewrite Hl|].
    destruct H1 as (Hh & Hls & Hu). intros [|i] Hi Ho.
    - rewrite Nat.add_0_r in Ho. destruct (Hform Ho) as [->|(ss & -> & Hss)]; [by left|right; by exists ss].
    - cbn in Hi. cbn [lookup list_lookup]. unfold local_under in *. rewrite <- Hh, <- Hls.
      apply Hall; [lia|]. unfold owned_by in *. by rewrite Hu, Nat.add_succ_comm. }
  destruct (negb (owned_by placed file index) && _ && _).
  - apply Hrest; [apply agree_refl|]. by left.
  - rewrite run_bind. pose proof (steady_replay_unit unit index final_schema context (owned_by placed file index) schema placed) as Hs.
    destruct (replay_unit unit index _ _ _ _ placed) as [placed1 [[schema1 rebound]|e]]; [|done].
    rewrite run_bind. cbn [get]. apply Hrest; [exact Hs|]. intros ->. right. eexists. split; [done|].
    by apply local_statements_under.
Qed.

(** Fresh files.  The forms for a fresh file are one for each unit.  A unit that
    the file does not own runs nothing or only statements on objects of the
    connection: whatever the file that stays in place already holds is not written
    a second time. *)
Lemma fresh_forms_local units final_schema (context : Context) file placed placed' forms :
  replay_fresh units final_schema context file placed = (placed', Ok forms) →
  length forms = length units ∧
  ∀ index, (index < length units)%nat → owned_by placed file index = false →
    forms !! index = Some None ∨ ∃ statements, forms !! index = Some (Some statements) ∧ local_under placed statements.
Proof.
  unfold replay_fresh. rewrite run_bind. cbn [get]. rewrite run_bind. unfold lift.
  destruct (replay_schema_new _ _ _) as [schema|e]; [|done].
  intros (_ & Hl & Hall)%replay_fresh_from_spec. by split.
Qed.
End ProgramFacts.

(** ** Witnesses *)

Section Demo.
#[local] Existing Instances Placement.demo_library Placement.demo_nodes.

(** Nothing is renamed, and statements translate to themselves. *)
#[local] Instance demo_replayer : Replayer (list str) (list (str * bool)) (str * bool) () (list (str * bool)) () () := {|
  schema_views := λ _, [];
  view_name := λ _, [];
  view_is_temporary := λ _, false;
  into_ingestor := λ schema, schema;
  ingest := λ schema _, Ok schema;
  snapshot := λ schema, schema;
  parse_sql := λ _, Ok [];
  rebind := λ _ _ _ _ _ _, Ok None;
  rebind_trigger_body := λ _ _ _ _ _ _, Ok None;
  with_rebound_body := λ context _, context;
  translate := λ statement _ _, Ok [statement];
  error_to_string := λ _, []
|}.

Definition demo_temp : CreateTable (list str) :=
  {| ct_name := Placement.demo_name "a"; ct_temporary := true; ct_if_not_exists := false; ct_query := None;
     ct_columns := []; ct_constraints := []; ct_rest := [] |}.
Definition demo_statements : list (Statement (list str)) :=
  [StartTransaction; SCreateTable demo_temp; SInsert (TableName (Placement.demo_name "a")) None []; Commit false;
   SInsert (TableName (Placement.demo_name "f")) None []].
Definition demo_units : list (Unit (list str) (list (str * bool))) :=
  map (λ statement, {| source := statement; binding := []; emitted := [statement]; disposition := Blocks.Translate |})
    demo_statements.
Definition demo_placed : Placed :=
  {| placed_homes := {[lit "a" := Temp]}; attached_configured := false;
     placed_unit_files := [3; 3; 3; 3; 1]; placed_logical_storage := ∅; placed_trigger_homes := ∅; attached_schema := [] |}.

Lemma retention_least_witness :
  ∃ retained, retention 1 [0%nat] [effects_default; touch effects_default 0] = Some retained
    ∧ ∀ index, retained !! index = Some true ↔ Kept [0%nat] [effects_default; touch effects_default 0] index.
Proof.
  destruct (retention_least 1 [0%nat] [effects_default; touch effects_default 0]) as (retained & Hr & _ & Hk).
  - apply Forall_cons. split; [lia|apply Forall_nil_2].
  - intros [|[|index]] effect Hi; cbn in Hi; [injection Hi as <-..|discriminate Hi]; split;
      repeat apply Forall_cons_2; try apply Forall_nil_2; lia.
  - exists retained. split; [exact Hr|exact Hk].
Defined.

(** The committed history of the temporary table is replayed in its transaction. *)
Example demo_program :
  (λ program, (program demo_placed).2) <$> connection_program demo_units [] ()
  = Some (Ok [StartTransaction; SCreateTable demo_temp; SInsert (TableName (Placement.demo_name "a")) None []; Commit false]).
Proof. vm_compute. reflexivity. Qed.

Lemma connection_program_safe_witness :
  single_renames demo_units ∧ ∃ program, connection_program demo_units [] () = Some program.
Proof.
  assert (Hs : single_renames demo_units) by (repeat apply Forall_cons_2; try apply Forall_nil_2; reflexivity).
  split; [exact Hs|].
  pose proof (connection_program_safe demo_units [] () Hs) as Hp.
  destruct (effects_from (outline_of demo_units) catalog_default demo_units 0) as [catalog effects].
  destruct Hp as (program & Hp & _). exists program. exact Hp.
Defined.

Lemma replay_brackets_witness :
  ∃ chunks : list (option History.TransactionId * list (Statement (list str))),
    map fst chunks = kept_transactions (outline_of demo_units) [false; true; true; false; false] demo_units 0
    ∧ concat (map bracket (merge chunks))
      = [StartTransaction; SCreateTable demo_temp; SInsert (TableName (Placement.demo_name "a")) None []; Commit false].
Proof.
  destruct (replay demo_units [false; true; true; false; false] (outline_of demo_units) [] () demo_placed)
    as [placed [program|e]] eqn:E; [|vm_compute in E; discriminate E].
  destruct (replay_brackets demo_units [false; true; true; false; false] (outline_of demo_units) [] () demo_placed placed program E)
    as (chunks & Hf & _ & Hp).
  exists chunks. split; [exact Hf|]. rewrite <- Hp. vm_compute in E. injection E as _ <-. reflexivity.
Defined.

(** A fresh attached file runs nothing of the unit that writes the main file. *)
Lemma fresh_forms_local_witness :
  ∃ placed forms, replay_fresh demo_units [] () ATTACHED demo_placed = (placed, Ok forms)
    ∧ owned_by demo_placed ATTACHED 4 = false
    ∧ (forms !! 4%nat = Some None ∨ ∃ statements, forms !! 4%nat = Some (Some statements) ∧ local_under demo_placed statements).
Proof.
  destruct (replay_fresh demo_units [] () ATTACHED demo_placed) as [placed [forms|e]] eqn:E; [|vm_compute in E; discriminate E].
  exists placed, forms. split; [reflexivity|]. split; [reflexivity|].
  apply (fresh_forms_local demo_units [] () ATTACHED demo_placed placed forms E); [cbn; lia|reflexivity].
Defined.
End Demo.
End Replay.
