(* ===== verification/Script.v ===== *)
(** * The script and its initialization plan

    [src/src/script.rs] and [src/src/initialization.rs].  A vector iterator is the
    list of what it has not yielded; the closures that [map] and [statements_mut]
    apply may keep a state, which is passed along in the order the code visits the
    statements. *)

From S2P Require Import Prelude Text Errors Ast Exprs Names Placement.
Import Placement.

Module Script.

Inductive FreshFiles := FreshMain | FreshAttached | FreshBoth.

Section Plan.
Context {Stmt : Type}.

(** [Forms]. *)
Definition Forms : Type := result InitializationError (list (option (list Stmt))).

Record Step := {
  files : Files;
  base : list Stmt;
  main_rebound : option (list Stmt);
  attached_rebound : option (list Stmt)
}.

(** [Step::form]. *)
Definition form (self : Step) (selection : FreshFiles) : list Stmt :=
  let rebound_or_owned rebound file :=
    match rebound with
    | Some rebound => rebound
    | None => if contains (files self) file then base self else []
    end in
  match selection with
  | FreshBoth => base self
  | FreshMain => rebound_or_owned (main_rebound self) MAIN
  | FreshAttached => rebound_or_owned (attached_rebound self) ATTACHED
  end.

Record InitializationPlan := {
  steps : list Step;
  main_unavailable : option InitializationError;
  attached_unavailable : option InitializationError
}.

Definition split_forms (forms : Forms) : option InitializationError * list (option (list Stmt)) :=
  match forms with Ok forms => (None, forms) | Err error => (Some error, []) end.

(** [next().flatten()] on the iterator of the forms that are left. *)
Definition next_form (forms : list (option (list Stmt))) : option (list Stmt) * list (option (list Stmt)) :=
  match forms with [] => (None, []) | form :: forms => (form, forms) end.

Fixpoint unit_steps (units : list (Files * list Stmt)) (main attached : list (option (list Stmt))) : list Step :=
  match units with
  | [] => []
  | (files, base) :: units =>
      let '(main_form, main) := next_form main in
      let '(attached_form, attached) := next_form attached in
      {| files := files; base := base; main_rebound := main_form; attached_rebound := attached_form |}
      :: unit_steps units main attached
  end.

(** [InitializationPlan::new]. *)
Definition plan_new (prelude : option Stmt) (units : list (Files * list Stmt)) (main attached : Forms) : InitializationPlan :=
  let '(main_unavailable, main) := split_forms main in
  let '(attached_unavailable, attached) := split_forms attached in
  let prelude := match prelude with
                 | Some statement =>
                     [{| files := MAIN; base := [statement]; main_rebound := None; attached_rebound := None |}]
                 | None => []
                 end in
  {| steps := prelude ++ unit_steps units main attached;
     main_unavailable := main_unavailable; attached_unavailable := attached_unavailable |}.

Definition sum (ns : list nat) : nat := foldl Nat.add O ns.

Definition len (self : InitializationPlan) : nat := sum (map (λ step, length (base step)) (steps self)).
Definition plan_is_empty (self : InitializationPlan) : bool :=
  forallb (λ step, match base step with [] => true | _ => false end) (steps self).

(** ** The iterator over a selection *)

Record SelectionIter := { iter_steps : list Step; iter_files : FreshFiles; within : list Stmt; remaining : nat }.

Definition selected (self : InitializationPlan) (files : FreshFiles) : SelectionIter :=
  {| iter_steps := steps self; iter_files := files; within := [];
     remaining := sum (map (λ step, length (form step files)) (steps self)) |}.

(** The loop of [next]. *)
Fixpoint next_from (files : FreshFiles) (steps : list Step) (within : list Stmt) (remaining : nat) : option Stmt * SelectionIter :=
  match within with
  | statement :: within =>
      (Some statement, {| iter_steps := steps; iter_files := files; within := within; remaining := remaining - 1 |})
  | [] =>
      match steps with
      | [] => (None, {| iter_steps := []; iter_files := files; within := []; remaining := remaining |})
      | step :: steps => next_from files steps (form step files) remaining
      end
  end.
Definition next (self : SelectionIter) : option Stmt * SelectionIter :=
  next_from (iter_files self) (iter_steps self) (within self) (remaining self).

Definition size_hint (self : SelectionIter) : nat * option nat := (remaining self, Some (remaining self)).

(** What calls of [next] yield before the first [None]; a statement needs one call. *)
Fixpoint drain (fuel : nat) (self : SelectionIter) : list Stmt :=
  match fuel with
  | O => []
  | S fuel => match next self with (Some statement, self) => statement :: drain fuel self | (None, _) => [] end
  end.
Definition collect (self : SelectionIter) : list Stmt := drain (remaining self) self.

Definition select (self : InitializationPlan) (files : FreshFiles) : result Error SelectionIter :=
  match match files with
        | FreshMain => main_unavailable self
        | FreshAttached => attached_unavailable self
        | FreshBoth => None
        end with
  | Some reason => Err (Initialization reason)
  | None => Ok (selected self files)
  end.

Definition plan_iter (self : InitializationPlan) : SelectionIter := selected self FreshBoth.

Definition into_statements (self : InitializationPlan) : list Stmt := concat (map base (steps self)).
End Plan.
Arguments Step : clear implicits.
Arguments InitializationPlan : clear implicits.
Arguments SelectionIter : clear implicits.
Arguments Forms : clear implicits.

(** ** Visiting every statement *)

Section Map.
Context {Stmt T St : Type} (f : St → Stmt → St * T).

Fixpoint map_statements (σ : St) (statements : list Stmt) : St * list T :=
  match statements with
  | [] => (σ, [])
  | statement :: statements =>
      let '(σ, statement) := f σ statement in
      let '(σ, statements) := map_statements σ statements in
      (σ, statement :: statements)
  end.

Definition map_rebound (σ : St) (rebound : option (list Stmt)) : St * option (list T) :=
  match rebound with
  | Some statements => let '(σ, statements) := map_statements σ statements in (σ, Some statements)
  | None => (σ, None)
  end.

Definition map_step (σ : St) (step : Step Stmt) : St * Step T :=
  let '(σ, base) := map_statements σ (base step) in
  let '(σ, main_rebound) := map_rebound σ (main_rebound step) in
  let '(σ, attached_rebound) := map_rebound σ (attached_rebound step) in
  (σ, {| files := files step; base := base; main_rebound := main_rebound; attached_rebound := attached_rebound |}).

Fixpoint map_steps (σ : St) (steps : list (Step Stmt)) : St * list (Step T) :=
  match steps with
  | [] => (σ, [])
  | step :: steps =>
      let '(σ, step) := map_step σ step in
      let '(σ, steps) := map_steps σ steps in
      (σ, step :: steps)
  end.

(** [InitializationPlan::map]. *)
Definition plan_map (σ : St) (self : InitializationPlan Stmt) : St * InitializationPlan T :=
  let '(σ, steps) := map_steps σ (steps self) in
  (σ, {| steps := steps; main_unavailable := main_unavailable self; attached_unavailable := attached_unavailable self |}).
End Map.

(** [statements_mut]: the statements of every form, in the order they are yielded. *)
Definition step_statements {Stmt} (step : Step Stmt) : list Stmt :=
  base step ++ default [] (main_rebound step) ++ default [] (attached_rebound step).
Definition statements_mut {Stmt} (self : InitializationPlan Stmt) : list Stmt := concat (map step_statements (steps self)).

(** ** The script *)

Record Script {Stmt : Type} := {
  setup : list Stmt;
  script_files : InitializationPlan Stmt;
  connection : result ConnectionError (list Stmt)
}.
Arguments Script : clear implicits.

Section Scripts.
Context {Stmt : Type}.

Definition is_nil {A} (l : list A) : bool := match l with [] => true | _ => false end.

Definition script_is_empty (self : Script Stmt) : bool :=
  is_nil (setup self) && plan_is_empty (script_files self)
  && match connection self with Ok statements => is_nil statements | Err _ => false end.

Definition script_iter (self : Script Stmt) : list Stmt := setup self ++ collect (plan_iter (script_files self)).

Definition initialize (self : Script Stmt) (files : FreshFiles) : result Error (list Stmt) :=
  initialization ← select (script_files self) files;
  mret (setup self ++ collect initialization).

Definition connect (self : Script Stmt) : result Error (list Stmt) :=
  match connection self with
  | Ok statements => Ok (setup self ++ statements)
  | Err error => Err (Connection error)
  end.

Definition into_vec (self : Script Stmt) : list Stmt := setup self ++ into_statements (script_files self).
End Scripts.

Definition script_map {Stmt T St} (f : St → Stmt → St * T) (σ : St) (self : Script Stmt) : St * Script T :=
  let '(σ, setup) := map_statements f σ (setup self) in
  let '(σ, files) := plan_map f σ (script_files self) in
  let '(σ, connection) :=
    match connection self with
    | Ok statements => let '(σ, statements) := map_statements f σ statements in (σ, Ok statements)
    | Err error => (σ, Err error)
    end in
  (σ, {| setup := setup; script_files := files; connection := connection |}).

(** ** The iterator *)

Section Iterator.
Context {Stmt : Type}.
Implicit Types (it : SelectionIter Stmt) (plan : InitializationPlan Stmt).

(** What the iterator is still to yield. *)
Definition items it : list Stmt := within it ++ concat (map (λ step, form step (iter_files it)) (iter_steps it)).

Definition exact it : Prop := remaining it = length (items it).

Lemma sum_acc acc (ns : list nat) : foldl Nat.add acc ns = (acc + sum ns)%nat.
Proof.
  unfold sum. revert acc. induction ns as [|n ns IH]; intros acc; cbn; [lia|]. rewrite IH, (IH n). lia.
Qed.
Lemma sum_lengths {A} (g : A → list Stmt) (l : list A) : sum (map (λ x, length (g x)) l) = length (concat (map g l)).
Proof.
  induction l as [|x l IH]; [done|]. cbn. unfold sum. cbn. rewrite sum_acc, IH, length_app. done.
Qed.

Lemma selected_exact plan files : exact (selected plan files).
Proof. unfold exact, items, selected. cbn. apply sum_lengths. Qed.

Lemma next_from_spec files steps (within : list Stmt) remaining :
  let it := {| iter_steps := steps; iter_files := files; within := within; remaining := remaining |} in
  exact it →
  match next_from files steps within remaining with
  | (Some statement, it') => items it = statement :: items it' ∧ exact it' ∧ iter_files it' = files
  | (None, it') => items it = [] ∧ items it' = [] ∧ exact it' ∧ iter_files it' = files
  end.
Proof.
  cbn zeta. revert within. induction steps as [|step steps IH]; intros [|statement within] Hx; cbn [next_from];
    try (split_and!; [done| |done]; unfold exact, items in *; cbn in *; lia).
  - done.
  - specialize (IH (form step files)). unfold exact, items in IH, Hx. cbn in IH, Hx.
    specialize (IH Hx). exact IH.
Qed.

Lemma next_spec it :
  exact it →
  match next it with
  | (Some statement, it') => items it = statement :: items it' ∧ exact it' ∧ iter_files it' = iter_files it
  | (None, it') => items it = [] ∧ items it' = [] ∧ exact it' ∧ iter_files it' = iter_files it
  end.
Proof. destruct it as [steps files within remaining]. apply next_from_spec. Qed.

Lemma drain_items fuel it : exact it → fuel = length (items it) → drain fuel it = items it.
Proof.
  revert it. induction fuel as [|fuel IH]; intros it Hx Hf; cbn [drain].
  { by destruct (items it). }
  pose proof (next_spec it Hx) as Hn. destruct (next it) as [[statement|] it'].
  - destruct Hn as (Hi & Hx' & _). rewrite Hi in Hf |- *. f_equal. apply IH; [done|]. cbn in Hf. by injection Hf.
  - destruct Hn as (Hi & _). rewrite Hi in Hf. done.
Qed.

Lemma collect_items it : exact it → collect it = items it.
Proof. intros Hx. apply drain_items; [done|]. exact Hx. Qed.

Lemma collect_selected plan files : collect (selected plan files) = concat (map (λ step, form step files) (steps plan)).
Proof. rewrite collect_items by apply selected_exact. done. Qed.

(** The iterators that calls of [next] reach from a selection. *)
Inductive Reached plan (selection : FreshFiles) : SelectionIter Stmt → Prop :=
| Reached_start : Reached plan selection (selected plan selection)
| Reached_next it : Reached plan selection it → Reached plan selection (next it).2.

Lemma reached_exact plan selection it : Reached plan selection it → exact it.
Proof.
  induction 1 as [|it _ IH]; [apply selected_exact|]. pose proof (next_spec it IH) as Hn.
  destruct (next it) as [[statement|] it']; cbn; apply Hn.
Qed.

(** ** The assembled plan *)

Lemma next_form_eq (forms : list (option (list Stmt))) :
  next_form forms = (match forms !! 0%nat with Some form => form | None => None end, tail forms).
Proof. by destruct forms. Qed.

(** The form of the [i]-th unit in a selection of [file]. *)
Definition unit_form (file : Files) (forms : list (option (list Stmt))) (i : nat) (unit : Files * list Stmt) : list Stmt :=
  match forms !! i with
  | Some (Some rebound) => rebound
  | _ => if contains unit.1 file then unit.2 else []
  end.

Lemma tail_lookup {A} (l : list A) i : tail l !! i = l !! S i.
Proof. by destruct l. Qed.

Lemma unit_steps_main (units : list (Files * list Stmt)) main attached :
  map (λ step, form step FreshMain) (unit_steps units main attached) = imap (unit_form MAIN main) units.
Proof.
  revert main attached. induction units as [|[files base] units IH]; intros main attached; [done|].
  cbn [unit_steps imap]. rewrite !next_form_eq. cbn [map]. rewrite IH. f_equal.
  - unfold unit_form. cbn. by destruct (main !! 0%nat) as [[]|].
  - apply imap_ext. intros i unit _. unfold unit_form. cbn. by rewrite tail_lookup.
Qed.
Lemma unit_steps_attached (units : list (Files * list Stmt)) main attached :
  map (λ step, form step FreshAttached) (unit_steps units main attached) = imap (unit_form ATTACHED attached) units.
Proof.
  revert main attached. induction units as [|[files base] units IH]; intros main attached; [done|].
  cbn [unit_steps imap]. rewrite !next_form_eq. cbn [map]. rewrite IH. f_equal.
  - unfold unit_form. cbn. by destruct (attached !! 0%nat) as [[]|].
  - apply imap_ext. intros i unit _. unfold unit_form. cbn. by rewrite tail_lookup.
Qed.
Lemma unit_steps_both (units : list (Files * list Stmt)) main attached : map base (unit_steps units main attached) = map snd units.
Proof.
  revert main attached. induction units as [|[files base] units IH]; intros main attached; [done|].
  cbn [unit_steps]. rewrite !next_form_eq. cbn. by rewrite IH.
Qed.
Lemma unit_steps_form (units : list (Files * list Stmt)) main attached :
  map (λ step, form step FreshBoth) (unit_steps units main attached) = map snd units.
Proof. apply unit_steps_both. Qed.

(** The prelude is a statement of the main file. *)
Lemma prelude_form (statement : Stmt) selection :
  form {| files := MAIN; base := [statement]; main_rebound := None; attached_rebound := None |} selection
  = match selection with FreshAttached => [] | _ => [statement] end.
Proof. by destruct selection. Qed.
End Iterator.

(** ** Mapping *)

Section MapFacts.
Context {Stmt T St : Type} (f : St → Stmt → St * T).

Lemma map_statements_app σ xs ys :
  map_statements f σ (xs ++ ys)
  = let '(σ, xs) := map_statements f σ xs in let '(σ, ys) := map_statements f σ ys in (σ, xs ++ ys).
Proof.
  revert σ. induction xs as [|x xs IH]; intros σ; cbn.
  - by destruct (map_statements f σ ys).
  - destruct (f σ x) as [σ1 y]. rewrite IH. destruct (map_statements f σ1 xs) as [σ2 xs'].
    by destruct (map_statements f σ2 ys).
Qed.

Lemma map_rebound_statements σ rebound :
  map_statements f σ (default [] rebound) = let '(σ, rebound) := map_rebound f σ rebound in (σ, default [] rebound).
Proof. destruct rebound as [ss|]; cbn; [by destruct (map_statements f σ ss)|done]. Qed.

Lemma map_step_statements σ step :
  map_statements f σ (step_statements step) = let '(σ, step) := map_step f σ step in (σ, step_statements step).
Proof.
  unfold step_statements, map_step. rewrite map_statements_app. destruct (map_statements f σ (base step)) as [σ1 b].
  rewrite map_statements_app, map_rebound_statements. destruct (map_rebound f σ1 (main_rebound step)) as [σ2 m].
  rewrite map_rebound_statements. by destruct (map_rebound f σ2 (attached_rebound step)).
Qed.

Lemma map_steps_statements σ steps :
  map_statements f σ (concat (map step_statements steps))
  = let '(σ, steps) := map_steps f σ steps in (σ, concat (map step_statements steps)).
Proof.
  revert σ. induction steps as [|step steps IH]; intros σ; [done|]. cbn [map concat map_steps].
  rewrite map_statements_app, map_step_statements. destruct (map_step f σ step) as [σ1 step'].
  rewrite IH. by destruct (map_steps f σ1 steps).
Qed.
End MapFacts.

(** ** Properties *)

(** The iterator of a selection.  Whatever calls of [next] were made, the next
    one yields the first statement that is left, and [None] only when none is, then
    and ever after; the size hint is exactly the number left, so its decrement never
    goes below zero; and all calls together yield the forms of the steps in order. *)
Lemma selection_iterator_exact {Stmt} (plan : InitializationPlan Stmt) selection it :
  Reached plan selection it →
  size_hint it = (length (items it), Some (length (items it)))
  ∧ match next it with
    | (Some statement, it') => items it = statement :: items it' ∧ (0 < remaining it)%nat ∧ remaining it = S (remaining it')
    | (None, it') => items it = [] ∧ items it' = [] ∧ (next it').1 = None
    end
  ∧ collect (selected plan selection) = concat (map (λ step, form step selection) (steps plan)).
Proof.
  intros Hr%reached_exact. split_and!; [by unfold size_hint; rewrite Hr| |apply collect_selected].
  pose proof (next_spec it Hr) as Hn. destruct (next it) as [[statement|] it'].
  - destruct Hn as (Hi & Hx & _). unfold exact in *. rewrite Hi in Hr. cbn in Hr. split_and!; [done|lia|congruence].
  - destruct Hn as (Hi & Hi' & Hx & _). split_and!; [done..|].
    pose proof (next_spec it' Hx) as Hn'. destruct (next it') as [[statement|] it'']; [|done].
    destruct Hn' as (Hi'' & _). by rewrite Hi' in Hi''.
Qed.

(** C24 (the assembled plan). A plan runs, for both files, the prelude and every
    unit's emitted form; for one file, the rebound form of each unit that has one and
    the emitted form of each other unit that the file owns, the prelude only with the
    main file; a selection whose forms could not be made is the refusal they met, and
    the others stay usable. *)
Theorem plan_selects {Stmt} (prelude : option Stmt) (units : list (Files * list Stmt)) main attached :
  let plan := plan_new prelude units main attached in
  let head := match prelude with Some statement => [statement] | None => [] end in
  collect <$> select plan FreshBoth = Ok (head ++ concat (map snd units))
  ∧ collect <$> select plan FreshMain = match main with
      | Ok forms => Ok (head ++ concat (imap (unit_form MAIN forms) units))
      | Err error => Err (Initialization error)
      end
  ∧ collect <$> select plan FreshAttached = match attached with
      | Ok forms => Ok (concat (imap (unit_form ATTACHED forms) units))
      | Err error => Err (Initialization error)
      end
  ∧ into_statements plan = head ++ concat (map snd units)
  ∧ len plan = length (into_statements plan)
  ∧ plan_is_empty plan = (len plan =? 0)%nat.
Proof.
  cbn zeta. unfold select, plan_new.
  assert (Hlen : ∀ p : InitializationPlan Stmt, len p = length (into_statements p)).
  { intros p. unfold len, into_statements. apply sum_lengths. }
  assert (Hempty : ∀ p : InitializationPlan Stmt, plan_is_empty p = (len p =? 0)%nat).
  { intros p. rewrite Hlen. unfold plan_is_empty, into_statements. induction (steps p) as [|st l IH]; [done|]. cbn.
    rewrite IH, length_app. by destruct (base st). }
  assert (Hselect : ∀ (l : list (Step Stmt)) m a files,
    collect (selected {| steps := l; main_unavailable := m; attached_unavailable := a |} files)
    = concat (map (λ step, form step files) l)) by (intros; by rewrite collect_selected).
  destruct main as [main|em], attached as [attached|ea]; cbn [split_forms]; destruct prelude as [statement|];
    cbn [main_unavailable attached_unavailable fmap result_fmap app]; unfold into_statements;
    rewrite ?Hselect; cbn [steps map concat app base];
    rewrite ?prelude_form, ?unit_steps_main, ?unit_steps_attached, ?unit_steps_form, ?unit_steps_both; split_and!; try done;
    try apply Hempty; rewrite Hlen; unfold into_statements; cbn [steps map base concat app]; by rewrite unit_steps_both.
Qed.

(** Every statement is visited once, in order.  Mapping a script applies the
    function to the statements of the setup, of every form of every step, the rebound
    forms of both selections included, and of the connection part, each once and in
    that order, and leaves each in its part; so what the in-place visit of all
    statements does reaches every statement any connection can run. *)
Lemma script_map_in_order {Stmt T St} (f : St → Stmt → St * T) σ (script : Script Stmt) :
  let '(σ', script') := script_map f σ script in
  let connection_of {A} (s : Script A) := match connection s with Ok statements => statements | Err _ => [] end in
  map_statements f σ (setup script ++ statements_mut (script_files script) ++ connection_of script)
    = (σ', setup script' ++ statements_mut (script_files script') ++ connection_of script')
  ∧ length (setup script') = length (setup script)
  ∧ map (λ step, (files step, length (base step), length <$> main_rebound step, length <$> attached_rebound step)) (steps (script_files script'))
    = map (λ step, (files step, length (base step), length <$> main_rebound step, length <$> attached_rebound step)) (steps (script_files script))
  ∧ main_unavailable (script_files script') = main_unavailable (script_files script)
  ∧ attached_unavailable (script_files script') = attached_unavailable (script_files script)
  ∧ (∀ error, connection script' = Err error ↔ connection script = Err error).
Proof.
  assert (Hlen : ∀ l σ, length (map_statements f σ l).2 = length l).
  { induction l as [|x l IH]; intros σ0; [done|]. cbn. destruct (f σ0 x) as [σ1 y].
    specialize (IH σ1). destruct (map_statements f σ1 l). cbn in *. by rewrite IH. }
  assert (Hreb : ∀ r σ, length <$> (map_rebound f σ r).2 = length <$> r).
  { intros [l|] σ0; cbn; [|done]. pose proof (Hlen l σ0) as Hl. destruct (map_statements f σ0 l). cbn in *. by rewrite Hl. }
  assert (Hsteps : ∀ l σ, map (λ step, (files step, length (base step), length <$> main_rebound step, length <$> attached_rebound step)) (map_steps f σ l).2
    = map (λ step, (files step, length (base step), length <$> main_rebound step, length <$> attached_rebound step)) l).
  { induction l as [|step l IH]; intros σ0; [done|]. cbn. unfold map_step.
    pose proof (Hlen (base step) σ0) as Hb. destruct (map_statements f σ0 (base step)) as [σ1 b].
    pose proof (Hreb (main_rebound step) σ1) as Hm. destruct (map_rebound f σ1 (main_rebound step)) as [σ2 m].
    pose proof (Hreb (attached_rebound step) σ2) as Ha. destruct (map_rebound f σ2 (attached_rebound step)) as [σ3 a].
    specialize (IH σ3). destruct (map_steps f σ3 l) as [σ4 l']. cbn in *. by rewrite Hb, Hm, Ha, IH. }
  unfold script_map, plan_map, statements_mut. rewrite map_statements_app.
  pose proof (Hlen (setup script) σ) as Hs. destruct (map_statements f σ (setup script)) as [σ1 setup'].
  rewrite map_statements_app, map_steps_statements. specialize (Hsteps (steps (script_files script)) σ1).
  destruct (map_steps f σ1 (steps (script_files script))) as [σ2 steps'].
  destruct (connection script) as [statements|e] eqn:Ec.
  - destruct (map_statements f σ2 statements) as [σ3 statements'] eqn:E. cbn in *. rewrite ?E. split_and!; try done.
  - cbn in *. split_and!; try done. intros error. split; intros Heq; injection Heq as ->; done.
Qed.

(** ** Witnesses *)

Definition demo_plan : InitializationPlan nat :=
  plan_new (Some 0%nat) [(1, [1; 2]%nat); (2, [3%nat])] (Ok [None; Some [4%nat]]) (Err NoAttachedDatabase).

Lemma selection_iterator_exact_witness :
  Reached demo_plan FreshMain (next (selected demo_plan FreshMain)).2
  ∧ size_hint (next (selected demo_plan FreshMain)).2 = (3%nat, Some 3%nat)
  ∧ collect (selected demo_plan FreshMain) = [0; 1; 2; 4]%nat.
Proof.
  assert (Hr : Reached demo_plan FreshMain (next (selected demo_plan FreshMain)).2) by (apply Reached_next, Reached_start).
  split; [exact Hr|]. destruct (selection_iterator_exact demo_plan FreshMain _ Hr) as (Hs & _ & Hc).
  split; [rewrite Hs; reflexivity|rewrite Hc; reflexivity].
Defined.
End Script.
