(* ===== verification/Namespace.v ===== *)
(** * The names an emitted script defines

    [src/src/impls/emitted_namespace.rs].  The catalogue of the starting schema and
    the printing of statements are parameters.  [Sqlite] is SQLite's own schema, a list
    of live objects, each in the main, the temporary or the attached database, with what
    they hang off: a machine that runs the statements of a script, wherever their objects
    are placed.  SQLite keeps a namespace per database; the walk keeps one for all, since
    the placement of the objects in databases relies on names being unique across them
    ([src/src/history/placement.rs]). *)

From S2P Require Import Prelude Text Errors Ast Exprs Names Placement.

Module Namespace.

(** What the walk asks of the starting schema. *)
Record Stored := { stored_name : str; stored_schema : option str; source_name : str }.
Record StoredIndex := { index_name : option str; index_schema : option str; index_table : str }.
Record StoredTrigger := { trigger_name : str; trigger_table : result Error str }.
Class Starting (Schema : Type) := {
  starting_tables : Schema → list Stored;
  starting_views : Schema → list Stored;
  starting_materialized_views : Schema → list Stored;
  starting_indexes : Schema → list StoredIndex;
  starting_triggers : Schema → list StoredTrigger
}.

Section Namespace.
Context {Payload Schema Tbl : Type} `{Library Payload Schema Tbl} `{!Placement.Nodes Payload Schema Tbl} `{!Starting Schema}.
Implicit Types (name : ObjectName Payload) (statement : Statement Payload).

Inductive Source := Input (statement : Statement Payload) | Generated (label : str) | Initial (label : str).

Definition describe (self : Source) : str :=
  match self with
  | Generated label | Initial label => label
  | Input statement =>
      match statement with
      | SCreateTable create => name_to_string (ct_name create)
      | SCreateView view => name_to_string (cv_name view)
      | SCreateVirtualTable name _ _ _ => name_to_string name
      | SCreateIndex index =>
          match ci_name index with
          | Some name => name_to_string name
          | None => lit "an index on " ++ name_to_string (ci_table_name index)
          end
      | SCreateTrigger trigger _ => name_to_string (tg_name trigger) ++ lit " on " ++ name_to_string (tg_table_name trigger)
      | SAlterTable alter => name_to_string (at_name alter)
      | other => Placement.statement_to_string other
      end
  end.

Record Entry := { entry_source : Source; owner : option str }.
Record Namespaces := { objects : gmap str Entry; triggers : gmap str Entry }.
Definition namespaces_default : Namespaces := {| objects := ∅; triggers := ∅ |}.

Definition sqlite_key (name : str) : str := to_ascii_lowercase name.
Definition key name : str := to_ascii_lowercase (last_ident_value_or_display name).

Definition initial_description (kind : str) (schema : option str) (name : str) : str :=
  match schema with
  | None => lit "the initial " ++ kind ++ lit " " ++ name
  | Some schema => lit "the initial " ++ kind ++ lit " " ++ schema ++ lit "." ++ name
  end.

Definition object_collision (name : str) (first second : Source) : Error :=
  EmittedNameCollision (lit "objects") name (describe first) (describe second)
    (lit "SQLite holds tables, views and indexes in one namespace where PostgreSQL holds one per schema").
Definition trigger_collision (name : str) (first second : Source) : Error :=
  EmittedNameCollision (lit "triggers") name (describe first) (describe second)
    (lit "SQLite names a trigger across the whole database where PostgreSQL names it within its table").

(** ** Operations *)

Definition define_object_key (self : Namespaces) (k : str) (owner : option str) (source : Source) : result Error Namespaces :=
  match objects self !! k with
  | Some held => Err (object_collision k (entry_source held) source)
  | None => Ok {| objects := <[k := {| entry_source := source; owner := owner |}]> (objects self); triggers := triggers self |}
  end.
Definition define_object (self : Namespaces) name (owner : option (ObjectName Payload)) (source : Source) : result Error Namespaces :=
  define_object_key self (key name) (key <$> owner) source.

Definition define_trigger_key (self : Namespaces) (k owner : str) (source : Source) : result Error Namespaces :=
  match triggers self !! k with
  | Some held => Err (trigger_collision k (entry_source held) source)
  | None => Ok {| objects := objects self; triggers := <[k := {| entry_source := source; owner := Some owner |}]> (triggers self) |}
  end.
Definition define_trigger (self : Namespaces) name (owner : ObjectName Payload) (source : Source) : result Error Namespaces :=
  define_trigger_key self (key name) (key owner) source.

(** [retain] keeps what does not hang off [k]. *)
Definition retain (k : str) (m : gmap str Entry) : gmap str Entry := filter (λ kv, owner kv.2 ≠ Some k) m.

Definition drop_object (self : Namespaces) name : Namespaces :=
  let k := key name in
  {| objects := retain k (base.delete k (objects self)); triggers := retain k (triggers self) |}.

Definition reown (from to : str) (entry : Entry) : Entry :=
  if decide (owner entry = Some from) then {| entry_source := entry_source entry; owner := Some to |} else entry.

Definition rename_object (self : Namespaces) (from to : ObjectName Payload) (source : Source) : result Error Namespaces :=
  let from := key from in
  let to := key to in
  match objects self !! to with
  | Some held => Err (object_collision to (entry_source held) source)
  | None =>
      let objects := match objects self !! from with
                     | Some entry => <[to := entry]> (base.delete from (objects self))
                     | None => objects self
                     end in
      Ok {| objects := reown from to <$> objects; triggers := reown from to <$> triggers self |}
  end.

(** The operations of an [ALTER TABLE]. *)
Fixpoint alter_operations (self : Namespaces) (altered : ObjectName Payload) (operations : list (AlterTableOperation Payload))
    (source : Source) : result Error Namespaces :=
  match operations with
  | [] => Ok self
  | RenameTo to :: operations =>
      self ← rename_object self altered to source;
      alter_operations self altered operations source
  | _ :: operations => alter_operations self altered operations source
  end.

Definition apply (self : Namespaces) statement (source : Source) : result Error Namespaces :=
  match statement with
  | SCreateTable create => define_object self (ct_name create) None source
  | SCreateView view => define_object self (cv_name view) None source
  | SCreateVirtualTable name _ _ _ => define_object self name None source
  | SCreateIndex index =>
      match ci_name index with
      | Some name => define_object self name (Some (ci_table_name index)) source
      | None => Ok self
      end
  | SCreateTrigger trigger _ => define_trigger self (tg_name trigger) (tg_table_name trigger) source
  | SDrop object_type names _ =>
      Ok (if match object_type with Table | View | Index => true | _ => false end
          then foldl drop_object self names else self)
  | SDropTrigger trigger_name _ _ =>
      Ok {| objects := objects self; triggers := base.delete (key trigger_name) (triggers self) |}
  | SAlterTable alter => alter_operations self (at_name alter) (at_operations alter) source
  | _ => Ok self
  end.

Definition seed_object (kind : str) (self : Namespaces) (stored : Stored) : result Error Namespaces :=
  define_object_key self (sqlite_key (stored_name stored)) None
    (Initial (initial_description kind (stored_schema stored) (source_name stored))).

Definition seed_index (self : Namespaces) (index : StoredIndex) : result Error Namespaces :=
  match index_name index with
  | None => Ok self
  | Some name =>
      define_object_key self (sqlite_key name) (Some (sqlite_key (index_table index)))
        (Initial (initial_description (lit "index") (index_schema index) name))
  end.

Definition seed_trigger (self : Namespaces) (trigger : StoredTrigger) : result Error Namespaces :=
  owner ← sqlite_key <$> trigger_table trigger;
  define_trigger_key self (sqlite_key (trigger_name trigger)) owner
    (Initial (initial_description (lit "trigger") None (trigger_name trigger))).

Definition seed (self : Namespaces) (schema : Schema) : result Error Namespaces :=
  self ← try_fold (seed_object (lit "table")) self (starting_tables schema);
  self ← try_fold (seed_object (lit "view")) self (starting_views schema);
  self ← try_fold (seed_object (lit "materialized view")) self (starting_materialized_views schema);
  self ← try_fold seed_index self (starting_indexes schema);
  try_fold seed_trigger self (starting_triggers schema).

(** [reject_name_collisions]; the namespaces at the end are what the walk leaves. *)
Definition walk (initial_schema : option Schema) (emitted : list (Source * Statement Payload)) : result Error Namespaces :=
  namespaces ← match initial_schema with Some schema => seed namespaces_default schema | None => Ok namespaces_default end;
  try_fold (λ namespaces '(source, statement), apply namespaces statement source) namespaces emitted.
Definition reject_name_collisions (initial_schema : option Schema) (emitted : list (Source * Statement Payload)) : result Error () :=
  _ ← walk initial_schema emitted; mret ().

(** ** The sources of the emitted statements *)

Definition generated_artifact_label statement : str :=
  match statement with
  | SCreateVirtualTable _ _ module_name _ =>
      if eq_ignore_ascii_case (value module_name) (lit "vec0") then lit "a generated vec0 virtual table"
      else lit "a generated virtual table"
  | SCreateView _ => lit "a generated RLS view"
  | SCreateTrigger _ _ => lit "a generated trigger"
  | SCreateTable _ => lit "a generated backing table"
  | _ => lit "a generated statement"
  end.

Definition sourced_unit (input : Statement Payload) (emitted : list (Statement Payload)) : list (Source * Statement Payload) :=
  let is_create_table := match input with SCreateTable _ => true | _ => false end in
  imap (λ i s, (if is_create_table && (0 <? i)%nat then Generated (generated_artifact_label s) else Input input, s)) emitted.
Definition sourced (inputs : list (Statement Payload)) (translated : list (list (Statement Payload))) : list (Source * Statement Payload) :=
  concat (map (λ '(input, emitted), sourced_unit input emitted) (zip inputs translated)).
End Namespace.

(** ** SQLite's schema *)

Module Sqlite.
Section Sqlite.
Context {Payload Schema Tbl : Type} `{Library Payload Schema Tbl}.

Inductive Database := MainDb | TempDb | AttachedDb.
Inductive Kind := KTable | KView | KIndex | KTrigger.

#[global] Instance Database_eq_dec : EqDecision Database.
Proof. solve_decision. Defined.
#[global] Instance Kind_eq_dec : EqDecision Kind.
Proof. solve_decision. Defined.

(** A live object: the database it is in, and the table or view it hangs off. *)
Record Live := { kind : Kind; home : Database; live_name : str; live_owner : option (Database * str) }.

(** Each database keeps tables, views and indexes in one namespace and triggers in
    another. *)
Definition is_trigger (o : Live) : bool := match kind o with KTrigger => true | _ => false end.
Definition is_at (trigger : bool) (h : Database) (name : str) (o : Live) : bool :=
  Bool.eqb (is_trigger o) trigger && bool_decide (home o = h) && bool_decide (live_name o = name).
Definition taken (schema : list Live) (trigger : bool) (h : Database) (name : str) : bool := existsb (is_at trigger h name) schema.

(** A name is looked for in the temporary database, the main one, the attached one. *)
Definition resolve (schema : list Live) (trigger : bool) (name : str) : option Live :=
  match List.find (is_at trigger TempDb name) schema with
  | Some o => Some o
  | None =>
      match List.find (is_at trigger MainDb name) schema with
      | Some o => Some o
      | None => List.find (is_at trigger AttachedDb name) schema
      end
  end.

(** Why a script stops: a name that is taken in its database, where SQLite refuses the
    statement or, under IF NOT EXISTS, keeps the first object for both; or a statement
    about an object that is not there or of another kind. *)
Inductive Stop := Collision | NoSuchObject.

Definition add_object (schema : list Live) (o : Live) : Stop + list Live :=
  if taken schema (is_trigger o) (home o) (live_name o) then inl Collision else inr (o :: schema).

(** A dropped object takes with it whatever hangs off it. *)
Definition survives (dropped : Live) (o : Live) : bool :=
  negb (is_at (is_trigger dropped) (home dropped) (live_name dropped) o)
  && negb (negb (is_trigger dropped) && bool_decide (live_owner o = Some (home dropped, live_name dropped))).
Definition remove (schema : list Live) (dropped : Live) : list Live := List.filter (survives dropped) schema.

(** [IF EXISTS] is the reading of a DROP of a name that nothing has. *)
Fixpoint drops (schema : list Live) (expected : Kind) (names : list str) : Stop + list Live :=
  match names with
  | [] => inr schema
  | name :: names =>
      match resolve schema false name with
      | Some o => if decide (kind o = expected) then drops (remove schema o) expected names else inl NoSuchObject
      | None => drops schema expected names
      end
  end.

(** A renamed table stays in its database and keeps what hangs off it. *)
Definition relabel (from : Live) (to : str) (o : Live) : Live :=
  {| kind := kind o; home := home o;
     live_name := if is_at false (home from) (live_name from) o then to else live_name o;
     live_owner := if decide (live_owner o = Some (home from, live_name from)) then Some (home from, to) else live_owner o |}.

Fixpoint renames (schema : list Live) (altered : str) (operations : list (AlterTableOperation Payload)) : Stop + list Live :=
  match operations with
  | [] => inr schema
  | RenameTo to :: operations =>
      match resolve schema false altered with
      | Some o =>
          if decide (kind o = KTable) then
            if taken schema false (home o) (key to) then inl Collision else renames (map (relabel o (key to)) schema) altered operations
          else inl NoSuchObject
      | None => inl NoSuchObject
      end
  | _ :: operations => renames schema altered operations
  end.

(** One statement, which creates its object in the database [h]; an index is in the
    database of its table. *)
Definition execute (schema : list Live) (h : Database) (statement : Statement Payload) : Stop + list Live :=
  match statement with
  | SCreateTable table => add_object schema {| kind := KTable; home := h; live_name := key (ct_name table); live_owner := None |}
  | SCreateView view => add_object schema {| kind := KView; home := h; live_name := key (cv_name view); live_owner := None |}
  | SCreateVirtualTable name _ _ _ => add_object schema {| kind := KTable; home := h; live_name := key name; live_owner := None |}
  | SCreateIndex index =>
      match ci_name index with
      | None => inr schema
      | Some name =>
          match resolve schema false (key (ci_table_name index)) with
          | Some t =>
              if decide (kind t = KTable) then add_object schema {| kind := KIndex; home := home t; live_name := key name; live_owner := Some (home t, live_name t) |}
              else inl NoSuchObject
          | None => inl NoSuchObject
          end
      end
  | SCreateTrigger trigger _ =>
      match resolve schema false (key (tg_table_name trigger)) with
      | Some t =>
          if decide (kind t = KIndex) then inl NoSuchObject
          else add_object schema {| kind := KTrigger; home := h; live_name := key (tg_name trigger); live_owner := Some (home t, live_name t) |}
      | None => inl NoSuchObject
      end
  | SDrop Table names _ => drops schema KTable (map key names)
  | SDrop View names _ => drops schema KView (map key names)
  | SDrop Index names _ => drops schema KIndex (map key names)
  | SDropTrigger name _ _ =>
      match resolve schema true (key name) with Some o => inr (remove schema o) | None => inr schema end
  | SAlterTable alter => renames schema (key (at_name alter)) (at_operations alter)
  | _ => inr schema
  end.

(** A script, each statement with the database its object goes to: why it stopped, and
    the schemas it went through. *)
Fixpoint run (schema : list Live) (script : list (Database * Statement Payload)) : option Stop * list (list Live) :=
  match script with
  | [] => (None, [])
  | (h, statement) :: script =>
      match execute schema h statement with
      | inl stop => (Some stop, [])
      | inr schema' => let '(stop, schemas) := run schema' script in (stop, schema' :: schemas)
      end
  end.

(** No two objects have one name, in whatever databases. *)
Definition distinct (schema : list Live) : Prop := NoDup (map (λ o, (is_trigger o, live_name o)) schema).
End Sqlite.
End Sqlite.

Section Refinement.
Context {Payload Schema Tbl : Type} `{Library Payload Schema Tbl} `{!Placement.Nodes Payload Schema Tbl} `{!Starting Schema}.
Implicit Types (ns : @Namespaces Payload) (schema : list Sqlite.Live) (m : gmap str (@Entry Payload)) (o : Sqlite.Live) (trigger : bool).
Import Sqlite.

(** The map holds exactly the live objects of one of the namespaces, by their names and
    those of what they hang off. *)
Definition holds trigger m schema : Prop :=
  ∀ k w, (∃ o, o ∈ schema ∧ is_trigger o = trigger ∧ live_name o = k ∧ snd <$> live_owner o = w) ↔ ∃ e, m !! k = Some e ∧ owner e = w.

Definition simulates ns schema : Prop := holds false (objects ns) schema ∧ holds true (triggers ns) schema.

(** The table or view an object can hang off. *)
Definition carries schema (h : Database) (k : str) : Prop :=
  ∃ t, t ∈ schema ∧ (kind t = KTable ∨ kind t = KView) ∧ home t = h ∧ live_name t = k.

(** What an index or a trigger hangs off is alive; tables and views hang off nothing. *)
Definition owned schema : Prop :=
  ∀ o h k, o ∈ schema → live_owner o = Some (h, k) → (kind o = KIndex ∨ kind o = KTrigger) ∧ carries schema h k.

Definition sound ns schema : Prop := simulates ns schema ∧ distinct schema ∧ owned schema.

Lemma distinct_same schema o1 o2 : distinct schema → o1 ∈ schema → o2 ∈ schema → is_trigger o1 = is_trigger o2 → live_name o1 = live_name o2 → o1 = o2.
Proof.
  unfold distinct. induction schema as [|o schema IH]; intros Hd H1 H2 Ht Hn; [by apply elem_of_nil in H1|]. cbn in Hd. apply NoDup_cons in Hd as [Ho Hd].
  apply elem_of_cons in H1 as [->|H1], H2 as [->|H2]; [done|destruct Ho|destruct Ho|by apply IH]; apply list_elem_of_fmap; [exists o2|exists o1]; split; congruence || done.
Qed.

Lemma is_at_spec trigger h k o : is_at trigger h k o = true ↔ is_trigger o = trigger ∧ home o = h ∧ live_name o = k.
Proof. unfold is_at. rewrite !andb_true_iff, eqb_true_iff, !bool_decide_eq_true. tauto. Qed.

Lemma taken_spec schema trigger h k : taken schema trigger h k = true ↔ ∃ o, o ∈ schema ∧ is_trigger o = trigger ∧ home o = h ∧ live_name o = k.
Proof. unfold taken. rewrite existsb_exists. setoid_rewrite is_at_spec. setoid_rewrite <- list_elem_of_In. done. Qed.

Lemma resolve_Some schema trigger k o : resolve schema trigger k = Some o → o ∈ schema ∧ is_trigger o = trigger ∧ live_name o = k.
Proof.
  assert (Hf : ∀ h, List.find (is_at trigger h k) schema = Some o → o ∈ schema ∧ is_trigger o = trigger ∧ live_name o = k).
  { intros h Hx. apply find_some in Hx as [Hin%list_elem_of_In (? & _ & ?)%is_at_spec]. split_and!; assumption. }
  unfold resolve. destruct (List.find (is_at trigger TempDb k) schema) eqn:E1; [intros [= ->]; eauto|]. destruct (List.find (is_at trigger MainDb k) schema) eqn:E2; [intros [= ->]; eauto|]. apply Hf.
Qed.

Lemma resolve_None schema trigger k o : resolve schema trigger k = None → o ∈ schema → is_trigger o = trigger → live_name o = k → False.
Proof.
  intros Hr Hin Ht Hn. assert (Hh : is_at trigger (home o) k o = true) by by apply is_at_spec. apply list_elem_of_In in Hin. revert Hr. unfold resolve.
  destruct (List.find (is_at trigger TempDb k) schema) eqn:E1; [done|]. destruct (List.find (is_at trigger MainDb k) schema) eqn:E2; [done|]. intros E3.
  destruct (home o); [pose proof (find_none _ _ E2 o Hin)|pose proof (find_none _ _ E1 o Hin)|pose proof (find_none _ _ E3 o Hin)]; congruence.
Qed.

(** A name is free in the map exactly when no object has it, in whatever database. *)
Lemma holds_free trigger m schema k : holds trigger m schema → m !! k = None ↔ ∀ o, o ∈ schema → is_trigger o = trigger → live_name o ≠ k.
Proof.
  intros Hh. split.
  - intros Hk o Ho Ht Hn. assert (∃ e, m !! k = Some e ∧ owner e = snd <$> live_owner o) as (e & He & _) by (apply Hh; by exists o). congruence.
  - intros Hf. destruct (m !! k) as [e|] eqn:E; [|done]. destruct (proj2 (Hh k (owner e))) as (o & Ho & Ht & Hn & _); [by exists e|]. by destruct (Hf o Ho Ht).
Qed.

(** ** Creation *)

Lemma holds_define trigger m schema o source : holds trigger m schema → is_trigger o = trigger → m !! live_name o = None →
  holds trigger (<[live_name o := {| entry_source := source; owner := snd <$> live_owner o |}]> m) (o :: schema).
Proof.
  intros Hh Ht Hk k w. setoid_rewrite elem_of_cons. split.
  - intros (o' & [->|Ho] & Ht' & <- & <-); [eexists; by rewrite lookup_insert_eq|].
    assert (∃ e, m !! live_name o' = Some e ∧ owner e = snd <$> live_owner o') as (e & He & Hw) by (apply Hh; by exists o').
    exists e. rewrite lookup_insert_ne; [done|]. intros Hn. rewrite Hn in Hk. congruence.
  - intros (e & He & <-). apply lookup_insert_Some in He as [[<- <-]|[_ He]]; [exists o; naive_solver|].
    destruct (proj2 (Hh k (owner e))) as (o' & ? & ? & ? & ?); [by exists e|]. exists o'. naive_solver.
Qed.

Lemma holds_other trigger m schema o : holds trigger m schema → is_trigger o ≠ trigger → holds trigger m (o :: schema).
Proof. intros Hh Ho k w. rewrite <- (Hh k w). setoid_rewrite elem_of_cons. split; [intros (o' & [->|?] & ? & ?); [done|eauto]|intros (o' & ? & ?); eauto]. Qed.

Lemma distinct_define schema o : distinct schema → (∀ o', o' ∈ schema → is_trigger o' = is_trigger o → live_name o' ≠ live_name o) → distinct (o :: schema).
Proof. intros Hd Hf. unfold distinct. cbn. apply NoDup_cons. split; [|done]. intros (o' & [= Ht Hn] & Hin)%list_elem_of_fmap. by apply (Hf o'). Qed.

Lemma carries_not_trigger (t : Live) : kind t = KTable ∨ kind t = KView → is_trigger t = false.
Proof. unfold is_trigger. by intros [-> | ->]. Qed.

Lemma owned_define schema o : owned schema →
  (∀ h k, live_owner o = Some (h, k) → (kind o = KIndex ∨ kind o = KTrigger) ∧ carries schema h k) → owned (o :: schema).
Proof.
  intros Hw Ho o' h k Hin Hown. assert ((kind o' = KIndex ∨ kind o' = KTrigger) ∧ carries schema h k) as [Hk (t & ? & ?)]
    by (apply elem_of_cons in Hin as [->|Hin]; [by apply Ho|by apply (Hw o')]). split; [done|]. exists t. split; [by right|done].
Qed.

(** How a step of the walk answers a step of the machine. *)
Definition answers (r : result Error (@Namespaces Payload)) (s : Stop + list Live) : Prop :=
  match r, s with
  | Ok ns, inr schema => sound ns schema
  | Ok _, inl stop => stop = NoSuchObject
  | Err _, inr schema => ¬ distinct schema
  | Err _, inl _ => True
  end.

(** The map of the namespace an object belongs to. *)
Definition namespace_of ns o : gmap str (@Entry Payload) := if is_trigger o then triggers ns else objects ns.

Definition defined ns o source : @Namespaces Payload :=
  let entry := {| entry_source := source; owner := snd <$> live_owner o |} in
  if is_trigger o then {| objects := objects ns; triggers := <[live_name o := entry]> (triggers ns) |}
  else {| objects := <[live_name o := entry]> (objects ns); triggers := triggers ns |}.

Lemma answers_create ns schema o source (r : result Error (@Namespaces Payload)) :
  sound ns schema → (∀ h k, live_owner o = Some (h, k) → (kind o = KIndex ∨ kind o = KTrigger) ∧ carries schema h k) →
  match namespace_of ns o !! live_name o with Some _ => ∃ e, r = Err e | None => r = Ok (defined ns o source) end →
  answers r (add_object schema o).
Proof.
  intros ([Ho Ht] & Hd & Hw) Hown Hr. unfold add_object. assert (Hh : holds (is_trigger o) (namespace_of ns o) schema) by (unfold namespace_of; by destruct (is_trigger o)).
  destruct (namespace_of ns o !! live_name o) as [held|] eqn:E.
  - destruct Hr as [e ->]. destruct (taken _ _ _ _); [done|]. cbn. intros Hbad. unfold distinct in Hbad. cbn in Hbad. apply NoDup_cons in Hbad as [Hn _].
    destruct (proj2 (Hh (live_name o) (owner held))) as (o' & Hin & Ht' & Hn' & _); [by exists held|]. apply Hn, list_elem_of_fmap. exists o'. by rewrite Ht', Hn'.
  - pose proof (proj1 (holds_free _ _ _ _ Hh) E) as Hf. subst r. destruct (taken schema _ _ _) eqn:Et.
    { apply taken_spec in Et as (o' & Hin & Ht' & _ & Hn'). by destruct (Hf o'). }
    split; [|split; [by apply distinct_define|by apply owned_define]].
    unfold defined, namespace_of in *. destruct (is_trigger o) eqn:Etr; split; cbn; first [by apply holds_define|apply holds_other; [done|by rewrite Etr]].
Qed.

(** ** Drops *)

(** Something hangs off the object of a name exactly when it hangs off the name. *)
Lemma owner_resolved schema o t : distinct schema → owned schema → o ∈ schema → t ∈ schema → is_trigger t = false →
  snd <$> live_owner o = Some (live_name t) ↔ live_owner o = Some (home t, live_name t).
Proof.
  intros Hd Hw Hin Ht Hk. split; [|by intros ->]. destruct (live_owner o) as [[h k']|] eqn:E; [|done]. cbn. intros [= ->].
  destruct (Hw _ _ _ Hin E) as [_ (t' & Hin' & Ht' & <- & Hn')]. apply carries_not_trigger in Ht'. by rewrite (distinct_same schema t' t Hd Hin' Ht) by congruence.
Qed.

Lemma remove_elem schema t o : o ∈ remove schema t ↔ o ∈ schema ∧ survives t o = true.
Proof. unfold remove. rewrite list_elem_of_In, filter_In, <- list_elem_of_In. done. Qed.

Lemma distinct_remove schema t : distinct schema → distinct (remove schema t).
Proof.
  unfold distinct, remove. intros Hd. induction schema as [|o schema IH]; [done|]. cbn in *. apply NoDup_cons in Hd as [Ho Hd]. destruct (survives t o); [|by apply IH].
  cbn. apply NoDup_cons. split; [|by apply IH]. intros (o' & He & Hin)%list_elem_of_fmap. apply Ho, list_elem_of_fmap. exists o'. split; [done|]. by apply (proj1 (remove_elem schema t o')).
Qed.

Lemma survives_spec t o : survives t o = true ↔ ¬ (is_trigger o = is_trigger t ∧ home o = home t ∧ live_name o = live_name t)
  ∧ (is_trigger t = false → live_owner o ≠ Some (home t, live_name t)).
Proof.
  unfold survives. rewrite andb_true_iff, !negb_true_iff, <- !not_true_iff_false, is_at_spec, andb_true_iff, negb_true_iff, bool_decide_eq_true.
  split; intros [Ha Hb]; (split; [exact Ha|]); [intros Hx ?; apply not_true_iff_false in Hx; by apply Hb|intros [Hx ?]; apply not_true_iff_false in Hx; by apply Hb].
Qed.

(** Whatever goes, what stays keeps what it hangs off. *)
Lemma owned_remove schema t : owned schema → owned (remove schema t).
Proof.
  intros Hw o h k [Hin Hs]%remove_elem Ho. apply survives_spec in Hs as [_ Hs]. destruct (Hw _ _ _ Hin Ho) as [Hkind (t' & Hin' & Hk & <- & <-)]. split; [done|].
  exists t'. split; [|done]. apply remove_elem. split; [done|]. apply survives_spec. split.
  - intros (Hx & Hhome & Hn). rewrite (carries_not_trigger t' Hk) in Hx. apply Hs; [by symmetry|]. by rewrite <- Hhome, <- Hn.
  - intros _ Ho'. destruct (Hw _ _ _ Hin' Ho') as [[Hi|Hi] _]; destruct Hk; congruence.
Qed.

Lemma remove_named schema t o : distinct schema → owned schema → t ∈ schema → is_trigger t = false → o ∈ schema →
  survives t o = true ↔ ¬ (is_trigger o = false ∧ live_name o = live_name t) ∧ snd <$> live_owner o ≠ Some (live_name t).
Proof.
  intros Hd Hw Ht Hx Hin. rewrite survives_spec, (owner_resolved schema o t) by done. rewrite Hx. split.
  - intros [Hs Ho]. split; [|by apply Ho]. intros [Hxo Hn]. rewrite (distinct_same schema o t) in Hs by congruence. by apply Hs.
  - intros [Hs Ho]. split; [|done]. intros (? & _ & ?). by apply Hs.
Qed.

Lemma sound_drop ns schema name t : sound ns schema → resolve schema false (key name) = Some t → sound (drop_object ns name) (remove schema t).
Proof.
  intros ([Ho Ht] & Hd & Hw) (Hin & Hx & Hn)%resolve_Some. split; [|split; [by apply distinct_remove|by apply owned_remove]].
  split; intros k w; cbn; setoid_rewrite remove_elem; setoid_rewrite map_lookup_filter_Some; cbn; rewrite <- Hn.
  - setoid_rewrite lookup_delete_Some. split.
    + intros (o & [Hio Hs] & Hxo & <- & <-). apply (remove_named schema t o) in Hs as [Hs Hso]; try done. destruct (proj1 (Ho (live_name o) (snd <$> live_owner o))) as (e & He & Hw'); [by exists o|].
      exists e. rewrite Hw'. split_and!; try done. intros Hnn. by apply Hs.
    + intros (e & ((Hne & He) & Hwe) & <-). destruct (proj2 (Ho k (owner e))) as (o & Hio & Hxo & <- & Hwo); [by exists e|]. exists o. split_and!; try done.
      apply (remove_named schema t o); try done. rewrite Hwo. split; [|done]. intros [_ ?]. by apply Hne.
  - split.
    + intros (o & [Hio Hs] & Hxo & <- & <-). apply (remove_named schema t o) in Hs as [_ Hso]; try done. destruct (proj1 (Ht (live_name o) (snd <$> live_owner o))) as (e & He & Hw'); [by exists o|].
      exists e. by rewrite Hw'.
    + intros (e & (He & Hwe) & <-). destruct (proj2 (Ht k (owner e))) as (o & Hio & Hxo & <- & Hwo); [by exists e|]. exists o. split_and!; try done.
      apply (remove_named schema t o); try done. rewrite Hwo. split; [|done]. intros [? _]. congruence.
Qed.

(** Nothing hangs off a name nothing has. *)
Lemma sound_drop_missing ns schema name : sound ns schema → resolve schema false (key name) = None → sound (drop_object ns name) schema.
Proof.
  intros ([Ho Ht] & Hd & Hw) Hr. split; [|done].
  assert (Hown : ∀ o, o ∈ schema → snd <$> live_owner o ≠ Some (key name)).
  { intros o Hin Hk. destruct (live_owner o) as [[h k]|] eqn:E; [|done]. injection Hk as ->. destruct (Hw _ _ _ Hin E) as [_ (t & Hit & Hkt & _ & Hn)].
    apply (resolve_None _ _ _ t Hr); [done|by apply carries_not_trigger|done]. }
  assert (Hname : ∀ o, o ∈ schema → is_trigger o = false → live_name o ≠ key name) by (intros o ? ? ?; by apply (resolve_None _ _ _ o Hr)).
  split; intros k w; cbn; setoid_rewrite map_lookup_filter_Some; cbn; [rewrite (Ho k w); setoid_rewrite lookup_delete_Some|rewrite (Ht k w)].
  - split; [intros (e & He & <-)|intros (e & [[? ?] ?] & <-); by exists e]. destruct (proj2 (Ho k (owner e))) as (o & Hio & Hxo & <- & Hwo); [by exists e|].
    exists e. split_and!; try done; [intros Hk; by apply (Hname o)|rewrite <- Hwo; by apply Hown].
  - split; [intros (e & He & <-)|intros (e & [? ?] & <-); by exists e]. destruct (proj2 (Ht k (owner e))) as (o & Hio & Hxo & <- & Hwo); [by exists e|].
    exists e. split_and!; try done. rewrite <- Hwo. by apply Hown.
Qed.

Lemma sound_drop_trigger ns schema k t : sound ns schema → resolve schema true k = Some t →
  sound {| objects := objects ns; triggers := base.delete k (triggers ns) |} (remove schema t).
Proof.
  intros ([Ho Ht] & Hd & Hw) (Hin & Hx & <-)%resolve_Some. split; [|split; [by apply distinct_remove|by apply owned_remove]].
  assert (Hs : ∀ o, o ∈ schema → survives t o = true ↔ ¬ (is_trigger o = true ∧ live_name o = live_name t)).
  { intros o Hio. rewrite survives_spec, Hx. split; [intros [Hs _] [? ?]; rewrite (distinct_same schema o t) in Hs by congruence; by apply Hs|intros Hs; split; [|done]; by intros (? & _ & ?); apply Hs]. }
  split; intros k w; cbn; setoid_rewrite remove_elem.
  - rewrite <- (Ho k w). split; [intros (o & [? _] & ?); by exists o|]. intros (o & Hio & Hxo & ?). exists o. split; [split; [done|apply Hs; [done|intros [? _]; congruence]]|done].
  - setoid_rewrite lookup_delete_Some. split.
    + intros (o & [Hio Hso] & Hxo & <- & <-). apply Hs in Hso; [|done]. destruct (proj1 (Ht (live_name o) (snd <$> live_owner o))) as (e & He & Hw'); [by exists o|].
      exists e. split_and!; try done. intros Hn. by apply Hso.
    + intros (e & [Hne He] & <-). destruct (proj2 (Ht k (owner e))) as (o & Hio & Hxo & <- & Hwo); [by exists e|]. exists o. split_and!; try done. apply Hs; [done|]. intros [_ ?]. by apply Hne.
Qed.

Lemma answers_drops ns schema expected (names : list (ObjectName Payload)) : sound ns schema →
  answers (Ok (foldl drop_object ns names)) (drops schema expected (map key names)).
Proof.
  revert ns schema. induction names as [|name names IH]; intros ns schema Hs; [done|]. cbn [foldl map drops].
  destruct (resolve schema false (key name)) as [t|] eqn:Er; [case_decide; [|done]; by apply IH, sound_drop|by apply IH, sound_drop_missing].
Qed.

(** ** Renames *)

Lemma NoDup_map_in {A B C} (f : A → B) (g : A → C) (l : list A) : (∀ x y, x ∈ l → y ∈ l → f x = f y → g x = g y) → NoDup (map g l) → NoDup (map f l).
Proof.
  induction l as [|x l IH]; intros Hf Hg; [constructor|]. cbn in *. apply NoDup_cons in Hg as [Hx Hg]. apply NoDup_cons. split.
  - intros (y & Heq & Hy)%list_elem_of_fmap. apply Hx, list_elem_of_fmap. exists y. split; [|done]. apply Hf; [by left|by right|done].
  - apply IH; [|done]. intros ? ? ? ?. by apply Hf; right.
Qed.

Lemma reown_owner from to (e : @Entry Payload) : owner (reown from to e) = if decide (owner e = Some from) then Some to else owner e.
Proof. unfold reown. by case_decide. Qed.

Section Renaming.
Context (schema : list Live) (t : Live) (to : str).
Hypothesis t_in : t ∈ schema.
Hypothesis t_table : kind t = KTable.
Hypothesis schema_distinct : distinct schema.
Hypothesis schema_owned : owned schema.

Lemma table_not_trigger : is_trigger t = false.
Proof. unfold is_trigger. by rewrite t_table. Qed.

Lemma relabel_trigger o : is_trigger (relabel t to o) = is_trigger o.
Proof. done. Qed.

Lemma relabel_name o : o ∈ schema → live_name (relabel t to o) = if negb (is_trigger o) && bool_decide (live_name o = live_name t) then to else live_name o.
Proof.
  intros Hin. cbn. destruct (is_at false (home t) (live_name t) o) eqn:E.
  - apply is_at_spec in E as (-> & _ & ->). by rewrite bool_decide_eq_true_2.
  - destruct (is_trigger o) eqn:Ex; [done|]. cbn. case_bool_decide as Hn; [|done]. rewrite (distinct_same schema o t) in E by (done || by rewrite Ex, table_not_trigger).
    rewrite (proj2 (is_at_spec _ _ _ _)) in E; [done|]. by rewrite table_not_trigger.
Qed.

Lemma relabel_owner o : o ∈ schema →
  snd <$> live_owner (relabel t to o) = if decide (snd <$> live_owner o = Some (live_name t)) then Some to else snd <$> live_owner o.
Proof.
  intros Hin. cbn. pose proof (owner_resolved schema o t schema_distinct schema_owned Hin t_in table_not_trigger) as He.
  case_decide as H1; case_decide as H2; try done; [destruct H2|destruct H1]; by apply He.
Qed.

Lemma relabelled_elem o : o ∈ map (relabel t to) schema ↔ ∃ o', o = relabel t to o' ∧ o' ∈ schema.
Proof. apply list_elem_of_fmap. Qed.

Lemma owned_relabel : owned (map (relabel t to) schema).
Proof.
  intros o h k (o' & -> & Hin)%relabelled_elem Ho. cbn in *. assert (Hx : ∃ h' k', live_owner o' = Some (h', k')) by (revert Ho; case_decide as Hd; [intros _; rewrite Hd|]; eauto).
  destruct Hx as (h' & k' & Ho'). destruct (schema_owned _ _ _ Hin Ho') as [Hk (t' & Hin' & Hkt & <- & <-)]. split; [done|].
  exists (relabel t to t'). split; [apply relabelled_elem; by exists t'|]. split; [done|]. rewrite Ho' in Ho. cbn. case_decide as Hd.
  - injection Ho as <- <-. injection Hd as Hh Hn. split; [done|]. by rewrite (proj2 (is_at_spec _ _ _ _)) by (split_and!; [by apply carries_not_trigger|done|done]).
  - injection Ho as <- <-. split; [done|]. destruct (is_at _ _ _ t') eqn:E; [|done]. apply is_at_spec in E as (_ & Hh & Hn). destruct Hd. by rewrite Hh, Hn.
Qed.

Lemma distinct_relabel : (∀ o, o ∈ schema → is_trigger o = false → live_name o ≠ to) → distinct (map (relabel t to) schema).
Proof.
  intros Hfree. unfold distinct. rewrite map_map. eapply NoDup_map_in; [|exact schema_distinct]. cbn beta. intros x y Hx Hy Heq.
  rewrite !relabel_trigger, !relabel_name in Heq by done. injection Heq as Ht Hn. f_equal; [done|]. rewrite <- Ht in Hn. destruct (is_trigger x) eqn:E; [done|].
  cbn [negb andb] in Hn. case_bool_decide as H1; case_bool_decide as H2; [congruence|by destruct (Hfree y); congruence|by destruct (Hfree x)|done].
Qed.

Lemma holds_relabel_triggers m : holds true m schema → holds true (reown (live_name t) to <$> m) (map (relabel t to) schema).
Proof.
  intros Hh k w. setoid_rewrite relabelled_elem. split.
  - intros (o & (o' & -> & Hin) & Ht & <- & <-). rewrite relabel_trigger in Ht. rewrite relabel_owner, relabel_name, Ht by done. cbn [negb andb].
    destruct (proj1 (Hh (live_name o') (snd <$> live_owner o'))) as (e & He & Hw); [by exists o'|]. exists (reown (live_name t) to e). rewrite lookup_fmap, He. split; [done|]. by rewrite reown_owner, Hw.
  - intros (e & He & <-). rewrite lookup_fmap in He. apply fmap_Some in He as (e' & He' & ->). destruct (proj2 (Hh k (owner e'))) as (o & Hin & Ht & <- & Hw); [by exists e'|].
    exists (relabel t to o). split; [by exists o|]. rewrite relabel_trigger, relabel_owner, relabel_name, Ht by done. split_and!; try done. by rewrite Hw, reown_owner.
Qed.

Lemma renamed_lookup m from k e : m !! to = None → m !! from ≠ None →
  (match m !! from with Some e => <[to := e]> (base.delete from m) | None => m end) !! k = Some e ↔ ∃ k0, m !! k0 = Some e ∧ k = if bool_decide (k0 = from) then to else k0.
Proof.
  intros Hto. destruct (m !! from) as [ef|] eqn:Ef; [intros _|done]. rewrite lookup_insert_Some, lookup_delete_Some. split.
  - intros [[<- <-]|(Hne & Hne' & He)]; [exists from; by rewrite bool_decide_eq_true_2|]. exists k. split; [done|]. by rewrite bool_decide_eq_false_2.
  - intros (k1 & He & ->). case_bool_decide as Hd; [left; split; congruence|]. right. split_and!; [congruence|congruence|done].
Qed.

Lemma holds_relabel_objects m : holds false m schema → m !! to = None →
  holds false (reown (live_name t) to <$> match m !! live_name t with Some e => <[to := e]> (base.delete (live_name t) m) | None => m end) (map (relabel t to) schema).
Proof.
  intros Hh Hto k w. assert (Hfrom : m !! live_name t ≠ None).
  { intros Hn. by apply (proj1 (holds_free _ _ _ _ Hh) Hn t); [done|apply table_not_trigger|]. }
  setoid_rewrite relabelled_elem. split.
  - intros (o & (o' & -> & Hin) & Ht & <- & <-). rewrite relabel_trigger in Ht. rewrite relabel_owner, relabel_name, Ht by done. cbn [negb andb].
    destruct (proj1 (Hh (live_name o') (snd <$> live_owner o'))) as (e & He & Hw); [by exists o'|]. exists (reown (live_name t) to e). rewrite lookup_fmap.
    rewrite (proj2 (renamed_lookup m (live_name t) _ e Hto Hfrom)); [split; [done|by rewrite reown_owner, Hw]|]. by exists (live_name o').
  - intros (e & He & <-). rewrite lookup_fmap in He. apply fmap_Some in He as (e' & (k0 & He' & ->)%(renamed_lookup _ _ _ _ Hto Hfrom) & ->).
    destruct (proj2 (Hh k0 (owner e'))) as (o & Hin & Ht & <- & Hw); [by exists e'|]. exists (relabel t to o). split; [by exists o|].
    rewrite relabel_trigger, relabel_owner, relabel_name, Ht by done. split_and!; try done. by rewrite Hw, reown_owner.
Qed.
End Renaming.

Lemma renames_missing schema altered (operations : list (AlterTableOperation Payload)) : resolve schema false altered = None →
  renames schema altered operations = inr schema ∨ renames schema altered operations = inl NoSuchObject.
Proof. intros Hr. induction operations as [|op operations IH]; [by left|]. destruct op; cbn; try done. rewrite Hr. by right. Qed.

(** A table renamed to a name another database has. *)
Lemma renames_collide schema t o altered to (operations : list (AlterTableOperation Payload)) (e : Error) :
  distinct schema → t ∈ schema → kind t = KTable → live_name t = altered → o ∈ schema → is_trigger o = false → live_name o = to →
  taken schema false (home t) to = false → answers (Err e) (renames (map (relabel t to) schema) altered operations).
Proof.
  intros Hd Ht Hk <- Ho Hxo Hno Htaken. assert (Hxt : is_trigger t = false) by by apply (table_not_trigger t Hk).
  assert (Hne : live_name t ≠ to) by (intros Hn; apply not_true_iff_false in Htaken; apply Htaken, taken_spec; by exists t).
  destruct (renames_missing (map (relabel t to) schema) (live_name t) operations) as [-> | ->]; [|intros Hbad|done].
  - destruct (resolve _ _ _) as [o'|] eqn:Er; [|done]. apply resolve_Some in Er as ((o'' & -> & Hin)%relabelled_elem & Hx & Hn).
    rewrite (relabel_name schema t to Ht Hk Hd o'' Hin) in Hn. rewrite relabel_trigger in Hx. rewrite Hx in Hn. cbn [negb andb] in Hn. by case_bool_decide.
  - assert (Heq : relabel t to t = relabel t to o).
    { apply (distinct_same _ _ _ Hbad); [apply relabelled_elem; eauto..|by rewrite !relabel_trigger, Hxt|].
      rewrite !(relabel_name schema t to) by done. rewrite Hxt, Hxo, bool_decide_eq_true_2 by done. cbn [negb andb]. by case_bool_decide. }
    apply not_true_iff_false in Htaken. apply Htaken, taken_spec. exists o. split_and!; try done. by apply (f_equal home) in Heq.
Qed.

Lemma answers_alter ns schema (altered : ObjectName Payload) operations source : sound ns schema →
  answers (alter_operations ns altered operations source) (renames schema (key altered) operations).
Proof.
  revert ns schema. induction operations as [|op operations IH]; intros ns schema Hs; [done|]. destruct op; cbn [alter_operations renames]; try by apply IH.
  pose proof Hs as ([Ho Ht] & Hd & Hw). unfold rename_object. destruct (objects ns !! key name) as [held|] eqn:E.
  - cbn [mbind result_bind]. destruct (resolve schema false (key altered)) as [t|] eqn:Er; [|done]. case_decide as Hk; [|done]. destruct (taken schema false (home t) (key name)) eqn:Et; [done|].
    apply resolve_Some in Er as (Hin & Hx & Hn). destruct (proj2 (Ho (key name) (owner held))) as (o & Hio & Hxo & Hno & _); [by exists held|].
    by eapply renames_collide.
  - cbn [mbind result_bind]. destruct (resolve schema false (key altered)) as [t|] eqn:Er; [|by destruct (alter_operations _ _ _ _)].
    case_decide as Hk; [|by destruct (alter_operations _ _ _ _)]. apply resolve_Some in Er as (Hin & Hx & Hn).
    assert (Hfree : ∀ o, o ∈ schema → is_trigger o = false → live_name o ≠ key name) by (by apply (holds_free _ _ _ _ Ho)).
    destruct (taken schema false (home t) (key name)) eqn:Et; [apply taken_spec in Et as (o & ? & ? & _ & ?); by destruct (Hfree o)|].
    apply IH. split; [|split; [by apply distinct_relabel|by apply owned_relabel]]. rewrite <- Hn. split; cbn; [by apply holds_relabel_objects|by apply holds_relabel_triggers].
Qed.

(** ** The walk *)

Lemma answers_apply ns schema h statement source : sound ns schema → answers (apply ns statement source) (execute schema h statement).
Proof.
  intros Hs. pose proof Hs as (_ & Hd & Hw). destruct statement; try exact Hs.
  - apply (answers_create ns schema _ source); [done|done|]. cbn. unfold define_object, define_object_key. cbn. destruct (objects ns !! key _); [by eexists|done].
  - apply (answers_create ns schema _ source); [done|done|]. cbn. unfold define_object, define_object_key. cbn. destruct (objects ns !! key _); [by eexists|done].
  - apply (answers_create ns schema _ source); [done|done|]. cbn. unfold define_object, define_object_key. cbn. destruct (objects ns !! key _); [by eexists|done].
  - cbn [execute apply]. destruct (ci_name create) as [n|]; [|exact Hs]. unfold define_object, define_object_key. cbn [fmap option_fmap option_map].
    destruct (resolve schema false (key (ci_table_name create))) as [t|] eqn:Er; [|by destruct (objects ns !! key n)]. case_decide as Hk; [|by destruct (objects ns !! key n)].
    apply resolve_Some in Er as (Hin & Hx & Hn). rewrite <- Hn. apply (answers_create ns schema _ source); [done| |cbn; destruct (objects ns !! key n); [by eexists|done]].
    intros h' k [= <- <-]. split; [by left|]. exists t. auto.
  - cbn [execute apply]. unfold define_trigger, define_trigger_key.
    destruct (resolve schema false (key (tg_table_name create))) as [t|] eqn:Er; [|by destruct (triggers ns !! key _)]. case_decide as Hk; [by destruct (triggers ns !! key _)|].
    apply resolve_Some in Er as (Hin & Hx & Hn). rewrite <- Hn. apply (answers_create ns schema _ source); [done| |cbn; destruct (triggers ns !! key _); [by eexists|done]].
    intros h' k [= <- <-]. split; [by right|]. exists t. split_and!; try done. unfold is_trigger in Hx. destruct (kind t); try done; auto.
  - destruct object_type; try exact Hs; by apply answers_drops.
  - cbn [execute apply]. destruct (resolve schema true (key trigger_name0)) as [t|] eqn:Er; [by apply sound_drop_trigger|].
    destruct Hs as [[Ho Ht] _]. split; [|done]. split; [done|]. intros k w. cbn. rewrite (Ht k w). setoid_rewrite lookup_delete_Some.
    split; [intros (e & He & <-)|intros (e & [? ?] & <-); by exists e]. exists e. split; [|done]. split; [|done]. intros <-.
    destruct (proj2 (Ht (key trigger_name0) (owner e))) as (o & Hio & Hxo & Hno & _); [by exists e|]. by apply (resolve_None _ _ _ o Er).
  - by apply answers_alter.
Qed.

(** The statements, each with where its object goes and what it comes from. *)
Definition script (placed : list (Database * (@Source Payload * Statement Payload))) : list (Database * Statement Payload) :=
  map (λ '(h, (_, statement)), (h, statement)) placed.

Definition answers_run (r : result Error (@Namespaces Payload)) schema (outcome : option Stop * list (list Live)) : Prop :=
  match r with
  | Ok ns => Forall distinct outcome.2 ∧ outcome.1 ≠ Some Collision ∧ (outcome.1 = None → simulates ns (foldl (λ _ s, s) schema outcome.2))
  | Err _ => outcome.1 = None → ¬ Forall distinct outcome.2
  end.

Lemma answers_walk ns schema placed : sound ns schema →
  answers_run (try_fold (λ ns '(source, statement), apply ns statement source) ns (map snd placed)) schema (run schema (script placed)).
Proof.
  revert ns schema. induction placed as [|[h [source statement]] placed IH]; intros ns schema Hs; [split_and!; [constructor|done|intros _; apply Hs]|].
  cbn [try_fold map run script snd]. pose proof (answers_apply ns schema h statement source Hs) as Ha. fold (script placed).
  destruct (apply ns statement source) as [ns'|e]; cbn [mbind result_bind].
  - destruct (execute schema h statement) as [stop|schema'].
    + cbn in Ha. subst stop. destruct (try_fold _ _ _); cbn; [split_and!; [constructor|done|done]|done].
    + specialize (IH ns' schema' Ha). destruct (run schema' (script placed)) as [stop schemas]. destruct (try_fold _ ns' _); cbn in *.
      * destruct IH as (? & ? & ?). split_and!; [by constructor; [apply Ha|]|done|done].
      * intros Hn Hbad. apply (IH Hn). by apply Forall_inv_tail in Hbad.
  - destruct (execute schema h statement) as [stop|schema']; cbn in *; [done|].
    destruct (run schema' (script placed)) as [stop schemas]. cbn. intros _ Hbad. by apply Forall_inv in Hbad.
Qed.

Lemma sound_empty : sound namespaces_default [].
Proof.
  split; [|split; [constructor|by intros o h k Hin%elem_of_nil]].
  split; intros k w; cbn; (split; [intros (o & Hin%elem_of_nil & _); done|]); intros (e & He & _); by rewrite lookup_empty in He.
Qed.

(** ** Properties *)

(** C7 (collisions are refused).  Take an emitted script without a starting schema, and put
    the table, the view or the trigger of each statement in any of SQLite's databases:
    main, temporary or attached.  If the walk over the script succeeds, SQLite never lands
    on a name taken in its database, no two objects ever have one name, in whatever
    databases, and, unless it stops at a statement about an object that is not there, the
    walk ends with exactly the names SQLite holds, each with what it hangs off: dropped
    objects have freed their names and those of what hung off them, renamed ones have kept
    what hangs off them.  If the walk refuses the script and SQLite runs all of it, at some
    point two objects had one name. *)
Theorem walk_refines_sqlite (placed : list (Database * (@Source Payload * Statement Payload))) :
  let '(stop, schemas) := run [] (script placed) in
  match walk None (map snd placed) with
  | Ok ns => Forall distinct schemas ∧ stop ≠ Some Collision ∧ (stop = None → simulates ns (foldl (λ _ s, s) [] schemas))
  | Err _ => stop = None → ¬ Forall distinct schemas
  end ∧ is_ok (reject_name_collisions None (map snd placed)) = is_ok (walk None (map snd placed)).
Proof.
  pose proof (answers_walk namespaces_default [] placed sound_empty) as Ha. unfold reject_name_collisions, walk. cbn [mbind result_bind].
  destruct (run [] (script placed)) as [stop schemas]. split; [by destruct (try_fold _ _ _)|]. by destruct (try_fold _ _ _).
Qed.
End Refinement.
End Namespace.
