(* ===== verification/Epochs.v ===== *)
(** * Schema epochs

    The schema preparation of [src/src/pg2sqlite.rs]: the loop of [prepare_schema]
    that cuts a batch into epochs, the schema a reference binds against, and the
    refusal of a renamed table under row-level security.  The schema ingestor of the
    crate sql_traits is a parameter. *)

From S2P Require Import Prelude Text Errors Ast Exprs Names Transactions Effects Placement Replay.

Module Epochs.
Import Replay.

(** [Iterator::position]. *)
Fixpoint position {A} (p : A → bool) (l : list A) : option nat :=
  match l with
  | [] => None
  | x :: l => if p x then Some O else S <$> position p l
  end.

Section Epochs.
Context {Payload Ingestor Snapshot : Type}.
Variable ingest : Ingestor → Statement Payload → result Error Ingestor.
Variables snapshot finish : Ingestor → Snapshot.
Implicit Types (statement : Statement Payload) (input : Ingestor).

Record PreparedEpoch := { start : nat; stop : nat; schema : Snapshot; bindings : list (nat * Snapshot) }.

(** The schema a column reference in the statement at [index] binds against. *)
Definition binding (self : PreparedEpoch) (index : nat) : Snapshot :=
  match List.find (λ '(change, _), (index <? change)%nat) (bindings self) with
  | Some (_, schema) => schema
  | None => schema self
  end.

Definition changes_columns statement : bool :=
  match statement with
  | SAlterTable alter =>
      existsb (λ operation, match operation with
                            | AddColumn _ | AlterColumn _ | DropColumn _ | RenameColumn _ => true
                            | _ => false
                            end) (at_operations alter)
  | _ => false
  end.

(** A statement of an epoch, unless it is ignored. *)
Definition ingest_statement input statement : result Error Ingestor :=
  if schema_statement_is_ignored statement then Ok input else ingest input statement.

(** The loop over the statements of one epoch. *)
Fixpoint ingest_epoch (index : nat) (statements : list (Statement Payload)) input : result Error (list (nat * Snapshot) * Ingestor) :=
  match statements with
  | [] => Ok ([], input)
  | statement :: statements =>
      let change := if changes_columns statement then [(index, snapshot input)] else [] in
      input ← ingest_statement input statement;
      '(bindings, input) ← ingest_epoch (S index) statements input;
      mret (change ++ bindings, input)
  end.

(** The outer loop from [start]; a failing boundary is the outcome of the whole
    schema, and the epochs before it stay.  [None] is a loop that has not ended. *)
Fixpoint epoch_loop (fuel : nat) (statements : list (Statement Payload)) (start : nat) input
    : option (result Error (result Error Snapshot * list PreparedEpoch)) :=
  match fuel with
  | O => None
  | S fuel =>
      if (length statements <=? start)%nat then Some (Ok (Ok (finish input), []))
      else
        let boundary := Nat.add start <$> position schema_ends_epoch (drop start statements) in
        let stop := match boundary with Some index => S index | None => length statements end in
        let schema_end := default stop boundary in
        match ingest_epoch start (take (schema_end - start) (drop start statements)) input with
        | Err error => Some (Err error)
        | Ok (bindings, input) =>
            let epoch := {| start := start; stop := stop; schema := snapshot input; bindings := bindings |} in
            let next input :=
              match epoch_loop fuel statements stop input with
              | Some (Ok (schema, epochs)) => Some (Ok (schema, epoch :: epochs))
              | failed => failed
              end in
            match boundary ≫= λ index, statements !! index with
            | None => next input
            | Some statement =>
                match ingest input statement with
                | Ok input => next input
                | Err error => Some (Ok (Err error, [epoch]))
                end
            end
        end
  end.

(** Every turn passes at least one statement. *)
Definition prepare_epochs (statements : list (Statement Payload)) input
    : option (result Error (result Error Snapshot * list PreparedEpoch)) :=
  epoch_loop (S (length statements)) statements 0 input.

(** ** What a reference binds against *)

(** The ingestor after the first [n] statements. *)
Fixpoint ingest_all (statements : list (Statement Payload)) input : result Error Ingestor :=
  match statements with
  | [] => Ok input
  | statement :: statements => input ← ingest_statement input statement; ingest_all statements input
  end.

Definition at_index (p : Statement Payload → bool) (statements : list (Statement Payload)) (index : nat) : bool :=
  match statements !! index with Some statement => p statement | None => false end.

(** [n] statements are in force at [index]: up to the next change of columns, the
    end of the epoch or the end of the batch, whichever comes first; before the
    statement itself where it ends an epoch. *)
Record in_force (statements : list (Statement Payload)) (index n : nat) : Prop := {
  if_own : if at_index schema_ends_epoch statements index then n = index else (index < n <= length statements)%nat;
  if_same : ∀ j, (index < j < n)%nat → at_index changes_columns statements j = false ∧ at_index schema_ends_epoch statements j = false;
  if_next : n = index ∨ n = length statements ∨ at_index changes_columns statements n = true ∨ at_index schema_ends_epoch statements n = true
}.

Lemma ends_not_ignored statement : schema_ends_epoch statement = true → schema_statement_is_ignored statement = false.
Proof. destruct statement; try done. cbn. by destruct object_type. Qed.

Lemma position_spec {A} (p : A → bool) l :
  match position p l with
  | Some i => (∃ x, l !! i = Some x ∧ p x = true) ∧ ∀ j x, (j < i)%nat → l !! j = Some x → p x = false
  | None => ∀ j x, l !! j = Some x → p x = false
  end.
Proof.
  induction l as [|x l IH]; cbn [position]; [done|]. destruct (p x) eqn:E.
  - split; [by exists x|]. intros j y Hj. lia.
  - destruct (position p l) as [i|]; cbn.
    + destruct IH as [(y & Hy & Hp) Hall]. split; [by exists y|]. intros [|j] z Hj; cbn; [by intros [= <-]|]. apply Hall. lia.
    + intros [|j] z; cbn; [by intros [= <-]|]. apply IH.
Qed.

Lemma ingest_all_app xs ys input : ingest_all (xs ++ ys) input = input ← ingest_all xs input; ingest_all ys input.
Proof.
  revert input. induction xs as [|x xs IH]; intros input; [done|]. cbn.
  destruct (ingest_statement input x); cbn; [apply IH|done].
Qed.

Lemma ingest_all_snoc statements n input input' statement :
  ingest_all (take n statements) input = Ok input' → statements !! n = Some statement →
  ingest_all (take (S n) statements) input = ingest_statement input' statement.
Proof.
  intros Hi Hs. rewrite (take_S_r _ _ _ Hs), ingest_all_app, Hi. cbn. by destruct (ingest_statement input' statement).
Qed.

(** What a reference in the statement [i] binds against, from the statement
    [from] to the statement [to] of an epoch: the snapshot before the first change of
    columns after [i], if there is one. *)
Definition binds (statements : list (Statement Payload)) (input0 : Ingestor) (from to i : nat)
    (found : option (nat * Snapshot)) : Prop :=
  match found with
  | Some (change, snap) => ∃ σ, (i < change < to)%nat ∧ (from <= change)%nat
      ∧ at_index changes_columns statements change = true
      ∧ ingest_all (take change statements) input0 = Ok σ ∧ snap = snapshot σ
      ∧ ∀ j, (i < j < change)%nat → (from <= j)%nat → at_index changes_columns statements j = false
  | None => ∀ j, (i < j < to)%nat → (from <= j)%nat → at_index changes_columns statements j = false
  end.

(** The bindings of an epoch are snapshots before its changes of columns, in order. *)
Lemma ingest_epoch_spec statements input0 index count input bindings input' :
  ingest_all (take index statements) input0 = Ok input →
  (index + count <= length statements)%nat →
  ingest_epoch index (take count (drop index statements)) input = Ok (bindings, input') →
  ingest_all (take (index + count) statements) input0 = Ok input'
  ∧ ∀ i, binds statements input0 index (index + count) i (List.find (λ '(change, _), (i <? change)%nat) bindings).
Proof.
  revert index input bindings. induction count as [|count IH]; intros index input bindings Hin Hle.
  { cbn. intros [= <- <-]. rewrite Nat.add_0_r. split; [done|]. intros i j. lia. }
  destruct (lookup_lt_is_Some_2 statements index) as [statement Hst]; [lia|].
  rewrite (drop_S _ _ _ Hst). cbn [take ingest_epoch]. intros Hr.
  apply bind_Ok in Hr as (input1 & H1 & Hr). apply bind_Ok in Hr as ([bs input2] & H2 & Hr). injection Hr as <- <-.
  assert (Hin1 : ingest_all (take (S index) statements) input0 = Ok input1) by (rewrite <- H1; by eapply ingest_all_snoc).
  destruct (IH (S index) input1 bs Hin1 ltac:(lia) H2) as [Hend Hall].
  replace (index + S count)%nat with (S index + count)%nat by lia. split; [done|].
  intros i. specialize (Hall i). unfold binds in *.
  assert (Hrest : (index <= i)%nat ∨ at_index changes_columns statements index = false → 
    binds statements input0 index (S index + count) i (List.find (λ '(change, _), (i <? change)%nat) bs)).
  { intros Hcase. destruct (List.find _ bs) as [[change snap]|].
    - destruct Hall as (σ & ? & ? & ? & ? & ? & Hj). exists σ. split; [lia|]. split; [lia|]. do 3 (split; [done|]).
      intros j Hj1 Hj2. destruct (decide (j = index)) as [->|]; [destruct Hcase; [lia|done]|]. apply Hj; lia.
    - intros j Hj1 Hj2. destruct (decide (j = index)) as [->|]; [destruct Hcase; [lia|done]|]. apply Hall; lia. }
  destruct (changes_columns statement) eqn:Ec; cbn [app List.find].
  - destruct (Nat.ltb_spec i index) as [Hlt|Hge]; [|apply Hrest; lia].
    exists input. split; [lia|]. split; [lia|]. split; [unfold at_index; by rewrite Hst|]. do 2 (split; [done|]).
    intros j; lia.
  - apply Hrest. right. unfold at_index. by rewrite Hst.
Qed.

(** The epochs follow one another from one statement to another. *)
Fixpoint chained (from : nat) (epochs : list PreparedEpoch) (to : nat) : Prop :=
  match epochs with
  | [] => from = to
  | epoch :: epochs => start epoch = from ∧ (from < stop epoch)%nat ∧ chained (stop epoch) epochs to
  end.

(** References in the statements of an epoch bind against what is in force there. *)
Definition binds_in_force (statements : list (Statement Payload)) (input0 : Ingestor) (epoch : PreparedEpoch) : Prop :=
  ∀ index, (start epoch <= index < stop epoch)%nat →
    ∃ n σ, in_force statements index n ∧ ingest_all (take n statements) input0 = Ok σ ∧ binding epoch index = snapshot σ.

Lemma at_index_drop p statements from i :
  at_index p statements (from + i) = match drop from statements !! i with Some x => p x | None => false end.
Proof. unfold at_index. by rewrite lookup_drop. Qed.

(** What one turn of the loop finds: the end of the epoch. *)
Lemma boundary_spec statements from :
  match position schema_ends_epoch (drop from statements) with
  | Some i => at_index schema_ends_epoch statements (from + i) = true
  | None => True
  end
  ∧ ∀ j, (from <= j)%nat → (match position schema_ends_epoch (drop from statements) with Some i => j < from + i | None => True end)%nat →
      at_index schema_ends_epoch statements j = false.
Proof.
  pose proof (position_spec schema_ends_epoch (drop from statements)) as Hp.
  assert (Hat : ∀ j, (from <= j)%nat → at_index schema_ends_epoch statements j
    = match drop from statements !! (j - from)%nat with Some x => schema_ends_epoch x | None => false end).
  { intros j Hj. rewrite <- at_index_drop. f_equal. lia. }
  destruct (position schema_ends_epoch (drop from statements)) as [i|].
  - destruct Hp as [(x & Hx & Hpx) Hall]. split; [by rewrite at_index_drop, Hx|]. intros j Hj Hji. rewrite Hat by done.
    destruct (drop from statements !! (j - from)%nat) eqn:E; [|done]. eapply Hall; [|done]. lia.
  - split; [done|]. intros j Hj _. rewrite Hat by done. destruct (drop from statements !! (j - from)%nat) eqn:E; [|done]. by eapply Hp.
Qed.

(** One epoch: its statements up to [to], and the boundary at [to] if there is one. *)
Lemma epoch_binds statements input0 from to stop input bindings input' :
  ingest_all (take from statements) input0 = Ok input → (from <= to <= length statements)%nat →
  ingest_epoch from (take (to - from) (drop from statements)) input = Ok (bindings, input') →
  (∀ j, (from <= j < to)%nat → at_index schema_ends_epoch statements j = false) →
  (stop = to ∧ to = length statements ∨ stop = S to ∧ at_index schema_ends_epoch statements to = true) →
  binds_in_force statements input0 {| start := from; stop := stop; schema := snapshot input'; bindings := bindings |}.
Proof.
  intros Hin Hle Hep Hends Hstop index Hi. cbn in Hi.
  destruct (ingest_epoch_spec statements input0 from (to - from) input bindings input' Hin ltac:(lia) Hep) as [Hend Hall].
  replace (from + (to - from))%nat with to in * by lia. specialize (Hall index). unfold binding. cbn [Epochs.bindings Epochs.schema].
  destruct (List.find _ bindings) as [[change snap]|].
  - destruct Hall as (σ & Hc & Hf & Hch & Hσ & -> & Hj). exists change, σ. split; [|by split].
    split; [|intros j Hji; split; [apply Hj; lia|apply Hends; lia]|auto].
    rewrite Hends by lia. lia.
  - exists to, input'. split; [|by split].
    assert (Hcase : (index < to)%nat ∨ index = to) by lia. destruct Hcase as [Hlt| ->].
    + split; [rewrite Hends by lia; lia|intros j Hj; split; [apply Hall; lia|apply Hends; lia]|].
      destruct Hstop as [[_ ->]|[_ He]]; auto.
    + destruct Hstop as [[-> _]|[-> He]]; [lia|]. split; [by rewrite He|intros j Hj; lia|auto].
Qed.

Lemma epoch_loop_spec fuel statements input0 from input :
  (from <= length statements)%nat → (length statements - from < fuel)%nat →
  ingest_all (take from statements) input0 = Ok input →
  ∃ r, epoch_loop fuel statements from input = Some r ∧
    match r with
    | Err _ => True
    | Ok (schema, epochs) => Forall (binds_in_force statements input0) epochs ∧
        ∃ to, chained from epochs to ∧ (to <= length statements)%nat
          ∧ ∀ final, schema = Ok final →
              to = length statements ∧ ∃ σ, ingest_all statements input0 = Ok σ ∧ final = finish σ
    end.
Proof.
  revert from input. induction fuel as [|fuel IH]; intros from input Hle Hf Hin; [lia|]. cbn [epoch_loop].
  destruct (Nat.leb_spec (length statements) from) as [Hge|Hlt].
  { eexists. split; [done|]. cbn. split; [apply Forall_nil_2|]. exists from. split_and!; [done|lia|].
    intros final [= <-]. split; [lia|]. exists input. by rewrite <- Hin, take_ge by lia. }
  destruct (boundary_spec statements from) as [Hb Hnone].
  set (stop := match Nat.add from <$> _ with Some index => S index | None => _ end).
  destruct (position schema_ends_epoch (drop from statements)) as [i|]; cbn [fmap option_fmap option_map default mbind option_bind] in *.
  - assert (∃ st, statements !! (from + i)%nat = Some st ∧ schema_ends_epoch st = true) as (st & Hst & Hends).
    { unfold at_index in Hb. destruct (statements !! (from + i)%nat) as [st|]; [by exists st|done]. }
    pose proof (lookup_lt_Some _ _ _ Hst) as Hbound. unfold default, id.
    destruct (ingest_epoch from _ input) as [[bs input']|e] eqn:Eep; [|by eexists].
    pose proof (epoch_binds statements input0 from (from + i) stop input bs input' Hin ltac:(lia) Eep) as Hbind.
    assert (Hok : binds_in_force statements input0 {| start := from; stop := stop; schema := snapshot input'; bindings := bs |}).
    { apply Hbind; [intros j Hj; apply Hnone; lia|]. right. by split. }
    assert (Hend : ingest_all (take (from + i) statements) input0 = Ok input').
    { destruct (ingest_epoch_spec statements input0 from i input bs input' Hin ltac:(lia)) as [He _]; [|done].
      rewrite <- Eep. do 2 f_equal. lia. }
    rewrite Hst. destruct (ingest input' st) as [input''|e] eqn:Eing.
    + assert (Hnext : ingest_all (take stop statements) input0 = Ok input'').
      { unfold stop. rewrite (ingest_all_snoc _ _ _ _ _ Hend Hst). unfold ingest_statement. by rewrite (ends_not_ignored _ Hends). }
      destruct (IH stop input'' ltac:(unfold stop; lia) ltac:(unfold stop; lia) Hnext) as (r & -> & Hr).
      destruct r as [[schema epochs]|e]; [|by eexists]. eexists. split; [done|]. cbn.
      destruct Hr as (Hall & to & Hch & Hto & Hfin). split; [by apply Forall_cons|]. exists to. split_and!; [done|unfold stop; lia|done..].
    + eexists. split; [done|]. cbn. split; [by apply Forall_cons; split; [|apply Forall_nil_2]|].
      exists stop. split_and!; [done|unfold stop; lia|done|unfold stop; lia|done].
  - unfold default, id. destruct (ingest_epoch from _ input) as [[bs input']|e] eqn:Eep; [|by eexists].
    assert (Hok : binds_in_force statements input0 {| start := from; stop := stop; schema := snapshot input'; bindings := bs |}).
    { apply (epoch_binds statements input0 from (length statements) stop input bs input' Hin ltac:(lia) Eep); [|by left].
      intros j Hj. apply Hnone; [lia|done]. }
    assert (Hend : ingest_all (take stop statements) input0 = Ok input').
    { unfold stop. destruct (ingest_epoch_spec statements input0 from (length statements - from) input bs input' Hin ltac:(lia) Eep) as [He _].
      rewrite <- He. do 2 f_equal. lia. }
    destruct (IH stop input' ltac:(unfold stop; lia) ltac:(unfold stop; lia) Hend) as (r & -> & Hr).
    destruct r as [[schema epochs]|e]; [|by eexists]. eexists. split; [done|]. cbn.
    destruct Hr as (Hall & to & Hch & Hto & Hfin). split; [by apply Forall_cons|]. exists to. split_and!; [done|unfold stop; lia|done..].
Qed.

(** C25 (references bind against the schema in force). Cutting a batch into epochs
    ends.  The epochs follow one another without gaps from the first statement,
    through the last one when the final schema could be built, which is that of all
    statements; and a reference in a statement binds against the schema after the
    statement and those that follow it up to the next change of columns or the end of
    its epoch, or before the statement where it is itself what ends the epoch. *)
Theorem references_bind_in_force statements input0 :
  ∃ r, prepare_epochs statements input0 = Some r ∧
    match r with
    | Err _ => True
    | Ok (schema, epochs) => Forall (binds_in_force statements input0) epochs ∧
        ∃ to, chained 0 epochs to ∧ (to <= length statements)%nat
          ∧ ∀ final, schema = Ok final →
              to = length statements ∧ ∃ σ, ingest_all statements input0 = Ok σ ∧ final = finish σ
    end.
Proof. apply epoch_loop_spec with (input := input0); [lia|lia|done]. Qed.
End Epochs.

(** ** Renamed tables under row-level security *)

Section Secured.
Context {Payload Schema Tbl : Type} `{Library Payload Schema Tbl}.

(** The loop variables [renamed] and [secured]. *)
Abbreviation Renames := (list (str * str) * list str)%type.

Definition secured_operation (subject : str) (state : Renames) (operation : AlterTableOperation Payload) : Renames :=
  let '(renamed, secured) := state in
  match operation with
  | RenameTo name => (renamed ++ [(subject, last_ident_value_or_display name)], secured)
  | EnableRowLevelSecurity | ForceRowLevelSecurity => (renamed, secured ++ [subject])
  | _ => state
  end.

Definition secured_statement (state : Renames) (statement : Statement Payload) : Renames :=
  match statement with
  | SAlterTable alter => foldl (secured_operation (last_ident_value_or_display (at_name alter))) state (at_operations alter)
  | SCreatePolicy table_name _ => (state.1, state.2 ++ [last_ident_value_or_display table_name])
  | _ => state
  end.

Definition secured_rename_refusal (name old_name new_name : str) : Error :=
  forward_refusal (lit "table `" ++ name ++ lit "` is both renamed (`" ++ old_name ++ lit "` to `" ++ new_name
    ++ lit "`) and placed under row level security in the same translation unit. Row level security is realised as a backing table, two views, and five triggers named after the table, and a rename cannot move them together. Rename the table in an earlier translation unit than the one that enables row level security on it, or create it under its final name.").

Fixpoint check_renamed (renamed : list (str * str)) (secured : list str) : result Error () :=
  match renamed with
  | [] => Ok ()
  | (old_name, new_name) :: renamed =>
      match List.find (λ name, str_eqb name old_name || str_eqb name new_name) secured with
      | Some name => Err (secured_rename_refusal name old_name new_name)
      | None => check_renamed renamed secured
      end
  end.

Definition reject_rename_of_secured_table (statements : list (Statement Payload)) : result Error () :=
  let '(renamed, secured) := foldl secured_statement ([], []) statements in
  check_renamed renamed secured.
End Secured.

(** Names that differ only in case name one table in PostgreSQL and in SQLite, but
    the check compares them as they are written. *)
Section Demo.
#[local] Existing Instance Placement.demo_library.

Definition demo_rename : Statement (list str) :=
  SAlterTable {| at_name := Placement.demo_name "docs"; at_operations := [RenameTo (Placement.demo_name "notes")]; at_rest := [] |}.

Example secured_rename_refused :
  is_ok (reject_rename_of_secured_table [SCreatePolicy (Placement.demo_name "docs") []; demo_rename]) = false.
Proof. vm_compute. reflexivity. Qed.
Example secured_rename_in_other_case :
  reject_rename_of_secured_table [SCreatePolicy (Placement.demo_name "Docs") []; demo_rename] = Ok ().
Proof. vm_compute. reflexivity. Qed.
End Demo.
End Epochs.
