(* ===== verification/Placeholder.v ===== *)
(** * Bind placeholders

    [src/src/impls/placeholder.rs].  A node is the list of its values in the order
    the library's visitors meet them; everything else of it stays. *)

From stdpp Require Import sorting.
From S2P Require Import Prelude Text Errors.

Module Placeholder.

(** [Location]: a line and a column, ordered by line first. *)
Abbreviation Location := (Z * Z)%type (only parsing).

Definition location_le (a b : Location) : bool := (a.1 <? b.1) || ((a.1 =? b.1) && (a.2 <=? b.2)).
Definition location_lt (a b : Location) : Prop := a.1 < b.1 ∨ a.1 = b.1 ∧ a.2 < b.2.

Inductive NumberablePlaceholder := Positional | Numbered (number : Z).
Inductive PlaceholderToken := Numberable (kind : NumberablePlaceholder) | Named | Unrecognized.

Definition classify (token : str) : PlaceholderToken :=
  match strip_prefix_char 63 token with
  | Some digits =>
      match digits with
      | [] => Numberable Positional
      | _ => match parse_u32 digits with Some number => Numberable (Numbered number) | None => Unrecognized end
      end
  | None =>
      match token with
      | c :: _ => if char_in [58; 64; 36] c then Named else Unrecognized
      | [] => Unrecognized
      end
  end.

Section Values.
Context {Payload : Type}.

Inductive Value := VPlaceholder (token : str) | VOther (o : Payload).
Record ValueWithSpan := { value : Value; span_start : Location }.
Implicit Types (node : list ValueWithSpan).

(** [PlaceholderCollector]: the numberable placeholders, or the first named one. *)
Fixpoint collect node : result str (list (Location * NumberablePlaceholder)) :=
  match node with
  | [] => Ok []
  | v :: node =>
      match value v with
      | VOther _ => collect node
      | VPlaceholder token =>
          match classify token with
          | Numberable kind => found ← collect node; mret ((span_start v, kind) :: found)
          | Named => Err token
          | Unrecognized => collect node
          end
      end
  end.

(** [sort_by_key], which is stable. *)
Fixpoint insert_sorted {A} (x : Location * A) (l : list (Location * A)) : list (Location * A) :=
  match l with
  | [] => [x]
  | y :: l' => if location_le x.1 y.1 then x :: l else y :: insert_sorted x l'
  end.
Definition sort {A} (l : list (Location * A)) : list (Location * A) := foldr insert_sorted [] l.

(** [max += 1] on a [u32], wrapping as a build without overflow checks does. *)
Definition next_u32 (max : Z) : Z := (max + 1) mod 2 ^ 32.

(** The loop of [assign_numbers], with [max]. *)
Fixpoint assign_from (max : Z) (ordered : list (Location * NumberablePlaceholder)) : list (Location * Z) :=
  match ordered with
  | [] => []
  | (location, kind) :: ordered =>
      let '(number, max) := match kind with
                            | Positional => (next_u32 max, next_u32 max)
                            | Numbered number => (number, Z.max max number)
                            end in
      (location, number) :: assign_from max ordered
  end.

Definition parameter (number : Z) : str := 36 :: dec number.

Definition assign_numbers (found : list (Location * NumberablePlaceholder)) : gmap Location str :=
  foldl (λ mapping '(location, number), <[location := parameter number]> mapping) ∅ (assign_from 0 (sort found)).

(** [PlaceholderRewriter]. *)
Definition rewrite_value (mapping : gmap Location str) (v : ValueWithSpan) : ValueWithSpan :=
  match value v with
  | VPlaceholder _ =>
      match mapping !! span_start v with
      | Some replacement => {| value := VPlaceholder replacement; span_start := span_start v |}
      | None => v
      end
  | VOther _ => v
  end.

Definition rewrite_placeholders_for_postgres node : result Error (list ValueWithSpan) :=
  match collect node with
  | Err placeholder => Err (UnsupportedNamedPlaceholder placeholder)
  | Ok [] => Ok node
  | Ok found => Ok (map (rewrite_value (assign_numbers found)) node)
  end.

Definition postgres_parameter_digits (token : str) : option str :=
  digits ← strip_prefix_char 36 token;
  if is_nonempty digits && all_digits digits then Some digits else None.

(** [PostgresToSqlite]. *)
Definition sqlite_value (v : ValueWithSpan) : ValueWithSpan :=
  match value v with
  | VPlaceholder token =>
      match postgres_parameter_digits token with
      | Some digits => {| value := VPlaceholder (63 :: digits); span_start := span_start v |}
      | None => v
      end
  | VOther _ => v
  end.
Definition rewrite_placeholders_for_sqlite node : list ValueWithSpan := map sqlite_value node.

(** ** Sorting *)

#[local] Instance location_lt_dec : RelDecision location_lt.
Proof. intros a b. unfold location_lt. apply _. Defined.

Lemma location_le_lt a b : location_le a b = true → a ≠ b → location_lt a b.
Proof.
  destruct a as [a1 a2], b as [b1 b2]. unfold location_le, location_lt. cbn. intros Hl Hne.
  assert (a1 = b1 → a2 ≠ b2) by (intros -> ->; done). lia.
Qed.
Lemma location_le_total a b : location_le a b = false → location_lt b a.
Proof. destruct a as [a1 a2], b as [b1 b2]. unfold location_le, location_lt. cbn. lia. Qed.
Lemma location_lt_trans a b c : location_lt a b → location_lt b c → location_lt a c.
Proof. unfold location_lt. lia. Qed.
Lemma location_lt_irrefl a : ¬ location_lt a a.
Proof. unfold location_lt. lia. Qed.

Lemma insert_sorted_perm {A} (x : Location * A) l : insert_sorted x l ≡ₚ x :: l.
Proof. induction l as [|y l IH]; cbn; [done|]. destruct (location_le _ _); [done|]. rewrite IH. apply Permutation_swap. Qed.
Lemma sort_perm {A} (l : list (Location * A)) : sort l ≡ₚ l.
Proof. induction l as [|x l IH]; [done|]. cbn. by rewrite insert_sorted_perm, IH. Qed.

(** In source order, strictly. *)
Definition ordered {A} (l : list (Location * A)) : Prop := StronglySorted (λ x y, location_lt x.1 y.1) l.

Lemma insert_sorted_ordered {A} (x : Location * A) l :
  ordered l → x.1 ∉ map fst l → ordered (insert_sorted x l).
Proof.
  unfold ordered. induction l as [|y l IH]; intros Ho Hx; cbn; [repeat constructor|].
  apply StronglySorted_inv in Ho as [Hol Hy]. rewrite map_cons, not_elem_of_cons in Hx. destruct Hx as [Hne Hx].
  destruct (location_le x.1 y.1) eqn:E.
  - assert (Hlt : location_lt x.1 y.1) by by apply location_le_lt.
    constructor; [by constructor|]. constructor; [done|]. eapply Forall_impl; [exact Hy|]. intros z Hz. by eapply location_lt_trans.
  - constructor; [by apply IH|]. apply Forall_forall. intros z Hz. rewrite insert_sorted_perm in Hz.
    apply elem_of_cons in Hz as [->|Hz]; [by apply location_le_total|]. rewrite Forall_forall in Hy. by apply Hy.
Qed.

Lemma sort_ordered {A} (l : list (Location * A)) : NoDup (map fst l) → ordered (sort l).
Proof.
  induction l as [|x l IH]; [constructor|]. cbn [map]. rewrite NoDup_cons. intros [Hx Hn]. cbn.
  apply insert_sorted_ordered; [by apply IH|]. intros Hi. apply Hx. revert Hi.
  apply elem_of_Permutation_proper, Permutation_map. symmetry. apply (sort_perm l).
Qed.

(** ** What the collector finds *)

Definition numberable (v : ValueWithSpan) : option (Location * NumberablePlaceholder) :=
  match value v with
  | VPlaceholder token => match classify token with Numberable kind => Some (span_start v, kind) | _ => None end
  | VOther _ => None
  end.

Definition named (v : ValueWithSpan) : option str :=
  match value v with
  | VPlaceholder token => match classify token with Named => Some token | _ => None end
  | VOther _ => None
  end.

(** Where the placeholders of a node are. *)
Definition locations node : list Location :=
  omap (λ v, match value v with VPlaceholder _ => Some (span_start v) | VOther _ => None end) node.

Lemma collect_spec node :
  collect node = match omap named node with token :: _ => Err token | [] => Ok (omap numberable node) end.
Proof.
  induction node as [|v node IH]; [done|]. cbn [collect omap list_omap]. unfold named at 1, numberable at 1.
  destruct (value v) as [token|o]; [|done]. destruct (classify token); [|done|done].
  rewrite IH. by destruct (omap named node).
Qed.

(** A rewriting with nothing to rewrite is the identity, as the early return. *)
Lemma postgres_spec node :
  rewrite_placeholders_for_postgres node =
  match omap named node with
  | token :: _ => Err (UnsupportedNamedPlaceholder token)
  | [] => Ok (map (rewrite_value (assign_numbers (omap numberable node))) node)
  end.
Proof.
  unfold rewrite_placeholders_for_postgres. rewrite collect_spec. destruct (omap named node); [|done].
  destruct (omap numberable node) eqn:E; [|done]. f_equal. unfold assign_numbers. cbn.
  rewrite <- (map_id node) at 1. apply map_ext. intros v. unfold rewrite_value. by destruct (value v).
Qed.

Lemma numberable_locations node : sublist (map fst (omap numberable node)) (locations node).
Proof.
  unfold locations. induction node as [|v node IH]; [done|]. cbn [omap list_omap]. unfold numberable at 1.
  destruct (value v) as [token|o]; [|done]. destruct (classify token); cbn; by constructor.
Qed.

Lemma numberable_locations_NoDup node : NoDup (locations node) → NoDup (map fst (omap numberable node)).
Proof. intros Hn. by eapply sublist_NoDup, numberable_locations. Qed.

(** ** SQLite's rule

    A numbered placeholder has its number; a bare one has one greater than the
    largest number of the placeholders before it in the text. *)

Definition earlier (l : list (Location * NumberablePlaceholder)) (location : Location) :=
  filter (λ y, location_lt y.1 location) l.

Definition bind_index_from (max : Z) (l : list (Location * NumberablePlaceholder)) (f : Location → Z)
    (x : Location * NumberablePlaceholder) : Z :=
  match x.2 with
  | Numbered number => number
  | Positional => 1 + foldr Z.max max (map (λ y, f y.1) (earlier l x.1))
  end.

Definition follows_bind_rule (l : list (Location * NumberablePlaceholder)) (f : Location → Z) : Prop :=
  ∀ x, x ∈ l → f x.1 = bind_index_from 0 l f x.

(** Every number the rule can reach from [max] is a [u32]. *)
Definition room (max : Z) (l : list (Location * NumberablePlaceholder)) : Prop :=
  0 <= max ∧ max + Z.of_nat (length l) <= u32_max ∧
  Forall (λ x, match x.2 with Numbered n => 0 <= n ∧ n + Z.of_nat (length l) <= u32_max | Positional => True end) l.

Lemma foldr_max_shift a b l : foldr Z.max (Z.max a b) l = foldr Z.max a (b :: l).
Proof. induction l as [|x l IH]; cbn in *; lia. Qed.

Lemma foldr_max_perm a l1 l2 : l1 ≡ₚ l2 → foldr Z.max a l1 = foldr Z.max a l2.
Proof. induction 1; cbn in *; lia. Qed.

Lemma earlier_perm l1 l2 location : l1 ≡ₚ l2 → earlier l1 location ≡ₚ earlier l2 location.
Proof. intros H. unfold earlier. by rewrite H. Qed.

Lemma earlier_none l location : Forall (λ y, location_lt location y.1) l → earlier l location = [].
Proof.
  intros H. unfold earlier. induction H as [|y l Hy H IH]; [done|]. rewrite filter_cons_False; [done|].
  intros Hlt. eapply location_lt_irrefl, location_lt_trans; eauto.
Qed.

Lemma assign_from_fst l max : map fst (assign_from max l) = map fst l.
Proof. revert max. induction l as [|[location kind] l IH]; intros max; [done|]. cbn. destruct kind; cbn; by rewrite IH. Qed.

(** Past the first placeholder, the rule starts from its number. *)
Lemma bind_index_step max location kind l f x :
  location_lt location x.1 →
  bind_index_from max ((location, kind) :: l) f x = bind_index_from (Z.max max (f location)) l f x.
Proof.
  intros Hlt. unfold bind_index_from, earlier. rewrite filter_cons_True by done. cbn [map fst]. by rewrite foldr_max_shift.
Qed.

Lemma bind_index_first max location kind l f :
  Forall (λ y, location_lt location y.1) l →
  bind_index_from max ((location, kind) :: l) f (location, kind) = match kind with Numbered n => n | Positional => max + 1 end.
Proof.
  intros Hl. unfold bind_index_from, earlier. cbn [fst snd]. rewrite filter_cons_False by apply location_lt_irrefl.
  fold (earlier l location). rewrite earlier_none by done. destruct kind; cbn; lia.
Qed.

(** The rule determines every number. *)
Lemma bind_rule_unique l max f g :
  ordered l → (∀ x, x ∈ l → f x.1 = bind_index_from max l f x) → (∀ x, x ∈ l → g x.1 = bind_index_from max l g x) →
  ∀ x, x ∈ l → g x.1 = f x.1.
Proof.
  revert max. induction l as [|[location kind] l IH]; intros max Ho Hf Hg x Hx; [by apply elem_of_nil in Hx|].
  apply StronglySorted_inv in Ho as [Ho Hl]. cbn [fst] in Hl.
  assert (Heq : g location = f location).
  { pose proof (Hf _ ltac:(apply list_elem_of_here)) as H1. pose proof (Hg _ ltac:(apply list_elem_of_here)) as H2.
    rewrite bind_index_first in H1, H2 by done. cbn in H1, H2. congruence. }
  apply elem_of_cons in Hx as [->|Hx]; [done|]. rewrite Forall_forall in Hl.
  apply (IH (Z.max max (f location))); [done| | |done]; intros y Hy;
    [|rewrite <- Heq]; (rewrite <- bind_index_step with (kind := kind); [|by apply (Hl y Hy)]);
    [apply Hf|apply Hg]; by apply list_elem_of_further.
Qed.

(** The loop gives the largest number so far its place in the rule. *)
Lemma assign_from_rule l max f :
  ordered l → room max l → (∀ location number, (location, number) ∈ assign_from max l → f location = number) →
  ∀ x, x ∈ l → f x.1 = bind_index_from max l f x.
Proof.
  revert max. induction l as [|[location kind] l IH]; intros max Ho (H0 & Hm & Hr) Hf x Hx; [by apply elem_of_nil in Hx|].
  apply StronglySorted_inv in Ho as [Ho Hl]. apply Forall_cons in Hr as [Hk Hr]. cbn [fst snd length] in *.
  assert (Hhead : f location = match kind with Positional => max + 1 | Numbered n => n end).
  { apply Hf. cbn. unfold next_u32. rewrite Z.mod_small by (unfold u32_max in *; lia). destruct kind; apply list_elem_of_here. }
  assert (Hroom : room (Z.max max (f location)) l).
  { rewrite Hhead. split_and!; [lia|destruct kind; lia|]. eapply Forall_impl; [exact Hr|]. intros [? []]; cbn; lia. }
  apply elem_of_cons in Hx as [->|Hx].
  - by rewrite bind_index_first.
  - rewrite Forall_forall in Hl. rewrite bind_index_step by apply (Hl x Hx).
    apply IH; [done|done|clear IH|done].
    intros location' number Hin. apply Hf. revert Hin. cbn. rewrite Hhead. unfold next_u32.
    rewrite Z.mod_small by (unfold u32_max in *; lia). destruct kind as [|n]; intros Hin; apply list_elem_of_further; [|done].
    by replace (max + 1) with (Z.max max (max + 1)) by lia.
Qed.

(** The replacements, as a lookup. *)
Lemma insert_parameters (r : list (Location * Z)) (mapping : gmap Location str) (location : Location) :
  NoDup (map fst r) →
  foldl (λ mapping '(location, number), <[location := parameter number]> mapping) mapping r !! location =
  match (list_to_map r : gmap Location Z) !! location with
  | Some number => Some (parameter number)
  | None => mapping !! location
  end.
Proof.
  revert mapping. induction r as [|[l n] r IH]; intros mapping; [done|]. cbn [map]. rewrite NoDup_cons. intros [Hl Hn].
  cbn [foldl]. rewrite IH by done. cbn [list_to_map foldr uncurry]. destruct (decide (l = location)) as [->|Hne].
  - rewrite lookup_insert_eq, (not_elem_of_list_to_map_1 r) by done. by rewrite lookup_insert_eq.
  - by rewrite !lookup_insert_ne by done.
Qed.

(** The number the rewriting gives a location. *)
Definition number_at (found : list (Location * NumberablePlaceholder)) (location : Location) : Z :=
  default 0 ((list_to_map (assign_from 0 (sort found)) : gmap Location Z) !! location).

Lemma assigned_fst found : map fst (assign_from 0 (sort found)) ≡ₚ map fst found.
Proof. rewrite assign_from_fst. apply Permutation_map, sort_perm. Qed.

Lemma number_at_spec found location number :
  NoDup (map fst found) → (location, number) ∈ assign_from 0 (sort found) → number_at found location = number.
Proof.
  intros Hn Hin. unfold number_at. rewrite (elem_of_list_to_map_1 _ location number); [done| |done].
  eapply NoDup_Permutation_proper; [apply (assigned_fst found)|done].
Qed.

Lemma assign_numbers_lookup found location :
  NoDup (map fst found) →
  assign_numbers found !! location =
  if decide (location ∈ map fst found) then Some (parameter (number_at found location)) else None.
Proof.
  intros Hn. unfold assign_numbers. rewrite insert_parameters.
  2:{ eapply NoDup_Permutation_proper; [apply (assigned_fst found)|done]. }
  unfold number_at. case_decide as Hin.
  - destruct (_ !! location) eqn:E; [done|]. apply not_elem_of_list_to_map_2 in E. destruct E.
    by apply (elem_of_Permutation_proper _ _ _ (assigned_fst found)).
  - rewrite not_elem_of_list_to_map_1; [done|]. intros H. apply Hin.
    by apply (elem_of_Permutation_proper _ _ _ (assigned_fst found)).
Qed.

Lemma placeholder_unique node v w s t :
  NoDup (locations node) → v ∈ node → w ∈ node → value v = VPlaceholder s → value w = VPlaceholder t →
  span_start v = span_start w → v = w.
Proof.
  intros Hn. revert v w s t.
  assert (Hloc : ∀ node v s, v ∈ node → value v = VPlaceholder s → span_start v ∈ locations node).
  { intros n v s Hv Hs. apply list_elem_of_omap. exists v. by rewrite Hs. }
  induction node as [|x node IH]; intros v w s t Hv Hw Hs Ht Heq; [by apply elem_of_nil in Hv|].
  assert (Hx : ∀ u, value x = VPlaceholder u → (span_start x ∉ locations node) ∧ NoDup (locations node)).
  { intros u Hu. unfold locations in Hn. cbn in Hn. rewrite Hu in Hn. by apply NoDup_cons in Hn. }
  apply elem_of_cons in Hv as [->|Hv]; apply elem_of_cons in Hw as [->|Hw]; [done| | |].
  - destruct (Hx _ Hs) as [Hni _]. destruct Hni. rewrite Heq. eauto.
  - destruct (Hx _ Ht) as [Hni _]. destruct Hni. rewrite <- Heq. eauto.
  - apply (IH ltac:(unfold locations in *; cbn in Hn; destruct (value x); [by apply NoDup_cons in Hn as [_ Hn]|exact Hn]) v w s t); done.
Qed.

(** What the rewriting does to each value. *)
Definition numbered_by (f : Location → Z) (v : ValueWithSpan) : ValueWithSpan :=
  match numberable v with
  | Some _ => {| value := VPlaceholder (parameter (f (span_start v))); span_start := span_start v |}
  | None => v
  end.

Lemma numberable_start v location kind : numberable v = Some (location, kind) → location = span_start v.
Proof. unfold numberable. destruct (value v) as [token|]; [|done]. destruct (classify token); [|done|done]. by intros [= <- _]. Qed.

Lemma postgres_numbered node :
  NoDup (locations node) → omap named node = [] →
  rewrite_placeholders_for_postgres node =
  Ok (map (numbered_by (number_at (omap numberable node))) node).
Proof.
  intros Hn Hnamed. rewrite postgres_spec, Hnamed. f_equal. apply map_ext_in. intros v Hv%list_elem_of_In.
  unfold rewrite_value, numbered_by. destruct (value v) as [token|o] eqn:Ev; [|unfold numberable; by rewrite Ev].
  rewrite assign_numbers_lookup by by apply numberable_locations_NoDup.
  destruct (numberable v) as [[location kind]|] eqn:Ek.
  - rewrite decide_True; [done|]. apply list_elem_of_fmap. exists (location, kind).
    split; [by apply numberable_start in Ek|]. apply list_elem_of_omap. eauto.
  - rewrite decide_False; [done|]. intros Hin. apply list_elem_of_fmap in Hin as ([location kind] & Hl & Hin).
    apply list_elem_of_omap in Hin as (w & Hw & Ew). apply numberable_start in Ew as Hs. cbn in Hl.
    destruct (value w) as [t|] eqn:Et; [|unfold numberable in Ew; by rewrite Et in Ew].
    assert (v = w) as -> by (eapply placeholder_unique; eauto; congruence). congruence.
Qed.

(** ** Round trips *)

(** A numbered placeholder keeps its number, and every number is a [u32]. *)
Lemma assign_from_numbered l max location number :
  (location, Numbered number) ∈ l → (location, number) ∈ assign_from max l.
Proof.
  revert max. induction l as [|[location' kind] l IH]; intros max; [by intros ?%elem_of_nil|].
  intros [[= <- <-]|Hin]%elem_of_cons; [apply list_elem_of_here|]. cbn. destruct kind; apply list_elem_of_further; by apply IH.
Qed.

Lemma number_at_numbered found location number :
  NoDup (map fst found) → (location, Numbered number) ∈ found → number_at found location = number.
Proof. intros Hn Hin. apply number_at_spec; [done|]. apply assign_from_numbered. by rewrite (sort_perm found). Qed.

Lemma assign_from_bounds l max location number :
  (∀ loc n, (loc, Numbered n) ∈ l → 0 <= n <= u32_max) → (location, number) ∈ assign_from max l → 0 <= number <= u32_max.
Proof.
  revert max. induction l as [|[location' kind] l IH]; intros max Hb; [by intros ?%elem_of_nil|]. cbn.
  assert (Hl : ∀ loc n, (loc, Numbered n) ∈ l → 0 <= n <= u32_max) by (intros; eapply Hb; by apply list_elem_of_further).
  destruct kind as [|n]; (intros [[= -> ->]|Hin]%elem_of_cons; [|by eapply IH]).
  - unfold next_u32, u32_max. pose proof (Z.mod_pos_bound (max + 1) (2 ^ 32) ltac:(done)). lia.
  - eapply Hb, list_elem_of_here.
Qed.

Lemma numberable_bounds v location n : numberable v = Some (location, Numbered n) → 0 <= n <= u32_max.
Proof.
  unfold numberable, classify. destruct (value v) as [token|]; [|done]. destruct (strip_prefix_char 63 token) as [[|c digits]|].
  - done.
  - destruct (parse_u32 (c :: digits)) eqn:E; [|done]. intros [= _ <-]. by eapply parse_unsigned_bound.
  - destruct token; [done|]. by destruct (char_in _ _).
Qed.

Lemma number_at_bounds node v :
  NoDup (locations node) → v ∈ node → is_Some (numberable v) →
  0 <= number_at (omap numberable node) (span_start v) <= u32_max.
Proof.
  intros Hn Hv [[location kind] Ek]. apply numberable_start in Ek as Hs. subst location.
  apply numberable_locations_NoDup in Hn as Hk.
  assert (Hin : span_start v ∈ map fst (assign_from 0 (sort (omap numberable node)))).
  { rewrite assigned_fst. apply list_elem_of_fmap. exists (span_start v, kind). split; [done|]. apply list_elem_of_omap. eauto. }
  apply list_elem_of_fmap in Hin as ([location n] & Hl & Hin). cbn in Hl. subst location.
  rewrite (number_at_spec _ _ n) by done. eapply assign_from_bounds; [|done].
  intros loc m. rewrite (sort_perm (omap numberable node)). intros (w & _ & Hw)%list_elem_of_omap. by eapply numberable_bounds.
Qed.

Lemma classify_numbered n : 0 <= n <= u32_max → classify (63 :: dec n) = Numberable (Numbered n).
Proof.
  intros Hn. unfold classify. cbn [strip_prefix_char]. change (63 =? 63) with true. cbv iota.
  unfold parse_u32. rewrite parse_unsigned_digits; [|apply dec_nonempty|by apply dec_digits; lia|rewrite dec_value; lia].
  rewrite dec_value by lia. pose proof (dec_nonempty n). by destruct (dec n).
Qed.

Lemma sqlite_parameter n v :
  0 <= n → sqlite_value {| value := VPlaceholder (parameter n); span_start := span_start v |} =
           {| value := VPlaceholder (63 :: dec n); span_start := span_start v |}.
Proof.
  intros Hn. unfold sqlite_value, postgres_parameter_digits, parameter. cbn [value strip_prefix_char].
  change (36 =? 36) with true. cbn [mbind option_bind]. rewrite dec_digits by done.
  pose proof (dec_nonempty n). by destruct (dec n).
Qed.

(** What the reverse direction leaves alone, the forward direction does. *)
Lemma sqlite_unnamed v : named v = None → numberable v = None → sqlite_value v = v.
Proof.
  unfold named, numberable, sqlite_value, postgres_parameter_digits. destruct (value v) as [token|]; [|done].
  destruct token as [|c token]; [done|]. cbn [strip_prefix_char]. destruct (c =? 36) eqn:E; [|done].
  apply Z.eqb_eq in E as ->. by cbn.
Qed.

(** The forward direction after a numbering. *)
Lemma sqlite_numbered_by f v :
  named v = None → (is_Some (numberable v) → 0 <= f (span_start v) <= u32_max) →
  let w := sqlite_value (numbered_by f v) in
  span_start w = span_start v ∧ named w = None ∧
  numberable w = (λ _, (span_start v, Numbered (f (span_start v)))) <$> numberable v ∧
  ∀ g, g (span_start v) = f (span_start v) → numbered_by g w = numbered_by f v.
Proof.
  intros Hnamed Hf. unfold numbered_by at 1. destruct (numberable v) as [x|] eqn:Ek; cbn zeta.
  - specialize (Hf ltac:(by eexists)). rewrite sqlite_parameter by lia.
    assert (Hw : numberable {| value := VPlaceholder (63 :: dec (f (span_start v))); span_start := span_start v |} =
      Some (span_start v, Numbered (f (span_start v)))) by (unfold numberable; cbn [value]; by rewrite classify_numbered).
    split_and!; [done|unfold named; cbn [value]; by rewrite classify_numbered|done|].
    intros g Hg. unfold numbered_by. rewrite Hw, Ek. cbn. by rewrite Hg.
  - rewrite sqlite_unnamed by done. split_and!; [done|done|done|]. intros g _. unfold numbered_by. by rewrite Ek.
Qed.

Lemma omap_nil_elem {A B} (p : A → option B) l x : omap p l = [] → x ∈ l → p x = None.
Proof.
  intros Hnil Hx. destruct (p x) as [y|] eqn:E; [|done]. assert (Hy : y ∈ omap p l) by (apply list_elem_of_omap; eauto).
  rewrite Hnil in Hy. by apply elem_of_nil in Hy.
Qed.

Lemma omap_sqlite f node :
  (∀ v, v ∈ node → named v = None ∧ (is_Some (numberable v) → 0 <= f (span_start v) <= u32_max)) →
  let node2 := rewrite_placeholders_for_sqlite (map (numbered_by f) node) in
  locations node2 = locations node ∧ omap named node2 = [] ∧
  ∀ v, v ∈ node → is_Some (numberable v) → (span_start v, Numbered (f (span_start v))) ∈ omap numberable node2.
Proof.
  cbn zeta. unfold rewrite_placeholders_for_sqlite. induction node as [|v node IH]; intros Hv.
  { split_and!; [done|done|]. by intros v ?%elem_of_nil. }
  destruct IH as (IHl & IHn & IHf); [intros w Hw; apply Hv; by apply list_elem_of_further|].
  destruct (Hv v) as [Hu Hb]; [apply list_elem_of_here|].
  destruct (sqlite_numbered_by f v Hu Hb) as (Hspan & Hw & Hk & _). set (w := sqlite_value (numbered_by f v)) in *.
  cbn [map]. fold w. split_and!.
  - unfold locations in *. cbn [omap list_omap]. rewrite IHl, Hspan.
    enough (H : (∃ t, value w = VPlaceholder t) ↔ ∃ t, value v = VPlaceholder t).
    { destruct (value w) as [t|], (value v) as [u|]; [done| | |done];
        [destruct (proj1 H) as [? ?]; [by eexists|done]|destruct (proj2 H) as [? ?]; [by eexists|done]]. }
    subst w. unfold numbered_by, sqlite_value. destruct (numberable v) as [x|] eqn:Ek; cbn [value].
    + unfold numberable in Ek. destruct (value v); [|done]. split; [by eauto|]. intros _. destruct (postgres_parameter_digits _); cbn; eauto.
    + destruct (value v) eqn:Ev; [|by rewrite Ev]. destruct (postgres_parameter_digits _); [cbn|rewrite Ev]; split; eauto.
  - cbn [omap list_omap]. by rewrite Hw.
  - cbn [omap list_omap]. rewrite Hk. intros u [->|Hin]%elem_of_cons Hs.
    + destruct Hs as [x Hx]. rewrite Hx. apply list_elem_of_here.
    + destruct (numberable v); cbn; [apply list_elem_of_further|]; by apply IHf.
Qed.

(** ** The properties *)

Lemma bind_index_perm l1 l2 max f x : l1 ≡ₚ l2 → bind_index_from max l1 f x = bind_index_from max l2 f x.
Proof.
  intros H. unfold bind_index_from. destruct x.2; [|done]. f_equal. by apply foldr_max_perm, Permutation_map, earlier_perm.
Qed.

(** C22 (SQLite's bind-index rule).  When every placeholder has its own place in
    the text and no number leaves [u32], the rewriting succeeds on a node without
    named placeholders, whatever the order the visitor meets them in: a numbered
    placeholder keeps its number, a bare one takes one greater than the largest
    number of the placeholders before it in the text, which determines every
    number, and nothing but the numbered and bare placeholders changes. *)
Theorem numbers_follow_source_order node :
  NoDup (locations node) → omap named node = [] → room 0 (omap numberable node) →
  ∃ f, rewrite_placeholders_for_postgres node = Ok (map (numbered_by f) node) ∧
       follows_bind_rule (omap numberable node) f ∧
       ∀ g, follows_bind_rule (omap numberable node) g → ∀ x, x ∈ omap numberable node → g x.1 = f x.1.
Proof.
  intros Hn Hnamed Hroom. set (found := omap numberable node) in *.
  apply numberable_locations_NoDup in Hn as Hk. fold found in Hk.
  pose proof (sort_perm found) as Hp. pose proof (sort_ordered found Hk) as Ho.
  assert (Hrule : ∀ h, follows_bind_rule found h ↔ ∀ x, x ∈ sort found → h x.1 = bind_index_from 0 (sort found) h x).
  { intros h. unfold follows_bind_rule. split; intros H x Hx; [rewrite (bind_index_perm _ found)|rewrite <- (bind_index_perm (sort found))];
      try done; apply H; revert Hx; by rewrite Hp. }
  exists (number_at found). split; [by apply postgres_numbered|].
  assert (Hf : follows_bind_rule found (number_at found)).
  { apply Hrule. apply assign_from_rule; [done| |by intros ???; apply number_at_spec].
    destruct Hroom as (H0 & Hl & Hr). unfold room. rewrite (Permutation_length Hp). split_and!; [done|done|].
    rewrite Forall_forall in *. intros x Hx. apply Hr. by rewrite <- Hp. }
  split; [done|]. intros g Hg x Hx. apply (bind_rule_unique (sort found) 0); [done|by apply Hrule|by apply Hrule|by rewrite Hp].
Qed.

(** C38 (placeholders survive a round trip).  A query rewritten for PostgreSQL,
    then for SQLite, then for PostgreSQL again is the query the first rewriting
    gave, even where a number wrapped around [u32]. *)
Theorem placeholders_round_trip node node1 :
  NoDup (locations node) → rewrite_placeholders_for_postgres node = Ok node1 →
  rewrite_placeholders_for_postgres (rewrite_placeholders_for_sqlite node1) = Ok node1.
Proof.
  intros Hn H1. assert (Hnamed : omap named node = []).
  { rewrite postgres_spec in H1. by destruct (omap named node). }
  rewrite postgres_numbered in H1 by done. injection H1 as <-.
  set (f := number_at (omap numberable node)).
  assert (Hv : ∀ v, v ∈ node → named v = None ∧ (is_Some (numberable v) → 0 <= f (span_start v) <= u32_max)).
  { intros v Hv. split; [|by apply number_at_bounds]. by eapply omap_nil_elem. }
  destruct (omap_sqlite f node Hv) as (Hloc & Hnamed2 & Hfound).
  rewrite postgres_numbered; [|by rewrite Hloc|done]. f_equal.
  set (g := number_at (omap numberable (rewrite_placeholders_for_sqlite (map (numbered_by f) node)))).
  assert (Hg : ∀ v, v ∈ node → is_Some (numberable v) → g (span_start v) = f (span_start v)).
  { intros v Hin Hs. apply number_at_numbered; [|by apply Hfound]. apply numberable_locations_NoDup. by rewrite Hloc. }
  clearbody g. unfold rewrite_placeholders_for_sqlite. rewrite !map_map. apply map_ext_in.
  intros v Hin%list_elem_of_In. destruct (Hv v Hin) as [Hu Hb]. destruct (numberable v) as [x|] eqn:Ek.
  - apply sqlite_numbered_by; [done|by rewrite Ek|]. apply Hg; [done|]. by rewrite Ek.
  - assert (Hsame : numbered_by f v = v) by (unfold numbered_by; by rewrite Ek).
    rewrite Hsame, sqlite_unnamed by done. unfold numbered_by. by rewrite Ek.
Qed.

End Values.
Arguments Value : clear implicits.
Arguments ValueWithSpan : clear implicits.

(** ** Closed instances *)

(** A placeholder written at a column of the first line. *)
Definition placeholder (column : Z) (token : str) : ValueWithSpan unit :=
  {| value := VPlaceholder token; span_start := (1, column) |}.

(** [LIMIT ?] met before the [WHERE a = ? AND b = ?5] written ahead of it. *)
Definition limit_first : list (ValueWithSpan unit) :=
  [placeholder 40 (lit "?"); placeholder 10 (lit "?"); placeholder 20 (lit "?5")].

Lemma numbers_follow_source_order_witness :
  NoDup (locations limit_first) ∧ omap named limit_first = [] ∧ room 0 (omap numberable limit_first) ∧
  ∃ f, rewrite_placeholders_for_postgres limit_first = Ok (map (numbered_by f) limit_first) ∧
       follows_bind_rule (omap numberable limit_first) f ∧
       ∀ g, follows_bind_rule (omap numberable limit_first) g →
            ∀ x, x ∈ omap numberable limit_first → g x.1 = f x.1.
Proof.
  assert (Hn : NoDup (locations limit_first)) by (apply (bool_decide_eq_true_1 _); vm_compute; reflexivity).
  assert (Hu : omap named limit_first = []) by reflexivity.
  assert (Hr : room 0 (omap numberable limit_first)).
  { assert (omap numberable limit_first = [((1, 40), Positional); ((1, 10), Positional); ((1, 20), Numbered 5)]) as ->
      by (vm_compute; reflexivity).
    unfold room, u32_max. cbn [length]. split; [lia|]. split; [lia|]. rewrite !Forall_cons, Forall_nil. cbn. lia. }
  split; [exact Hn|]. split; [exact Hu|]. split; [exact Hr|]. exact (numbers_follow_source_order limit_first Hn Hu Hr).
Defined.

Example limit_first_numbered :
  rewrite_placeholders_for_postgres limit_first =
  Ok [placeholder 40 (lit "$6"); placeholder 10 (lit "$1"); placeholder 20 (lit "$5")].
Proof. vm_compute. reflexivity. Qed.

Lemma placeholders_round_trip_witness :
  ∃ node1, NoDup (locations limit_first) ∧ rewrite_placeholders_for_postgres limit_first = Ok node1 ∧
  rewrite_placeholders_for_postgres (rewrite_placeholders_for_sqlite node1) = Ok node1.
Proof.
  assert (Hn : NoDup (locations limit_first)) by (apply (bool_decide_eq_true_1 _); vm_compute; reflexivity).
  exists [placeholder 40 (lit "$6"); placeholder 10 (lit "$1"); placeholder 20 (lit "$5")].
  split; [exact Hn|]. split; [vm_compute; reflexivity|].
  apply (placeholders_round_trip limit_first); [exact Hn|vm_compute; reflexivity].
Defined.

(** Past the largest [u32], a build without overflow checks numbers a bare
    placeholder from zero again. *)
Example bare_after_largest :
  rewrite_placeholders_for_postgres [placeholder 1 (lit "?4294967295"); placeholder 20 (lit "?")] =
  Ok [placeholder 1 (lit "$4294967295"); placeholder 20 (lit "$0")].
Proof. vm_compute. reflexivity. Qed.

(** A number past [u32] is left as it is. *)
Example too_large_kept :
  rewrite_placeholders_for_postgres [placeholder 1 (lit "?4294967296"); placeholder 20 (lit "?")] =
  Ok [placeholder 1 (lit "?4294967296"); placeholder 20 (lit "$1")].
Proof. vm_compute. reflexivity. Qed.

(** Leading zeros do not survive the way back. *)
Example leading_zeros :
  rewrite_placeholders_for_postgres
    (rewrite_placeholders_for_sqlite [placeholder 1 (lit "$007")]) = Ok [placeholder 1 (lit "$7")].
Proof. vm_compute. reflexivity. Qed.

Example named_refused :
  rewrite_placeholders_for_postgres [placeholder 1 (lit "?"); placeholder 9 (lit ":id")] =
  Err (UnsupportedNamedPlaceholder (lit ":id")).
Proof. reflexivity. Qed.
End Placeholder.
