(* ===== verification/Copy.v ===== *)
(** * COPY data

    [src/src/impls/translator_impls/copy.rs]: the payload of a [COPY ... FROM STDIN]
    decoded with PostgreSQL's text and CSV rules into the rows of an [INSERT].  The
    iterator [Peekable<Chars>] is the list of the characters it has not yielded.
    The printing of options, the catalogue and the translation of the [INSERT] are
    parameters. *)

From S2P Require Import Prelude Text Utf8 Errors Ast Exprs Names.

Module Copy.

(** ** Options *)

Inductive Kind := Text | Csv.
#[global] Instance Kind_eq_dec : EqDecision Kind.
Proof. solve_decision. Defined.

Record Format := {
  kind : Kind; delimiter : Z; null : str; header : bool; quote : Z; escape : Z;
  force_null : list Ident; force_not_null : list Ident }.

(** The options as written, each at most once. *)
Record Written := {
  w_kind : option Kind; w_delimiter : option Z; w_null : option str; w_header : option bool;
  w_quote : option Z; w_escape : option Z;
  w_force_null : option (list Ident); w_force_not_null : option (list Ident) }.
Definition written_default : Written :=
  {| w_kind := None; w_delimiter := None; w_null := None; w_header := None; w_quote := None;
     w_escape := None; w_force_null := None; w_force_not_null := None |}.

(** [CopyOption], [CopyLegacyOption] and [CopyLegacyCsvOption]. *)
Inductive CopyOption :=
| OFormat (name : Ident) | ODelimiter (c : Z) | ONull (s : str) | OHeader (b : bool)
| OQuote (c : Z) | OEscape (c : Z) | OForceNull (columns : list Ident) | OForceNotNull (columns : list Ident)
| OFreeze (b : bool) | OForceQuote (columns : list Ident) | OEncoding (s : str).
Inductive CopyLegacyCsvOption :=
| CHeader | CQuote (c : Z) | CEscape (c : Z) | CForceNotNull (columns : list Ident) | CForceQuote (columns : list Ident).

Definition invalid_option (reason : str) : Error :=
  forward_refusal (reason ++ lit ", so PostgreSQL refuses the COPY.").

Definition unsupported_option (option : str) : Error :=
  forward_refusal (lit "COPY option " ++ option
    ++ lit " cannot be translated. Only the text and CSV formats with DELIMITER, NULL, HEADER, QUOTE, ESCAPE, FORCE_NULL and FORCE_NOT_NULL become INSERT statements.").

(** [once]: the slot after [Option::replace]. *)
Definition once {T} (slot : option T) (value : T) (name : string) : result Error (option T) :=
  match slot with
  | Some _ => Err (invalid_option (lit "COPY " ++ lit name ++ lit " is given more than once"))
  | None => Ok (Some value)
  end.

Definition with_kind (w : Written) k : Written :=
  {| w_kind := k; w_delimiter := w_delimiter w; w_null := w_null w; w_header := w_header w; w_quote := w_quote w;
     w_escape := w_escape w; w_force_null := w_force_null w; w_force_not_null := w_force_not_null w |}.
Definition with_delimiter (w : Written) d : Written :=
  {| w_kind := w_kind w; w_delimiter := d; w_null := w_null w; w_header := w_header w; w_quote := w_quote w;
     w_escape := w_escape w; w_force_null := w_force_null w; w_force_not_null := w_force_not_null w |}.
Definition with_null (w : Written) n : Written :=
  {| w_kind := w_kind w; w_delimiter := w_delimiter w; w_null := n; w_header := w_header w; w_quote := w_quote w;
     w_escape := w_escape w; w_force_null := w_force_null w; w_force_not_null := w_force_not_null w |}.
Definition with_header (w : Written) h : Written :=
  {| w_kind := w_kind w; w_delimiter := w_delimiter w; w_null := w_null w; w_header := h; w_quote := w_quote w;
     w_escape := w_escape w; w_force_null := w_force_null w; w_force_not_null := w_force_not_null w |}.
Definition with_quote (w : Written) q : Written :=
  {| w_kind := w_kind w; w_delimiter := w_delimiter w; w_null := w_null w; w_header := w_header w; w_quote := q;
     w_escape := w_escape w; w_force_null := w_force_null w; w_force_not_null := w_force_not_null w |}.
Definition with_escape (w : Written) e : Written :=
  {| w_kind := w_kind w; w_delimiter := w_delimiter w; w_null := w_null w; w_header := w_header w; w_quote := w_quote w;
     w_escape := e; w_force_null := w_force_null w; w_force_not_null := w_force_not_null w |}.
Definition with_force_null (w : Written) f : Written :=
  {| w_kind := w_kind w; w_delimiter := w_delimiter w; w_null := w_null w; w_header := w_header w; w_quote := w_quote w;
     w_escape := w_escape w; w_force_null := f; w_force_not_null := w_force_not_null w |}.
Definition with_force_not_null (w : Written) f : Written :=
  {| w_kind := w_kind w; w_delimiter := w_delimiter w; w_null := w_null w; w_header := w_header w; w_quote := w_quote w;
     w_escape := w_escape w; w_force_null := w_force_null w; w_force_not_null := f |}.

(** [str::contains] of a pattern of characters. *)
Definition contains_any (cs : list Z) (s : str) : bool := existsb (char_in cs) s.

Definition RESERVED_DELIMITERS : str := lit "\.abcdefghijklmnopqrstuvwxyz0123456789".

(** [Format::checked]. *)
Definition first_given (given : list (string * bool)) : option string :=
  fst <$> List.find snd given.

Definition checked (written : Written) : result Error Format :=
  let kind := default Text (w_kind written) in
  let csv := bool_decide (kind = Csv) in
  let csv_only := [("QUOTE", is_some (w_quote written)); ("ESCAPE", is_some (w_escape written));
                   ("FORCE_NULL", is_some (w_force_null written)); ("FORCE_NOT_NULL", is_some (w_force_not_null written))]%string in
  match (if csv then None else first_given csv_only) with
  | Some name => Err (invalid_option (lit "COPY " ++ lit name ++ lit " requires CSV mode"))
  | None =>
  let delimiter := default (if csv then 44 else 9) (w_delimiter written) in
  let quote := default 34 (w_quote written) in
  let escape := default quote (w_escape written) in
  let null := default (if csv then [] else lit "\N") (w_null written) in
  if (delimiter =? 10) || (delimiter =? 13) then
    Err (invalid_option (lit "COPY delimiter cannot be newline or carriage return"))
  else if contains_any [10; 13] null then
    Err (invalid_option (lit "COPY null representation cannot use newline or carriage return"))
  else if negb csv && contains_char delimiter RESERVED_DELIMITERS then
    Err (invalid_option (lit "COPY delimiter cannot be " ++ Errors.quoted [delimiter]))
  else if csv && (delimiter =? quote) then
    Err (invalid_option (lit "COPY delimiter and quote must be different"))
  else if contains_char delimiter null then
    Err (invalid_option (lit "COPY delimiter character must not appear in the NULL specification"))
  else if csv && contains_char quote null then
    Err (invalid_option (lit "CSV quote character must not appear in the NULL specification"))
  else Ok {| kind := kind; delimiter := delimiter; null := null; header := default false (w_header written);
             quote := quote; escape := escape; force_null := default [] (w_force_null written);
             force_not_null := default [] (w_force_not_null written) |}
  end.

Section Formats.
Context {Legacy : Type}.

(** The other legacy options are refused by their printed text. *)
Inductive CopyLegacyOption := LDelimiter (c : Z) | LNull (s : str) | LCsv (options : list CopyLegacyCsvOption) | LOther (o : Legacy).

Variable option_to_string : CopyOption → str.
Variable csv_option_to_string : CopyLegacyCsvOption → str.
Variable legacy_option_to_string : Legacy → str.

Definition format_kind (name : str) : option Kind :=
  let name := to_ascii_lowercase name in
  if str_eqb name (lit "text") then Some Text else if str_eqb name (lit "csv") then Some Csv else None.

Definition read_option (written : Written) (option : CopyOption) : result Error Written :=
  match option with
  | OFormat name =>
      match format_kind (value name) with
      | Some kind => with_kind written <$> once (w_kind written) kind "FORMAT"
      | None => Err (unsupported_option (option_to_string option))
      end
  | ODelimiter delimiter => with_delimiter written <$> once (w_delimiter written) delimiter "DELIMITER"
  | ONull null => with_null written <$> once (w_null written) null "NULL"
  | OHeader header => with_header written <$> once (w_header written) header "HEADER"
  | OQuote quote => with_quote written <$> once (w_quote written) quote "QUOTE"
  | OEscape escape => with_escape written <$> once (w_escape written) escape "ESCAPE"
  | OForceNull columns => with_force_null written <$> once (w_force_null written) columns "FORCE_NULL"
  | OForceNotNull columns => with_force_not_null written <$> once (w_force_not_null written) columns "FORCE_NOT_NULL"
  | OFreeze _ | OForceQuote _ | OEncoding _ => Err (unsupported_option (option_to_string option))
  end.

Definition read_csv_option (written : Written) (option : CopyLegacyCsvOption) : result Error Written :=
  match option with
  | CHeader => with_header written <$> once (w_header written) true "HEADER"
  | CQuote quote => with_quote written <$> once (w_quote written) quote "QUOTE"
  | CEscape escape => with_escape written <$> once (w_escape written) escape "ESCAPE"
  | CForceNotNull columns => with_force_not_null written <$> once (w_force_not_null written) columns "FORCE NOT NULL"
  | CForceQuote _ => Err (unsupported_option (csv_option_to_string option))
  end.

Definition read_legacy_option (written : Written) (option : CopyLegacyOption) : result Error Written :=
  match option with
  | LDelimiter delimiter => with_delimiter written <$> once (w_delimiter written) delimiter "DELIMITER"
  | LNull null => with_null written <$> once (w_null written) null "NULL"
  | LCsv csv =>
      slot ← once (w_kind written) Csv "CSV";
      try_fold read_csv_option (with_kind written slot) csv
  | LOther other => Err (unsupported_option (legacy_option_to_string other))
  end.

Definition Format_new (options : list CopyOption) (legacy : list CopyLegacyOption) : result Error Format :=
  written ← try_fold read_option written_default options;
  written ← try_fold read_legacy_option written legacy;
  checked written.
End Formats.
Arguments CopyLegacyOption Legacy : clear implicits.

(** ** Decoding *)

Definition malformed (record : Z) (reason : string) : Error :=
  forward_refusal (lit "row " ++ dec record ++ lit " of the COPY payload " ++ lit reason
    ++ lit ", so PostgreSQL refuses the whole COPY.").

Inductive LineEnd := Lf | CrLf | Cr.
#[global] Instance LineEnd_eq_dec : EqDecision LineEnd.
Proof. solve_decision. Defined.

(** [line_end]: what is left of the characters, and the ending of the payload. *)
Definition line_end (first : Z) (chars : str) (seen : option LineEnd) (record : Z) : result Error (str * option LineEnd) :=
  let '(ending, chars) :=
    if first =? 13 then match chars with 10 :: chars => (CrLf, chars) | _ => (Cr, chars) end else (Lf, chars) in
  if bool_decide (default ending seen = ending) then Ok (chars, Some (default ending seen))
  else Err (malformed record "ends with a different line ending than the first row").

Definition is_line_end (c : Z) : bool := (c =? 10) || (c =? 13).

(** [char::to_digit]. *)
Definition to_digit (radix c : Z) : option Z :=
  d ← (if is_ascii_digit c then Some (c - 48) else
       if (97 <=? c) && (c <=? 122) then Some (c - 87) else
       if (65 <=? c) && (c <=? 90) then Some (c - 55) else None);
  if d <? radix then Some d else None.

(** The digits that may follow the first: the code, and what was taken. *)
Fixpoint more_digits (n : nat) (radix code : Z) (chars : str) : Z * str * str :=
  match n, chars with
  | S n, c :: rest =>
      match to_digit radix c with
      | Some digit => let '(code, taken, rest) := more_digits n radix (code * radix + digit) rest in (code, c :: taken, rest)
      | None => (code, [], chars)
      end
  | _, _ => (code, [], chars)
  end.

(** [unescape]: the bytes the escape stands for, the characters it took after
    [escaped], and the characters left. *)
Definition unescape (escaped : Z) (chars : str) : list Z * str * str :=
  let single byte := ([byte], [], chars) in
  if escaped =? 98 then single 8 else if escaped =? 102 then single 12 else if escaped =? 110 then single 10
  else if escaped =? 114 then single 13 else if escaped =? 116 then single 9 else if escaped =? 118 then single 11
  else if (48 <=? escaped) && (escaped <=? 55) then
    let '(code, taken, chars) := more_digits 2 8 (default 0 (to_digit 8 escaped)) chars in
    ([Z.land code 255], taken, chars)
  else if (escaped =? 120) && match chars with c :: _ => is_ascii_hexdigit c | [] => false end then
    let '(code, taken, chars) := more_digits 2 16 0 chars in ([code], taken, chars)
  else (encode_utf8 escaped, [], chars).

Definition text_field (raw : str) (value : list Z) (format : Format) (record : Z) : result Error (option str) :=
  if str_eqb raw (null format) then Ok None
  else match from_utf8 value with
       | Some value => Ok (Some value)
       | None => Err (malformed record "decodes to bytes that are not valid UTF-8")
       end.

Definition Rows := list (list (option str)).

(** The inner loop of [text_rows]: one row, what is left, and the ending.  The
    row before this field is [fields], the field so far [raw] and [value]. *)
Fixpoint text_record (fuel : nat) (format : Format) (record : Z) (chars : str) (seen : option LineEnd)
    (fields : list (option str)) (raw : str) (value : list Z)
    : option (result Error (list (option str) * str * option LineEnd)) :=
  let finish chars seen raw :=
    field ← text_field raw value format record; Ok (fields ++ [field], chars, seen) in
  match fuel with
  | O => None
  | S fuel =>
      match chars with
      | [] => Some (finish [] seen raw)
      | c :: chars =>
          if is_line_end c then
            Some ('(chars, seen) ← line_end c chars seen record; finish chars seen raw)
          else if c =? delimiter format then
            match text_field raw value format record with
            | Err e => Some (Err e)
            | Ok field => text_record fuel format record chars seen (fields ++ [field]) [] []
            end
          else if c =? 92 then
            match chars with
            | [] => Some (finish [] seen (raw ++ [92]))
            | escaped :: chars =>
                let '(bytes, taken, chars) := unescape escaped chars in
                text_record fuel format record chars seen fields (raw ++ 92 :: escaped :: taken) (value ++ bytes)
            end
          else text_record fuel format record chars seen fields (raw ++ [c]) (value ++ encode_utf8 c)
      end
  end.

(** The outer loop, over [read] for one row; every row takes a character. *)
Fixpoint rows_from (read : Z → str → option LineEnd → option (result Error (list (option str) * str * option LineEnd)))
    (fuel : nat) (format : Format) (record : Z) (chars : str) (seen : option LineEnd) (rows : Rows) : option (result Error Rows) :=
  match chars with
  | [] => Some (Ok rows)
  | _ =>
      match fuel with
      | O => None
      | S fuel =>
          match read (record + 1) chars seen with
          | Some (Ok (fields, chars, seen)) =>
              let rows := if header format && (record + 1 =? 1) then rows else rows ++ [fields] in
              rows_from read fuel format (record + 1) chars seen rows
          | Some (Err e) => Some (Err e)
          | None => None
          end
      end
  end.

Definition text_rows (data : str) (format : Format) : option (result Error Rows) :=
  rows_from (λ record chars seen, text_record (S (length data)) format record chars seen [] [] [])
    (length data) format 0 data None [].

(** *** CSV *)

(** The closure [field] of [csv_rows]. *)
Definition csv_field (format : Format) (force_null force_not_null : list nat) (value : str) (quoted : bool) (position : nat)
    : option str :=
  let is_null := str_eqb value (null format)
    && (if quoted then bool_decide (position ∈ force_null) else negb (bool_decide (position ∈ force_not_null))) in
  if is_null then None else Some value.

(** The inner loop of [csv_rows], over [field]. *)
Fixpoint csv_record (format : Format) (field : str → bool → nat → option str) (record : Z) (chars : str) (seen : option LineEnd)
    (fields : list (option str)) (value : str) (quoted in_quotes : bool) : result Error (list (option str) * str * option LineEnd) :=
  if in_quotes then
    match chars with
    | [] => Err (malformed record "ends inside a quoted field")
    | c :: chars =>
        if (c =? escape format) && match chars with after :: _ => (after =? quote format) || (after =? escape format) | [] => false end then
          match chars with
          | after :: chars => csv_record format field record chars seen fields (value ++ [after]) quoted true
          | [] => csv_record format field record chars seen fields value quoted true
          end
        else if c =? quote format then csv_record format field record chars seen fields value quoted false
        else csv_record format field record chars seen fields (value ++ [c]) quoted true
    end
  else
    match chars with
    | [] => Ok (fields ++ [field value quoted (length fields)], [], seen)
    | c :: chars =>
        if is_line_end c then
          '(chars, seen) ← line_end c chars seen record;
          Ok (fields ++ [field value quoted (length fields)], chars, seen)
        else if c =? delimiter format then
          csv_record format field record chars seen (fields ++ [field value quoted (length fields)]) [] false false
        else if c =? quote format then csv_record format field record chars seen fields value true true
        else csv_record format field record chars seen fields (value ++ [c]) quoted in_quotes
    end.

Definition same_column (a b : Ident) : bool :=
  if is_some (quote_style a) && is_some (quote_style b) then str_eqb (value a) (value b)
  else eq_ignore_ascii_case (value a) (value b).

Section Csv.
Variable ident_to_string : Ident → str.

Definition position_of (columns : list Ident) (option_name : string) (name : Ident) : result Error nat :=
  ok_or (fst <$> list_find (λ column, same_column column name = true) columns)
    (invalid_option (lit option_name ++ lit " column " ++ Errors.quoted (ident_to_string name)
       ++ lit " is not referenced by COPY")).

(** An iterator of results, collected. *)
Fixpoint collect {A E} (l : list (result E A)) : result E (list A) :=
  match l with [] => Ok [] | x :: l => a ← x; rest ← collect l; Ok (a :: rest) end.

Definition positions (named columns : list Ident) (option_name : string) : result Error (list nat) :=
  collect (map (position_of columns option_name) named).

Definition csv_rows (data : str) (format : Format) (columns : list Ident) : option (result Error Rows) :=
  match positions (force_null format) columns "FORCE_NULL" with
  | Err e => Some (Err e)
  | Ok force_null =>
      match positions (force_not_null format) columns "FORCE_NOT_NULL" with
      | Err e => Some (Err e)
      | Ok force_not_null =>
          let field := csv_field format force_null force_not_null in
          rows_from (λ record chars seen, Some (csv_record format field record chars seen [] [] false false))
            (length data) format 0 data None []
      end
  end.
End Csv.

(** ** The statement

    [payload] is the text after the statement and whether a terminator line ended
    it.  The [INSERT] the rows go into is the one of [ast_builder], which leaves
    every clause but these empty. *)

Inductive CopySource {Payload} := SourceTable (table_name : ObjectName Payload) (columns : list Ident) | SourceQuery (o : Payload).
Arguments CopySource Payload : clear implicits.
Inductive CopyTarget {Payload} := Stdin | TargetOther (o : Payload).
Arguments CopyTarget Payload : clear implicits.
Record CopyPayload := { terminated : bool; data : str }.
Record Copy {Payload Legacy} := {
  source : CopySource Payload; to : bool; target : CopyTarget Payload; options : list CopyOption;
  legacy_options : list (CopyLegacyOption Legacy); payload : option CopyPayload }.
Arguments Copy Payload Legacy : clear implicits.

Record Insert {Payload} := { table : ObjectName Payload; columns : list (ObjectName Payload); rows : list (list (Expr Payload)) }.
Arguments Insert Payload : clear implicits.
Record TranslatedInsert {Payload} := { ti_table : TableObject Payload; ti_on : option (OnInsert Payload); ti_rest : Payload }.
Arguments TranslatedInsert Payload : clear implicits.

Inductive DeclaredOption {Payload} := Generated (generation_expr : option Payload) | DeclaredOther (o : Payload).
Arguments DeclaredOption Payload : clear implicits.
Record Column {Payload} := { column_name : str; column_name_is_quoted : bool; column_options : list (DeclaredOption Payload) }.
Arguments Column Payload : clear implicits.

(** What the statement asks of sqlparser, of sql_traits and of the translation
    of an [INSERT]. *)
Class Copying (Payload Schema Tbl Legacy : Type) := {
  option_to_string : CopyOption → str;
  csv_option_to_string : CopyLegacyCsvOption → str;
  legacy_option_to_string : Legacy → str;
  resolve_on_search_path : Schema → ObjectName Payload → result Error (option Tbl);
  table_by_target : Schema → str → bool → result Error (option Tbl);
  columns_of : Schema → Tbl → result Error (list (Column Payload));
  rls_table_suffix : str;
  translate_insert : Insert Payload → Schema → result Error (TranslatedInsert Payload)
}.

Section Statements.
Context {Payload Schema Tbl Legacy : Type} `{Library Payload Schema Tbl} `{!Copying Payload Schema Tbl Legacy}.
Implicit Types (schema : Schema) (table_name name : ObjectName Payload).

Definition reject_copy (subject : str) (to : bool) : Error :=
  forward_refusal (subject ++ lit " cannot be translated. "
    ++ if to then lit "SQLite has no COPY statement, and the translator cannot write the destination. Export the rows with your client instead."
       else lit "SQLite has no COPY statement, and the translator cannot read the source. Load the rows with INSERT statements instead.").

Definition is_generated (column : Column Payload) : bool :=
  existsb (λ option, match option with Generated (Some _) => true | _ => false end) (column_options column).

Definition column_ident (column : Column Payload) : Ident :=
  if column_name_is_quoted column then Ident_with_quote 34 (column_name column) else Ident_new (column_name column).

Definition table_columns table_name schema : result Error (list Ident) :=
  resolved ← resolve_translation_table schema table_name;
  resolved ← match resolved with Some table => Ok (Some table) | None => resolve_on_search_path schema table_name end;
  match resolved with
  | None => Err (forward_refusal (lit "COPY " ++ name_to_string table_name
      ++ lit " names no table the translation declares, so the columns its rows fill are unknown."))
  | Some table =>
      columns ← columns_of schema table;
      Ok (map column_ident (List.filter (λ column, negb (is_generated column)) columns))
  end.

(** [rls::table_has_rls]. *)
Definition table_has_rls (table_name : str) schema : result Error bool :=
  found ← table_by_target schema table_name false;
  match found with Some table => has_row_level_security schema table | None => Ok false end.

(** [insert::backing_table_name]: the last part renamed. *)
Definition backing_table_name name : ObjectName Payload :=
  match last name ≫= as_ident with
  | Some ident => removelast name ++ [Identifier (Ident_new (value ident ++ rls_table_suffix))]
  | None => name
  end.

Definition field_expr (field : option str) : Expr Payload :=
  EValue (match field with Some value => SingleQuotedString value | None => ValueNull end).

(** The first row that does not have a field per column, counted from one. *)
Fixpoint misfit (row : Z) (width : nat) (rows : Rows) : option (Z * nat) :=
  match rows with
  | [] => None
  | fields :: rows =>
      if Nat.eqb (length fields) width then misfit (row + 1) width rows else Some (row, length fields)
  end.

Definition insert_rows table_name (columns : list Ident) (rows : Rows) : Insert Payload :=
  {| table := table_name; columns := map (λ column, [Identifier column]) columns; rows := map (map field_expr) rows |}.

(** The redirection of the rows of a secured table to its backing table. *)
Definition redirect table_name schema (translated : TranslatedInsert Payload) : result Error (TranslatedInsert Payload) :=
  match last table_name ≫= as_ident with
  | None => Ok translated
  | Some ident =>
      secured ← table_has_rls (value ident) schema;
      Ok (match secured, ti_table translated with
          | true, TableName name => {| ti_table := TableName (backing_table_name name); ti_on := ti_on translated; ti_rest := ti_rest translated |}
          | _, _ => translated
          end)
  end.

Definition write_rows table_name (columns : list Ident) (rows : Rows) schema : result Error (list (Statement Payload)) :=
  match misfit 1 (length columns) rows with
  | Some (row, fields) => Err (forward_refusal (lit "row " ++ dec row ++ lit " of COPY " ++ name_to_string table_name
      ++ lit " has " ++ dec (Z.of_nat fields) ++ lit " fields, and the statement writes " ++ dec (Z.of_nat (length columns))
      ++ lit " columns, so PostgreSQL refuses the whole COPY."))
  | None =>
      match rows with
      | [] => Ok []
      | _ =>
          translated ← translate_insert (insert_rows table_name columns rows) schema;
          translated ← redirect table_name schema translated;
          Ok [SInsert (ti_table translated) (ti_on translated) (ti_rest translated)]
      end
  end.

Definition decode_rows (format : Format) (columns : list Ident) (data : str) : option (result Error Rows) :=
  match kind format with Text => text_rows data format | Csv => csv_rows ident_to_string data format columns end.

Definition translate_copy (copy : Copy Payload Legacy) schema : option (result Error (list (Statement Payload))) :=
  match source copy with
  | SourceQuery _ => Some (Err (reject_copy (lit "COPY (query)") (to copy)))
  | SourceTable table_name columns =>
      if to copy || match target copy with Stdin => false | _ => true end then
        Some (Err (reject_copy (lit "COPY " ++ name_to_string table_name) (to copy)))
      else
      match payload copy with
      | Some {| terminated := true; data := data |} =>
          match Format_new option_to_string csv_option_to_string legacy_option_to_string (options copy) (legacy_options copy) with
          | Err e => Some (Err e)
          | Ok format =>
              match (match columns with [] => table_columns table_name schema | _ => Ok columns end) with
              | Err e => Some (Err e)
              | Ok columns =>
                  match decode_rows format columns data with
                  | Some (Ok rows) => Some (write_rows table_name columns rows schema)
                  | Some (Err e) => Some (Err e)
                  | None => None
                  end
              end
          end
      | _ => Some (Err (forward_refusal (lit "COPY " ++ name_to_string table_name
          ++ lit " FROM STDIN has no payload ended by a `\.` line, and PostgreSQL refuses a payload that runs to the end of the input. End the rows with `\.` on a line of its own.")))
      end
  end.
End Statements.

(** ** The decoding loops end *)

Lemma more_digits_length n radix code chars :
  let '(_, taken, rest) := more_digits n radix code chars in chars = taken ++ rest.
Proof.
  revert code chars. induction n as [|n IH]; intros code chars; [done|]. destruct chars as [|c chars]; [done|]. cbn.
  destruct (to_digit radix c); [|done]. specialize (IH (code * radix + z) chars).
  destruct (more_digits n radix (code * radix + z) chars) as [[code' taken] rest]. cbn. by rewrite <- IH.
Qed.

Lemma unescape_length escaped chars :
  let '(_, taken, rest) := unescape escaped chars in chars = taken ++ rest.
Proof.
  unfold unescape. repeat case_match; simplify_eq; try done;
    match goal with H : more_digits 2 ?r ?c ?ch = _ |- _ => pose proof (more_digits_length 2 r c ch) as Hl; rewrite H in Hl end; done.
Qed.

Lemma line_end_length c chars seen record chars' seen' :
  line_end c chars seen record = Ok (chars', seen') → (length chars' <= length chars)%nat.
Proof.
  unfold line_end. destruct (if c =? 13 then _ else _) as [ending rest] eqn:E. case_bool_decide; [|done]. intros [= <- _].
  destruct (c =? 13); [|by simplify_eq]. repeat case_match; simplify_eq; cbn; lia.
Qed.

(** A row read from some characters leaves fewer of them. *)
Definition takes (chars : str) (r : result Error (list (option str) * str * option LineEnd)) : Prop :=
  ∀ fields rest seen, r = Ok (fields, rest, seen) → (length rest <= length chars)%nat ∧ (chars ≠ [] → length rest < length chars)%nat.

Lemma takes_line_end c chars seen record (f : str → option LineEnd → result Error (list (option str) * str * option LineEnd)) :
  (∀ chars seen fields rest seen', f chars seen = Ok (fields, rest, seen') → rest = chars) →
  takes (c :: chars) ('(chars, seen) ← line_end c chars seen record; f chars seen).
Proof.
  intros Hf fields rest seen' H. apply bind_Ok in H as ([chars' s] & Hl & H). apply line_end_length in Hl.
  apply Hf in H as ->. cbn. lia.
Qed.

Lemma takes_weaken chars chars' r : (length chars < length chars')%nat → takes chars r → takes chars' r.
Proof. intros Hl H fields rest seen Hr. apply H in Hr. lia. Qed.

Lemma text_record_total fuel format record chars seen fields raw value :
  (length chars < fuel)%nat →
  ∃ r, text_record fuel format record chars seen fields raw value = Some r ∧ takes chars r.
Proof.
  revert chars fields raw value. induction fuel as [|fuel IH]; intros chars fields raw value Hf; [lia|].
  destruct chars as [|c chars]; cbn [text_record].
  { eexists. split; [done|]. intros f rest s H. apply bind_Ok in H as (a & _ & H). by simplify_eq. }
  cbn [length] in Hf. destruct (is_line_end c).
  { eexists. split; [done|]. apply takes_line_end. intros ch s f rest s' H. apply bind_Ok in H as (a & _ & H). by simplify_eq. }
  assert (Hnext : ∀ chars' fs r v, (length chars' <= length chars)%nat →
    ∃ r', text_record fuel format record chars' seen fs r v = Some r' ∧ takes (c :: chars) r').
  { intros chars' fs r v Hl. destruct (IH chars' fs r v) as (r' & Hr' & Ht); [lia|].
    exists r'. split; [done|]. eapply takes_weaken; [|done]. cbn. lia. }
  destruct (c =? delimiter format).
  { destruct (text_field raw value format record); [by apply Hnext|]. by eexists. }
  destruct (c =? 92); [|by apply Hnext].
  destruct chars as [|escaped chars].
  { eexists. split; [done|]. intros f rest s H. apply bind_Ok in H as (a & _ & H). simplify_eq. cbn. lia. }
  pose proof (unescape_length escaped chars) as Hu. destruct (unescape escaped chars) as [[bytes taken] rest].
  apply Hnext. subst chars. cbn. rewrite length_app. lia.
Qed.

Lemma csv_record_takes format field record chars seen fields value quoted in_quotes :
  takes chars (csv_record format field record chars seen fields value quoted in_quotes).
Proof.
  revert fields value quoted in_quotes. induction chars as [chars IH] using (induction_ltof1 _ length); intros fields value quoted in_quotes.
  assert (Hnext : ∀ c chars', (chars = c :: chars') → ∀ fs v q i, takes chars (csv_record format field record chars' seen fs v q i)).
  { intros c chars' -> fs v q i. eapply takes_weaken; [|apply IH; unfold ltof; cbn; lia]. cbn. lia. }
  destruct chars as [|c chars]; cbn [csv_record]; destruct in_quotes.
  - done.
  - intros fs rest s H. by simplify_eq.
  - destruct (_ && _).
    + destruct chars as [|after chars']; [by eapply Hnext|].
      eapply takes_weaken; [|apply IH; unfold ltof; cbn; lia]. cbn. lia.
    + destruct (c =? quote format); by eapply Hnext.
  - destruct (is_line_end c); [apply takes_line_end; intros; by simplify_eq|].
    destruct (c =? delimiter format); [by eapply Hnext|]. destruct (c =? quote format); by eapply Hnext.
Qed.

Lemma rows_from_total (read : Z → str → option LineEnd → option (result Error (list (option str) * str * option LineEnd)))
    (n fuel : nat) format record chars seen rows :
  (∀ record chars seen, (length chars <= n)%nat → ∃ r, read record chars seen = Some r ∧ takes chars r) →
  (length chars <= fuel)%nat → (length chars <= n)%nat →
  is_Some (rows_from read fuel format record chars seen rows).
Proof.
  intros Hread. revert record chars seen rows. induction fuel as [|fuel IH]; intros record chars seen rows Hf Hn.
  { destruct chars; [by eexists|cbn in Hf; lia]. }
  destruct chars as [|c chars]; [by eexists|]. set (all := c :: chars) in *. cbn [rows_from]. subst all. cbv iota.
  destruct (Hread (record + 1) (c :: chars) seen Hn) as (r & -> & Ht). destruct r as [[[fields rest] seen']|e]; [|by eexists].
  destruct (Ht _ _ _ eq_refl) as [_ Hl]. specialize (Hl ltac:(done)). apply IH; lia.
Qed.

(** ** What PostgreSQL writes

    The text of [COPY ... TO], as PostgreSQL's documentation gives it for the two
    formats, with any of the three line endings. *)

Definition line_text (ending : LineEnd) : str :=
  match ending with Lf => [10] | CrLf => [13; 10] | Cr => [13] end.

Definition text_escape (delimiter c : Z) : str :=
  if c =? 8 then [92; 98] else if c =? 9 then [92; 116] else if c =? 10 then [92; 110] else if c =? 11 then [92; 118]
  else if c =? 12 then [92; 102] else if c =? 13 then [92; 114]
  else if (c =? 92) || (c =? delimiter) then [92; c] else [c].
Definition text_value (delimiter : Z) (s : str) : str := concat (map (text_escape delimiter) s).
Definition text_out (format : Format) (field : option str) : str :=
  match field with None => null format | Some s => text_value (delimiter format) s end.

(** Fields joined by the delimiter and ended by a line ending. *)
Fixpoint record_out {A} (out : A → str) (delimiter : Z) (ending : LineEnd) (row : list A) : str :=
  match row with
  | [] => line_text ending
  | [field] => out field ++ line_text ending
  | field :: row => out field ++ delimiter :: record_out out delimiter ending row
  end.

(** A CSV value is quoted where it must be, and may be elsewhere. *)
Definition csv_quoted (format : Format) (s : str) : str :=
  quote format :: concat (map (λ c, if (c =? quote format) || (c =? escape format) then [escape format; c] else [c]) s)
    ++ [quote format].
Definition needs_quotes (format : Format) (s : str) : bool :=
  str_eqb s (null format) || existsb (λ c, is_line_end c || (c =? delimiter format) || (c =? quote format)) s.
Definition csv_out (format : Format) (field : bool * option str) : str :=
  match field with
  | (_, None) => null format
  | (force, Some s) => if force || needs_quotes format s then csv_quoted format s else s
  end.

(** ** Reading rows back *)

(** Text that can follow a row. *)
Definition no_lf (rest : str) : Prop := match rest with c :: _ => c ≠ 10 | [] => True end.
Definition can_follow (ending : LineEnd) (rest : str) : Prop := ending = Cr → no_lf rest.

Lemma line_end_read ending rest record seen :
  can_follow ending rest → (seen = None ∨ seen = Some ending) →
  ∃ c, line_text ending ++ rest = c :: tail (line_text ending) ++ rest ∧ is_line_end c = true ∧
  line_end c (tail (line_text ending) ++ rest) seen record = Ok (rest, Some ending).
Proof.
  intros Hr Hs. assert (Hd : default ending seen = ending) by (by destruct Hs as [-> | ->]).
  destruct ending; cbn; eexists; (split; [done|split; [done|]]); unfold line_end.
  - change (10 =? 13) with false. cbv iota. by rewrite Hd, bool_decide_true.
  - change (13 =? 13) with true. cbv iota. by rewrite Hd, bool_decide_true.
  - change (13 =? 13) with true. cbv iota.
    assert (match rest with 10 :: chars => (CrLf, chars) | _ => (Cr, rest) end = (Cr, rest)) as ->.
    { specialize (Hr eq_refl). destruct rest as [|c rest]; [done|]. cbn in Hr. by repeat (case_match; try done). }
    by rewrite Hd, bool_decide_true.
Qed.

(** A written row is not empty, and after a carriage return it does not read as
    one line ending with it. *)
Lemma record_out_start {A} (out : A → str) d ending row :
  row ≠ [] → d ≠ 10 → Forall (λ field, no_lf (out field)) row →
  record_out out d ending row ≠ [] ∧ can_follow ending (record_out out d ending row).
Proof.
  intros Hne Hd Hf. destruct row as [|field row]; [done|]. apply Forall_cons in Hf as [Hf _].
  destruct row; cbn [record_out]; destruct (out field); cbn in *; (split; [by destruct ending|]); intros ->; done.
Qed.

Lemma rows_length {A} (out : A → str) d ending rows :
  Forall (λ row, row ≠ []) rows → (length rows <= length (concat (map (record_out out d ending) rows)))%nat.
Proof.
  induction 1 as [|row rows Hne _ IH]; [done|]. cbn. rewrite length_app.
  enough (0 < length (record_out out d ending row))%nat by lia.
  destruct row as [|f [|g row]]; [done| |]; cbn; rewrite length_app; destruct ending; cbn; lia.
Qed.

Section RowsFrom.
Context {A : Type} (read : Z → str → option LineEnd → option (result Error (list (option str) * str * option LineEnd))).
Context (enc : A → str) (dec : A → list (option str)) (ending : LineEnd) (n : nat).

(** Reading one written row, with at most [n] characters ahead. *)
Definition reads_row (row : A) : Prop :=
  ∀ record rest seen, can_follow ending rest → (seen = None ∨ seen = Some ending) → (length (enc row ++ rest) <= n)%nat →
  read record (enc row ++ rest) seen = Some (Ok (dec row, rest, Some ending)).

Lemma rows_from_read fuel format record seen rows acc :
  Forall reads_row rows → Forall (λ row, enc row ≠ [] ∧ can_follow ending (enc row)) rows →
  0 <= record → (seen = None ∨ seen = Some ending) →
  (length (concat (map enc rows)) <= n)%nat → (length rows <= fuel)%nat →
  rows_from read fuel format record (concat (map enc rows)) seen acc =
  Some (Ok (acc ++ drop (if header format && (record =? 0) then 1 else 0) (map dec rows))).
Proof.
  revert record seen rows acc. induction fuel as [|fuel IH]; intros record seen rows acc Hread Henc Hr Hs Hn Hf.
  { destruct rows; [|cbn in Hf; lia]. cbn. by rewrite drop_nil, app_nil_r. }
  destruct rows as [|row rows]; [cbn; by rewrite drop_nil, app_nil_r|].
  apply Forall_cons in Hread as [Hrow Hread]. apply Forall_cons in Henc as [[Hne Hlf] Henc].
  cbn [map concat] in *. assert (Hrest : can_follow ending (concat (map enc rows))).
  { intros Hcr. destruct rows as [|row' rows]; [done|]. apply Forall_cons in Henc as [[Hne' Hlf'] _]. specialize (Hlf' Hcr). cbn. by destruct (enc row'). }
  cbn [rows_from]. destruct (enc row ++ concat (map enc rows)) as [|c text] eqn:Et; [by destruct (enc row)|].
  rewrite <- Et. rewrite Hrow; [|done|done|by rewrite Et].
  rewrite (IH (record + 1) (Some ending)); [|done|done|lia|by right| |cbn in Hf; lia].
  2:{ rewrite <- Et in Hn. rewrite length_app in Hn. lia. }
  replace (record + 1 =? 0) with false by lia. rewrite andb_false_r, drop_0.
  replace (record + 1 =? 1) with (record =? 0) by lia.
  destruct (header format && (record =? 0)); cbn [map drop]; [done|]. by rewrite <- app_assoc.
Qed.
End RowsFrom.

(** *** The text format *)

(** What the check of the options leaves for a delimiter of the text format. *)
Definition text_delimiter (d : Z) : Prop := is_line_end d = false ∧ contains_char d RESERVED_DELIMITERS = false.

Lemma unescape_self c chars :
  contains_char c RESERVED_DELIMITERS = false ∨ c = 92 ∨ c = 78 → unescape c chars = (encode_utf8 c, [], chars).
Proof.
  intros Hc. unfold unescape.
  assert (Hn : (c =? 98) = false ∧ (c =? 102) = false ∧ (c =? 110) = false ∧ (c =? 114) = false ∧ (c =? 116) = false ∧
    (c =? 118) = false ∧ (48 <=? c) && (c <=? 55) = false ∧ (c =? 120) = false).
  { destruct Hc as [Hc|Hc]; [|lia].
    assert (Hk : ∀ k, contains_char k RESERVED_DELIMITERS = true → c ≠ k) by (intros k Hk ->; congruence).
    assert (Forall (λ k, c ≠ k) [98; 102; 110; 114; 116; 118; 120; 48; 49; 50; 51; 52; 53; 54; 55]) as Hall
      by (repeat constructor; by apply Hk).
    rewrite !Forall_cons in Hall. lia. }
  destruct Hn as (-> & -> & -> & -> & -> & -> & -> & ->). done.
Qed.

Section TextRead.
Context (format : Format) (record : Z) (seen : option LineEnd) (fields : list (option str)).
Hypothesis delimiter_ok : text_delimiter (delimiter format).

(** Reading [text] where the field so far is [raw] and [value] adds [text] and
    [bytes] to them. *)
Definition reads (text : str) (bytes : list Z) : Prop :=
  ∀ fuel rest raw value, (length (text ++ rest) < fuel)%nat →
  ∃ fuel', (length rest < fuel')%nat ∧
  text_record fuel format record (text ++ rest) seen fields raw value =
  text_record fuel' format record rest seen fields (raw ++ text) (value ++ bytes).

Lemma reads_nil : reads [] [].
Proof. intros fuel rest raw value Hf. exists fuel. by rewrite !app_nil_r. Qed.

Lemma reads_app t1 b1 t2 b2 : reads t1 b1 → reads t2 b2 → reads (t1 ++ t2) (b1 ++ b2).
Proof.
  intros H1 H2 fuel rest raw value Hf. rewrite <- app_assoc in *.
  destruct (H1 fuel (t2 ++ rest) raw value Hf) as (f1 & Hf1 & ->).
  destruct (H2 f1 rest (raw ++ t1) (value ++ b1) Hf1) as (f2 & Hf2 & ->). exists f2. by rewrite !app_assoc.
Qed.

Lemma reads_plain c : is_line_end c = false → c ≠ delimiter format → c ≠ 92 → reads [c] (encode_utf8 c).
Proof.
  intros H1 H2 H3 fuel rest raw value Hf. destruct fuel as [|fuel]; [lia|]. exists fuel. cbn [app length] in *.
  split; [lia|]. cbn [text_record]. rewrite H1. replace (c =? delimiter format) with false by lia. by replace (c =? 92) with false by lia.
Qed.

Lemma backslash_ok : delimiter format ≠ 92.
Proof. destruct delimiter_ok as [_ H]. intros E. rewrite E in H. discriminate H. Qed.

Lemma reads_escape e bytes : (∀ chars, unescape e chars = (bytes, [], chars)) → reads [92; e] bytes.
Proof.
  intros He fuel rest raw value Hf. destruct fuel as [|fuel]; [lia|]. exists fuel. cbn [app length] in *.
  split; [lia|]. cbn [text_record]. change (is_line_end 92) with false. cbv iota.
  pose proof backslash_ok. replace (92 =? delimiter format) with false by lia. change (92 =? 92) with true. cbv iota. by rewrite He.
Qed.

Lemma reads_char c : reads (text_escape (delimiter format) c) (encode_utf8 c).
Proof.
  unfold text_escape. destruct delimiter_ok as [Hd Hr]. unfold is_line_end in Hd.
  repeat (match goal with |- context [if ?c =? ?k then [92; ?e] else _] =>
    destruct (Z.eqb_spec c k) as [->|]; [by apply reads_escape|] end).
  destruct (Z.eqb_spec c 92) as [->|]; [apply reads_escape; intros; apply unescape_self; auto|].
  destruct (Z.eqb_spec c (delimiter format)) as [->|]; cbn [orb].
  - apply reads_escape. intros. apply unescape_self. auto.
  - apply reads_plain; [unfold is_line_end; lia|done|done].
Qed.

Lemma reads_value s : reads (text_value (delimiter format) s) (utf8 s).
Proof.
  unfold text_value, utf8. induction s as [|c s IH]; [apply reads_nil|]. cbn. apply reads_app; [apply reads_char|done].
Qed.
End TextRead.

(** What the check of the options guarantees of a format, of either kind. *)
Record well_checked (format : Format) : Prop := {
  wc_delimiter : is_line_end (delimiter format) = false;
  wc_null_lines : contains_any [10; 13] (null format) = false;
  wc_null_delimiter : contains_char (delimiter format) (null format) = false;
  wc_text : kind format = Text → contains_char (delimiter format) RESERVED_DELIMITERS = false;
  wc_csv : kind format = Csv → delimiter format ≠ quote format ∧ contains_char (quote format) (null format) = false }.

Lemma checked_sound written format : checked written = Ok format → well_checked format.
Proof.
  unfold checked. set (csv := bool_decide _). set (d := default _ (w_delimiter written)). set (q := default 34 _).
  set (n := default _ (w_null written)).
  destruct (if csv then None else _) as [name|]; [done|]. destruct ((d =? 10) || _) eqn:Hd; [done|].
  destruct (contains_any _ n) eqn:Hl; [done|]. destruct (negb csv && _) eqn:Hr; [done|]. destruct (csv && (d =? q)) eqn:Hq; [done|].
  destruct (contains_char d n) eqn:Hn; [done|]. destruct (csv && contains_char q n) eqn:Hc; [done|]. intros [= <-].
  assert (Hcsv : csv = true ↔ default Text (w_kind written) = Csv) by apply bool_decide_eq_true.
  clearbody csv d q n. split; cbn [delimiter null kind quote]; [done|done|done| |]; intros Hk; rewrite Hk in Hcsv; destruct csv.
  - discriminate (proj1 Hcsv eq_refl).
  - done.
  - split; [cbn in Hq; lia|done].
  - discriminate (proj2 Hcsv eq_refl).
Qed.

Lemma Format_new_checked {Legacy} (f : CopyOption → str) g (h : Legacy → str) options legacy format :
  Format_new f g h options legacy = Ok format → well_checked format.
Proof. unfold Format_new. intros H. inv_ok. by eapply checked_sound. Qed.

(** A format the text round trip is over: a checked one, with a null string the
    escapes do not reach into. *)
Record text_format (format : Format) : Prop := {
  tf_checked : well_checked format;
  tf_kind : kind format = Text;
  tf_null : Forall (λ c, c ≠ 92) (null format) ∨ null format = lit "\N" }.

Lemma tf_delimiter format : text_format format → text_delimiter (delimiter format).
Proof. intros [[Hd _ _ Ht _] Hk _]. split; [done|by apply Ht]. Qed.

(** A field whose text is not the null string's. *)
Definition text_writable (format : Format) (field : option str) : Prop :=
  match field with
  | None => True
  | Some s => well_formed s ∧ text_value (delimiter format) s ≠ null format
  end.

Lemma contains_any_false cs s : contains_any cs s = false → Forall (λ c, char_in cs c = false) s.
Proof. apply existsb_false. Qed.

Lemma contains_char_false c s : contains_char c s = false → Forall (λ x, x ≠ c) s.
Proof. intros H. apply existsb_false in H. eapply Forall_impl; [exact H|]. cbn. lia. Qed.

Section TextRows.
Context (format : Format) (Hformat : text_format format).

Lemma reads_out record seen fields field :
  text_writable format field →
  ∃ bytes, reads format record seen fields (text_out format field) bytes ∧
  text_field (text_out format field) bytes format record = Ok field.
Proof.
  pose proof (tf_delimiter _ Hformat) as Hd. destruct Hformat as [[_ Hl Hn _ _] _ Hnull].
  destruct field as [s|]; cbn [text_out text_writable].
  - intros [Hs Hne]. exists (utf8 s). split; [by apply reads_value|]. unfold text_field.
    rewrite (proj2 (str_eqb_neq _ _) Hne). by rewrite from_utf8_utf8.
  - intros _. unfold text_field. assert (str_eqb (null format) (null format) = true) as -> by apply str_eqb_refl.
    destruct Hnull as [Hb | ->].
    + apply contains_any_false in Hl. apply contains_char_false in Hn. exists (utf8 (null format)). split; [|done].
      unfold utf8. induction (null format) as [|c s IH]; [by apply reads_nil|]. apply Forall_cons in Hl as [Hc Hl], Hn as [Hd' Hn], Hb as [Hb Hbs].
      cbn. apply (reads_app _ _ _ _ [c]); [|by apply IH]. apply reads_plain; [|done|done].
      unfold char_in in Hc. cbn in Hc. unfold is_line_end. lia.
    + exists (encode_utf8 78). split; [|done]. apply reads_escape; [done|]. intros. apply unescape_self. auto.
Qed.

Lemma text_record_read ending row fuel record rest seen fields :
  row ≠ [] → Forall (text_writable format) row → can_follow ending rest → (seen = None ∨ seen = Some ending) →
  (length (record_out (text_out format) (delimiter format) ending row ++ rest) < fuel)%nat →
  text_record fuel format record (record_out (text_out format) (delimiter format) ending row ++ rest) seen fields [] [] =
  Some (Ok (fields ++ row, rest, Some ending)).
Proof.
  intros Hne Hw Hr Hs. revert fuel fields Hne Hw. induction row as [|field row IH]; intros fuel fields Hne Hw Hf; [done|].
  apply Forall_cons in Hw as [Hfield Hw]. destruct (reads_out record seen fields field Hfield) as (bytes & Hread & Hval).
  cbn [record_out]. destruct row as [|field' row].
  - cbn [record_out] in Hf. rewrite <- app_assoc in *.
    destruct (Hread fuel (line_text ending ++ rest) [] [] Hf) as (fuel' & Hf' & ->). cbn [app].
    destruct (line_end_read ending rest record seen Hr Hs) as (c & Hc & Hend & Hline). rewrite Hc in *.
    destruct fuel' as [|fuel']; [cbn in Hf'; lia|]. cbn [text_record]. rewrite Hend, Hline. cbn. by rewrite Hval.
  - cbn [record_out] in Hf. set (tail := record_out _ _ ending (field' :: row)) in *. rewrite <- app_assoc in *.
    destruct (Hread fuel ((delimiter format :: tail) ++ rest) [] [] Hf) as (fuel' & Hf' & ->). cbn [app] in *.
    destruct fuel' as [|fuel']; [lia|]. cbn [text_record]. destruct (tf_delimiter _ Hformat) as [Hd0 _]. rewrite Hd0, Z.eqb_refl, Hval.
    cbn [length] in Hf'. rewrite IH; [by rewrite <- app_assoc|done|done|lia].
Qed.

Lemma text_out_no_lf field : no_lf (text_out format field).
Proof.
  destruct Hformat as [[Hd Hl _ _ _] _ _]. destruct field as [s|]; cbn [text_out].
  - destruct s as [|c s]; [done|]. unfold text_value. cbn. unfold text_escape. unfold is_line_end in Hd.
    repeat (match goal with |- context [if ?b then _ else _] => destruct b eqn:? end; cbn; try done). lia.
  - apply contains_any_false in Hl. destruct Hl as [|c s Hc _]; [done|]. cbn in *. lia.
Qed.
End TextRows.

(** The text format reads back.  The rows [COPY ... TO] writes in the text
    format, with any delimiter and null string the options check accepts, any of
    the three line endings and a header or not, are the rows the payload decodes
    to, values and nulls, whatever characters the values hold. *)
Lemma text_rows_round_trip format ending rows :
  text_format format → Forall (λ row, row ≠ [] ∧ Forall (text_writable format) row) rows →
  text_rows (concat (map (record_out (text_out format) (delimiter format) ending) rows)) format =
  Some (Ok (drop (if header format then 1 else 0) rows)).
Proof.
  intros Hf Hrows. unfold text_rows.
  set (data := concat (map _ rows)).
  assert (Hd : delimiter format ≠ 10).
  { destruct (tf_delimiter _ Hf) as [H _]. unfold is_line_end in H. lia. }
  unfold data at 3.
  rewrite (rows_from_read _ _ (λ row, row) ending (length data)); cbn [app].
  - by rewrite map_id, andb_true_r.
  - eapply Forall_impl; [exact Hrows|]. intros row [Hne Hw] record rest seen Hr Hs Hl. apply text_record_read; [done..|]. lia.
  - eapply Forall_impl; [exact Hrows|]. intros row [Hne Hw]. apply record_out_start; [done|done|].
    apply Forall_forall. intros field _. by apply text_out_no_lf.
  - done.
  - by left.
  - done.
  - unfold data. apply rows_length. eapply Forall_impl; [exact Hrows|]. by intros row [Hne _].
Qed.

(** *** The CSV format *)

(** A checked CSV format, with a quote that does not end a line. *)
Record csv_format (format : Format) : Prop := {
  cf_checked : well_checked format;
  cf_kind : kind format = Csv;
  cf_quote : is_line_end (quote format) = false }.

Lemma cf_facts format : csv_format format →
  is_line_end (delimiter format) = false ∧ is_line_end (quote format) = false ∧ delimiter format ≠ quote format ∧
  contains_any [10; 13] (null format) = false ∧ contains_char (delimiter format) (null format) = false ∧
  contains_char (quote format) (null format) = false.
Proof. intros [[Hd Hl Hn _ Hc] Hk Hq]. destruct (Hc Hk). done. Qed.

(** What a written field reads back as: itself, but for the columns the options
    force either way. *)
Definition csv_back (format : Format) (force_null force_not_null : list nat) (position : nat) (field : bool * option str)
    : option str :=
  match field with
  | (_, None) => if bool_decide (position ∈ force_not_null) then Some (null format) else None
  | (force, Some s) =>
      if (force || needs_quotes format s) && str_eqb s (null format) && bool_decide (position ∈ force_null) then None else Some s
  end.

Lemma csv_back_unforced format position field : csv_back format [] [] position field = snd field.
Proof. destruct field as [force [s|]]; cbn; [|done]. by rewrite andb_false_r. Qed.

Section CsvRead.
Context (format : Format) (Hformat : csv_format format).
Context (force_null force_not_null : list nat).
Let field := csv_field format force_null force_not_null.

Lemma csv_plain record s rest seen fields value quoted :
  Forall (λ c, is_line_end c || (c =? delimiter format) || (c =? quote format) = false) s →
  csv_record format field record (s ++ rest) seen fields value quoted false =
  csv_record format field record rest seen fields (value ++ s) quoted false.
Proof.
  intros Hs. revert value. induction Hs as [|c s Hc Hs IH]; intros value; [by rewrite app_nil_r|]. cbn [app csv_record].
  apply orb_false_iff in Hc as [Hc Hq]. apply orb_false_iff in Hc as [Hl Hd]. rewrite Hl, Hd, Hq, IH. by rewrite <- app_assoc.
Qed.

(** What can follow a quoted value. *)
Definition closes (rest : str) : Prop := match rest with c :: _ => c ≠ quote format | [] => True end.

Lemma csv_quotes record s rest seen fields value quoted :
  closes rest →
  csv_record format field record
    (concat (map (λ c, if (c =? quote format) || (c =? escape format) then [escape format; c] else [c]) s) ++ quote format :: rest)
    seen fields value quoted true =
  csv_record format field record rest seen fields (value ++ s) quoted false.
Proof.
  intros Hrest. revert value. induction s as [|c s IH]; intros value; cbn [map concat app].
  - rewrite app_nil_r. cbn [csv_record].
    replace ((quote format =? escape format) &&
      match rest with after :: _ => (after =? quote format) || (after =? escape format) | [] => false end) with false.
    { by rewrite Z.eqb_refl. }
    symmetry. destruct (Z.eqb_spec (quote format) (escape format)) as [<-|]; [|done]. cbn.
    destruct rest as [|c rest]; [done|]. cbn in Hrest. lia.
  - replace (value ++ c :: s) with ((value ++ [c]) ++ s) by by rewrite <- app_assoc. rewrite <- IH.
    destruct ((c =? quote format) || (c =? escape format)) eqn:Ec; cbn [app csv_record].
    + by rewrite Z.eqb_refl, Ec.
    + apply orb_false_iff in Ec as [Hq He]. by rewrite He, Hq.
Qed.

Lemma closes_app rest c text : c ≠ quote format → closes (c :: text ++ rest).
Proof. done. Qed.

(** One written field, up to what follows it. *)
Lemma csv_out_read record p rest seen fields :
  closes rest →
  ∃ value quoted,
  csv_record format field record (csv_out format p ++ rest) seen fields [] false false =
  csv_record format field record rest seen fields value quoted false ∧
  field value quoted (length fields) = csv_back format force_null force_not_null (length fields) p.
Proof.
  intros Hrest. destruct (cf_facts _ Hformat) as (Hd & Hq & Hne & Hl & Hnd & Hnq). unfold field, csv_field. destruct p as [force [s|]]; cbn [csv_out csv_back].
  - destruct (force || needs_quotes format s) eqn:E.
    + exists s, true. split; [|by cbn]. unfold csv_quoted. cbn [app csv_record].
      rewrite Hq. replace (quote format =? delimiter format) with false by lia. rewrite Z.eqb_refl.
      rewrite <- app_assoc. cbn [app]. by rewrite csv_quotes.
    + apply orb_false_iff in E as [_ E]. unfold needs_quotes in E. apply orb_false_iff in E as [En E].
      exists s, false. split; [by rewrite csv_plain by by apply existsb_false|]. by rewrite En.
  - exists (null format), false. rewrite csv_plain.
    + split; [done|]. rewrite str_eqb_refl. cbn. by case_bool_decide.
    + apply contains_any_false in Hl. apply contains_char_false in Hnd, Hnq.
      apply Forall_forall. intros c Hc. rewrite Forall_forall in Hl, Hnd, Hnq.
      specialize (Hl c Hc). specialize (Hnd c Hc). specialize (Hnq c Hc). unfold char_in in Hl. cbn in Hl. unfold is_line_end. lia.
Qed.

Lemma csv_record_read ending row record rest seen fields :
  row ≠ [] → can_follow ending rest → (seen = None ∨ seen = Some ending) →
  csv_record format field record (record_out (csv_out format) (delimiter format) ending row ++ rest) seen fields [] false false =
  Ok (fields ++ imap (λ i, csv_back format force_null force_not_null (length fields + i)) row, rest, Some ending).
Proof.
  intros Hne Hr Hs. revert fields Hne. induction row as [|p row IH]; intros fields Hne; [done|].
  destruct (cf_facts _ Hformat) as (Hd & Hq & Hdq & _). cbn [record_out]. destruct row as [|p' row].
  - rewrite <- app_assoc. destruct (line_end_read ending rest record seen Hr Hs) as (c & Hc & Hend & Hline).
    destruct (csv_out_read record p (line_text ending ++ rest) seen fields) as (value & quoted & -> & Hf).
    { rewrite Hc. intros ->. congruence. }
    rewrite Hc. cbn [csv_record]. rewrite Hend, Hline. cbn. by rewrite Hf, Nat.add_0_r.
  - set (text := record_out _ _ ending (p' :: row)) in *. rewrite <- app_assoc. cbn [app].
    destruct (csv_out_read record p (delimiter format :: text ++ rest) seen fields) as (value & quoted & -> & Hf); [done|].
    cbn [csv_record]. rewrite Hd, Z.eqb_refl, Hf. rewrite IH by done. rewrite <- app_assoc, length_app. cbn [app length].
    generalize (p' :: row). intros l. rewrite imap_cons, Nat.add_0_r. do 3 f_equal. f_equal. f_equal.
    apply imap_ext. intros i x _. cbn. f_equal. lia.
Qed.

Lemma csv_out_no_lf p : no_lf (csv_out format p).
Proof.
  destruct (cf_facts _ Hformat) as (Hd & Hq & _ & Hl & _). unfold is_line_end in *. destruct p as [force [s|]]; cbn.
  - destruct (force || needs_quotes format s) eqn:E; [cbn; lia|]. destruct s as [|c s]; [done|]. cbn.
    apply orb_false_iff in E as [_ E]. unfold needs_quotes in E. cbn in E. unfold is_line_end in E. lia.
  - apply contains_any_false in Hl. destruct Hl as [|c s Hc _]; [done|]. unfold char_in in Hc. cbn in *. lia.
Qed.
End CsvRead.

(** The CSV format reads back.  The rows [COPY ... TO] writes in the CSV
    format, quoting at least what it must, are the rows the payload decodes to,
    for any delimiter, quote, escape and null string the options check accepts and
    any of the three line endings; only the columns [FORCE_NULL] and
    [FORCE_NOT_NULL] name read back differently, as [csv_back] says, and without
    them every value and null reads back as itself. *)
Lemma csv_rows_round_trip ident_to_string format columns force_null force_not_null ending rows :
  csv_format format → Forall (λ row, row ≠ []) rows →
  positions ident_to_string (Copy.force_null format) columns "FORCE_NULL" = Ok force_null →
  positions ident_to_string (Copy.force_not_null format) columns "FORCE_NOT_NULL" = Ok force_not_null →
  csv_rows ident_to_string (concat (map (record_out (csv_out format) (delimiter format) ending) rows)) format columns =
  Some (Ok (drop (if header format then 1 else 0) (map (imap (csv_back format force_null force_not_null)) rows))) ∧
  (force_null = [] → force_not_null = [] → map (imap (csv_back format force_null force_not_null)) rows = map (map snd) rows).
Proof.
  intros Hf Hrows Hfn Hfnn. split.
  - unfold csv_rows. rewrite Hfn, Hfnn. set (data := concat (map _ rows)). unfold data at 2.
    rewrite (rows_from_read _ _ (imap (csv_back format force_null force_not_null)) ending (length data)); cbn [app].
    + by rewrite andb_true_r.
    + eapply Forall_impl; [exact Hrows|]. intros row Hne record rest seen Hr Hs _. cbn beta. f_equal. by apply csv_record_read.
    + eapply Forall_impl; [exact Hrows|]. intros row Hne. apply record_out_start; [done| |].
      * destruct (cf_facts _ Hf) as [H _]. unfold is_line_end in H. lia.
      * apply Forall_forall. intros field _. by apply csv_out_no_lf.
    + done.
    + by left.
    + done.
    + unfold data. clear -Hrows. by apply rows_length.
  - intros -> ->. apply map_ext. intros row. rewrite <- imap_const. apply imap_ext. intros i x _. apply csv_back_unforced.
Qed.

(** ** The statement, end to end *)

Section StatementTheorems.
Context {Payload Schema Tbl Legacy : Type} `{Library Payload Schema Tbl} `{!Copying Payload Schema Tbl Legacy}.
Implicit Types (copy : Copy Payload Legacy) (schema : Schema).

(** Loading a table written by [COPY ... TO] with the same options, as one
    [INSERT] of the rows that were written. *)
Definition loads copy (table_name : ObjectName Payload) (columns : list Ident) (format : Format) (text : str) : Prop :=
  source copy = SourceTable table_name columns ∧ columns ≠ [] ∧ to copy = false ∧ target copy = Stdin ∧
  payload copy = Some {| terminated := true; data := text |} ∧
  Format_new option_to_string csv_option_to_string legacy_option_to_string (options copy) (legacy_options copy) = Ok format.

Lemma misfit_none width rows row : Forall (λ fields, length fields = width) rows ↔ misfit row width rows = None.
Proof.
  revert row. induction rows as [|fields rows IH]; intros row; [done|]. cbn. rewrite Forall_cons, (IH (row + 1)).
  destruct (Nat.eqb_spec (length fields) width); [tauto|]. split; [|done]. tauto.
Qed.

Lemma translate_loads copy table_name columns format text schema rows :
  loads copy table_name columns format text → decode_rows format columns text = Some (Ok rows) →
  translate_copy copy schema = Some (write_rows table_name columns rows schema).
Proof.
  intros (Hs & Hne & Ht & Htg & Hp & Hf) Hd. unfold translate_copy. rewrite Hs, Ht, Htg, Hp, Hf. cbn.
  by destruct columns; [done|]; rewrite Hd.
Qed.

Lemma write_rows_full table_name columns rows schema :
  Forall (λ row, length row = length columns) rows → rows ≠ [] →
  write_rows table_name columns rows schema =
  (translated ← translate_insert (insert_rows table_name columns rows) schema;
   translated ← redirect table_name schema translated;
   Ok [SInsert (ti_table translated) (ti_on translated) (ti_rest translated)]).
Proof. intros Hw Hne. unfold write_rows. rewrite (proj1 (misfit_none _ _ _) Hw). by destruct rows. Qed.

(** C4 (loading what was exported).  A payload that [COPY ... TO] wrote from some
    rows, in the text or the CSV format, becomes the one translated [INSERT] of
    exactly these rows into the columns the statement names, each value a string
    literal and each null a NULL, redirected to the backing table of a secured
    table, and no statement when there are no rows. *)
Theorem copy_loads_exported copy table_name columns format text schema ending rows :
  loads copy table_name columns format text →
  Forall (λ row, length row = length columns) rows →
  (text_format format ∧ Forall (Forall (text_writable format)) rows ∧
   text = concat (map (record_out (text_out format) (delimiter format) ending) rows)) ∨
  (csv_format format ∧ force_null format = [] ∧ force_not_null format = [] ∧
   ∃ force, text = concat (map (λ row, record_out (csv_out format) (delimiter format) ending (map (λ field, (force field, field)) row)) rows)) →
  translate_copy copy schema = Some (match drop (if header format then 1 else 0) rows with
    | [] => Ok []
    | rows =>
        translated ← translate_insert (insert_rows table_name columns rows) schema;
        translated ← redirect table_name schema translated;
        Ok [SInsert (ti_table translated) (ti_on translated) (ti_rest translated)]
    end).
Proof.
  intros Hl Hw Htext. assert (Hcols : columns ≠ []) by by destruct Hl as (_ & ? & _).
  assert (Hne : Forall (λ row, row ≠ []) rows).
  { eapply Forall_impl; [exact Hw|]. cbn. intros row Hr ->. by destruct columns. }
  rewrite (translate_loads _ _ _ _ _ _ (drop (if header format then 1 else 0) rows) Hl).
  - f_equal. destruct (drop _ rows) as [|row rest] eqn:E; [done|]. rewrite <- E, write_rows_full; [by rewrite E| |by rewrite E].
    by apply Forall_drop.
  - unfold decode_rows. destruct Htext as [(Hf & Hwr & ->)|(Hf & Hn & Hnn & force & ->)].
    + rewrite (tf_kind _ Hf). apply text_rows_round_trip; [done|]. rewrite Forall_forall in *. intros row Hin. auto.
    + rewrite (cf_kind _ Hf).
      destruct (csv_rows_round_trip ident_to_string format columns [] [] ending (map (map (λ field, (force field, field))) rows)) as [Hc Hid];
        [done| |by rewrite Hn|by rewrite Hnn|].
      * rewrite Forall_map. eapply Forall_impl; [exact Hne|]. intros row Hr. by destruct row.
      * rewrite map_map in Hc. rewrite Hc, Hid by done. rewrite map_map. do 3 f_equal. rewrite <- (map_id rows) at 2.
        apply map_ext. intros row. rewrite map_map. by apply map_id.
Qed.
End StatementTheorems.

Lemma text_rows_total data format : is_Some (text_rows data format).
Proof. unfold text_rows. apply (rows_from_total _ (length data)); [|done|done]. intros. apply text_record_total. lia. Qed.

Lemma csv_rows_total ident_to_string data format columns : is_Some (csv_rows ident_to_string data format columns).
Proof.
  unfold csv_rows. destruct (positions _ _ _ _); [|by eexists]. destruct (positions _ _ _ _); [|by eexists].
  apply (rows_from_total _ (length data)); [|done|done]. intros. eexists. split; [done|]. apply csv_record_takes.
Qed.

Section Answers.
Context {Payload Schema Tbl Legacy : Type} `{Library Payload Schema Tbl} `{!Copying Payload Schema Tbl Legacy}.
Implicit Types (copy : Copy Payload Legacy) (schema : Schema).

(** The rows of an accepted statement: what it names, decoded, with a field per
    column in every row. *)
Definition accepted_rows copy schema (table_name : ObjectName Payload) (columns : list Ident) (rows : Rows) : Prop :=
  ∃ cols text format,
  source copy = SourceTable table_name cols ∧ payload copy = Some {| terminated := true; data := text |} ∧
  Format_new option_to_string csv_option_to_string legacy_option_to_string (options copy) (legacy_options copy) = Ok format ∧
  (match cols with [] => table_columns table_name schema | _ => Ok cols end) = Ok columns ∧
  decode_rows format columns text = Some (Ok rows) ∧ Forall (λ row, length row = length columns) rows.

(** C40 (every COPY is answered).  A [COPY] always gets an answer, whatever its
    payload.  It is accepted only when it reads a terminated payload into a table,
    every decoded row has a field per column, and then nothing is emitted but one
    translated [INSERT] of these rows, or nothing when there are none; a row of
    another width refuses the whole statement. *)
Theorem translate_copy_answers copy schema :
  ∃ r, translate_copy copy schema = Some r ∧
  ∀ statements, r = Ok statements →
    to copy = false ∧ target copy = Stdin ∧
    ∃ table_name columns rows, accepted_rows copy schema table_name columns rows ∧
    if decide (rows = []) then statements = []
    else ∃ translated redirected, translate_insert (insert_rows table_name columns rows) schema = Ok translated ∧
         redirect table_name schema translated = Ok redirected ∧
         statements = [SInsert (ti_table redirected) (ti_on redirected) (ti_rest redirected)].
Proof.
  unfold translate_copy. destruct (source copy) as [table_name cols|q] eqn:Hs; [|by eexists].
  destruct (to copy) eqn:Hto; [by eexists|]. destruct (target copy) eqn:Htg; [|by eexists]. cbn [orb].
  destruct (payload copy) as [[[] text]|] eqn:Hp; [|by eexists|by eexists].
  destruct (Format_new _ _ _ _ _) as [format|e] eqn:Hf; [|by eexists].
  destruct (match cols with [] => _ | _ => _ end) as [columns|e] eqn:Hc; [|by eexists].
  assert (is_Some (decode_rows format columns text)) as [r Hr].
  { unfold decode_rows. destruct (kind format); [apply text_rows_total|apply csv_rows_total]. }
  rewrite Hr. destruct r as [rows|e]; [|by eexists]. eexists. split; [done|]. intros statements Hw. split_and!; [done|done|].
  exists table_name, columns, rows. unfold write_rows in Hw. destruct (misfit 1 _ rows) as [[row n]|] eqn:Hm; [done|].
  apply misfit_none in Hm. split; [by exists cols, text, format|].
  destruct rows as [|row rows]; [rewrite decide_True by done; by injection Hw as <-|]. rewrite decide_False by done.
  apply bind_Ok in Hw as (translated & Ht & Hw). apply bind_Ok in Hw as (redirected & Hrd & Hw). exists translated, redirected.
  by injection Hw as <-.
Qed.
End Answers.

(** ** Closed instances *)

Section Demo.
#[local] Instance demo_library : Library unit unit unit := {|
  name_to_string := λ name, join (lit ".") (map (λ p, default [] (value <$> as_ident p)) name);
  ident_to_string := value;
  identifiers_match := λ a _ b _, str_eqb a b;
  resolve_schema_ident := λ _ _, true;
  resolve_table_object_name := λ _ _, Ok (Some tt);
  has_row_level_security := λ _ _, Ok true
|}.
#[local] Instance demo_copying : Copying unit unit unit unit := {|
  option_to_string := λ _, []; csv_option_to_string := λ _, []; legacy_option_to_string := λ _, [];
  resolve_on_search_path := λ _ _, Ok None;
  table_by_target := λ _ _ _, Ok (Some tt);
  columns_of := λ _ _, Ok [{| column_name := lit "id"; column_name_is_quoted := false; column_options := [] |};
                           {| column_name := lit "twice"; column_name_is_quoted := false; column_options := [Generated (Some tt)] |};
                           {| column_name := lit "My Note"; column_name_is_quoted := true; column_options := [] |}];
  rls_table_suffix := lit "_rls";
  translate_insert := λ insert _, Ok {| ti_table := TableName (table insert); ti_on := None; ti_rest := tt |}
|}.

Definition notes : ObjectName unit := [Identifier (Ident_new (lit "notes"))].
Definition demo_columns : list Ident := [Ident_new (lit "id"); Ident_new (lit "note")].
(** A value with a tab and a backslash, a null, an empty value and a letter of two bytes. *)
Definition demo_rows : Rows := [[Some [97; 9; 92; 98]; None]; [Some []; Some [233]]].
Definition demo_format : Format :=
  {| kind := Text; delimiter := 9; null := lit "\N"; header := false; quote := 34; escape := 34; force_null := []; force_not_null := [] |}.
Definition demo_text : str := concat (map (record_out (text_out demo_format) 9 CrLf) demo_rows).
Definition demo_copy : Copy unit unit :=
  {| source := SourceTable notes demo_columns; to := false; target := Stdin; options := []; legacy_options := [];
     payload := Some {| terminated := true; data := demo_text |} |}.

Example demo_text_written : demo_text =
  [97; 92; 116; 92; 92; 98; 9; 92; 78; 13; 10; 9; 233; 13; 10].
Proof. reflexivity. Qed.

Lemma demo_loads : loads demo_copy notes demo_columns demo_format demo_text.
Proof. repeat split; done. Qed.

Lemma demo_text_format : text_format demo_format.
Proof. split; [split; [done|done|done|done|done]|done|by right]. Qed.

Lemma copy_loads_exported_witness :
  loads demo_copy notes demo_columns demo_format demo_text ∧
  translate_copy demo_copy tt = Some (match drop (if header demo_format then 1 else 0) demo_rows with
    | [] => Ok []
    | rows =>
        translated ← translate_insert (insert_rows notes demo_columns rows) tt;
        translated ← redirect notes tt translated;
        Ok [SInsert (ti_table translated) (ti_on translated) (ti_rest translated)]
    end).
Proof.
  assert (Hw : Forall (λ row, length row = length demo_columns) demo_rows) by (repeat constructor).
  assert (Ht : Forall (Forall (text_writable demo_format)) demo_rows).
  { repeat (apply Forall_cons; split); try apply Forall_nil; try done;
      (split; [repeat (apply Forall_cons; split); try apply Forall_nil; done | vm_compute; congruence]). }
  split; [exact demo_loads|].
  apply (copy_loads_exported demo_copy notes demo_columns demo_format demo_text tt CrLf demo_rows demo_loads Hw).
  left. split; [exact demo_text_format|]. split; [exact Ht|reflexivity].
Defined.

(** Without a column list, every column but the generated one is written; a
    secured table sends the rows to its backing table. *)
Example default_columns : table_columns notes tt = Ok [Ident_new (lit "id"); Ident_with_quote 34 (lit "My Note")].
Proof. reflexivity. Qed.

Example secured_rows : translate_copy demo_copy tt =
  Some (Ok [SInsert (TableName [Identifier (Ident_new (lit "notes_rls"))]) None tt]).
Proof. vm_compute. reflexivity. Qed.

(** The backing table of a quoted name is written without its quotes. *)
Example backing_name_unquoted :
  backing_table_name [Identifier (Ident_with_quote 34 (lit "My Notes"))] = [Identifier (Ident_new (lit "My Notes_rls"))].
Proof. reflexivity. Qed.

(** A CSV row with a quoted line break, a doubled quote and a quoted null string. *)
Example csv_row :
  csv_rows value (lit "x,,'a" ++ [10] ++ lit "''b',''" ++ [10])
    {| kind := Csv; delimiter := 44; null := []; header := false; quote := 39; escape := 39; force_null := []; force_not_null := [] |} [] =
  Some (Ok [[Some (lit "x"); None; Some (lit "a" ++ [10] ++ lit "'b"); Some []]]).
Proof. vm_compute. reflexivity. Qed.

(** Octal and hexadecimal escapes name bytes, not characters. *)
Example escapes : text_rows (lit "\101\x42\303\251\q" ++ [10]) demo_format = Some (Ok [[Some [65; 66; 233; 113]]]).
Proof. vm_compute. reflexivity. Qed.

Example not_utf8 : text_rows (lit "\xff" ++ [10]) demo_format =
  Some (Err (malformed 1 "decodes to bytes that are not valid UTF-8")).
Proof. vm_compute. reflexivity. Qed.

Example mixed_line_ends : text_rows ([97; 10; 98; 13; 10]) demo_format =
  Some (Err (malformed 2 "ends with a different line ending than the first row")).
Proof. vm_compute. reflexivity. Qed.
End Demo.
End Copy.
